(** * Mid-tier register allocator: a shallow embedding and its properties

    This development embeds the data model and the operations of
    [src/compiler/backend/mid-tier-register-allocator.cc] as Rocq
    functions and proves properties of them.

    Conventions of the embedding:
    - a C++ [int] is a [Z]; instruction indices, virtual registers, rpo
      numbers and register indices stay far below [kMaxInt], so no
      arithmetic here can overflow;
    - a [uintptr_t] register bitmap is a [Z] handled with [Z.lor],
      [Z.land], [Z.shiftl] and [Z.testbit];
    - every [InstructionOperand] lives in one arena, a list indexed by its
      address; an [InstructionOperand*] is an address and [nullptr] is
      [None];
    - a call that would read or write outside a vector, dereference
      [nullptr] or shift by a negative amount has no defined behaviour in
      C++; the embedding returns [None] there.  [DCHECK]s are debug-only
      and are not part of the embedded behaviour. *)

From Stdlib Require Import ZArith List Bool Lia Permutation Sorted.
From stdpp Require Import base option list.

Local Open Scope Z_scope.

(** ** Collaborators that are declared outside this translation unit *)

(** Modelled from the spec: the machine types, the frame and the helpers
    [IsFloatingPoint], [ByteWidthForStackSlot], [IsReference] and
    [InstructionSequence::DefaultRepresentation] are declared in headers
    that are not part of the sources at hand; they are kept abstract. *)
Class Platform := {
  MachineRepresentation : Type;
  DefaultRepresentation : MachineRepresentation;
  IsFloatingPoint : MachineRepresentation -> bool;
  IsReferenceRep : MachineRepresentation -> bool;
  ByteWidthForStackSlot : MachineRepresentation -> Z;
  Frame : Type;
  Frame_AllocateSpillSlot : Frame -> Z -> Frame * Z
}.

Definition kMaxInt : Z := 2147483647.
Definition kInvalidVirtualRegister : Z := -1.

(** ** Vectors indexed by an [int] *)

Definition at_index {A} (l : list A) (i : Z) : option A :=
  if i <? 0 then None else l !! Z.to_nat i.

Definition set_index {A} (l : list A) (i : Z) (x : A) : option (list A) :=
  if (0 <=? i) && (i <? Z.of_nat (length l))
  then Some (<[Z.to_nat i := x]> l) else None.

(** ** Range *)

Record Range := mkRange { start_ : Z; end_ : Z }.

Definition Range_default : Range := mkRange kMaxInt 0.

Definition AddInstr (r : Range) (index : Z) : Range :=
  mkRange (Z.min (start_ r) index) (Z.max (end_ r) index).

Definition AddRange (r other : Range) : Range :=
  mkRange (Z.min (start_ r) (start_ other)) (Z.max (end_ r) (end_ other)).

Definition Contains (r : Range) (index : Z) : bool :=
  (index >=? start_ r) && (index <=? end_ r).

(** ** BitVector *)

(** Modelled from the spec: [BitVector] (src/utils/bit-vector.h) is a
    fixed-length bitset; bit [i] is the [i]-th element of the list. *)
Definition BitVector := list bool.

Definition BitVector_new (length : Z) : BitVector :=
  replicate (Z.to_nat length) false.

Definition BitVector_Add (bv : BitVector) (i : Z) : option BitVector :=
  set_index bv i true.

Definition BitVector_Contains (bv : BitVector) (i : Z) : bool :=
  match at_index bv i with Some b => b | None => false end.

Definition BitVector_Union (bv other : BitVector) : option BitVector :=
  if Nat.eqb (length bv) (length other)
  then Some (zip_with orb bv other) else None.

(** [BitVector::Iterator]: the set bits in ascending order. *)
Fixpoint BitVector_elements_from (i : Z) (bv : list bool) : list Z :=
  match bv with
  | [] => []
  | b :: bv' =>
      (if b then [i] else []) ++ BitVector_elements_from (i + 1) bv'
  end.

Definition BitVector_elements (bv : BitVector) : list Z :=
  BitVector_elements_from 0 bv.

Section Allocator.
Context `{Platform}.

(** ** Operands *)

Inductive LocationKind := REGISTER | STACK_SLOT.

(** Modelled from the spec: the operand taxonomy of instruction.h. *)
Inductive Policy :=
| REGISTER_OR_SLOT
| REGISTER_OR_SLOT_OR_CONSTANT
| MUST_HAVE_REGISTER
| MUST_HAVE_SLOT
| FIXED_SLOT (index : Z)
| FIXED_REGISTER (index : Z)
| FIXED_FP_REGISTER (index : Z)
| SAME_AS_INPUT.

Record UnallocatedOperand := mkUnallocated {
  policy : Policy;
  used_at_start : bool;
  uo_virtual_register : Z
}.

Inductive InstructionOperand :=
| InvalidOperand
| Unallocated (u : UnallocatedOperand)
| Constant (virtual_register : Z)
| Pending (next : option nat)
| Allocated (kind : LocationKind) (rep : MachineRepresentation) (index : Z).

Definition IsPending (op : InstructionOperand) : bool :=
  match op with Pending _ => true | _ => false end.
Definition IsAllocated (op : InstructionOperand) : bool :=
  match op with Allocated _ _ _ => true | _ => false end.
Definition IsConstant (op : InstructionOperand) : bool :=
  match op with Constant _ => true | _ => false end.
Definition IsUnallocated (op : InstructionOperand) : bool :=
  match op with Unallocated _ => true | _ => false end.

(** [PendingOperand::next] of the operand stored at an address. *)
Definition Pending_next (op : InstructionOperand) : option (option nat) :=
  match op with Pending n => Some n | _ => None end.

(** ** Instruction sequence *)

Inductive GapPosition := START | END.

#[global] Instance GapPosition_eq_dec : EqDecision GapPosition.
Proof. solve_decision. Defined.

Record MoveOperands := mkMove { source : nat; destination : nat }.

Record Instruction := mkInstruction {
  outputs : list nat;
  inputs : list nat;
  temps : list nat;
  moves_START : list MoveOperands;
  moves_END : list MoveOperands;
  HasReferenceMap : bool;
  reference_map : list InstructionOperand;
  ClobbersRegisters : bool;
  ClobbersDoubleRegisters : bool;
  block : Z
}.

Record PhiInstruction := mkPhi { phi_virtual_register : Z }.

Record InstructionBlock := mkBlock {
  rpo_number : Z;
  first_instruction_index : Z;
  last_instruction_index : Z;
  successors : list Z;
  predecessors : list Z;
  dominator : Z;
  IsLoopHeader : bool;
  loop_end : Z;
  phis : list PhiInstruction
}.

Record InstructionSequence := mkCode {
  instructions : list Instruction;
  instruction_blocks : list InstructionBlock;
  representations : list MachineRepresentation
}.

(** ** Virtual register data *)

Record SpillRange := mkSpillRange {
  live_range : Range;
  live_blocks : Z
}.

Record VirtualRegisterData := mkVreg {
  spill_operand_ : option nat;
  spill_range_ : option SpillRange;
  output_instr_index : Z;
  vreg : Z;
  is_phi : bool;
  is_constant : bool
}.

Record MidTierRegisterAllocationData := mkData {
  code : InstructionSequence;
  operands : list InstructionOperand;
  virtual_register_data_ : list VirtualRegisterData;
  block_states_ : list BitVector;
  reference_map_instructions : list Z;
  spilled_virtual_registers : BitVector;
  frame : Frame
}.


(** Field updates. *)

Definition set_operands (data : MidTierRegisterAllocationData)
    (ops : list InstructionOperand) : MidTierRegisterAllocationData :=
  mkData (code data) ops (virtual_register_data_ data) (block_states_ data)
    (reference_map_instructions data) (spilled_virtual_registers data)
    (frame data).

Definition set_virtual_register_data (data : MidTierRegisterAllocationData)
    (vs : list VirtualRegisterData) : MidTierRegisterAllocationData :=
  mkData (code data) (operands data) vs (block_states_ data)
    (reference_map_instructions data) (spilled_virtual_registers data)
    (frame data).

Definition set_block_states (data : MidTierRegisterAllocationData)
    (bs : list BitVector) : MidTierRegisterAllocationData :=
  mkData (code data) (operands data) (virtual_register_data_ data) bs
    (reference_map_instructions data) (spilled_virtual_registers data)
    (frame data).

Definition set_reference_map_instructions
    (data : MidTierRegisterAllocationData) (l : list Z)
    : MidTierRegisterAllocationData :=
  mkData (code data) (operands data) (virtual_register_data_ data)
    (block_states_ data) l (spilled_virtual_registers data) (frame data).

Definition set_spilled_virtual_registers
    (data : MidTierRegisterAllocationData) (bv : BitVector)
    : MidTierRegisterAllocationData :=
  mkData (code data) (operands data) (virtual_register_data_ data)
    (block_states_ data) (reference_map_instructions data) bv (frame data).

Definition set_frame (data : MidTierRegisterAllocationData) (f : Frame)
    : MidTierRegisterAllocationData :=
  mkData (code data) (operands data) (virtual_register_data_ data)
    (block_states_ data) (reference_map_instructions data)
    (spilled_virtual_registers data) f.

Definition set_instructions (data : MidTierRegisterAllocationData)
    (instrs : list Instruction) : MidTierRegisterAllocationData :=
  mkData (mkCode instrs (instruction_blocks (code data))
            (representations (code data)))
    (operands data) (virtual_register_data_ data) (block_states_ data)
    (reference_map_instructions data) (spilled_virtual_registers data)
    (frame data).

Definition set_spill_operand (vd : VirtualRegisterData) (p : option nat)
    : VirtualRegisterData :=
  mkVreg p (spill_range_ vd) (output_instr_index vd) (vreg vd) (is_phi vd)
    (is_constant vd).

Definition set_spill_range (vd : VirtualRegisterData)
    (sr : option SpillRange) : VirtualRegisterData :=
  mkVreg (spill_operand_ vd) sr (output_instr_index vd) (vreg vd) (is_phi vd)
    (is_constant vd).

Definition GetParallelMove (instr : Instruction) (pos : GapPosition)
    : list MoveOperands :=
  match pos with START => moves_START instr | END => moves_END instr end.

Definition push_move (instr : Instruction) (pos : GapPosition)
    (mv : MoveOperands) : Instruction :=
  match pos with
  | START =>
      mkInstruction (outputs instr) (inputs instr) (temps instr)
        (moves_START instr ++ [mv]) (moves_END instr) (HasReferenceMap instr)
        (reference_map instr) (ClobbersRegisters instr)
        (ClobbersDoubleRegisters instr) (block instr)
  | END =>
      mkInstruction (outputs instr) (inputs instr) (temps instr)
        (moves_START instr) (moves_END instr ++ [mv]) (HasReferenceMap instr)
        (reference_map instr) (ClobbersRegisters instr)
        (ClobbersDoubleRegisters instr) (block instr)
  end.

(** Modelled from the spec: [ReferenceMap::RecordReference] appends the
    operand to the instruction's reference map. *)
Definition RecordReference (instr : Instruction) (op : InstructionOperand)
    : Instruction :=
  mkInstruction (outputs instr) (inputs instr) (temps instr)
    (moves_START instr) (moves_END instr) (HasReferenceMap instr)
    (reference_map instr ++ [op]) (ClobbersRegisters instr)
    (ClobbersDoubleRegisters instr) (block instr).

(** ** MidTierRegisterAllocationData *)

(** The constructor: one [BlockState] per block, each with an empty
    bitset over all blocks. *)
Definition MidTierRegisterAllocationData_new (c : InstructionSequence)
    (ops : list InstructionOperand) (virtual_register_count : Z)
    (f : Frame) : MidTierRegisterAllocationData :=
  let n := Z.of_nat (length (instruction_blocks c)) in
  mkData c ops
    (replicate (Z.to_nat virtual_register_count)
       (mkVreg None None 0 0 false false))
    (replicate (Z.to_nat n) (BitVector_new n))
    []
    (BitVector_new virtual_register_count)
    f.

Definition InstructionAt (data : MidTierRegisterAllocationData) (i : Z)
    : option Instruction :=
  at_index (instructions (code data)) i.

(** [*operand] *)
Definition read_operand (data : MidTierRegisterAllocationData) (p : nat)
    : option InstructionOperand :=
  operands data !! p.

(** [InstructionOperand::ReplaceWith(dest, &src)] for a source held by
    value. *)
Definition ReplaceWith_value (data : MidTierRegisterAllocationData)
    (dest : nat) (src : InstructionOperand)
    : option MidTierRegisterAllocationData :=
  if decide (dest < length (operands data))%nat
  then Some (set_operands data (<[dest := src]> (operands data)))
  else None.

(** [InstructionOperand::ReplaceWith(dest, src)] *)
Definition ReplaceWith (data : MidTierRegisterAllocationData)
    (dest src : nat) : option MidTierRegisterAllocationData :=
  op ← read_operand data src;
  ReplaceWith_value data dest op.

Definition AddGapMove (data : MidTierRegisterAllocationData)
    (instr_index : Z) (position : GapPosition)
    (from to : InstructionOperand)
    : option (MoveOperands * MidTierRegisterAllocationData) :=
  instr ← InstructionAt data instr_index;
  let mv := mkMove (length (operands data)) (S (length (operands data))) in
  instrs ← set_index (instructions (code data)) instr_index
         (push_move instr position mv);
  Some (mv, set_instructions
              (set_operands data (operands data ++ [from; to])) instrs).

Definition AddPendingOperandGapMove (data : MidTierRegisterAllocationData)
    (instr_index : Z) (position : GapPosition)
    : option (MoveOperands * MidTierRegisterAllocationData) :=
  AddGapMove data instr_index position (Pending None) (Pending None).

(** Modelled from the spec: [InstructionSequence::GetRepresentation]
    answers the default representation for a virtual register it has no
    entry for. *)
Definition GetRepresentation (c : InstructionSequence) (virtual_register : Z)
    : MachineRepresentation :=
  match at_index (representations c) virtual_register with
  | Some rep => rep
  | None => DefaultRepresentation
  end.

Definition RepresentationFor (data : MidTierRegisterAllocationData)
    (virtual_register : Z) : MachineRepresentation :=
  if virtual_register =? kInvalidVirtualRegister
  then DefaultRepresentation
  else GetRepresentation (code data) virtual_register.

Definition block_state (data : MidTierRegisterAllocationData)
    (rpo : Z) : option BitVector :=
  at_index (block_states_ data) rpo.

(** [GetBlock(RpoNumber)] *)
Definition GetBlock (data : MidTierRegisterAllocationData) (rpo : Z)
    : option InstructionBlock :=
  at_index (instruction_blocks (code data)) rpo.

(** [GetBlock(int instr_index)]: [Instruction::block()] is the position of
    the containing block in the block vector. *)
Definition GetBlockOfInstr (data : MidTierRegisterAllocationData)
    (instr_index : Z) : option InstructionBlock :=
  instr ← InstructionAt data instr_index;
  at_index (instruction_blocks (code data)) (block instr).

(** The result is a pointer to the bitset of [block_states_[rpo]]; it is
    represented by [rpo]. *)
Definition GetBlocksDominatedBy (data : MidTierRegisterAllocationData)
    (instr_index : Z) : option Z :=
  b ← GetBlockOfInstr data instr_index;
  _ ← block_state data (rpo_number b);
  Some (rpo_number b).

Definition VirtualRegisterDataFor (data : MidTierRegisterAllocationData)
    (virtual_register : Z) : option VirtualRegisterData :=
  at_index (virtual_register_data_ data) virtual_register.

Definition store_vreg (data : MidTierRegisterAllocationData) (v : Z)
    (vd : VirtualRegisterData) : option MidTierRegisterAllocationData :=
  vs ← set_index (virtual_register_data_ data) v vd;
  Some (set_virtual_register_data data vs).

(** ** VirtualRegisterData

    A method of [VirtualRegisterData] takes [this] as the index [v] of the
    record in [virtual_register_data_]. *)

Definition Initialize (data : MidTierRegisterAllocationData) (v : Z)
    (virtual_register : Z) (spill_operand : option nat) (instr_index : Z)
    (is_phi is_constant : bool) : option MidTierRegisterAllocationData :=
  store_vreg data v
    (mkVreg spill_operand None instr_index virtual_register is_phi
       is_constant).

(** [operand] is the address of the [ConstantOperand]. *)
Definition DefineAsConstantOperand (data : MidTierRegisterAllocationData)
    (v : Z) (operand : nat) (instr_index : Z)
    : option MidTierRegisterAllocationData :=
  op ← read_operand data operand;
  match op with
  | Constant virtual_register =>
      Initialize data v virtual_register (Some operand) instr_index false true
  | _ => None
  end.

Definition DefineAsFixedSpillOperand (data : MidTierRegisterAllocationData)
    (v : Z) (operand : nat) (virtual_register instr_index : Z)
    : option MidTierRegisterAllocationData :=
  Initialize data v virtual_register (Some operand) instr_index false false.

Definition DefineAsUnallocatedOperand (data : MidTierRegisterAllocationData)
    (v : Z) (virtual_register instr_index : Z)
    : option MidTierRegisterAllocationData :=
  Initialize data v virtual_register None instr_index false false.

Definition DefineAsPhi (data : MidTierRegisterAllocationData)
    (v : Z) (virtual_register instr_index : Z)
    : option MidTierRegisterAllocationData :=
  Initialize data v virtual_register None instr_index true false.

Definition HasSpillOperand (vd : VirtualRegisterData) : bool :=
  match spill_operand_ vd with Some _ => true | None => false end.

Definition HasPendingSpillOperand (data : MidTierRegisterAllocationData)
    (vd : VirtualRegisterData) : option bool :=
  match spill_operand_ vd with
  | None => Some false
  | Some p => op ← read_operand data p; Some (IsPending op)
  end.

Definition HasAllocatedSpillOperand (data : MidTierRegisterAllocationData)
    (vd : VirtualRegisterData) : option bool :=
  match spill_operand_ vd with
  | None => Some false
  | Some p => op ← read_operand data p; Some (IsAllocated op)
  end.

Definition HasConstantSpillOperand (vd : VirtualRegisterData) : bool :=
  is_constant vd.

Definition NeedsSpillAtOutput (vd : VirtualRegisterData) : bool :=
  HasSpillOperand vd && negb (is_constant vd).

Definition HasSpillRange (vd : VirtualRegisterData) : bool :=
  match spill_range_ vd with Some _ => true | None => false end.

(** [SpillRange(int definition_instr_index, data)] *)
Definition SpillRange_for_output (definition_instr_index : Z)
    (data : MidTierRegisterAllocationData) : option SpillRange :=
  blocks ← GetBlocksDominatedBy data definition_instr_index;
  Some (mkSpillRange (mkRange definition_instr_index definition_instr_index)
          blocks).

Fixpoint add_predecessors (data : MidTierRegisterAllocationData)
    (preds : list Z) (r : Range) : option Range :=
  match preds with
  | [] => Some r
  | pred_rpo :: preds' =>
      b ← GetBlock data pred_rpo;
      add_predecessors data preds' (AddInstr r (last_instruction_index b))
  end.

(** [SpillRange(const InstructionBlock* phi_block, data)] *)
Definition SpillRange_for_phi (phi_block : InstructionBlock)
    (data : MidTierRegisterAllocationData) : option SpillRange :=
  blocks ← GetBlocksDominatedBy data (first_instruction_index phi_block);
  r ← add_predecessors data (predecessors phi_block)
         (mkRange (first_instruction_index phi_block)
            (first_instruction_index phi_block));
  Some (mkSpillRange r blocks).

Definition IsLiveAt (data : MidTierRegisterAllocationData)
    (sr : SpillRange) (instr_index : Z) (b : InstructionBlock)
    : option bool :=
  if Contains (live_range sr) instr_index
  then bv ← block_state data (live_blocks sr);
       Some (BitVector_Contains bv (rpo_number b))
  else Some false.

Definition ExtendRangeTo (sr : SpillRange) (instr_index : Z) : SpillRange :=
  mkSpillRange (AddInstr (live_range sr) instr_index) (live_blocks sr).

Definition EnsureSpillRange (v : Z) (data : MidTierRegisterAllocationData)
    : option MidTierRegisterAllocationData :=
  vd ← VirtualRegisterDataFor data v;
  if HasSpillRange vd then Some data
  else
    sr ← (if is_phi vd
          then definition_block ←
                 GetBlockOfInstr data (output_instr_index vd);
               SpillRange_for_phi definition_block data
          else SpillRange_for_output (output_instr_index vd + 1) data);
    data ← store_vreg data v (set_spill_range vd (Some sr));
    spilled ← BitVector_Add (spilled_virtual_registers data) (vreg vd);
    Some (set_spilled_virtual_registers data spilled).

Definition AddSpillUse (v : Z) (instr_index : Z)
    (data : MidTierRegisterAllocationData)
    : option MidTierRegisterAllocationData :=
  vd ← VirtualRegisterDataFor data v;
  if is_constant vd then Some data
  else
    data ← EnsureSpillRange v data;
    vd ← VirtualRegisterDataFor data v;
    sr ← spill_range_ vd;
    store_vreg data v (set_spill_range vd (Some (ExtendRangeTo sr instr_index))).

(** [pending_op] is the address of a [PendingOperand] whose [next] is
    null. *)
Definition AddPendingSpillOperand (v : Z) (pending_op : nat)
    (data : MidTierRegisterAllocationData)
    : option MidTierRegisterAllocationData :=
  vd ← VirtualRegisterDataFor data v;
  data ← match spill_operand_ vd with
         | Some head =>
             op ← read_operand data pending_op;
             match op with
             | Pending None =>
                 ReplaceWith_value data pending_op (Pending (Some head))
             | _ => None
             end
         | None => Some data
         end;
  store_vreg data v (set_spill_operand vd (Some pending_op)).

Definition SpillOperand (v : Z) (operand : nat) (instr_index : Z)
    (data : MidTierRegisterAllocationData)
    : option MidTierRegisterAllocationData :=
  data ← AddSpillUse v instr_index data;
  vd ← VirtualRegisterDataFor data v;
  allocated ← HasAllocatedSpillOperand data vd;
  if allocated || HasConstantSpillOperand vd then
    spill_operand ← spill_operand_ vd;
    ReplaceWith data operand spill_operand
  else
    data ← ReplaceWith_value data operand (Pending None);
    AddPendingSpillOperand v operand data.

Definition EmitGapMoveToInputFromSpillSlot (v : Z)
    (to_operand : InstructionOperand) (instr_index : Z)
    (data : MidTierRegisterAllocationData)
    : option MidTierRegisterAllocationData :=
  data ← AddSpillUse v instr_index data;
  vd ← VirtualRegisterDataFor data v;
  allocated ← HasAllocatedSpillOperand data vd;
  if allocated || HasConstantSpillOperand vd then
    spill_operand ← spill_operand_ vd;
    op ← read_operand data spill_operand;
    '(_, data) ← AddGapMove data instr_index END op to_operand;
    Some data
  else
    '(move_ops, data) ← AddPendingOperandGapMove data instr_index END;
    data ← AddPendingSpillOperand v (source move_ops) data;
    ReplaceWith_value data (destination move_ops) to_operand.

Definition EmitGapMoveToSpillSlot (v : Z)
    (from_operand : InstructionOperand) (instr_index : Z)
    (data : MidTierRegisterAllocationData)
    : option MidTierRegisterAllocationData :=
  data ← AddSpillUse v instr_index data;
  vd ← VirtualRegisterDataFor data v;
  allocated ← HasAllocatedSpillOperand data vd;
  if allocated || HasConstantSpillOperand vd then
    spill_operand ← spill_operand_ vd;
    op ← read_operand data spill_operand;
    '(_, data) ← AddGapMove data instr_index START from_operand op;
    Some data
  else
    '(move_ops, data) ← AddPendingOperandGapMove data instr_index START;
    data ← ReplaceWith_value data (source move_ops) from_operand;
    AddPendingSpillOperand v (destination move_ops) data.

(** The loop over [current_block->successors()]. *)
Fixpoint EmitGapMoveToSuccessors (v : Z) (from_operand : InstructionOperand)
    (succs : list Z) (data : MidTierRegisterAllocationData)
    : option MidTierRegisterAllocationData :=
  match succs with
  | [] => Some data
  | succ :: succs' =>
      successor ← GetBlock data succ;
      data ← EmitGapMoveToSpillSlot v from_operand
               (first_instruction_index successor) data;
      EmitGapMoveToSuccessors v from_operand succs' data
  end.

Definition EmitGapMoveFromOutputToSpillSlot (v : Z)
    (from_operand : InstructionOperand) (current_block : InstructionBlock)
    (instr_index : Z) (data : MidTierRegisterAllocationData)
    : option MidTierRegisterAllocationData :=
  if instr_index =? last_instruction_index current_block
  then EmitGapMoveToSuccessors v from_operand (successors current_block) data
  else EmitGapMoveToSpillSlot v from_operand (instr_index + 1) data.

(** The loop shared by [AllocatePendingSpillOperand] and
    [Register::Commit]: walk a chain of pending operands and overwrite each
    with [allocated].  Every round overwrites one pending operand, so the
    number of operands bounds the rounds. *)
Fixpoint AllocatePendingChain (fuel : nat) (current : option nat)
    (allocated : InstructionOperand) (data : MidTierRegisterAllocationData)
    : option MidTierRegisterAllocationData :=
  match current with
  | None => Some data
  | Some p =>
      match fuel with
      | O => None
      | S fuel' =>
          op ← read_operand data p;
          next ← Pending_next op;
          data ← ReplaceWith_value data p allocated;
          AllocatePendingChain fuel' next allocated data
      end
  end.

Definition AllocatePendingSpillOperand (v : Z)
    (allocated : InstructionOperand) (data : MidTierRegisterAllocationData)
    : option MidTierRegisterAllocationData :=
  vd ← VirtualRegisterDataFor data v;
  AllocatePendingChain (length (operands data)) (spill_operand_ vd) allocated
    data.

(** ** RegisterState *)

(** A [RegisterIndex] is its [index_]; [-1] is [RegisterIndex::Invalid()]. *)
Definition RegisterIndex_Invalid : Z := -1.
Definition is_valid (reg : Z) : bool := negb (reg =? RegisterIndex_Invalid).

(** [uintptr_t] has 64 bits. *)
Definition kBitsPerWord : Z := 64.

(** [1ull << ToInt()] *)
Definition ToBit (reg : Z) : option Z :=
  if (0 <=? reg) && (reg <? kBitsPerWord) then Some (Z.shiftl 1 reg) else None.

(** [~x] on a [uintptr_t] *)
Definition word_not (x : Z) : Z := Z.lxor x (Z.ones kBitsPerWord).

Fixpoint ctz_from (n : nat) (i : Z) (x : Z) : Z :=
  match n with
  | O => i
  | S n' => if Z.testbit x i then i else ctz_from n' (i + 1) x
  end.

(** Modelled from the spec: [base::bits::CountTrailingZeros] on a 64-bit
    word is the index of the lowest set bit, or 64 for zero. *)
Definition CountTrailingZeros (x : Z) : Z := ctz_from 64 0 x.

Record Register := mkRegister {
  needs_gap_move_on_spill : bool;
  last_use_instr_index : Z;
  virtual_register_ : Z;
  pending_uses : option nat
}.

Definition Register_Reset : Register :=
  mkRegister false (-1) kInvalidVirtualRegister None.

Definition is_allocated (r : Register) : bool :=
  negb (virtual_register_ r =? kInvalidVirtualRegister).

Definition Register_Use (r : Register) (virtual_register instr_index : Z)
    : Register :=
  mkRegister true instr_index virtual_register (pending_uses r).

Definition Register_PendingUse (r : Register) (operand : nat)
    (virtual_register instr_index : Z)
    (data : MidTierRegisterAllocationData)
    : option (Register * MidTierRegisterAllocationData) :=
  let r := if is_allocated r then r
           else mkRegister (needs_gap_move_on_spill r) instr_index
                  virtual_register (pending_uses r) in
  data ← ReplaceWith_value data operand (Pending (pending_uses r));
  Some (mkRegister (needs_gap_move_on_spill r) (last_use_instr_index r)
          (virtual_register_ r) (Some operand), data).

Definition Register_Commit (r : Register) (allocated_op : InstructionOperand)
    (data : MidTierRegisterAllocationData)
    : option (Register * MidTierRegisterAllocationData) :=
  data ← AllocatePendingChain (length (operands data)) (pending_uses r)
           allocated_op data;
  Some (mkRegister (needs_gap_move_on_spill r) (last_use_instr_index r)
          (virtual_register_ r) None, data).

(** The loop of [Register::SpillPendingUses]. *)
Fixpoint SpillPendingChain (fuel : nat) (v : Z) (instr_index : Z)
    (pending_use : option nat) (data : MidTierRegisterAllocationData)
    : option MidTierRegisterAllocationData :=
  match pending_use with
  | None => Some data
  | Some p =>
      match fuel with
      | O => None
      | S fuel' =>
          op ← read_operand data p;
          next ← Pending_next op;
          data ← SpillOperand v p instr_index data;
          SpillPendingChain fuel' v instr_index next data
      end
  end.

Definition Register_SpillPendingUses (r : Register)
    (data : MidTierRegisterAllocationData)
    : option (Register * MidTierRegisterAllocationData) :=
  _ ← VirtualRegisterDataFor data (virtual_register_ r);
  data ← SpillPendingChain (length (operands data)) (virtual_register_ r)
           (last_use_instr_index r) (pending_uses r) data;
  Some (mkRegister (needs_gap_move_on_spill r) (last_use_instr_index r)
          (virtual_register_ r) None, data).

Definition Register_Spill (r : Register) (allocated_op : InstructionOperand)
    (data : MidTierRegisterAllocationData)
    : option (Register * MidTierRegisterAllocationData) :=
  data ← (if needs_gap_move_on_spill r
          then EmitGapMoveToInputFromSpillSlot (virtual_register_ r)
                 allocated_op (last_use_instr_index r) data
          else Some data);
  '(r, data) ← Register_SpillPendingUses r data;
  Some (mkRegister (needs_gap_move_on_spill r) (last_use_instr_index r)
          kInvalidVirtualRegister (pending_uses r), data).

(** [register_data_]: one entry per allocatable register, null until the
    register is first used. *)
Definition RegisterState := list (option Register).

Definition RegisterState_new (num_allocatable_registers : Z) : RegisterState :=
  replicate (Z.to_nat num_allocatable_registers) None.

Definition HasRegisterData (rs : RegisterState) (reg : Z) : option bool :=
  r ← at_index rs reg;
  Some (match r with Some _ => true | None => false end).

Definition reg_data (rs : RegisterState) (reg : Z) : option Register :=
  r ← at_index rs reg; r.

Definition RegisterState_IsAllocated (rs : RegisterState) (reg : Z)
    : option bool :=
  has ← HasRegisterData rs reg;
  if (has : bool) then r ← reg_data rs reg; Some (is_allocated r)
  else Some false.

Definition RegisterState_VirtualRegisterForRegister (rs : RegisterState)
    (reg : Z) : option Z :=
  allocated ← RegisterState_IsAllocated rs reg;
  if (allocated : bool) then r ← reg_data rs reg; Some (virtual_register_ r)
  else Some kInvalidVirtualRegister.

Definition ResetDataFor (rs : RegisterState) (reg : Z)
    : option RegisterState :=
  _ ← reg_data rs reg;
  set_index rs reg (Some Register_Reset).

Definition EnsureRegisterData (rs : RegisterState) (reg : Z)
    : option RegisterState :=
  has ← HasRegisterData rs reg;
  if (has : bool) then Some rs else set_index rs reg (Some Register_Reset).

Definition RegisterState_Commit (rs : RegisterState) (reg : Z)
    (allocated : InstructionOperand) (operand : nat)
    (data : MidTierRegisterAllocationData)
    : option (RegisterState * MidTierRegisterAllocationData) :=
  data ← ReplaceWith_value data operand allocated;
  is_alloc ← RegisterState_IsAllocated rs reg;
  if (is_alloc : bool) then
    r ← reg_data rs reg;
    '(r, data) ← Register_Commit r allocated data;
    rs ← set_index rs reg (Some r);
    rs ← ResetDataFor rs reg;
    Some (rs, data)
  else Some (rs, data).

Definition RegisterState_Spill (rs : RegisterState) (reg : Z)
    (allocated : InstructionOperand) (data : MidTierRegisterAllocationData)
    : option (RegisterState * MidTierRegisterAllocationData) :=
  r ← reg_data rs reg;
  '(r, data) ← Register_Spill r allocated data;
  rs ← set_index rs reg (Some r);
  rs ← ResetDataFor rs reg;
  Some (rs, data).

Definition RegisterState_AllocateUse (rs : RegisterState) (reg : Z)
    (virtual_register : Z) (instr_index : Z) : option RegisterState :=
  rs ← EnsureRegisterData rs reg;
  r ← reg_data rs reg;
  set_index rs reg (Some (Register_Use r virtual_register instr_index)).

Definition RegisterState_AllocatePendingUse (rs : RegisterState) (reg : Z)
    (virtual_register : Z) (operand : nat) (instr_index : Z)
    (data : MidTierRegisterAllocationData)
    : option (RegisterState * MidTierRegisterAllocationData) :=
  rs ← EnsureRegisterData rs reg;
  r ← reg_data rs reg;
  '(r, data) ← Register_PendingUse r operand virtual_register instr_index data;
  rs ← set_index rs reg (Some r);
  Some (rs, data).

Definition HasPendingUsesOnly (rs : RegisterState) (reg : Z) : option bool :=
  r ← reg_data rs reg;
  Some (negb (needs_gap_move_on_spill r)).

(** ** SinglePassRegisterAllocator *)

Inductive RegisterKind := kGeneral | kDouble.

Inductive UsePosition := kStart | kEnd | kAll | kNone.

Record SinglePassRegisterAllocator := mkAllocator {
  virtual_register_to_reg_ : list Z;
  register_state_ : option RegisterState;
  kind : RegisterKind;
  num_allocatable_registers : Z;
  reg_code_to_index_ : list Z;
  index_to_reg_code_ : list Z;
  assigned_registers : BitVector;
  in_use_at_instr_start_bits_ : Z;
  in_use_at_instr_end_bits_ : Z;
  allocated_registers_bits_ : Z
}.

Definition set_virtual_register_to_reg (a : SinglePassRegisterAllocator)
    (l : list Z) : SinglePassRegisterAllocator :=
  mkAllocator l (register_state_ a) (kind a) (num_allocatable_registers a)
    (reg_code_to_index_ a) (index_to_reg_code_ a) (assigned_registers a)
    (in_use_at_instr_start_bits_ a) (in_use_at_instr_end_bits_ a)
    (allocated_registers_bits_ a).

Definition set_register_state (a : SinglePassRegisterAllocator)
    (rs : option RegisterState) : SinglePassRegisterAllocator :=
  mkAllocator (virtual_register_to_reg_ a) rs (kind a)
    (num_allocatable_registers a) (reg_code_to_index_ a)
    (index_to_reg_code_ a) (assigned_registers a)
    (in_use_at_instr_start_bits_ a) (in_use_at_instr_end_bits_ a)
    (allocated_registers_bits_ a).

Definition set_assigned_registers (a : SinglePassRegisterAllocator)
    (bv : BitVector) : SinglePassRegisterAllocator :=
  mkAllocator (virtual_register_to_reg_ a) (register_state_ a) (kind a)
    (num_allocatable_registers a) (reg_code_to_index_ a)
    (index_to_reg_code_ a) bv
    (in_use_at_instr_start_bits_ a) (in_use_at_instr_end_bits_ a)
    (allocated_registers_bits_ a).

Definition set_in_use_at_instr_start_bits (a : SinglePassRegisterAllocator)
    (bits : Z) : SinglePassRegisterAllocator :=
  mkAllocator (virtual_register_to_reg_ a) (register_state_ a) (kind a)
    (num_allocatable_registers a) (reg_code_to_index_ a)
    (index_to_reg_code_ a) (assigned_registers a)
    bits (in_use_at_instr_end_bits_ a) (allocated_registers_bits_ a).

Definition set_in_use_at_instr_end_bits (a : SinglePassRegisterAllocator)
    (bits : Z) : SinglePassRegisterAllocator :=
  mkAllocator (virtual_register_to_reg_ a) (register_state_ a) (kind a)
    (num_allocatable_registers a) (reg_code_to_index_ a)
    (index_to_reg_code_ a) (assigned_registers a)
    (in_use_at_instr_start_bits_ a) bits (allocated_registers_bits_ a).

Definition set_allocated_registers_bits (a : SinglePassRegisterAllocator)
    (bits : Z) : SinglePassRegisterAllocator :=
  mkAllocator (virtual_register_to_reg_ a) (register_state_ a) (kind a)
    (num_allocatable_registers a) (reg_code_to_index_ a)
    (index_to_reg_code_ a) (assigned_registers a)
    (in_use_at_instr_start_bits_ a) (in_use_at_instr_end_bits_ a) bits.

(** The loop of the constructor that inverts [index_to_reg_code_]. *)
Fixpoint fill_reg_code_to_index (codes : list Z) (i : Z) (table : list Z)
    : option (list Z) :=
  match codes with
  | [] => Some table
  | reg_code :: codes' =>
      table ← set_index table reg_code i;
      fill_reg_code_to_index codes' (i + 1) table
  end.

(** The constructor.  [register_count] and [allocatable_codes] are what the
    register configuration answers for the allocator's kind. *)
Definition SinglePassRegisterAllocator_new (k : RegisterKind)
    (virtual_register_count register_count : Z) (allocatable_codes : list Z)
    : option SinglePassRegisterAllocator :=
  table ← fill_reg_code_to_index allocatable_codes 0
             (replicate (Z.to_nat register_count) RegisterIndex_Invalid);
  Some (mkAllocator
          (replicate (Z.to_nat virtual_register_count) RegisterIndex_Invalid)
          None k (Z.of_nat (length allocatable_codes)) table
          allocatable_codes (BitVector_new register_count) 0 0 0).

Definition HasRegisterState (a : SinglePassRegisterAllocator) : bool :=
  match register_state_ a with Some _ => true | None => false end.

Definition VirtualRegisterForRegister (a : SinglePassRegisterAllocator)
    (reg : Z) : option Z :=
  rs ← register_state_ a;
  RegisterState_VirtualRegisterForRegister rs reg.

Definition RegisterForVirtualRegister (a : SinglePassRegisterAllocator)
    (virtual_register : Z) : option Z :=
  at_index (virtual_register_to_reg_ a) virtual_register.

Definition EndInstruction (a : SinglePassRegisterAllocator)
    : SinglePassRegisterAllocator :=
  set_in_use_at_instr_start_bits (set_in_use_at_instr_end_bits a 0) 0.

Definition StartBlock (a : SinglePassRegisterAllocator)
    (b : InstructionBlock) : SinglePassRegisterAllocator := a.

Definition EndBlock (a : SinglePassRegisterAllocator)
    (b : InstructionBlock) : SinglePassRegisterAllocator :=
  set_register_state a None.

Definition FromRegCode (a : SinglePassRegisterAllocator) (reg_code : Z)
    : option Z :=
  at_index (reg_code_to_index_ a) reg_code.

Definition ToRegCode (a : SinglePassRegisterAllocator) (reg : Z) : option Z :=
  at_index (index_to_reg_code_ a) reg.

Definition VirtualRegisterIsUnallocatedOrInReg
    (a : SinglePassRegisterAllocator) (virtual_register reg : Z)
    : option bool :=
  existing_reg ← RegisterForVirtualRegister a virtual_register;
  Some (negb (is_valid existing_reg) || (existing_reg =? reg)).

Definition IsFreeOrSameVirtualRegister (a : SinglePassRegisterAllocator)
    (reg virtual_register : Z) : option bool :=
  allocated_vreg ← VirtualRegisterForRegister a reg;
  Some ((allocated_vreg =? kInvalidVirtualRegister)
        || (allocated_vreg =? virtual_register)).

(** The loop over [block->successors()] in [EmitGapMoveFromOutput]. *)
Fixpoint AddGapMoveToSuccessors (from to : InstructionOperand)
    (succs : list Z) (data : MidTierRegisterAllocationData)
    : option MidTierRegisterAllocationData :=
  match succs with
  | [] => Some data
  | succ :: succs' =>
      successor ← GetBlock data succ;
      '(_, data) ← AddGapMove data (first_instruction_index successor) START
                     from to;
      AddGapMoveToSuccessors from to succs' data
  end.

Definition EmitGapMoveFromOutput (from to : InstructionOperand)
    (instr_index : Z) (data : MidTierRegisterAllocationData)
    : option MidTierRegisterAllocationData :=
  b ← GetBlockOfInstr data instr_index;
  if instr_index =? last_instruction_index b
  then AddGapMoveToSuccessors from to (successors b) data
  else '(_, data) ← AddGapMove data (instr_index + 1) START from to;
       Some data.

Definition MarkRegisterUse (a : SinglePassRegisterAllocator) (reg : Z)
    (pos : UsePosition) : option SinglePassRegisterAllocator :=
  a ← match pos with
      | kStart | kAll =>
          bit ← ToBit reg;
          Some (set_in_use_at_instr_start_bits a
                  (Z.lor (in_use_at_instr_start_bits_ a) bit))
      | _ => Some a
      end;
  match pos with
  | kEnd | kAll =>
      bit ← ToBit reg;
      Some (set_in_use_at_instr_end_bits a
              (Z.lor (in_use_at_instr_end_bits_ a) bit))
  | _ => Some a
  end.

Definition AssignRegister (a : SinglePassRegisterAllocator) (reg : Z)
    (virtual_register : Z) (pos : UsePosition)
    : option SinglePassRegisterAllocator :=
  reg_code ← ToRegCode a reg;
  assigned ← BitVector_Add (assigned_registers a) reg_code;
  a ← MarkRegisterUse (set_assigned_registers a assigned) reg pos;
  bit ← ToBit reg;
  let a := set_allocated_registers_bits a
             (Z.lor (allocated_registers_bits_ a) bit) in
  if negb (virtual_register =? kInvalidVirtualRegister)
  then l ← set_index (virtual_register_to_reg_ a) virtual_register reg;
       Some (set_virtual_register_to_reg a l)
  else Some a.

Definition FreeRegister (a : SinglePassRegisterAllocator) (reg : Z)
    (virtual_register : Z) : option SinglePassRegisterAllocator :=
  bit ← ToBit reg;
  let a := set_allocated_registers_bits a
             (Z.land (allocated_registers_bits_ a) (word_not bit)) in
  if negb (virtual_register =? kInvalidVirtualRegister)
  then l ← set_index (virtual_register_to_reg_ a) virtual_register
             RegisterIndex_Invalid;
       Some (set_virtual_register_to_reg a l)
  else Some a.

Definition InUseBitmap (a : SinglePassRegisterAllocator) (pos : UsePosition)
    : option Z :=
  match pos with
  | kStart => Some (in_use_at_instr_start_bits_ a)
  | kEnd => Some (in_use_at_instr_end_bits_ a)
  | kAll => Some (Z.lor (in_use_at_instr_start_bits_ a)
                    (in_use_at_instr_end_bits_ a))
  | kNone => None
  end.

Definition ChooseFreeRegister (a : SinglePassRegisterAllocator)
    (pos : UsePosition) : option Z :=
  in_use ← InUseBitmap a pos;
  let allocated_or_in_use := Z.lor in_use (allocated_registers_bits_ a) in
  let reg_index := CountTrailingZeros (word_not allocated_or_in_use) in
  if reg_index >=? num_allocatable_registers a
  then Some RegisterIndex_Invalid
  else Some reg_index.

(** The registers visited by a range-based [for] over a [RegisterState]. *)
Definition RegisterState_indices (rs : RegisterState) : list Z :=
  map Z.of_nat (seq 0 (length rs)).

(** The locals of [ChooseRegisterToSpill] that its loop updates. *)
Record SpillChoice := mkChoice {
  chosen_reg : Z;
  earliest_definition : Z;
  pending_only_use : bool;
  already_spilled : bool
}.

Definition SpillChoice_init : SpillChoice :=
  mkChoice RegisterIndex_Invalid kMaxInt false false.

(** One round of the loop of [ChooseRegisterToSpill]. *)
Definition ChooseRegisterToSpill_visit (a : SinglePassRegisterAllocator)
    (data : MidTierRegisterAllocationData) (in_use : Z) (c : SpillChoice)
    (reg : Z) : option SpillChoice :=
  bit ← ToBit reg;
  if negb (Z.land in_use bit =? 0) then Some c
  else
    rs ← register_state_ a;
    virtual_register ← VirtualRegisterForRegister a reg;
    vreg_data ← VirtualRegisterDataFor data virtual_register;
    replace ←
      (c1 ← (if negb (pending_only_use c) then HasPendingUsesOnly rs reg
             else Some false);
       if (c1 : bool) then Some true
       else if negb (already_spilled c) && HasSpillOperand vreg_data
            then Some true
            else Some (output_instr_index vreg_data <? earliest_definition c));
    if (replace : bool) then
      pending_only ← HasPendingUsesOnly rs reg;
      Some (mkChoice reg (output_instr_index vreg_data) pending_only
              (HasSpillOperand vreg_data))
    else Some c.

Fixpoint ChooseRegisterToSpill_loop (a : SinglePassRegisterAllocator)
    (data : MidTierRegisterAllocationData) (in_use : Z) (regs : list Z)
    (c : SpillChoice) : option SpillChoice :=
  match regs with
  | [] => Some c
  | reg :: regs' =>
      c ← ChooseRegisterToSpill_visit a data in_use c reg;
      ChooseRegisterToSpill_loop a data in_use regs' c
  end.

Definition ChooseRegisterToSpill (a : SinglePassRegisterAllocator)
    (data : MidTierRegisterAllocationData) (pos : UsePosition) : option Z :=
  in_use ← InUseBitmap a pos;
  rs ← register_state_ a;
  c ← ChooseRegisterToSpill_loop a data in_use (RegisterState_indices rs)
        SpillChoice_init;
  Some (chosen_reg c).

Definition AllocatedOperandForReg (a : SinglePassRegisterAllocator)
    (data : MidTierRegisterAllocationData) (reg virtual_register : Z)
    : option InstructionOperand :=
  reg_code ← ToRegCode a reg;
  Some (Allocated REGISTER (RepresentationFor data virtual_register) reg_code).

Definition SpillRegister (reg : Z) (a : SinglePassRegisterAllocator)
    (data : MidTierRegisterAllocationData)
    : option (SinglePassRegisterAllocator * MidTierRegisterAllocationData) :=
  rs ← register_state_ a;
  is_alloc ← RegisterState_IsAllocated rs reg;
  if negb is_alloc then Some (a, data)
  else
    virtual_register ← VirtualRegisterForRegister a reg;
    allocated ← AllocatedOperandForReg a data reg virtual_register;
    '(rs, data) ← RegisterState_Spill rs reg allocated data;
    a ← FreeRegister (set_register_state a (Some rs)) reg virtual_register;
    Some (a, data).

Fixpoint SpillRegisters (regs : list Z) (a : SinglePassRegisterAllocator)
    (data : MidTierRegisterAllocationData)
    : option (SinglePassRegisterAllocator * MidTierRegisterAllocationData) :=
  match regs with
  | [] => Some (a, data)
  | reg :: regs' =>
      '(a, data) ← SpillRegister reg a data;
      SpillRegisters regs' a data
  end.

Definition SpillAllRegisters (a : SinglePassRegisterAllocator)
    (data : MidTierRegisterAllocationData)
    : option (SinglePassRegisterAllocator * MidTierRegisterAllocationData) :=
  match register_state_ a with
  | None => Some (a, data)
  | Some rs => SpillRegisters (RegisterState_indices rs) a data
  end.

Definition SpillRegisterForVirtualRegister (virtual_register : Z)
    (a : SinglePassRegisterAllocator) (data : MidTierRegisterAllocationData)
    : option (SinglePassRegisterAllocator * MidTierRegisterAllocationData) :=
  reg ← RegisterForVirtualRegister a virtual_register;
  if is_valid reg then SpillRegister reg a data else Some (a, data).

(** [ChooseRegisterFor(MachineRepresentation, UsePosition, bool)] *)
Definition ChooseRegisterFor_rep (pos : UsePosition)
    (must_use_register : bool) (a : SinglePassRegisterAllocator)
    (data : MidTierRegisterAllocationData)
    : option (Z * SinglePassRegisterAllocator * MidTierRegisterAllocationData) :=
  reg ← ChooseFreeRegister a pos;
  if negb (is_valid reg) && must_use_register then
    reg ← ChooseRegisterToSpill a data pos;
    '(a, data) ← SpillRegister reg a data;
    Some (reg, a, data)
  else Some (reg, a, data).

(** [ChooseRegisterFor(VirtualRegisterData&, UsePosition, bool)] *)
Definition ChooseRegisterFor (v : Z) (pos : UsePosition)
    (must_use_register : bool) (a : SinglePassRegisterAllocator)
    (data : MidTierRegisterAllocationData)
    : option (Z * SinglePassRegisterAllocator * MidTierRegisterAllocationData) :=
  vd ← VirtualRegisterDataFor data v;
  reg ← RegisterForVirtualRegister a (vreg vd);
  if negb (is_valid reg) && (must_use_register || negb (HasSpillOperand vd))
  then ChooseRegisterFor_rep pos must_use_register a data
  else Some (reg, a, data).

(** ** Pass A: DefineOutputs *)

(** Modelled from the spec: [RpoNumber::IsValid]; the invalid rpo number
    is [-1]. *)
Definition RpoNumber_IsValid (rpo : Z) : bool := 0 <=? rpo.

Definition InitializeBlockState (b : InstructionBlock)
    (data : MidTierRegisterAllocationData)
    : option MidTierRegisterAllocationData :=
  dominated ← block_state data (rpo_number b);
  dominated ← BitVector_Add dominated (rpo_number b);
  states ← set_index (block_states_ data) (rpo_number b) dominated;
  let data := set_block_states data states in
  if RpoNumber_IsValid (dominator b) then
    dominator_blocks ← block_state data (dominator b);
    dominated ← block_state data (rpo_number b);
    union ← BitVector_Union dominator_blocks dominated;
    states ← set_index (block_states_ data) (dominator b) union;
    Some (set_block_states data states)
  else Some data.

Definition HasFixedSlotPolicy (u : UnallocatedOperand) : bool :=
  match policy u with FIXED_SLOT _ => true | _ => false end.

Definition fixed_slot_index (u : UnallocatedOperand) : Z :=
  match policy u with FIXED_SLOT i => i | _ => 0 end.

(** One round of the loop over the outputs of the instruction at
    [index]. *)
Definition DefineOutput (index : Z) (output : nat)
    (data : MidTierRegisterAllocationData)
    : option MidTierRegisterAllocationData :=
  op ← read_operand data output;
  match op with
  | Constant virtual_register =>
      DefineAsConstantOperand data virtual_register output index
  | Unallocated u =>
      let virtual_register := uo_virtual_register u in
      if HasFixedSlotPolicy u then
        let rep := RepresentationFor data virtual_register in
        let fixed_spill_operand := length (operands data) in
        let data :=
          set_operands data
            (operands data ++ [Allocated STACK_SLOT rep (fixed_slot_index u)])
        in
        DefineAsFixedSpillOperand data virtual_register fixed_spill_operand
          virtual_register index
      else
        DefineAsUnallocatedOperand data virtual_register virtual_register
          index
  | _ => None
  end.

Fixpoint DefineOutputs_outputs (index : Z) (outs : list nat)
    (data : MidTierRegisterAllocationData)
    : option MidTierRegisterAllocationData :=
  match outs with
  | [] => Some data
  | output :: outs' =>
      data ← DefineOutput index output data;
      DefineOutputs_outputs index outs' data
  end.

Definition DefineOutputs_instr (index : Z)
    (data : MidTierRegisterAllocationData)
    : option MidTierRegisterAllocationData :=
  instr ← InstructionAt data index;
  data ← DefineOutputs_outputs index (outputs instr) data;
  if HasReferenceMap instr
  then Some (set_reference_map_instructions data
               (reference_map_instructions data ++ [index]))
  else Some data.

(** The indices [last, last - 1, ..., first]. *)
Definition indices_downto (last first : Z) : list Z :=
  map (fun k => last - Z.of_nat k) (seq 0 (Z.to_nat (last - first + 1))).

Fixpoint DefineOutputs_instrs (indices : list Z)
    (data : MidTierRegisterAllocationData)
    : option MidTierRegisterAllocationData :=
  match indices with
  | [] => Some data
  | index :: indices' =>
      data ← DefineOutputs_instr index data;
      DefineOutputs_instrs indices' data
  end.

Fixpoint DefineOutputs_phis (b : InstructionBlock) (ps : list PhiInstruction)
    (data : MidTierRegisterAllocationData)
    : option MidTierRegisterAllocationData :=
  match ps with
  | [] => Some data
  | phi :: ps' =>
      data ← DefineAsPhi data (phi_virtual_register phi)
               (phi_virtual_register phi) (first_instruction_index b);
      DefineOutputs_phis b ps' data
  end.

(** [DefineOutputs(const InstructionBlock* block)] *)
Definition DefineOutputs_block (b : InstructionBlock)
    (data : MidTierRegisterAllocationData)
    : option MidTierRegisterAllocationData :=
  data ← DefineOutputs_instrs
           (indices_downto (last_instruction_index b)
              (first_instruction_index b)) data;
  DefineOutputs_phis b (phis b) data.

Fixpoint DefineOutputs_blocks (blocks : list InstructionBlock)
    (data : MidTierRegisterAllocationData)
    : option MidTierRegisterAllocationData :=
  match blocks with
  | [] => Some data
  | b :: blocks' =>
      data ← InitializeBlockState b data;
      data ← DefineOutputs_block b data;
      DefineOutputs_blocks blocks' data
  end.

(** [DefineOutputs()]: the blocks in reverse order. *)
Definition DefineOutputs (data : MidTierRegisterAllocationData)
    : option MidTierRegisterAllocationData :=
  DefineOutputs_blocks (rev (instruction_blocks (code data))) data.

(** ** UpdateSpillRangesForLoops *)

Definition UpdateSpillRange_vreg (b : InstructionBlock)
    (last_loop_instr : Z) (v : Z) (data : MidTierRegisterAllocationData)
    : option MidTierRegisterAllocationData :=
  vd ← VirtualRegisterDataFor data v;
  match spill_range_ vd with
  | None => Some data
  | Some sr =>
      live ← IsLiveAt data sr (first_instruction_index b) b;
      if (live : bool) then
        store_vreg data v
          (set_spill_range vd (Some (ExtendRangeTo sr last_loop_instr)))
      else Some data
  end.

Fixpoint UpdateSpillRanges_vregs (b : InstructionBlock)
    (last_loop_instr : Z) (vs : list Z)
    (data : MidTierRegisterAllocationData)
    : option MidTierRegisterAllocationData :=
  match vs with
  | [] => Some data
  | v :: vs' =>
      data ← UpdateSpillRange_vreg b last_loop_instr v data;
      UpdateSpillRanges_vregs b last_loop_instr vs' data
  end.

Definition UpdateSpillRanges_block (b : InstructionBlock)
    (data : MidTierRegisterAllocationData)
    : option MidTierRegisterAllocationData :=
  if IsLoopHeader b then
    last_loop_block ← GetBlock data (loop_end b - 1);
    UpdateSpillRanges_vregs b (last_instruction_index last_loop_block)
      (BitVector_elements (spilled_virtual_registers data)) data
  else Some data.

Fixpoint UpdateSpillRanges_blocks (blocks : list InstructionBlock)
    (data : MidTierRegisterAllocationData)
    : option MidTierRegisterAllocationData :=
  match blocks with
  | [] => Some data
  | b :: blocks' =>
      data ← UpdateSpillRanges_block b data;
      UpdateSpillRanges_blocks blocks' data
  end.

Definition UpdateSpillRangesForLoops (data : MidTierRegisterAllocationData)
    : option MidTierRegisterAllocationData :=
  UpdateSpillRanges_blocks (instruction_blocks (code data)) data.

(** ** MidTierSpillSlotAllocator *)

Record SpillSlot := mkSlot {
  stack_slot_ : Z;
  byte_width : Z;
  range_ : Range
}.

Definition SpillSlot_AddRange (s : SpillSlot) (r : Range) : SpillSlot :=
  mkSlot (stack_slot_ s) (byte_width s) (AddRange (range_ s) r).

Definition SpillSlot_ToOperand (s : SpillSlot) (rep : MachineRepresentation)
    : InstructionOperand :=
  Allocated STACK_SLOT rep (stack_slot_ s).

Definition last_use (s : SpillSlot) : Z := end_ (range_ s).

(** [allocated_slots_] is a priority queue whose top is a slot with the
    least [last_use]; it is kept as a list in ascending order of
    [last_use], the top at the head.  A slot is owned by one container at
    a time and is only changed while it is in neither, so slots are held by
    value. *)
Record MidTierSpillSlotAllocator := mkSlotAllocator {
  allocated_slots_ : list SpillSlot;
  free_slots_ : list SpillSlot;
  position_ : Z
}.

(** [push]: the slot goes in front of the queued slots with a greater
    [last_use].  The order of [OrderByLastUse] is strict, so a pushed slot
    is not lifted above a queued slot with the same [last_use]; among
    slots with the same [last_use] the library leaves open which one is
    the top, and the list keeps them in the order they were pushed in. *)
Fixpoint queue_push (s : SpillSlot) (q : list SpillSlot) : list SpillSlot :=
  match q with
  | [] => [s]
  | t :: q' =>
      if last_use s <? last_use t then s :: q else t :: queue_push s q'
  end.

Fixpoint AdvanceTo_loop (instr_index : Z)
    (allocated free : list SpillSlot) : list SpillSlot * list SpillSlot :=
  match allocated with
  | [] => ([], free)
  | top :: rest =>
      if instr_index >? last_use top
      then AdvanceTo_loop instr_index rest (top :: free)
      else (allocated, free)
  end.

Definition AdvanceTo (al : MidTierSpillSlotAllocator) (instr_index : Z)
    : MidTierSpillSlotAllocator :=
  let '(allocated, free) :=
    AdvanceTo_loop instr_index (allocated_slots_ al) (free_slots_ al) in
  mkSlotAllocator allocated free instr_index.

Fixpoint GetFreeSpillSlot (free : list SpillSlot) (width : Z)
    : option (SpillSlot * list SpillSlot) :=
  match free with
  | [] => None
  | slot :: free' =>
      if byte_width slot =? width then Some (slot, free')
      else match GetFreeSpillSlot free' width with
           | Some (s, rest) => Some (s, slot :: rest)
           | None => None
           end
  end.

(** [MidTierSpillSlotAllocator::Allocate] *)
Definition Allocate (v : Z) (al : MidTierSpillSlotAllocator)
    (data : MidTierRegisterAllocationData)
    : option (MidTierSpillSlotAllocator * MidTierRegisterAllocationData) :=
  vd ← VirtualRegisterDataFor data v;
  spill_range ← spill_range_ vd;
  let rep := RepresentationFor data (vreg vd) in
  let width := ByteWidthForStackSlot rep in
  let al := AdvanceTo al (start_ (live_range spill_range)) in
  let '(slot, free, data) :=
    match GetFreeSpillSlot (free_slots_ al) width with
    | Some (slot, free) => (slot, free, data)
    | None =>
        let '(f, stack_slot) := Frame_AllocateSpillSlot (frame data) width in
        (mkSlot stack_slot width Range_default, free_slots_ al,
         set_frame data f)
    end in
  let slot := SpillSlot_AddRange slot (live_range spill_range) in
  data ← AllocatePendingSpillOperand v (SpillSlot_ToOperand slot rep) data;
  Some (mkSlotAllocator (queue_push slot (allocated_slots_ al)) free
          (position_ al), data).

(** The loop that collects the vregs with a pending spill operand. *)
Fixpoint collect_pending (data : MidTierRegisterAllocationData)
    (vs : list Z) : option (list Z) :=
  match vs with
  | [] => Some []
  | v :: vs' =>
      vd ← VirtualRegisterDataFor data v;
      pending ← HasPendingSpillOperand data vd;
      rest ← collect_pending data vs';
      Some (if (pending : bool) then v :: rest else rest)
  end.

(** The sort key of [AllocateSpillSlots]. *)
Definition spill_start (data : MidTierRegisterAllocationData) (v : Z)
    : option Z :=
  vd ← VirtualRegisterDataFor data v;
  sr ← spill_range_ vd;
  Some (start_ (live_range sr)).

Fixpoint insert_by_start (x : Z * Z) (l : list (Z * Z)) : list (Z * Z) :=
  match l with
  | [] => [x]
  | y :: l' => if fst y <? fst x then y :: insert_by_start x l'
               else x :: l
  end.

(** [std::sort] by the start of the live range; the order it leaves among
    equal starts is unspecified, this one keeps the original order. *)
Definition sort_by_start (l : list (Z * Z)) : list (Z * Z) :=
  foldr insert_by_start [] l.

Fixpoint Allocate_all (vs : list Z) (al : MidTierSpillSlotAllocator)
    (data : MidTierRegisterAllocationData)
    : option (MidTierSpillSlotAllocator * MidTierRegisterAllocationData) :=
  match vs with
  | [] => Some (al, data)
  | v :: vs' =>
      '(al, data) ← Allocate v al data;
      Allocate_all vs' al data
  end.

Definition AllocateSpillSlots (data : MidTierRegisterAllocationData)
    : option MidTierRegisterAllocationData :=
  spilled ← collect_pending data
              (BitVector_elements (spilled_virtual_registers data));
  keyed ← mapM (fun v => s ← spill_start data v; Some (s, v)) spilled;
  '(_, data) ← Allocate_all (map snd (sort_by_start keyed))
                 (mkSlotAllocator [] [] 0) data;
  Some data.

(** ** MidTierReferenceMapPopulator *)

(** Modelled from the spec: [InstructionSequence::IsReference]. *)
Definition IsReference (c : InstructionSequence) (virtual_register : Z)
    : bool :=
  IsReferenceRep (GetRepresentation c virtual_register).

(** One round of the loop of [RecordReferences]. *)
Definition RecordReferences_visit (sr : SpillRange)
    (allocated : InstructionOperand) (instr_index : Z)
    (data : MidTierRegisterAllocationData)
    : option MidTierRegisterAllocationData :=
  if (instr_index >? end_ (live_range sr))
     || (instr_index <? start_ (live_range sr))
  then Some data
  else
    instr ← InstructionAt data instr_index;
    b ← at_index (instruction_blocks (code data)) (block instr);
    live ← IsLiveAt data sr instr_index b;
    if (live : bool) then
      instrs ← set_index (instructions (code data)) instr_index
                 (RecordReference instr allocated);
      Some (set_instructions data instrs)
    else Some data.

Fixpoint RecordReferences_loop (sr : SpillRange)
    (allocated : InstructionOperand) (indices : list Z)
    (data : MidTierRegisterAllocationData)
    : option MidTierRegisterAllocationData :=
  match indices with
  | [] => Some data
  | instr_index :: indices' =>
      data ← RecordReferences_visit sr allocated instr_index data;
      RecordReferences_loop sr allocated indices' data
  end.

Definition RecordReferences (v : Z) (data : MidTierRegisterAllocationData)
    : option MidTierRegisterAllocationData :=
  vd ← VirtualRegisterDataFor data v;
  is_alloc ← HasAllocatedSpillOperand data vd;
  if negb is_alloc then Some data
  else if negb (IsReference (code data) (vreg vd)) then Some data
  else
    sr ← spill_range_ vd;
    p ← spill_operand_ vd;
    allocated ← read_operand data p;
    RecordReferences_loop sr allocated (reference_map_instructions data) data.

Fixpoint PopulateReferenceMaps_loop (vs : list Z)
    (data : MidTierRegisterAllocationData)
    : option MidTierRegisterAllocationData :=
  match vs with
  | [] => Some data
  | v :: vs' =>
      data ← RecordReferences v data;
      PopulateReferenceMaps_loop vs' data
  end.

Definition PopulateReferenceMaps (data : MidTierRegisterAllocationData)
    : option MidTierRegisterAllocationData :=
  PopulateReferenceMaps_loop
    (BitVector_elements (spilled_virtual_registers data)) data.

(** ** Operand allocation *)

(** Modelled from the spec: the policy tests of [UnallocatedOperand]. *)
Definition HasRegisterPolicy (u : UnallocatedOperand) : bool :=
  match policy u with MUST_HAVE_REGISTER => true | _ => false end.
Definition HasSlotPolicy (u : UnallocatedOperand) : bool :=
  match policy u with MUST_HAVE_SLOT => true | _ => false end.
Definition HasFixedRegisterPolicy (u : UnallocatedOperand) : bool :=
  match policy u with FIXED_REGISTER _ => true | _ => false end.
Definition HasFixedFPRegisterPolicy (u : UnallocatedOperand) : bool :=
  match policy u with FIXED_FP_REGISTER _ => true | _ => false end.
Definition HasFixedPolicy (u : UnallocatedOperand) : bool :=
  HasFixedSlotPolicy u || HasFixedRegisterPolicy u
  || HasFixedFPRegisterPolicy u.
Definition HasRegisterOrSlotOrConstantPolicy (u : UnallocatedOperand) : bool :=
  match policy u with REGISTER_OR_SLOT_OR_CONSTANT => true | _ => false end.
Definition HasSameAsInputPolicy (u : UnallocatedOperand) : bool :=
  match policy u with SAME_AS_INPUT => true | _ => false end.
Definition IsUsedAtStart (u : UnallocatedOperand) : bool := used_at_start u.
Definition fixed_register_index (u : UnallocatedOperand) : option Z :=
  match policy u with
  | FIXED_REGISTER i | FIXED_FP_REGISTER i => Some i
  | _ => None
  end.

(** [UnallocatedOperand::cast(operand)] of the operand at an address. *)
Definition read_unallocated (data : MidTierRegisterAllocationData)
    (operand : nat) : option UnallocatedOperand :=
  op ← read_operand data operand;
  match op with Unallocated u => Some u | _ => None end.

Definition EnsureRegisterState (a : SinglePassRegisterAllocator)
    : SinglePassRegisterAllocator :=
  if HasRegisterState a then a
  else set_register_state a
         (Some (RegisterState_new (num_allocatable_registers a))).

Definition CommitRegister (reg virtual_register : Z) (operand : nat)
    (pos : UsePosition) (a : SinglePassRegisterAllocator)
    (data : MidTierRegisterAllocationData)
    : option (SinglePassRegisterAllocator * MidTierRegisterAllocationData) :=
  allocated ← AllocatedOperandForReg a data reg virtual_register;
  rs ← register_state_ a;
  '(rs, data) ← RegisterState_Commit rs reg allocated operand data;
  a ← MarkRegisterUse (set_register_state a (Some rs)) reg pos;
  a ← FreeRegister a reg virtual_register;
  Some (a, data).

Definition AllocateUse (reg virtual_register : Z) (operand : nat)
    (instr_index : Z) (pos : UsePosition) (a : SinglePassRegisterAllocator)
    (data : MidTierRegisterAllocationData)
    : option (SinglePassRegisterAllocator * MidTierRegisterAllocationData) :=
  allocated ← AllocatedOperandForReg a data reg virtual_register;
  rs ← register_state_ a;
  '(rs, data) ← RegisterState_Commit rs reg allocated operand data;
  rs ← RegisterState_AllocateUse rs reg virtual_register instr_index;
  a ← AssignRegister (set_register_state a (Some rs)) reg virtual_register pos;
  Some (a, data).

Definition AllocatePendingUse (reg virtual_register : Z) (operand : nat)
    (instr_index : Z) (a : SinglePassRegisterAllocator)
    (data : MidTierRegisterAllocationData)
    : option (SinglePassRegisterAllocator * MidTierRegisterAllocationData) :=
  rs ← register_state_ a;
  '(rs, data) ← RegisterState_AllocatePendingUse rs reg virtual_register
                  operand instr_index data;
  a ← AssignRegister (set_register_state a (Some rs)) reg virtual_register
        kNone;
  Some (a, data).

Definition AllocateUseWithMove (reg virtual_register : Z) (operand : nat)
    (instr_index : Z) (pos : UsePosition) (a : SinglePassRegisterAllocator)
    (data : MidTierRegisterAllocationData)
    : option (SinglePassRegisterAllocator * MidTierRegisterAllocationData) :=
  to ← AllocatedOperandForReg a data reg virtual_register;
  let from :=
    Unallocated (mkUnallocated REGISTER_OR_SLOT false virtual_register) in
  '(_, data) ← AddGapMove data instr_index END from to;
  data ← ReplaceWith_value data operand to;
  a ← MarkRegisterUse a reg pos;
  Some (a, data).

Definition AllocateInput (operand : nat) (instr_index : Z)
    (a : SinglePassRegisterAllocator) (data : MidTierRegisterAllocationData)
    : option (SinglePassRegisterAllocator * MidTierRegisterAllocationData) :=
  let a := EnsureRegisterState a in
  u ← read_unallocated data operand;
  let virtual_register := uo_virtual_register u in
  let rep := RepresentationFor data virtual_register in
  vreg_data ← VirtualRegisterDataFor data virtual_register;
  if HasFixedSlotPolicy u then
    let input_copy :=
      Unallocated (mkUnallocated REGISTER_OR_SLOT false virtual_register) in
    let allocated := Allocated STACK_SLOT rep (fixed_slot_index u) in
    data ← ReplaceWith_value data operand allocated;
    '(move_op, data) ← AddGapMove data instr_index END input_copy allocated;
    data ← SpillOperand virtual_register (source move_op) instr_index data;
    Some (a, data)
  else if HasSlotPolicy u then
    data ← SpillOperand virtual_register operand instr_index data;
    Some (a, data)
  else
    let pos := if IsUsedAtStart u then kStart else kAll in
    if HasFixedRegisterPolicy u || HasFixedFPRegisterPolicy u then
      reg_code ← fixed_register_index u;
      reg ← FromRegCode a reg_code;
      in_reg ← VirtualRegisterIsUnallocatedOrInReg a virtual_register reg;
      if negb in_reg
      then AllocateUseWithMove reg virtual_register operand instr_index pos
             a data
      else AllocateUse reg virtual_register operand instr_index pos a data
    else
      let must_use_register :=
        HasRegisterPolicy u
        || (is_constant vreg_data
            && negb (HasRegisterOrSlotOrConstantPolicy u)) in
      '(reg, a, data) ← ChooseRegisterFor virtual_register pos
                          must_use_register a data;
      if is_valid reg then
        if must_use_register
        then AllocateUse reg virtual_register operand instr_index pos a data
        else AllocatePendingUse reg virtual_register operand instr_index
               a data
      else
        data ← SpillOperand virtual_register operand instr_index data;
        Some (a, data).

Definition AllocateGapMoveInput (operand : nat) (instr_index : Z)
    (a : SinglePassRegisterAllocator) (data : MidTierRegisterAllocationData)
    : option (SinglePassRegisterAllocator * MidTierRegisterAllocationData) :=
  let a := EnsureRegisterState a in
  u ← read_unallocated data operand;
  let virtual_register := uo_virtual_register u in
  _ ← VirtualRegisterDataFor data virtual_register;
  '(reg, a, data) ← ChooseRegisterFor virtual_register kStart false a data;
  if is_valid reg
  then AllocatePendingUse reg virtual_register operand instr_index a data
  else
    data ← SpillOperand virtual_register operand instr_index data;
    Some (a, data).

Definition AllocateConstantOutput (operand : nat)
    (a : SinglePassRegisterAllocator) (data : MidTierRegisterAllocationData)
    : option (SinglePassRegisterAllocator * MidTierRegisterAllocationData) :=
  let a := EnsureRegisterState a in
  op ← read_operand data operand;
  match op with
  | Constant virtual_register =>
      SpillRegisterForVirtualRegister virtual_register a data
  | _ => None
  end.

(** [AllocateOutput(operand, instr_index, pos)].  The local
    [move_output_to], whose address is handed to [CommitRegister], is given
    a cell at the end of the arena. *)
Definition AllocateOutput_at (operand : nat) (instr_index : Z)
    (pos : UsePosition) (a : SinglePassRegisterAllocator)
    (data : MidTierRegisterAllocationData)
    : option (Z * SinglePassRegisterAllocator * MidTierRegisterAllocationData) :=
  let a := EnsureRegisterState a in
  u ← read_unallocated data operand;
  let virtual_register := uo_virtual_register u in
  _ ← VirtualRegisterDataFor data virtual_register;
  '(reg, a, data) ←
    (if HasSlotPolicy u || HasFixedSlotPolicy u then
       '(a, data) ← SpillRegisterForVirtualRegister virtual_register a data;
       Some (RegisterIndex_Invalid, a, data)
     else if HasFixedPolicy u then
       reg_code ← fixed_register_index u;
       reg ← FromRegCode a reg_code;
       Some (reg, a, data)
     else ChooseRegisterFor virtual_register pos (HasRegisterPolicy u) a data);
  if negb (is_valid reg) then
    data ← SpillOperand virtual_register operand instr_index data;
    Some (reg, a, data)
  else
    let move_output_to := length (operands data) in
    let data := set_operands data (operands data ++ [InvalidOperand]) in
    in_reg ← VirtualRegisterIsUnallocatedOrInReg a virtual_register reg;
    '(a, data) ←
      (if negb in_reg then
         existing_reg ← RegisterForVirtualRegister a virtual_register;
         CommitRegister existing_reg virtual_register move_output_to kNone
           a data
       else Some (a, data));
    '(a, data) ← CommitRegister reg virtual_register operand pos a data;
    output ← read_operand data operand;
    to ← read_operand data move_output_to;
    data ← (if IsAllocated to
            then EmitGapMoveFromOutput output to instr_index data
            else Some data);
    vreg_data ← VirtualRegisterDataFor data virtual_register;
    data ← (if NeedsSpillAtOutput vreg_data then
              b ← GetBlockOfInstr data instr_index;
              EmitGapMoveFromOutputToSpillSlot virtual_register output b
                instr_index data
            else Some data);
    Some (reg, a, data).

(** [AllocateOutput(operand, instr_index)] *)
Definition AllocateOutput (operand : nat) (instr_index : Z)
    (a : SinglePassRegisterAllocator) (data : MidTierRegisterAllocationData)
    : option (SinglePassRegisterAllocator * MidTierRegisterAllocationData) :=
  '(_, a, data) ← AllocateOutput_at operand instr_index kEnd a data;
  Some (a, data).

Definition AllocateSameInputOutput (output input : nat) (instr_index : Z)
    (a : SinglePassRegisterAllocator) (data : MidTierRegisterAllocationData)
    : option (SinglePassRegisterAllocator * MidTierRegisterAllocationData) :=
  let a := EnsureRegisterState a in
  input_u ← read_unallocated data input;
  output_u ← read_unallocated data output;
  let input_vreg := uo_virtual_register input_u in
  let output_vreg := uo_virtual_register output_u in
  let output_as_input :=
    Unallocated (mkUnallocated (policy input_u) (used_at_start input_u)
                   output_vreg) in
  data ← ReplaceWith_value data output output_as_input;
  '(reg, a, data) ← AllocateOutput_at output instr_index kAll a data;
  if is_valid reg then
    reg_code ← ToRegCode a reg;
    let fixed_input :=
      Unallocated
        (mkUnallocated
           (match kind a with
            | kGeneral => FIXED_REGISTER reg_code
            | kDouble => FIXED_FP_REGISTER reg_code
            end) false input_vreg) in
    data ← ReplaceWith_value data input fixed_input;
    Some (a, data)
  else
    _ ← VirtualRegisterDataFor data output_vreg;
    data ← SpillOperand output_vreg input instr_index data;
    let unconstrained_input :=
      Unallocated (mkUnallocated REGISTER_OR_SLOT false input_vreg) in
    '(move_ops, data) ← AddGapMove data instr_index END unconstrained_input
                          (Pending None);
    data ← SpillOperand output_vreg (destination move_ops) instr_index data;
    Some (a, data).

Definition AllocateTemp (operand : nat) (instr_index : Z)
    (a : SinglePassRegisterAllocator) (data : MidTierRegisterAllocationData)
    : option (SinglePassRegisterAllocator * MidTierRegisterAllocationData) :=
  let a := EnsureRegisterState a in
  u ← read_unallocated data operand;
  let virtual_register := uo_virtual_register u in
  '(reg, a, data) ←
    (if HasSlotPolicy u then Some (RegisterIndex_Invalid, a, data)
     else if HasFixedRegisterPolicy u || HasFixedFPRegisterPolicy u then
       reg_code ← fixed_register_index u;
       reg ← FromRegCode a reg_code;
       Some (reg, a, data)
     else ChooseRegisterFor_rep kAll (HasRegisterPolicy u) a data);
  if is_valid reg
  then CommitRegister reg virtual_register operand kAll a data
  else
    _ ← VirtualRegisterDataFor data virtual_register;
    data ← SpillOperand virtual_register operand instr_index data;
    Some (a, data).

Definition DefinedAfter (data : MidTierRegisterAllocationData)
    (virtual_register instr_index : Z) (pos : UsePosition) : option bool :=
  if virtual_register =? kInvalidVirtualRegister then Some false
  else
    vd ← VirtualRegisterDataFor data virtual_register;
    let defined_at := output_instr_index vd in
    Some ((defined_at >? instr_index)
          || ((defined_at =? instr_index)
              && match pos with kStart => true | _ => false end)).

(** [u] is the operand the caller read at the address it reserves for. *)
Definition ReserveFixedRegister (u : UnallocatedOperand) (instr_index : Z)
    (pos : UsePosition) (a : SinglePassRegisterAllocator)
    (data : MidTierRegisterAllocationData)
    : option (SinglePassRegisterAllocator * MidTierRegisterAllocationData) :=
  let a := EnsureRegisterState a in
  let virtual_register := uo_virtual_register u in
  reg_code ← fixed_register_index u;
  reg ← FromRegCode a reg_code;
  free ← IsFreeOrSameVirtualRegister a reg virtual_register;
  spill ← (if negb free
           then d ← DefinedAfter data virtual_register instr_index pos;
                Some (negb d)
           else Some false);
  '(a, data) ← (if (spill : bool) then SpillRegister reg a data
                else Some (a, data));
  a ← MarkRegisterUse a reg pos;
  Some (a, data).

Definition ReserveFixedInputRegister (u : UnallocatedOperand)
    (instr_index : Z) :=
  ReserveFixedRegister u instr_index (if IsUsedAtStart u then kStart else kAll).

Definition ReserveFixedTempRegister (u : UnallocatedOperand)
    (instr_index : Z) :=
  ReserveFixedRegister u instr_index kAll.

Definition ReserveFixedOutputRegister (u : UnallocatedOperand)
    (instr_index : Z) :=
  ReserveFixedRegister u instr_index kEnd.

(** ** MidTierRegisterAllocator *)

Record MidTierRegisterAllocator := mkMidTier {
  general_reg_allocator : SinglePassRegisterAllocator;
  double_reg_allocator : SinglePassRegisterAllocator
}.

(** [AllocatorFor(MachineRepresentation)], as the kind of the allocator it
    answers. *)
Definition AllocatorFor_rep (rep : MachineRepresentation) : RegisterKind :=
  if IsFloatingPoint rep then kDouble else kGeneral.

(** [AllocatorFor(operand)] for an operand of the given virtual register. *)
Definition AllocatorFor (data : MidTierRegisterAllocationData)
    (virtual_register : Z) : RegisterKind :=
  AllocatorFor_rep (RepresentationFor data virtual_register).

(** Run a method of the chosen sub-allocator. *)
Definition on_allocator (k : RegisterKind)
    (f : SinglePassRegisterAllocator -> MidTierRegisterAllocationData ->
         option (SinglePassRegisterAllocator * MidTierRegisterAllocationData))
    (m : MidTierRegisterAllocator) (data : MidTierRegisterAllocationData)
    : option (MidTierRegisterAllocator * MidTierRegisterAllocationData) :=
  match k with
  | kGeneral =>
      '(a, data) ← f (general_reg_allocator m) data;
      Some (mkMidTier a (double_reg_allocator m), data)
  | kDouble =>
      '(a, data) ← f (double_reg_allocator m) data;
      Some (mkMidTier (general_reg_allocator m) a, data)
  end.

Definition IsFixedRegisterPolicy (u : UnallocatedOperand) : bool :=
  HasFixedRegisterPolicy u || HasFixedFPRegisterPolicy u.

(** The first loop of [ReserveFixedRegisters]; [i] is the index of the head
    of [outs] among the outputs of [instr]. *)
Fixpoint ReserveFixed_outputs (instr : Instruction) (instr_index : Z)
    (i : nat) (outs : list nat) (m : MidTierRegisterAllocator)
    (data : MidTierRegisterAllocationData)
    : option (MidTierRegisterAllocator * MidTierRegisterAllocationData) :=
  match outs with
  | [] => Some (m, data)
  | output :: outs' =>
      op ← read_operand data output;
      '(m, data) ←
        match op with
        | Unallocated u =>
            u ← (if HasSameAsInputPolicy u
                 then input ← inputs instr !! i; read_unallocated data input
                 else Some u);
            if IsFixedRegisterPolicy u
            then on_allocator (AllocatorFor data (uo_virtual_register u))
                   (ReserveFixedOutputRegister u instr_index) m data
            else Some (m, data)
        | _ => Some (m, data)
        end;
      ReserveFixed_outputs instr instr_index (S i) outs' m data
  end.

(** The loops of [ReserveFixedRegisters] over the temps and the inputs. *)
Fixpoint ReserveFixed_operands
    (reserve : UnallocatedOperand -> Z -> SinglePassRegisterAllocator ->
               MidTierRegisterAllocationData ->
               option (SinglePassRegisterAllocator
                       * MidTierRegisterAllocationData))
    (instr_index : Z) (ops : list nat) (m : MidTierRegisterAllocator)
    (data : MidTierRegisterAllocationData)
    : option (MidTierRegisterAllocator * MidTierRegisterAllocationData) :=
  match ops with
  | [] => Some (m, data)
  | operand :: ops' =>
      op ← read_operand data operand;
      '(m, data) ←
        match op with
        | Unallocated u =>
            if IsFixedRegisterPolicy u
            then on_allocator (AllocatorFor data (uo_virtual_register u))
                   (reserve u instr_index) m data
            else Some (m, data)
        | _ => Some (m, data)
        end;
      ReserveFixed_operands reserve instr_index ops' m data
  end.

Definition ReserveFixedRegisters (instr_index : Z)
    (m : MidTierRegisterAllocator) (data : MidTierRegisterAllocationData)
    : option (MidTierRegisterAllocator * MidTierRegisterAllocationData) :=
  instr ← InstructionAt data instr_index;
  '(m, data) ← ReserveFixed_outputs instr instr_index 0%nat (outputs instr)
                 m data;
  '(m, data) ← ReserveFixed_operands ReserveFixedTempRegister instr_index
                 (temps instr) m data;
  ReserveFixed_operands ReserveFixedInputRegister instr_index (inputs instr)
    m data.

(** The loop of [AllocateRegisters(block)] over the outputs. *)
Fixpoint Allocate_outputs (instr : Instruction) (instr_index : Z)
    (outs : list nat) (m : MidTierRegisterAllocator)
    (data : MidTierRegisterAllocationData)
    : option (MidTierRegisterAllocator * MidTierRegisterAllocationData) :=
  match outs with
  | [] => Some (m, data)
  | output :: outs' =>
      op ← read_operand data output;
      '(m, data) ←
        match op with
        | Constant virtual_register =>
            on_allocator (AllocatorFor data virtual_register)
              (AllocateConstantOutput output) m data
        | Unallocated u =>
            if HasSameAsInputPolicy u then
              input ← inputs instr !! 0%nat;
              _ ← read_unallocated data input;
              on_allocator (AllocatorFor data (uo_virtual_register u))
                (AllocateSameInputOutput output input instr_index) m data
            else
              on_allocator (AllocatorFor data (uo_virtual_register u))
                (AllocateOutput output instr_index) m data
        | _ => None
        end;
      Allocate_outputs instr instr_index outs' m data
  end.

Fixpoint Allocate_temps (instr_index : Z) (ts : list nat)
    (m : MidTierRegisterAllocator) (data : MidTierRegisterAllocationData)
    : option (MidTierRegisterAllocator * MidTierRegisterAllocationData) :=
  match ts with
  | [] => Some (m, data)
  | temp :: ts' =>
      u ← read_unallocated data temp;
      '(m, data) ← on_allocator (AllocatorFor data (uo_virtual_register u))
                     (AllocateTemp temp instr_index) m data;
      Allocate_temps instr_index ts' m data
  end.

(** The two loops over the inputs: with [skip_used_at_start] the inputs
    used at the start of the instruction are left for the second loop. *)
Fixpoint Allocate_inputs (skip_used_at_start : bool) (instr_index : Z)
    (ins : list nat) (m : MidTierRegisterAllocator)
    (data : MidTierRegisterAllocationData)
    : option (MidTierRegisterAllocator * MidTierRegisterAllocationData) :=
  match ins with
  | [] => Some (m, data)
  | input :: ins' =>
      op ← read_operand data input;
      '(m, data) ←
        match op with
        | Unallocated u =>
            if skip_used_at_start && IsUsedAtStart u then Some (m, data)
            else on_allocator (AllocatorFor data (uo_virtual_register u))
                   (AllocateInput input instr_index) m data
        | _ => Some (m, data)
        end;
      Allocate_inputs skip_used_at_start instr_index ins' m data
  end.

(** The loop over the END parallel move.  Allocating a gap move input
    never adds a gap move, so the moves present when the loop starts are
    the moves it visits. *)
Fixpoint Allocate_gap_move_inputs (instr_index : Z)
    (moves : list MoveOperands) (m : MidTierRegisterAllocator)
    (data : MidTierRegisterAllocationData)
    : option (MidTierRegisterAllocator * MidTierRegisterAllocationData) :=
  match moves with
  | [] => Some (m, data)
  | move :: moves' =>
      op ← read_operand data (source move);
      '(m, data) ←
        match op with
        | Unallocated u =>
            on_allocator (AllocatorFor data (uo_virtual_register u))
              (AllocateGapMoveInput (source move) instr_index) m data
        | _ => Some (m, data)
        end;
      Allocate_gap_move_inputs instr_index moves' m data
  end.

Definition lift_allocator
    (f : SinglePassRegisterAllocator -> SinglePassRegisterAllocator)
    (a : SinglePassRegisterAllocator) (data : MidTierRegisterAllocationData)
    : option (SinglePassRegisterAllocator * MidTierRegisterAllocationData) :=
  Some (f a, data).

(** The body of the loop of [AllocateRegisters(block)]. *)
Definition AllocateRegisters_instr (instr_index : Z)
    (m : MidTierRegisterAllocator) (data : MidTierRegisterAllocationData)
    : option (MidTierRegisterAllocator * MidTierRegisterAllocationData) :=
  instr ← InstructionAt data instr_index;
  '(m, data) ← ReserveFixedRegisters instr_index m data;
  '(m, data) ← Allocate_outputs instr instr_index (outputs instr) m data;
  '(m, data) ← (if ClobbersRegisters instr
                then on_allocator kGeneral SpillAllRegisters m data
                else Some (m, data));
  '(m, data) ← (if ClobbersDoubleRegisters instr
                then on_allocator kDouble SpillAllRegisters m data
                else Some (m, data));
  '(m, data) ← Allocate_temps instr_index (temps instr) m data;
  '(m, data) ← Allocate_inputs true instr_index (inputs instr) m data;
  '(m, data) ← Allocate_inputs false instr_index (inputs instr) m data;
  instr ← InstructionAt data instr_index;
  '(m, data) ← Allocate_gap_move_inputs instr_index
                 (GetParallelMove instr END) m data;
  '(m, data) ← on_allocator kGeneral (lift_allocator EndInstruction) m data;
  on_allocator kDouble (lift_allocator EndInstruction) m data.

Fixpoint AllocateRegisters_instrs (indices : list Z)
    (m : MidTierRegisterAllocator) (data : MidTierRegisterAllocationData)
    : option (MidTierRegisterAllocator * MidTierRegisterAllocationData) :=
  match indices with
  | [] => Some (m, data)
  | instr_index :: indices' =>
      '(m, data) ← AllocateRegisters_instr instr_index m data;
      AllocateRegisters_instrs indices' m data
  end.

(** [AllocateRegisters(const InstructionBlock* block)] *)
Definition AllocateRegisters_block (b : InstructionBlock)
    (m : MidTierRegisterAllocator) (data : MidTierRegisterAllocationData)
    : option (MidTierRegisterAllocator * MidTierRegisterAllocationData) :=
  let m := mkMidTier (StartBlock (general_reg_allocator m) b)
             (StartBlock (double_reg_allocator m) b) in
  '(m, data) ← AllocateRegisters_instrs
                 (indices_downto (last_instruction_index b)
                    (first_instruction_index b)) m data;
  '(m, data) ← on_allocator kGeneral SpillAllRegisters m data;
  '(m, data) ← on_allocator kDouble SpillAllRegisters m data;
  '(m, data) ← on_allocator kGeneral
                 (lift_allocator (fun a => EndBlock a b)) m data;
  on_allocator kDouble (lift_allocator (fun a => EndBlock a b)) m data.

Fixpoint AllocateRegisters_blocks (blocks : list InstructionBlock)
    (m : MidTierRegisterAllocator) (data : MidTierRegisterAllocationData)
    : option (MidTierRegisterAllocator * MidTierRegisterAllocationData) :=
  match blocks with
  | [] => Some (m, data)
  | b :: blocks' =>
      '(m, data) ← AllocateRegisters_block b m data;
      AllocateRegisters_blocks blocks' m data
  end.

(** [AllocateRegisters()], up to the hand-over of the assigned registers
    to the frame. *)
Definition AllocateRegisters (m : MidTierRegisterAllocator)
    (data : MidTierRegisterAllocationData)
    : option (MidTierRegisterAllocator * MidTierRegisterAllocationData) :=
  '(m, data) ← AllocateRegisters_blocks
                 (rev (instruction_blocks (code data))) m data;
  data ← UpdateSpillRangesForLoops data;
  Some (m, data).

(** ** Predicates used by the properties below *)

(** Register [r] has register data that holds a virtual register. *)
Definition allocated_in (rs : RegisterState) (r : Z) : Prop :=
  exists reg, reg_data rs r = Some reg /\ is_allocated reg = true.

Definition RegAllocated (a : SinglePassRegisterAllocator) (r : Z) : Prop :=
  exists rs, register_state_ a = Some rs /\ allocated_in rs r.

(** Every bit of [allocated_registers_bits_] belongs to a register that
    the register state holds allocated. *)
Definition BitsInv (a : SinglePassRegisterAllocator) : Prop :=
  forall r, 0 <= r ->
    Z.testbit (allocated_registers_bits_ a) r = true -> RegAllocated a r.

Definition in_use_clear (a : SinglePassRegisterAllocator) : Prop :=
  in_use_at_instr_start_bits_ a = 0 /\ in_use_at_instr_end_bits_ a = 0.

(** What [StartBlock] asserts: no register state and three zero
    bitmaps. *)
Definition no_block_state (a : SinglePassRegisterAllocator) : Prop :=
  in_use_at_instr_start_bits_ a = 0
  /\ in_use_at_instr_end_bits_ a = 0
  /\ allocated_registers_bits_ a = 0
  /\ register_state_ a = None.

(** A property of both sub-allocators. *)
Definition both (P : SinglePassRegisterAllocator -> Prop)
    (m : MidTierRegisterAllocator) : Prop :=
  P (general_reg_allocator m) /\ P (double_reg_allocator m).

(** Every record of the virtual register table satisfies [P]. *)
Definition VregInv (P : VirtualRegisterData -> Prop)
    (data : MidTierRegisterAllocationData) : Prop :=
  forall v vd, VirtualRegisterDataFor data v = Some vd -> P vd.

(** The spill range of a virtual register that is not a phi, once it
    exists, covers the instruction after the one that defines the
    register. *)
Definition covers_definition (vd : VirtualRegisterData) : Prop :=
  is_phi vd = false ->
  forall sr, spill_range_ vd = Some sr ->
    Contains (live_range sr) (output_instr_index vd + 1) = true.

(** A constant has no spill range. *)
Definition constant_unspilled (vd : VirtualRegisterData) : Prop :=
  is_constant vd = true -> spill_range_ vd = None.

(** The operations of [VirtualRegisterData] that spill, record a spill
    use or emit a gap move, as requests that can be applied to a virtual
    register in any order. *)
Inductive VregOp :=
| op_SpillOperand (operand : nat) (instr_index : Z)
| op_AddSpillUse (instr_index : Z)
| op_EmitGapMoveToInputFromSpillSlot (to_operand : InstructionOperand)
    (instr_index : Z)
| op_EmitGapMoveToSpillSlot (from_operand : InstructionOperand)
    (instr_index : Z)
| op_EmitGapMoveFromOutputToSpillSlot (from_operand : InstructionOperand)
    (current_block : InstructionBlock) (instr_index : Z).

Definition apply_op (v : Z) (op : VregOp)
    (data : MidTierRegisterAllocationData)
    : option MidTierRegisterAllocationData :=
  match op with
  | op_SpillOperand operand i => SpillOperand v operand i data
  | op_AddSpillUse i => AddSpillUse v i data
  | op_EmitGapMoveToInputFromSpillSlot to i =>
      EmitGapMoveToInputFromSpillSlot v to i data
  | op_EmitGapMoveToSpillSlot from i => EmitGapMoveToSpillSlot v from i data
  | op_EmitGapMoveFromOutputToSpillSlot from b i =>
      EmitGapMoveFromOutputToSpillSlot v from b i data
  end.

Fixpoint apply_ops (v : Z) (ops : list VregOp)
    (data : MidTierRegisterAllocationData)
    : option MidTierRegisterAllocationData :=
  match ops with
  | [] => Some data
  | op :: ops' => data ← apply_op v op data; apply_ops v ops' data
  end.

(** Virtual register [v] is a constant whose spill operand is the
    [ConstantOperand] [c] stored at [p], and it has no spill range. *)
Definition constant_state (data : MidTierRegisterAllocationData) (v : Z)
    (p : nat) (c : Z) : Prop :=
  exists vd,
    VirtualRegisterDataFor data v = Some vd
    /\ is_constant vd = true
    /\ spill_range_ vd = None
    /\ spill_operand_ vd = Some p
    /\ read_operand data p = Some (Constant c).

(** The gap moves of an instruction at a gap position. *)
Definition moves_at (data : MidTierRegisterAllocationData)
    (position : GapPosition) (instr_index : Z) : list MoveOperands :=
  match InstructionAt data instr_index with
  | Some instr => GetParallelMove instr position
  | None => []
  end.


(** The moves among [emitted] that were emitted at instruction [j]. *)
Definition emitted_at (emitted : list (Z * MoveOperands)) (j : Z)
    : list MoveOperands :=
  map snd (filter (fun e => fst e = j) emitted).

(** The operand at [p] is what a move into the spill slot of the
    register with record [vd] holds: a pending operand, or a copy of the
    resolved spill operand [resolved]. *)
Definition spill_slot_operand (data : MidTierRegisterAllocationData)
    (resolved : option InstructionOperand) (p : nat) : Prop :=
  exists op,
    read_operand data p = Some op
    /\ match resolved with
       | Some r => op = r
       | None => IsPending op = true
       end.

(** The spill operand of a register when it is resolved (allocated, or
    the constant of a constant). *)
Definition resolved_spill_operand (data : MidTierRegisterAllocationData)
    (v : Z) : option InstructionOperand :=
  vd ← VirtualRegisterDataFor data v;
  p ← spill_operand_ vd;
  op ← read_operand data p;
  if IsAllocated op || is_constant vd then Some op else None.

(** What a run of emissions into the spill slot of [v] leaves: the moves
    [emitted], each with the instruction it was emitted at. *)
Definition emits (v : Z) (from : InstructionOperand)
    (data data' : MidTierRegisterAllocationData)
    (emitted : list (Z * MoveOperands)) : Prop :=
  (forall pos j,
     moves_at data' pos j
     = moves_at data pos j
       ++ (if decide (pos = START) then emitted_at emitted j else []))
  /\ (forall e, In e emitted ->
        read_operand data' (source (snd e)) = Some from
        /\ spill_slot_operand data' (resolved_spill_operand data v)
             (destination (snd e)))
  /\ (length (operands data) <= length (operands data'))%nat
  /\ (forall p, (p < length (operands data))%nat ->
        operands data' !! p = operands data !! p)
  /\ resolved_spill_operand data' v = resolved_spill_operand data v
  /\ instruction_blocks (code data') = instruction_blocks (code data).

(** The chain of pending operands that starts at [head] visits exactly
    the addresses [l], in that order, and ends in a null [next]. *)
Inductive pending_chain (ops : list InstructionOperand)
    : option nat -> list nat -> Prop :=
| pending_chain_end : pending_chain ops None []
| pending_chain_link p next l :
    ops !! p = Some (Pending next) ->
    pending_chain ops next l ->
    pending_chain ops (Some p) (p :: l).


(** [dominates blocks b j]: block [b] is on the chain of immediate
    dominators that starts at block [j], [j] included. *)
Inductive dominates (blocks : list InstructionBlock) (b : Z) : Z -> Prop :=
| dominates_self blk :
    at_index blocks b = Some blk -> dominates blocks b b
| dominates_idom j blk :
    at_index blocks j = Some blk ->
    RpoNumber_IsValid (dominator blk) = true ->
    dominates blocks b (dominator blk) ->
    dominates blocks b j.

(** The blocks are numbered by their position, and the immediate
    dominator of a block comes before the block. *)
Definition rpo_ordered (blocks : list InstructionBlock) : Prop :=
  forall k blk,
    at_index blocks k = Some blk ->
    rpo_number blk = k /\ dominator blk < k.

(** Membership of [j] in [dominated_blocks()] of the state of block
    [b]. *)
Definition dominated_blocks (data : MidTierRegisterAllocationData)
    (b j : Z) : bool :=
  match block_state data b with
  | Some bv => BitVector_Contains bv j
  | None => false
  end.

(** The dominated sets once the blocks from [k] on have been visited:
    block [b] holds its own dominated blocks when it has been visited, and
    those of its visited children in the dominator tree otherwise. *)
Definition dominated_from (blocks : list InstructionBlock) (k : nat)
    (data : MidTierRegisterAllocationData) : Prop :=
  forall b j,
    dominated_blocks data b j = true
    <-> (Z.of_nat k <= b /\ dominates blocks b j)
        \/ (exists c blk,
              Z.of_nat k <= c
              /\ at_index blocks c = Some blk
              /\ RpoNumber_IsValid (dominator blk) = true
              /\ dominator blk = b
              /\ dominates blocks c j).

(** Everything but the instructions is the same in both, and so is the
    number of instructions. *)
Definition same_but_instructions
    (data data' : MidTierRegisterAllocationData) : Prop :=
  operands data' = operands data
  /\ virtual_register_data_ data' = virtual_register_data_ data
  /\ block_states_ data' = block_states_ data
  /\ reference_map_instructions data' = reference_map_instructions data
  /\ spilled_virtual_registers data' = spilled_virtual_registers data
  /\ instruction_blocks (code data') = instruction_blocks (code data)
  /\ representations (code data') = representations (code data).

(** The spill range [sr] is live at instruction [instr] of index [i]: the
    index is within the live range and the block of the instruction is in
    the live blocks. *)
Definition live_in (data : MidTierRegisterAllocationData) (sr : SpillRange)
    (i : Z) (instr : Instruction) : Prop :=
  Contains (live_range sr) i = true
  /\ exists b bv,
       GetBlock data (block instr) = Some b
       /\ block_state data (live_blocks sr) = Some bv
       /\ BitVector_Contains bv (rpo_number b) = true.

(** Register [v] is a reference with the allocated spill operand [op], and
    [i] is a reference-map instruction at which its spill range is
    live. *)
Definition records_reference (data : MidTierRegisterAllocationData)
    (v : Z) (i : Z) (op : InstructionOperand) : Prop :=
  exists vd sr p instr,
    VirtualRegisterDataFor data v = Some vd
    /\ spill_operand_ vd = Some p
    /\ read_operand data p = Some op
    /\ IsAllocated op = true
    /\ IsReference (code data) (vreg vd) = true
    /\ spill_range_ vd = Some sr
    /\ In i (reference_map_instructions data)
    /\ InstructionAt data i = Some instr
    /\ live_in data sr i instr.

(** The reference maps of [data'] are those of [data] with the operands
    that satisfy [added]. *)
Definition reference_maps_extended
    (data data' : MidTierRegisterAllocationData)
    (added : Z -> Instruction -> InstructionOperand -> Prop) : Prop :=
  forall i instr,
    InstructionAt data i = Some instr ->
    exists instr',
      InstructionAt data' i = Some instr'
      /\ block instr' = block instr
      /\ forall op,
           In op (reference_map instr')
           <-> In op (reference_map instr) \/ added i instr op.

(** The stack slot that the spill operand of [v] names. *)
Definition spill_slot_of (data : MidTierRegisterAllocationData) (v : Z)
    : option Z :=
  vd ← VirtualRegisterDataFor data v;
  p ← spill_operand_ vd;
  op ← read_operand data p;
  match op with
  | Allocated STACK_SLOT _ index => Some index
  | _ => None
  end.

(** The live range of the spill range of [v]. *)
Definition spill_live_range (data : MidTierRegisterAllocationData) (v : Z)
    : option Range :=
  vd ← VirtualRegisterDataFor data v;
  sr ← spill_range_ vd;
  Some (live_range sr).

(** [v] is one of the registers that [AllocateSpillSlots] gives a slot
    to: it is in the spilled set and its spill operand is pending. *)
Definition swept (data : MidTierRegisterAllocationData) (v : Z) : Prop :=
  In v (BitVector_elements (spilled_virtual_registers data))
  /\ exists vd,
       VirtualRegisterDataFor data v = Some vd
       /\ HasPendingSpillOperand data vd = Some true.

(** No instruction index is in both ranges. *)
Definition ranges_disjoint (r1 r2 : Range) : Prop :=
  forall i, ~ (Contains r1 i = true /\ Contains r2 i = true).

(** The frame never hands out a slot twice: [owns f s] holds of the slots
    that frame [f] has handed out. *)
Definition fresh_slots (owns : Frame -> Z -> Prop) : Prop :=
  forall f width f' s,
    Frame_AllocateSpillSlot f width = (f', s) ->
    ~ owns f s /\ owns f' s /\ forall s', owns f s' -> owns f' s'.

(** The registers [vs] in ascending order of the start of their live
    ranges [lrs]. *)
Definition sorted_by_start (lrs : Z -> option Range) (vs : list Z) : Prop :=
  StronglySorted
    (fun a b => forall ra rb,
       lrs a = Some ra -> lrs b = Some rb -> start_ ra <= start_ rb) vs.

(** The state of the sweep of [AllocateSpillSlots] that started from
    [data0], between two calls of [Allocate]: the registers [done] have
    their slots, the registers [remaining] are still to come. *)
Definition sweep_inv (owns : Frame -> Z -> Prop)
    (data0 : MidTierRegisterAllocationData) (done remaining : list Z)
    (al : MidTierSpillSlotAllocator) (data : MidTierRegisterAllocationData)
    : Prop :=
  let slots := allocated_slots_ al ++ free_slots_ al in
  let lrs := spill_live_range data0 in
  virtual_register_data_ data = virtual_register_data_ data0
  /\ List.NoDup (map stack_slot_ slots)
  /\ (forall t, In t slots -> owns (frame data) (stack_slot_ t))
  /\ (forall v, In v done ->
        exists lr t,
          lrs v = Some lr
          /\ In t slots
          /\ spill_slot_of data v = Some (stack_slot_ t)
          /\ end_ lr <= last_use t)
  /\ (forall t v lr,
        In t (free_slots_ al) -> In v remaining -> lrs v = Some lr ->
        last_use t < start_ lr)
  /\ (forall v1 v2 r1 r2 index,
        In v1 done -> In v2 done -> v1 <> v2 ->
        spill_slot_of data v1 = Some index ->
        spill_slot_of data v2 = Some index ->
        lrs v1 = Some r1 -> lrs v2 = Some r2 ->
        ranges_disjoint r1 r2).

(** ** Predicates used by the properties of the remaining code *)

(** Register [r] is taken at [pos]: it is marked in use there or it is
    allocated. *)
Definition busy (a : SinglePassRegisterAllocator) (in_use : Z) (r : Z)
    : bool :=
  Z.testbit in_use r || Z.testbit (allocated_registers_bits_ a) r.

(** The positions at which a register marked in use at [pos] is looked
    for by a request at [pos']. *)
Definition positions_overlap (pos pos' : UsePosition) : bool :=
  match pos, pos' with
  | kNone, _ | _, kNone => false
  | kStart, kEnd | kEnd, kStart => false
  | _, _ => true
  end.

(** ** CheckConsistency *)

(** A run of [CHECK]s: [Some true] when all pass, [Some false] at the
    first that fails. *)
Fixpoint all_checks (check : Z -> option bool) (l : list Z) : option bool :=
  match l with
  | [] => Some true
  | x :: l' =>
      b ← check x;
      if (b : bool) then all_checks check l' else Some false
  end.

(** [allocated_registers_bits_ & reg.ToBit(rep)] as a truth value. *)
Definition has_allocated_bit (a : SinglePassRegisterAllocator) (reg : Z)
    : option bool :=
  bit ← ToBit reg;
  Some (negb (Z.land (allocated_registers_bits_ a) bit =? 0)).

(** The body of the first loop of [CheckConsistency]. *)
Definition CheckConsistency_vreg (a : SinglePassRegisterAllocator)
    (virtual_register : Z) : option bool :=
  reg ← RegisterForVirtualRegister a virtual_register;
  if is_valid reg then
    v ← VirtualRegisterForRegister a reg;
    if virtual_register =? v then has_allocated_bit a reg else Some false
  else Some true.

(** The body of the second loop of [CheckConsistency]. *)
Definition CheckConsistency_reg (a : SinglePassRegisterAllocator)
    (reg : Z) : option bool :=
  virtual_register ← VirtualRegisterForRegister a reg;
  if negb (virtual_register =? kInvalidVirtualRegister) then
    r ← RegisterForVirtualRegister a virtual_register;
    if reg =? r then has_allocated_bit a reg else Some false
  else Some true.

(** [CheckConsistency], as compiled with [DEBUG]; its virtual register
    count is the size the constructor gave [virtual_register_data_]. *)
Definition CheckConsistency (a : SinglePassRegisterAllocator)
    (data : MidTierRegisterAllocationData) : option bool :=
  b ← all_checks (CheckConsistency_vreg a)
         (map Z.of_nat (seq 0 (length (virtual_register_data_ data))));
  if (b : bool) then
    rs ← register_state_ a;
    all_checks (CheckConsistency_reg a) (RegisterState_indices rs)
  else Some false.

(** What the [CHECK]s of [CheckConsistency] say when [n] virtual registers
    are checked: a virtual register with a register is held by that
    register, a register that holds a virtual register is the register of
    that virtual register, and both have their bit in
    [allocated_registers_bits_]. *)
Definition Consistent (a : SinglePassRegisterAllocator) (n : nat) : Prop :=
  exists rs,
    register_state_ a = Some rs
    /\ (forall v, 0 <= v < Z.of_nat n ->
          exists reg,
            RegisterForVirtualRegister a v = Some reg
            /\ (reg <> RegisterIndex_Invalid ->
                  RegisterState_VirtualRegisterForRegister rs reg = Some v
                  /\ 0 <= reg < kBitsPerWord
                  /\ Z.testbit (allocated_registers_bits_ a) reg = true))
    /\ (forall reg, 0 <= reg < Z.of_nat (length rs) ->
          exists v,
            RegisterState_VirtualRegisterForRegister rs reg = Some v
            /\ (v <> kInvalidVirtualRegister ->
                  RegisterForVirtualRegister a v = Some reg
                  /\ reg < kBitsPerWord
                  /\ Z.testbit (allocated_registers_bits_ a) reg = true)).

(** ** Spill ranges that only grow *)

(** [vd'] is [vd] with a spill range over the same blocks whose live range
    starts no later and ends no earlier. *)
Definition spill_range_grows (vd vd' : VirtualRegisterData) : Prop :=
  spill_operand_ vd' = spill_operand_ vd
  /\ output_instr_index vd' = output_instr_index vd
  /\ vreg vd' = vreg vd
  /\ is_phi vd' = is_phi vd
  /\ is_constant vd' = is_constant vd
  /\ match spill_range_ vd, spill_range_ vd' with
     | None, None => True
     | Some sr, Some sr' =>
         live_blocks sr' = live_blocks sr
         /\ start_ (live_range sr') <= start_ (live_range sr)
         /\ end_ (live_range sr) <= end_ (live_range sr')
     | _, _ => False
     end.

(** [data'] is [data] with grown spill ranges and nothing else changed. *)
Definition spill_ranges_grow (data data' : MidTierRegisterAllocationData)
    : Prop :=
  code data' = code data
  /\ operands data' = operands data
  /\ block_states_ data' = block_states_ data
  /\ reference_map_instructions data' = reference_map_instructions data
  /\ spilled_virtual_registers data' = spilled_virtual_registers data
  /\ frame data' = frame data
  /\ forall v vd,
       VirtualRegisterDataFor data v = Some vd ->
       exists vd',
         VirtualRegisterDataFor data' v = Some vd'
         /\ spill_range_grows vd vd'.

(** The spill range of [v] is live at the first instruction of [b]. *)
Definition live_on_entry (data : MidTierRegisterAllocationData) (v : Z)
    (b : InstructionBlock) : Prop :=
  exists vd sr,
    VirtualRegisterDataFor data v = Some vd
    /\ spill_range_ vd = Some sr
    /\ IsLiveAt data sr (first_instruction_index b) b = Some true.

(** The spill range of [v] covers instruction [i]. *)
Definition spill_range_covers (data : MidTierRegisterAllocationData) (v : Z)
    (i : Z) : Prop :=
  exists vd sr,
    VirtualRegisterDataFor data v = Some vd
    /\ spill_range_ vd = Some sr
    /\ Contains (live_range sr) i = true.

(** ** Instructions that need a reference map *)

(** [code()->InstructionAt(i)->HasReferenceMap()] *)
Definition needs_reference_map (data : MidTierRegisterAllocationData)
    (i : Z) : bool :=
  match InstructionAt data i with
  | Some instr => HasReferenceMap instr
  | None => false
  end.

(** The instructions of a block that need a reference map, last
    first. *)
Definition block_reference_map_instructions
    (data : MidTierRegisterAllocationData) (b : InstructionBlock) : list Z :=
  List.filter (needs_reference_map data)
    (indices_downto (last_instruction_index b) (first_instruction_index b)).
End Allocator.

(** ** Concrete inputs *)

(** A platform with three machine types and a frame that hands out
    consecutive slot indices. *)
Inductive ExampleRep := xWord64 | xTagged | xFloat64.

Definition example_platform : Platform := {|
  MachineRepresentation := ExampleRep;
  DefaultRepresentation := xWord64;
  IsFloatingPoint := fun r => match r with xFloat64 => true | _ => false end;
  IsReferenceRep := fun r => match r with xTagged => true | _ => false end;
  ByteWidthForStackSlot := fun _ => 8;
  Frame := Z;
  Frame_AllocateSpillSlot := fun f _ => (f + 1, f)
|}.

Module Example.
#[local] Existing Instance example_platform.

Definition unallocated (p : Policy) (at_start : bool) (v : Z)
    : InstructionOperand :=
  Unallocated (mkUnallocated p at_start v).

Definition instr (outs ins : list nat) (refmap clobbers : bool)
    : Instruction :=
  mkInstruction outs ins [] [] [] refmap [] clobbers false 0.

(** One block of four instructions: [v0 = ...], [v1 = ...] (a tagged
    value), a call that clobbers the general registers and has a reference
    map, and a use of [v0] and [v1]. *)
Definition call_operands : list InstructionOperand :=
  [ unallocated MUST_HAVE_REGISTER false 0;
    unallocated MUST_HAVE_REGISTER false 1;
    unallocated MUST_HAVE_REGISTER true 0;
    unallocated MUST_HAVE_REGISTER true 1 ].

Definition call_code : InstructionSequence :=
  mkCode
    [ instr [0%nat] [] false false; instr [1%nat] [] false false;
      instr [] [] true true; instr [] [2%nat; 3%nat] false false ]
    [ mkBlock 0 0 3 [] [] (-1) false 0 [] ]
    [ xWord64; xTagged ].

Definition call_data : MidTierRegisterAllocationData :=
  MidTierRegisterAllocationData_new call_code call_operands 2 0.

(** Two allocatable registers of each kind, out of four. *)
Definition two_registers : option MidTierRegisterAllocator :=
  g ← SinglePassRegisterAllocator_new kGeneral 2 4 [0; 1];
  d ← SinglePassRegisterAllocator_new kDouble 2 4 [0; 1];
  Some (mkMidTier g d).

(** The stages of the pipeline on this input. *)
Definition call_allocator : MidTierRegisterAllocator :=
  Eval vm_compute in
    default (mkMidTier (mkAllocator [] None kGeneral 0 [] [] [] 0 0 0)
               (mkAllocator [] None kDouble 0 [] [] [] 0 0 0))
      two_registers.

Definition call_defined : MidTierRegisterAllocationData :=
  Eval vm_compute in default call_data (DefineOutputs call_data).

Definition call_allocated
    : MidTierRegisterAllocator * MidTierRegisterAllocationData :=
  Eval vm_compute in
    default (call_allocator, call_defined)
      (AllocateRegisters call_allocator call_defined).

Definition call_slots : MidTierRegisterAllocationData :=
  Eval vm_compute in
    default call_data (AllocateSpillSlots (snd call_allocated)).

Definition call_final : MidTierRegisterAllocationData :=
  Eval vm_compute in default call_data (PopulateReferenceMaps call_slots).

(** The spill slot that [AllocateSpillSlots] gives to [v1]. *)
Definition v1_slot : InstructionOperand := Allocated STACK_SLOT xTagged 1.

(** A register that holds [v0], last used by instruction 3, with two
    pending uses chained through the arena. *)
Definition pending_data : MidTierRegisterAllocationData :=
  set_operands call_defined
    (operands call_defined ++ [Pending None; Pending (Some 4%nat)]).

Definition pending_register : Register := mkRegister true 3 0 (Some 5%nat).

Definition r0_operand : InstructionOperand := Allocated REGISTER xWord64 0.

(** The same register after a third pending use, in operand 2. *)
Definition pending_used : Register * MidTierRegisterAllocationData :=
  Eval vm_compute in
    default (pending_register, pending_data)
      (Register_PendingUse pending_register 2%nat 0 3 pending_data).

(** The slots that the frame of the example platform has handed out: the
    ones below its counter. *)
Definition handed_out (f : Frame) (s : Z) : Prop := s < f.

(** One block of five instructions: [v0 = ...], [v1 = ...], [v2 = ...], a
    use of [v2] in a register, and a use of [v1] (register or slot) and of
    [v0] (in a register). *)
Definition choice_operands : list InstructionOperand :=
  [ unallocated MUST_HAVE_REGISTER false 0;
    unallocated MUST_HAVE_REGISTER false 1;
    unallocated MUST_HAVE_REGISTER false 2;
    unallocated MUST_HAVE_REGISTER true 2;
    unallocated REGISTER_OR_SLOT true 1;
    unallocated MUST_HAVE_REGISTER true 0 ].

Definition choice_code : InstructionSequence :=
  mkCode
    [ instr [0%nat] [] false false; instr [1%nat] [] false false;
      instr [2%nat] [] false false; instr [] [3%nat] false false;
      instr [] [4%nat; 5%nat] false false ]
    [ mkBlock 0 0 4 [] [] (-1) false 0 [] ]
    [ xWord64; xWord64; xWord64 ].

Definition choice_data : MidTierRegisterAllocationData :=
  MidTierRegisterAllocationData_new choice_code choice_operands 3 0.

Definition choice_block : InstructionBlock :=
  mkBlock 0 0 4 [] [] (-1) false 0 [].

Definition choice_allocator : MidTierRegisterAllocator :=
  Eval vm_compute in
    default call_allocator
      (g ← SinglePassRegisterAllocator_new kGeneral 3 4 [0; 1];
       d ← SinglePassRegisterAllocator_new kDouble 3 4 [0; 1];
       Some (mkMidTier g d)).

(** The allocator and the data once the last instruction of the block has
    been allocated. *)
Definition choice_state
    : MidTierRegisterAllocator * MidTierRegisterAllocationData :=
  Eval vm_compute in
    default (choice_allocator, choice_data)
      (data ← DefineOutputs choice_data;
       AllocateRegisters_instr 4
         (mkMidTier
            (StartBlock (general_reg_allocator choice_allocator)
               choice_block)
            (StartBlock (double_reg_allocator choice_allocator)
               choice_block))
         data).

(** Five blocks of one instruction each, with the edges 0-1, 0-4, 1-2,
    1-3, 2-4 and 3-4: the immediate dominators are none, 0, 1, 1 and 0.
    The instruction of block 1 defines [v0]. *)
Definition tree_instr (outs : list nat) (b : Z) : Instruction :=
  mkInstruction outs [] [] [] [] false [] false false b.

Definition tree_operands : list InstructionOperand :=
  [ unallocated MUST_HAVE_REGISTER false 0 ].

Definition tree_block1 : InstructionBlock :=
  mkBlock 1 1 1 [2; 3] [0] 0 false (-1) [].

Definition tree_code : InstructionSequence :=
  mkCode
    [ tree_instr [] 0; tree_instr [0%nat] 1; tree_instr [] 2;
      tree_instr [] 3; tree_instr [] 4 ]
    [ mkBlock 0 0 0 [1; 4] [] (-1) false (-1) [];
      tree_block1;
      mkBlock 2 2 2 [4] [1] 1 false (-1) [];
      mkBlock 3 3 3 [4] [1] 1 false (-1) [];
      mkBlock 4 4 4 [] [0; 2; 3] 0 false (-1) [] ]
    [ xWord64 ].

Definition tree_data : MidTierRegisterAllocationData :=
  MidTierRegisterAllocationData_new tree_code tree_operands 1 0.

Definition tree_defined : MidTierRegisterAllocationData :=
  Eval vm_compute in default tree_data (DefineOutputs tree_data).


(** One block of two instructions: [v0 = constant] and a use of [v0]. *)
Definition const_operands : list InstructionOperand :=
  [ Constant 0; unallocated REGISTER_OR_SLOT_OR_CONSTANT true 0 ].

Definition const_code : InstructionSequence :=
  mkCode
    [ instr [0%nat] [] false false; instr [] [1%nat] false false ]
    [ mkBlock 0 0 1 [] [] (-1) false (-1) [] ]
    [ xWord64 ].

Definition const_data : MidTierRegisterAllocationData :=
  MidTierRegisterAllocationData_new const_code const_operands 1 0.

Definition const_defined : MidTierRegisterAllocationData :=
  Eval vm_compute in
    default const_data (DefineAsConstantOperand const_data 0 0%nat 0).

Definition const_requests : list VregOp :=
  [ op_AddSpillUse 1; op_SpillOperand 1%nat 1;
    op_EmitGapMoveToInputFromSpillSlot r0_operand 1 ].

Definition const_spilled : MidTierRegisterAllocationData :=
  Eval vm_compute in
    default const_data (apply_ops 0 const_requests const_defined).

Definition const_allocator : MidTierRegisterAllocator :=
  Eval vm_compute in
    default call_allocator
      (g ← SinglePassRegisterAllocator_new kGeneral 1 4 [0; 1];
       d ← SinglePassRegisterAllocator_new kDouble 1 4 [0; 1];
       Some (mkMidTier g d)).

Definition const_d1 : MidTierRegisterAllocationData :=
  Eval vm_compute in default const_data (DefineOutputs const_data).

Definition const_d2
    : MidTierRegisterAllocator * MidTierRegisterAllocationData :=
  Eval vm_compute in
    default (const_allocator, const_data)
      (AllocateRegisters const_allocator const_d1).

Definition const_d3 : MidTierRegisterAllocationData :=
  Eval vm_compute in
    default const_data (AllocateSpillSlots (snd const_d2)).

Definition const_d4 : MidTierRegisterAllocationData :=
  Eval vm_compute in default const_data (PopulateReferenceMaps const_d3).

(** The block of [call_code] allocated, before the loop fixup. *)
Definition call_block : InstructionBlock :=
  mkBlock 0 0 3 [] [] (-1) false 0 [].

Definition call_block_allocated
    : MidTierRegisterAllocator * MidTierRegisterAllocationData :=
  Eval vm_compute in
    default (call_allocator, call_defined)
      (AllocateRegisters_block call_block call_allocator call_defined).

(** The registers of [choice_state] spilled. *)
Definition choice_spilled
    : SinglePassRegisterAllocator * MidTierRegisterAllocationData :=
  Eval vm_compute in
    default (general_reg_allocator (fst choice_state), snd choice_state)
      (SpillAllRegisters (general_reg_allocator (fst choice_state))
         (snd choice_state)).

(** One block of six instructions: [v0] lives across a first call, [v1]
    across a second one. *)
Definition reuse_operands : list InstructionOperand :=
  [ unallocated MUST_HAVE_REGISTER false 0;
    unallocated MUST_HAVE_REGISTER true 0;
    unallocated MUST_HAVE_REGISTER false 1;
    unallocated MUST_HAVE_REGISTER true 1 ].

Definition reuse_code : InstructionSequence :=
  mkCode
    [ instr [0%nat] [] false false; instr [] [] false true;
      instr [] [1%nat] false false; instr [2%nat] [] false false;
      instr [] [] false true; instr [] [3%nat] false false ]
    [ mkBlock 0 0 5 [] [] (-1) false (-1) [] ]
    [ xWord64; xWord64 ].

Definition reuse_data : MidTierRegisterAllocationData :=
  MidTierRegisterAllocationData_new reuse_code reuse_operands 2 0.

Definition reuse_allocated : MidTierRegisterAllocationData :=
  Eval vm_compute in
    default reuse_data
      (data ← DefineOutputs reuse_data;
       '(_, data) ← AllocateRegisters call_allocator data;
       Some data).

Definition reuse_slots : MidTierRegisterAllocationData :=
  Eval vm_compute in
    default reuse_data (AllocateSpillSlots reuse_allocated).

(** The two calls of [Allocate] that [AllocateSpillSlots] makes on
    [reuse_allocated]: [v0], spilled from instruction 1 to 2, then [v1],
    spilled from instruction 4 to 5. *)
Definition reuse_first
    : MidTierSpillSlotAllocator * MidTierRegisterAllocationData :=
  Eval vm_compute in
    default (mkSlotAllocator [] [] 0, reuse_allocated)
      (Allocate 0 (mkSlotAllocator [] [] 0) reuse_allocated).

Definition reuse_second
    : MidTierSpillSlotAllocator * MidTierRegisterAllocationData :=
  Eval vm_compute in
    default reuse_first (Allocate 1 (fst reuse_first) (snd reuse_first)).

(** A queue of two allocated slots, last used by instructions 2 and 5. *)
Definition two_slots : MidTierSpillSlotAllocator :=
  mkSlotAllocator [mkSlot 0 8 (mkRange 1 2); mkSlot 1 8 (mkRange 1 5)] [] 1.

(** The general allocator of [choice_state] with register 0 marked in use
    at the start of the instruction. *)
Definition marked_allocator : SinglePassRegisterAllocator :=
  Eval vm_compute in
    default (general_reg_allocator call_allocator)
      (MarkRegisterUse (general_reg_allocator call_allocator) 0 kStart).

(** The verbs of the allocator on [choice_code], one after the other: a
    use of [v0] in register 1, a pending use of [v1] in register 0, then
    either the definition of [v0] committed to register 1 or register 0
    spilled. *)
Definition verbs_start
    : SinglePassRegisterAllocator * MidTierRegisterAllocationData :=
  Eval vm_compute in
    (EnsureRegisterState (general_reg_allocator choice_allocator),
     default choice_data (DefineOutputs choice_data)).

Definition verbs_use
    : SinglePassRegisterAllocator * MidTierRegisterAllocationData :=
  Eval vm_compute in
    default verbs_start
      (AllocateUse 1 0 5%nat 4 kStart (fst verbs_start) (snd verbs_start)).

Definition verbs_pending
    : SinglePassRegisterAllocator * MidTierRegisterAllocationData :=
  Eval vm_compute in
    default verbs_start
      (AllocatePendingUse 0 1 4%nat 4 (fst verbs_use) (snd verbs_use)).

Definition verbs_commit
    : SinglePassRegisterAllocator * MidTierRegisterAllocationData :=
  Eval vm_compute in
    default verbs_start
      (CommitRegister 1 0 0%nat kEnd (fst verbs_pending)
         (snd verbs_pending)).

Definition verbs_spill
    : SinglePassRegisterAllocator * MidTierRegisterAllocationData :=
  Eval vm_compute in
    default verbs_start
      (SpillRegister 0 (fst verbs_pending) (snd verbs_pending)).

Definition verbs_spill_all
    : SinglePassRegisterAllocator * MidTierRegisterAllocationData :=
  Eval vm_compute in
    default verbs_start
      (SpillAllRegisters (fst verbs_pending) (snd verbs_pending)).

(** The definition of [v0], operand 0 of instruction 0, allocated at
    [verbs_pending]. *)
Definition verbs_output
    : Z * SinglePassRegisterAllocator * MidTierRegisterAllocationData :=
  Eval vm_compute in
    default (RegisterIndex_Invalid, fst verbs_start, snd verbs_start)
      (AllocateOutput_at 0%nat 0 kEnd (fst verbs_pending)
         (snd verbs_pending)).

(** A register is required at [verbs_pending], where both are taken. *)
Definition verbs_choose
    : Z * SinglePassRegisterAllocator * MidTierRegisterAllocationData :=
  Eval vm_compute in
    default (RegisterIndex_Invalid, fst verbs_start, snd verbs_start)
      (ChooseRegisterFor_rep kStart true (fst verbs_pending)
         (snd verbs_pending)).

Definition verbs_registers : RegisterState :=
  [Some (mkRegister false 4 1 (Some 4%nat)); Some (mkRegister true 4 0 None)].

(** [call_defined] after a spill use of [v0] by instruction 3. *)
Definition call_spill_use : MidTierRegisterAllocationData :=
  Eval vm_compute in default call_data (AddSpillUse 0 3 call_defined).

(** [call_defined] after the use of [v0] by instruction 3, operand 2, is
    spilled. *)
Definition call_spill_operand : MidTierRegisterAllocationData :=
  Eval vm_compute in
    default call_data (SpillOperand 0 2%nat 3 call_defined).

(** [AllocateInput] for operand 2 of [call_code], the use of [v0] by
    instruction 3. *)
Definition input_allocated
    : SinglePassRegisterAllocator * MidTierRegisterAllocationData :=
  Eval vm_compute in
    default (general_reg_allocator call_allocator, call_defined)
      (AllocateInput 2%nat 3 (general_reg_allocator call_allocator)
         call_defined).

(** [AllocateGapMoveInput] for operand 3 of [call_code], the use of
    [v1]. *)
Definition gap_input_allocated
    : SinglePassRegisterAllocator * MidTierRegisterAllocationData :=
  Eval vm_compute in
    default (general_reg_allocator call_allocator, call_defined)
      (AllocateGapMoveInput 3%nat 3 (general_reg_allocator call_allocator)
         call_defined).

(** A loop: block 0 defines [v0]; block 1, the loop header, uses it;
    block 2 closes the loop with a call. *)
Definition loop_operands : list InstructionOperand :=
  [ unallocated MUST_HAVE_REGISTER false 0;
    unallocated MUST_HAVE_REGISTER true 0 ].

Definition loop_header : InstructionBlock :=
  mkBlock 1 1 1 [2] [0; 2] 0 true 3 [].

Definition loop_code : InstructionSequence :=
  mkCode
    [ instr [0%nat] [] false false; instr [] [1%nat] false false;
      instr [] [] false true ]
    [ mkBlock 0 0 0 [1] [] (-1) false 0 [];
      loop_header;
      mkBlock 2 2 2 [1] [1] 1 false 0 [] ]
    [ xWord64 ].

Definition loop_data : MidTierRegisterAllocationData :=
  MidTierRegisterAllocationData_new loop_code loop_operands 1 0.

(** The blocks of the loop allocated, before and after
    [UpdateSpillRangesForLoops]. *)
Definition loop_blocks_allocated : MidTierRegisterAllocationData :=
  Eval vm_compute in
    default loop_data
      (d ← DefineOutputs loop_data;
       r ← AllocateRegisters_blocks (rev (instruction_blocks loop_code))
             call_allocator d;
       Some (snd r)).

Definition loop_updated : MidTierRegisterAllocationData :=
  Eval vm_compute in
    default loop_data (UpdateSpillRangesForLoops loop_blocks_allocated).

(** The record of [v0] in [loop_blocks_allocated]; its spill operand heads
    the chain of the pending operands 6 and 2. *)
Definition loop_v0 : VirtualRegisterData :=
  mkVreg (Some 6%nat) (Some (mkSpillRange (mkRange 1 1) 0)) 0 0 false false.

Definition loop_slot : InstructionOperand := Allocated STACK_SLOT xWord64 0.

(** One block of three instructions: [v0] and [v1] are both defined in
    the fixed stack slot 5, by instructions 0 and 1, and both are used by
    instruction 2. *)
Definition fixed_operands : list InstructionOperand :=
  [ unallocated (FIXED_SLOT 5) false 0;
    unallocated (FIXED_SLOT 5) false 1;
    unallocated REGISTER_OR_SLOT true 0;
    unallocated REGISTER_OR_SLOT true 1 ].

Definition fixed_code : InstructionSequence :=
  mkCode
    [ instr [0%nat] [] false false; instr [1%nat] [] false false;
      instr [] [2%nat; 3%nat] false false ]
    [ mkBlock 0 0 2 [] [] (-1) false (-1) [] ]
    [ xWord64; xWord64 ].

Definition fixed_data : MidTierRegisterAllocationData :=
  MidTierRegisterAllocationData_new fixed_code fixed_operands 2 0.

Definition fixed_allocated : MidTierRegisterAllocationData :=
  Eval vm_compute in
    default fixed_data
      (data ← DefineOutputs fixed_data;
       '(_, data) ← AllocateRegisters call_allocator data;
       Some data).

Definition fixed_slots : MidTierRegisterAllocationData :=
  Eval vm_compute in
    default fixed_data (AllocateSpillSlots fixed_allocated).

End Example.

(** * torque-internal.tq *)

Module Torque.

(** What torque-internal.tq takes from the rest of V8: the width of
    [intptr] and [uintptr], the heap objects with their maps, and the
    constants of the tagged layout. *)
Class Target := {
  kBitsPerPointer : Z;
  HeapObject : Type;
  HeapObject_eq_dec :: EqDecision HeapObject;
  Map : Type;
  Map_eq_dec :: EqDecision Map;
  map : HeapObject -> Map;
  instance_type : Map -> Z;
  kObjectAlignmentMask : Z
}.

(** ** Machine integers

    A value of a signed type of [bits] bits is an integer of
    [-2^(bits-1) .. 2^(bits-1) - 1], a value of an unsigned type one of
    [0 .. 2^bits - 1].  The operators of Torque on them are the machine
    operations: the result of the operation on integers, brought back
    into the range of the type by wrap-around; [Convert] between the
    signed and the unsigned type of one width and [Unsigned] keep the
    bits. *)
Definition to_signed (bits x : Z) : Z :=
  (x + 2 ^ (bits - 1)) mod 2 ^ bits - 2 ^ (bits - 1).

Definition to_unsigned (bits x : Z) : Z := x mod 2 ^ bits.

Definition is_signed (bits x : Z) : Prop :=
  - 2 ^ (bits - 1) <= x < 2 ^ (bits - 1).

Section Internal.
Context `{Target}.

Definition is_intptr (x : Z) : Prop := is_signed kBitsPerPointer x.

(** [+] and [*] on [intptr]. *)
Definition IntPtrAdd (x y : Z) : Z := to_signed kBitsPerPointer (x + y).
Definition IntPtrMul (x y : Z) : Z := to_signed kBitsPerPointer (x * y).

(** [Convert<uintptr>(intptr)]. *)
Definition Convert_uintptr (x : Z) : Z := to_unsigned kBitsPerPointer x.

(** ** References *)

Record Reference := mkReference {
  Reference_object : HeapObject;
  Reference_offset : Z
}.

#[global] Instance Reference_eq_dec : EqDecision Reference.
Proof. solve_decision. Defined.

(** [unsafe::NewReference] *)
Definition NewReference (object : HeapObject) (offset : Z) : Reference :=
  mkReference object offset.

(** ** Slices and their iterators over a type [T] of size [SizeOf] *)

Section Slices.
Context {T : Type}.
Variable SizeOf : Z.

(** The fields of type [T] of the heap: [*r] is [h r]. *)
Definition Heap := Reference -> T.

(** [*r = v] *)
Definition store (h : Heap) (r : Reference) (v : T) : Heap :=
  fun r' => if decide (r' = r) then v else h r'.

Record Slice := mkSlice {
  Slice_object : HeapObject;
  Slice_offset : Z;
  Slice_length : Z
}.

Record SliceIterator := mkSliceIterator {
  SliceIterator_object : HeapObject;
  SliceIterator_start : Z;
  SliceIterator_end : Z
}.

(** [Slice::TryAtIndex]; [None] is the label [OutOfBounds]. *)
Definition Slice_TryAtIndex (this : Slice) (index : Z) : option Reference :=
  if Convert_uintptr index <? Convert_uintptr (Slice_length this)
  then Some (NewReference (Slice_object this)
               (IntPtrAdd (Slice_offset this) (IntPtrMul index SizeOf)))
  else None.

(** [Slice::Iterator()] *)
Definition Slice_Iterator (this : Slice) : SliceIterator :=
  let end_ :=
    IntPtrAdd (Slice_offset this) (IntPtrMul (Slice_length this) SizeOf) in
  mkSliceIterator (Slice_object this) (Slice_offset this) end_.

(** [Slice::Iterator(startIndex, endIndex)]; [None] is the failure of its
    [check]. *)
Definition Slice_Iterator_range (this : Slice) (startIndex endIndex : Z)
    : option SliceIterator :=
  if (Convert_uintptr endIndex <=? Convert_uintptr (Slice_length this))
     && (Convert_uintptr startIndex <=? Convert_uintptr endIndex)
  then
    let start := IntPtrAdd (Slice_offset this) (IntPtrMul startIndex SizeOf) in
    let end_ := IntPtrAdd (Slice_offset this) (IntPtrMul endIndex SizeOf) in
    Some (mkSliceIterator (Slice_object this) start end_)
  else None.

Definition SliceIterator_Empty (this : SliceIterator) : bool :=
  SliceIterator_start this =? SliceIterator_end this.

(** [SliceIterator::NextReference]: the iterator it leaves, and the
    reference or, for the label [NoMore], [None]. *)
Definition SliceIterator_NextReference (this : SliceIterator)
    : SliceIterator * option Reference :=
  if SliceIterator_Empty this then (this, None)
  else
    let result :=
      NewReference (SliceIterator_object this) (SliceIterator_start this) in
    (mkSliceIterator (SliceIterator_object this)
       (IntPtrAdd (SliceIterator_start this) SizeOf)
       (SliceIterator_end this),
     Some result).

(** [SliceIterator::Next] *)
Definition SliceIterator_Next (h : Heap) (this : SliceIterator)
    : SliceIterator * option T :=
  let '(this, r) := SliceIterator_NextReference this in
  (this, option_map h r).

(** ** Iterators

    A type that Torque code uses as an iterator of [T] has the macros
    [Empty] and [Next]; [Next] may read the heap and leaves the iterator
    changed also when it takes the label [NoMore]. *)
Class Iterator (I : Type) := {
  Empty : I -> bool;
  Next : Heap -> I -> I * option T
}.

#[global] Instance SliceIterator_Iterator : Iterator SliceIterator := {|
  Empty := SliceIterator_Empty;
  Next := SliceIterator_Next
|}.

Record IteratorSequence (FirstIterator SecondIterator : Type) :=
  mkIteratorSequence {
    first : FirstIterator;
    second : SecondIterator
  }.
Arguments mkIteratorSequence {FirstIterator SecondIterator}.
Arguments first {FirstIterator SecondIterator}.
Arguments second {FirstIterator SecondIterator}.

Section Sequences.
Context {FirstIterator SecondIterator : Type}.
Context `{!Iterator FirstIterator, !Iterator SecondIterator}.

Definition IteratorSequence_Empty
    (this : IteratorSequence FirstIterator SecondIterator) : bool :=
  Empty (first this) && Empty (second this).

Definition IteratorSequence_Next (h : Heap)
    (this : IteratorSequence FirstIterator SecondIterator)
    : IteratorSequence FirstIterator SecondIterator * option T :=
  match Next h (first this) with
  | (first', Some x) => (mkIteratorSequence first' (second this), Some x)
  | (first', None) =>
      let '(second', r) := Next h (second this) in
      (mkIteratorSequence first' second', r)
  end.

#[global] Instance IteratorSequence_Iterator
    : Iterator (IteratorSequence FirstIterator SecondIterator) := {|
  Empty := IteratorSequence_Empty;
  Next := IteratorSequence_Next
|}.

End Sequences.

(** [InitializeFieldsFromIterator]: the loop runs until the target
    iterator takes [NoMore]; [None] is [unreachable], or the end of the
    fuel. *)
Fixpoint InitializeFieldsFromIterator_loop {I} `{!Iterator I} (fuel : nat)
    (targetIterator : SliceIterator) (originIterator : I) (h : Heap)
    : option Heap :=
  match fuel with
  | O => None
  | S fuel' =>
      match SliceIterator_NextReference targetIterator with
      | (_, None) => Some h
      | (targetIterator, Some ref) =>
          match Next h originIterator with
          | (_, None) => None
          | (originIterator, Some v) =>
              InitializeFieldsFromIterator_loop fuel' targetIterator
                originIterator (store h ref v)
          end
      end
  end.

Definition InitializeFieldsFromIterator {I} `{!Iterator I} (fuel : nat)
    (target : Slice) (originIterator : I) (h : Heap) : option Heap :=
  InitializeFieldsFromIterator_loop fuel (Slice_Iterator target)
    originIterator h.

(** *** Predicates used by the properties *)

(** A slice of [n] fields that lies in the address range of [intptr]. *)
Definition Slice_fits (this : Slice) (n : nat) : Prop :=
  Slice_length this = Z.of_nat n
  /\ 0 < SizeOf
  /\ 0 <= Slice_offset this
  /\ Slice_offset this + Z.of_nat n * SizeOf < 2 ^ (kBitsPerPointer - 1).

(** The reference to field [i] of a slice. *)
Definition Slice_field (this : Slice) (i : nat) : Reference :=
  NewReference (Slice_object this) (Slice_offset this + Z.of_nat i * SizeOf).

(** The references that [NextReference] gives until [NoMore]; [None] when
    the fuel ends before. *)
Fixpoint SliceIterator_references (fuel : nat) (it : SliceIterator)
    : option (list Reference) :=
  match SliceIterator_NextReference it with
  | (_, None) => Some []
  | (it', Some r) =>
      match fuel with
      | O => None
      | S fuel' => option_map (cons r) (SliceIterator_references fuel' it')
      end
  end.

(** On the heap [h], the iterator gives the values [l] and then is empty
    and takes [NoMore], which leaves it as it is. *)
Inductive yields {I} `{!Iterator I} (h : Heap) : I -> list T -> Prop :=
| yields_end it :
    Empty it = true -> Next h it = (it, None) -> yields h it []
| yields_next it it' x l :
    Empty it = false -> Next h it = (it', Some x) -> yields h it' l ->
    yields h it (x :: l).

(** The iterator gives one value for each of the references [refs], the
    values [vs]: each [Next] is taken on the heap in which the values
    given before it are stored at the references before. *)
Fixpoint supplies {I} `{!Iterator I} (h : Heap) (it : I)
    (refs : list Reference) (vs : list T) : Prop :=
  match refs, vs with
  | [], [] => True
  | r :: refs', v :: vs' =>
      exists it',
        Next h it = (it', Some v) /\ supplies (store h r v) it' refs' vs'
  | _, _ => False
  end.

End Slices.

(** ** Alignment *)

Definition AlignTagged (x : Z) : Z :=
  Z.land (IntPtrAdd x kObjectAlignmentMask) (Z.lnot kObjectAlignmentMask).

Definition IsTaggedAligned (x : Z) : bool :=
  Z.land x kObjectAlignmentMask =? 0.

(** ** Casts

    [DownCastForTorqueClass<T>] for a class [T] with the instance types
    [minInstanceType .. maxInstanceType] and, when it has one, the map
    constant [mapConstant]; [None] is the label [CastError].  The
    difference of two instance types is an [int32]. *)
Definition DownCastForTorqueClass (minInstanceType maxInstanceType : Z)
    (mapConstant : option Map) (o : HeapObject) : option HeapObject :=
  let map := map o in
  if minInstanceType =? maxInstanceType then
    match mapConstant with
    | Some constant =>
        if decide (map <> constant) then None else Some o
    | None =>
        if negb (instance_type map =? minInstanceType) then None
        else Some o
    end
  else
    let diff := to_signed 32 (maxInstanceType - minInstanceType) in
    let offset :=
      to_signed 32
        (to_signed 32 (to_unsigned 16 (instance_type map))
         - to_signed 32 (to_unsigned 16 minInstanceType)) in
    if to_unsigned 32 offset >? to_unsigned 32 diff then None else Some o.

End Internal.

Arguments mkIteratorSequence {FirstIterator SecondIterator}.
Arguments first {FirstIterator SecondIterator}.
Arguments second {FirstIterator SecondIterator}.

(** ** A concrete target

    A 64-bit target whose heap objects are numbered and have their number
    as instance type; fields of eight bytes that hold integers. *)
Definition example_target : Target := {|
  kBitsPerPointer := 64;
  HeapObject := nat;
  Map := nat;
  map := fun o => o;
  instance_type := fun m => Z.of_nat m;
  kObjectAlignmentMask := 7
|}.

Module Example.
#[local] Existing Instance example_target.

Definition fields : Slice := mkSlice 1%nat 16 3.

(** A heap whose field at offset [k] of any object holds [k]. *)
Definition offsets : Heap (T := Z) := fun r => Reference_offset r.

(** Two slices of the same object, of two fields and of one field. *)
Definition head_fields : Slice := mkSlice 1%nat 16 2.
Definition tail_fields : Slice := mkSlice 1%nat 32 1.

(** Three fields of another object. *)
Definition copy_fields : Slice := mkSlice 2%nat 40 3.

End Example.

End Torque.

(** * Properties *)

Section BaseLemmas.
Context `{Platform}.

(** ** Vectors indexed by an [int] *)

Lemma at_index_Some {A} (l : list A) (i : Z) (x : A) :
  at_index l i = Some x -> 0 <= i < Z.of_nat (length l).
Proof.
  unfold at_index. destruct (i <? 0) eqn:E; [discriminate|].
  intros Hl. apply lookup_lt_Some in Hl. apply Z.ltb_ge in E. lia.
Qed.

Lemma at_index_lookup {A} (l : list A) (i : Z) :
  0 <= i -> at_index l i = l !! Z.to_nat i.
Proof.
  intros Hi. unfold at_index.
  destruct (i <? 0) eqn:E; [apply Z.ltb_lt in E; lia | reflexivity].
Qed.

Lemma at_index_of_nat {A} (l : list A) (n : nat) :
  at_index l (Z.of_nat n) = l !! n.
Proof. rewrite at_index_lookup by lia. by rewrite Nat2Z.id. Qed.

Lemma set_index_Some {A} (l l' : list A) (i : Z) (x : A) :
  set_index l i x = Some l' ->
  0 <= i < Z.of_nat (length l) /\ l' = <[Z.to_nat i := x]> l.
Proof.
  unfold set_index.
  destruct ((0 <=? i) && (i <? Z.of_nat (length l))) eqn:E; [|discriminate].
  intros [= <-]. apply andb_true_iff in E as [E1 E2].
  apply Z.leb_le in E1. apply Z.ltb_lt in E2. done.
Qed.

Lemma set_index_is_Some {A} (l : list A) (i : Z) (x : A) :
  0 <= i < Z.of_nat (length l) -> set_index l i x = Some (<[Z.to_nat i := x]> l).
Proof.
  intros [H1 H2]. unfold set_index.
  apply Z.leb_le in H1. apply Z.ltb_lt in H2. by rewrite H1, H2.
Qed.

Lemma set_index_length {A} (l l' : list A) (i : Z) (x : A) :
  set_index l i x = Some l' -> length l' = length l.
Proof. intros Hs. apply set_index_Some in Hs as [_ ->]. apply length_insert. Qed.

Lemma at_index_set_index_eq {A} (l l' : list A) (i : Z) (x : A) :
  set_index l i x = Some l' -> at_index l' i = Some x.
Proof.
  intros Hs. apply set_index_Some in Hs as [Hi ->].
  rewrite at_index_lookup by lia. apply list_lookup_insert_eq. lia.
Qed.

Lemma at_index_set_index_ne {A} (l l' : list A) (i j : Z) (x : A) :
  set_index l i x = Some l' -> i <> j -> at_index l' j = at_index l j.
Proof.
  intros Hs Hne. apply set_index_Some in Hs as [Hi ->].
  unfold at_index. destruct (j <? 0) eqn:E; [done|].
  apply Z.ltb_ge in E. apply list_lookup_insert_ne. lia.
Qed.

Lemma at_index_set_index {A} (l l' : list A) (i j : Z) (x : A) :
  set_index l i x = Some l' ->
  at_index l' j = if decide (i = j) then Some x else at_index l j.
Proof.
  intros Hs. case_decide as E.
  - subst. eauto using at_index_set_index_eq.
  - eauto using at_index_set_index_ne.
Qed.

End BaseLemmas.

(** ** Tactics for code in the option monad *)

Ltac bind_step :=
  match goal with
  | H : mbind _ ?m = Some _ |- _ =>
      let E := fresh "E" in
      destruct m eqn:E; simpl in H; [|discriminate H]
  | H : match ?p with (_, _) => _ end = Some _ |- _ => destruct p
  | H : (if ?b then _ else _) = Some _ |- _ =>
      let E := fresh "E" in destruct b eqn:E
  | H : Some _ = Some _ |- _ => simplify_eq
  | H : None = Some _ |- _ => discriminate H
  end.

Ltac binds := repeat bind_step.

Section RegisterBits.
Context `{Platform}.

(** ** Bits of a register bitmap *)

Lemma ToBit_Some (reg bit : Z) :
  ToBit reg = Some bit -> 0 <= reg < kBitsPerWord /\ bit = 2 ^ reg.
Proof.
  unfold ToBit.
  destruct ((0 <=? reg) && (reg <? kBitsPerWord)) eqn:E; [|discriminate].
  intros [= <-]. apply andb_true_iff in E as [E1 E2].
  apply Z.leb_le in E1. apply Z.ltb_lt in E2.
  split; [lia|]. apply Z.shiftl_1_l.
Qed.

Lemma testbit_set (bits reg r : Z) :
  0 <= reg -> 0 <= r ->
  Z.testbit (Z.lor bits (2 ^ reg)) r = Z.testbit bits r || (reg =? r).
Proof.
  intros Hreg Hr. rewrite Z.lor_spec. f_equal.
  apply Z.pow2_bits_eqb. lia.
Qed.

Lemma testbit_clear (bits reg r : Z) :
  0 <= reg < kBitsPerWord -> 0 <= r ->
  Z.testbit (Z.land bits (word_not (2 ^ reg))) r
  = Z.testbit bits r && (r <? kBitsPerWord) && negb (reg =? r).
Proof.
  intros Hreg Hr. unfold word_not.
  rewrite Z.land_spec, Z.lxor_spec, Z.pow2_bits_eqb by lia.
  rewrite Z.testbit_ones by (unfold kBitsPerWord; lia).
  replace (0 <=? r) with true by (symmetry; apply Z.leb_le; lia).
  simpl. destruct (Z.testbit bits r), (reg =? r) eqn:E1, (r <? kBitsPerWord) eqn:E2;
    try reflexivity.
  apply Z.eqb_eq in E1. apply Z.ltb_ge in E2. lia.
Qed.

(** ** Which registers a register state holds allocated *)

Lemma reg_data_agree (rs rs' : RegisterState) (r : Z) :
  at_index rs' r = at_index rs r -> reg_data rs' r = reg_data rs r.
Proof. unfold reg_data. by intros ->. Qed.

Lemma allocated_in_agree (rs rs' : RegisterState) (r : Z) :
  at_index rs' r = at_index rs r -> allocated_in rs r -> allocated_in rs' r.
Proof.
  intros Ha [reg [Hd Hal]]. exists reg. split; [|done].
  by rewrite (reg_data_agree _ _ _ Ha).
Qed.

Lemma IsAllocated_true (rs : RegisterState) (r : Z) :
  RegisterState_IsAllocated rs r = Some true <-> allocated_in rs r.
Proof.
  unfold allocated_in, RegisterState_IsAllocated, HasRegisterData, reg_data.
  destruct (at_index rs r) as [[reg|]|]; simpl.
  - split; [intros [= Hr]; eauto |].
    intros [x [Hx Hal]]. injection Hx as <-. by rewrite Hal.
  - split; [discriminate | intros [? [? _]]; discriminate].
  - split; [discriminate | intros [? [? _]]; discriminate].
Qed.

Lemma IsAllocated_false (rs : RegisterState) (r : Z) :
  RegisterState_IsAllocated rs r = Some false -> ~ allocated_in rs r.
Proof.
  intros Hf Ha. apply IsAllocated_true in Ha. congruence.
Qed.

Lemma not_allocated_Reset : is_allocated Register_Reset = false.
Proof. reflexivity. Qed.

Lemma ResetDataFor_spec (rs rs' : RegisterState) (reg : Z) :
  ResetDataFor rs reg = Some rs' ->
  at_index rs' reg = Some (Some Register_Reset)
  /\ forall r, r <> reg -> at_index rs' r = at_index rs r.
Proof.
  unfold ResetDataFor. intros Hr. binds.
  split; [eauto using at_index_set_index_eq|].
  intros j Hne. eapply at_index_set_index_ne; eauto.
Qed.

Lemma RegisterState_Commit_spec rs reg allocated operand data rs' data' :
  RegisterState_Commit rs reg allocated operand data = Some (rs', data') ->
  ~ allocated_in rs' reg
  /\ forall r, r <> reg -> at_index rs' r = at_index rs r.
Proof.
  unfold RegisterState_Commit. intros Hc. binds.
  - match goal with Hr : ResetDataFor _ _ = Some _ |- _ =>
      apply ResetDataFor_spec in Hr as [Hreg Hother] end. split.
    + intros [x [Hd Hal]]. unfold reg_data in Hd. rewrite Hreg in Hd.
      simpl in Hd. injection Hd as <-. discriminate.
    + intros j Hne. rewrite Hother by done.
      eapply at_index_set_index_ne; eauto.
  - split; [by apply IsAllocated_false|done].
Qed.

Lemma RegisterState_Spill_spec rs reg allocated data rs' data' :
  RegisterState_Spill rs reg allocated data = Some (rs', data') ->
  ~ allocated_in rs' reg
  /\ forall r, r <> reg -> at_index rs' r = at_index rs r.
Proof.
  unfold RegisterState_Spill. intros Hc. binds.
  match goal with Hr : ResetDataFor _ _ = Some _ |- _ =>
    apply ResetDataFor_spec in Hr as [Hreg Hother] end. split.
  - intros [x [Hd Hal]]. unfold reg_data in Hd. rewrite Hreg in Hd.
    simpl in Hd. injection Hd as <-. discriminate.
  - intros j Hne. rewrite Hother by done.
    eapply at_index_set_index_ne; eauto.
Qed.

Lemma EnsureRegisterData_spec rs reg rs' :
  EnsureRegisterData rs reg = Some rs' ->
  (exists x, reg_data rs' reg = Some x)
  /\ (allocated_in rs reg -> allocated_in rs' reg)
  /\ forall r, r <> reg -> at_index rs' r = at_index rs r.
Proof.
  unfold EnsureRegisterData, HasRegisterData.
  destruct (at_index rs reg) as [[x|]|] eqn:E; simpl; [| |discriminate].
  - intros [= <-]. unfold reg_data. rewrite E. simpl. eauto.
  - intros He. repeat split.
    + exists Register_Reset. unfold reg_data.
      erewrite at_index_set_index_eq by eauto. done.
    + intros [x [Hd _]]. unfold reg_data in Hd. rewrite E in Hd. discriminate.
    + intros j Hne. eapply at_index_set_index_ne; eauto.
Qed.

Lemma RegisterState_AllocateUse_spec rs reg virtual_register instr_index rs' :
  RegisterState_AllocateUse rs reg virtual_register instr_index = Some rs' ->
  virtual_register <> kInvalidVirtualRegister ->
  allocated_in rs' reg
  /\ forall r, r <> reg -> at_index rs' r = at_index rs r.
Proof.
  unfold RegisterState_AllocateUse. intros Ha Hv. binds.
  match goal with Hr : EnsureRegisterData _ _ = Some _ |- _ =>
    apply EnsureRegisterData_spec in Hr as (_ & _ & Hother) end. split.
  - eexists. unfold reg_data. erewrite at_index_set_index_eq by eauto.
    split; [done|]. unfold is_allocated, Register_Use. simpl.
    apply negb_true_iff, Z.eqb_neq. done.
  - intros j Hne. rewrite <- Hother by done.
    eapply at_index_set_index_ne; eauto.
Qed.

Lemma Register_PendingUse_allocated r operand virtual_register instr_index
    data r' data' :
  Register_PendingUse r operand virtual_register instr_index data
    = Some (r', data') ->
  virtual_register <> kInvalidVirtualRegister ->
  is_allocated r' = true.
Proof.
  unfold Register_PendingUse. intros Hp Hv. binds. simpl.
  destruct (is_allocated r) eqn:Ea; [done|]. unfold is_allocated. simpl.
  apply negb_true_iff, Z.eqb_neq. done.
Qed.

Lemma RegisterState_AllocatePendingUse_spec rs reg virtual_register operand
    instr_index data rs' data' :
  RegisterState_AllocatePendingUse rs reg virtual_register operand
    instr_index data = Some (rs', data') ->
  virtual_register <> kInvalidVirtualRegister ->
  allocated_in rs' reg
  /\ forall r, r <> reg -> at_index rs' r = at_index rs r.
Proof.
  unfold RegisterState_AllocatePendingUse. intros Ha Hv. binds.
  match goal with Hr : EnsureRegisterData _ _ = Some _ |- _ =>
    apply EnsureRegisterData_spec in Hr as (_ & _ & Hother) end. split.
  - eexists. unfold reg_data. erewrite at_index_set_index_eq by eauto.
    split; [done|]. eauto using Register_PendingUse_allocated.
  - intros j Hne. rewrite <- Hother by done.
    eapply at_index_set_index_ne; eauto.
Qed.

(** ** The allocator's bitmaps *)

Lemma MarkRegisterUse_spec a reg pos a' :
  MarkRegisterUse a reg pos = Some a' ->
  register_state_ a' = register_state_ a
  /\ allocated_registers_bits_ a' = allocated_registers_bits_ a.
Proof.
  unfold MarkRegisterUse. intros Hm. destruct pos; binds; done.
Qed.

Lemma FreeRegister_spec a reg virtual_register a' :
  FreeRegister a reg virtual_register = Some a' ->
  register_state_ a' = register_state_ a
  /\ in_use_at_instr_start_bits_ a' = in_use_at_instr_start_bits_ a
  /\ in_use_at_instr_end_bits_ a' = in_use_at_instr_end_bits_ a
  /\ 0 <= reg < kBitsPerWord
  /\ allocated_registers_bits_ a'
     = Z.land (allocated_registers_bits_ a) (word_not (2 ^ reg)).
Proof.
  unfold FreeRegister. intros Hf. binds;
    match goal with Hb : ToBit _ = Some _ |- _ =>
      apply ToBit_Some in Hb as [? ->] end; done.
Qed.

Lemma AssignRegister_spec a reg virtual_register pos a' :
  AssignRegister a reg virtual_register pos = Some a' ->
  register_state_ a' = register_state_ a
  /\ 0 <= reg < kBitsPerWord
  /\ allocated_registers_bits_ a'
     = Z.lor (allocated_registers_bits_ a) (2 ^ reg).
Proof.
  unfold AssignRegister. intros Ha. binds;
    match goal with Hm : MarkRegisterUse _ _ _ = Some _ |- _ =>
      apply MarkRegisterUse_spec in Hm as [Hrs Hbits] end;
    match goal with Hb : ToBit _ = Some _ |- _ =>
      apply ToBit_Some in Hb as [? ->] end;
    simpl in *; rewrite Hrs, Hbits; done.
Qed.

Lemma BitsInv_no_state a :
  BitsInv a -> register_state_ a = None ->
  forall r, 0 <= r -> Z.testbit (allocated_registers_bits_ a) r = false.
Proof.
  intros Hinv Hn r Hr.
  destruct (Z.testbit (allocated_registers_bits_ a) r) eqn:E; [|done].
  destruct (Hinv r Hr E) as [rs [Hrs _]]. congruence.
Qed.

Lemma EnsureRegisterState_BitsInv a :
  BitsInv a -> BitsInv (EnsureRegisterState a).
Proof.
  intros Hinv. unfold EnsureRegisterState, HasRegisterState.
  destruct (register_state_ a) eqn:E; [done|].
  intros r Hr Hbit. simpl in Hbit.
  rewrite (BitsInv_no_state a Hinv E r Hr) in Hbit. discriminate.
Qed.

Lemma EndInstruction_BitsInv a : BitsInv a -> BitsInv (EndInstruction a).
Proof. intros Hinv r Hr Hbit. apply (Hinv r Hr Hbit). Qed.

Lemma MarkRegisterUse_BitsInv a reg pos a' :
  MarkRegisterUse a reg pos = Some a' -> BitsInv a -> BitsInv a'.
Proof.
  intros Hm Hinv r Hr Hbit.
  apply MarkRegisterUse_spec in Hm as [Hrs Hbits].
  rewrite Hbits in Hbit. destruct (Hinv r Hr Hbit) as [rs [? ?]].
  exists rs. by rewrite Hrs.
Qed.

(** Releasing register [reg] after the register state dropped it. *)
Lemma release_BitsInv a rs' reg virtual_register a' :
  BitsInv a ->
  (forall rs, register_state_ a = Some rs ->
     ~ allocated_in rs' reg
     /\ forall r, r <> reg -> at_index rs' r = at_index rs r) ->
  FreeRegister (set_register_state a (Some rs')) reg virtual_register
    = Some a' ->
  BitsInv a'.
Proof.
  intros Hinv Hrs' Hf r Hr Hbit.
  apply FreeRegister_spec in Hf as (Hst & _ & _ & Hreg & Hbits).
  rewrite Hbits in Hbit. simpl in Hbit.
  rewrite testbit_clear in Hbit by done.
  apply andb_true_iff in Hbit as [Hbit Hne].
  apply andb_true_iff in Hbit as [Hbit _].
  apply negb_true_iff, Z.eqb_neq in Hne.
  destruct (Hinv r Hr Hbit) as [rs [Hrs Hal]].
  exists rs'. split; [by rewrite Hst|].
  destruct (Hrs' rs Hrs) as [_ Hother].
  eapply allocated_in_agree; [|done]. apply Hother. congruence.
Qed.

Lemma CommitRegister_BitsInv reg virtual_register operand pos a data a' data' :
  CommitRegister reg virtual_register operand pos a data = Some (a', data') ->
  BitsInv a -> BitsInv a'.
Proof.
  unfold CommitRegister. intros Hc Hinv. binds.
  match goal with Hm : MarkRegisterUse _ _ _ = Some ?a1,
                  Hf : FreeRegister ?a1 _ _ = Some _,
                  Hr : RegisterState_Commit _ _ _ _ _ = Some _ |- _ =>
    apply MarkRegisterUse_spec in Hm as [Hrs Hbits];
    apply RegisterState_Commit_spec in Hr as [Hnot Hother];
    apply FreeRegister_spec in Hf as (Hst & _ & _ & Hreg & Hb)
  end.
  intros j Hj Hbit. rewrite Hb, Hbits in Hbit. simpl in Hbit.
  rewrite testbit_clear in Hbit by done.
  apply andb_true_iff in Hbit as [Hbit Hne].
  apply andb_true_iff in Hbit as [Hbit _].
  apply negb_true_iff, Z.eqb_neq in Hne.
  destruct (Hinv j Hj Hbit) as [rs [Hrs0 Hal]].
  eexists. split; [rewrite Hst, Hrs; simpl; reflexivity|].
  eapply allocated_in_agree; [|done].
  assert (r = rs) as -> by congruence. apply Hother. congruence.
Qed.

Lemma SpillRegister_BitsInv reg a data a' data' :
  SpillRegister reg a data = Some (a', data') -> BitsInv a -> BitsInv a'.
Proof.
  unfold SpillRegister. intros Hs Hinv. binds; [done|].
  match goal with Hf : FreeRegister _ _ _ = Some _,
                  Hr : RegisterState_Spill _ _ _ _ = Some _ |- _ =>
    apply RegisterState_Spill_spec in Hr as [Hnot Hother];
    eapply release_BitsInv in Hf; [done|done|]
  end.
  intros rs Hrs. assert (r = rs) as -> by congruence. done.
Qed.

Lemma VirtualRegisterDataFor_valid data v vd :
  VirtualRegisterDataFor data v = Some vd -> v <> kInvalidVirtualRegister.
Proof.
  intros Hv. apply at_index_Some in Hv. unfold kInvalidVirtualRegister. lia.
Qed.

(** Taking register [reg] for a virtual register. *)
Lemma take_BitsInv a rs' reg virtual_register pos a' :
  BitsInv a ->
  allocated_in rs' reg ->
  (forall rs, register_state_ a = Some rs ->
     forall r, r <> reg -> allocated_in rs r -> allocated_in rs' r) ->
  AssignRegister (set_register_state a (Some rs')) reg virtual_register pos
    = Some a' ->
  BitsInv a'.
Proof.
  intros Hinv Hreg Hother Ha r Hr Hbit.
  apply AssignRegister_spec in Ha as (Hst & Hrange & Hbits).
  rewrite Hbits in Hbit. simpl in Hbit.
  rewrite testbit_set in Hbit by lia.
  exists rs'. split; [by rewrite Hst|].
  destruct (Z.eq_dec reg r) as [<-|Hne]; [done|].
  apply orb_true_iff in Hbit as [Hbit|Heq];
    [|apply Z.eqb_eq in Heq; contradiction].
  destruct (Hinv r Hr Hbit) as [rs [Hrs Hal]]. eapply Hother; eauto.
Qed.

Lemma AllocateUse_BitsInv reg virtual_register operand instr_index pos
    a data a' data' :
  AllocateUse reg virtual_register operand instr_index pos a data
    = Some (a', data') ->
  virtual_register <> kInvalidVirtualRegister ->
  BitsInv a -> BitsInv a'.
Proof.
  unfold AllocateUse. intros Hc Hv Hinv. binds.
  match goal with Hr : RegisterState_Commit _ _ _ _ _ = Some _,
                  Hu : RegisterState_AllocateUse _ _ _ _ = Some _,
                  Ha : AssignRegister _ _ _ _ = Some _ |- _ =>
    apply RegisterState_Commit_spec in Hr as [_ Hother];
    apply RegisterState_AllocateUse_spec in Hu as [Hreg Hother']; [|done];
    eapply take_BitsInv in Ha; [done|done|done|]
  end.
  intros rs Hrs j Hne Hal. assert (r = rs) as -> by congruence.
  eapply allocated_in_agree; [|done].
  rewrite Hother' by done. by apply Hother.
Qed.

Lemma AllocatePendingUse_BitsInv reg virtual_register operand instr_index
    a data a' data' :
  AllocatePendingUse reg virtual_register operand instr_index a data
    = Some (a', data') ->
  virtual_register <> kInvalidVirtualRegister ->
  BitsInv a -> BitsInv a'.
Proof.
  unfold AllocatePendingUse. intros Hc Hv Hinv. binds.
  match goal with Hu : RegisterState_AllocatePendingUse _ _ _ _ _ _ = Some _,
                  Ha : AssignRegister _ _ _ _ = Some _ |- _ =>
    apply RegisterState_AllocatePendingUse_spec in Hu as [Hreg Hother];
      [|done];
    eapply take_BitsInv in Ha; [done|done|done|]
  end.
  intros rs Hrs j Hne Hal. assert (r = rs) as -> by congruence.
  eapply allocated_in_agree; [|done]. by apply Hother.
Qed.

Lemma AllocateUseWithMove_BitsInv reg virtual_register operand instr_index pos
    a data a' data' :
  AllocateUseWithMove reg virtual_register operand instr_index pos a data
    = Some (a', data') ->
  BitsInv a -> BitsInv a'.
Proof.
  unfold AllocateUseWithMove. intros Hc Hinv. binds.
  eauto using MarkRegisterUse_BitsInv.
Qed.

Create HintDb bits.

#[local] Hint Resolve EnsureRegisterState_BitsInv EndInstruction_BitsInv
  MarkRegisterUse_BitsInv CommitRegister_BitsInv SpillRegister_BitsInv
  AllocateUse_BitsInv AllocatePendingUse_BitsInv AllocateUseWithMove_BitsInv
  VirtualRegisterDataFor_valid : bits.

Lemma SpillRegisters_BitsInv regs a data a' data' :
  SpillRegisters regs a data = Some (a', data') -> BitsInv a -> BitsInv a'.
Proof.
  revert a data. induction regs as [|reg regs IH]; simpl; intros a data Hs Hinv.
  - by simplify_eq.
  - binds. eauto with bits.
Qed.

Lemma SpillAllRegisters_BitsInv a data a' data' :
  SpillAllRegisters a data = Some (a', data') -> BitsInv a -> BitsInv a'.
Proof.
  unfold SpillAllRegisters. intros Hs Hinv.
  destruct (register_state_ a); [|by simplify_eq].
  eauto using SpillRegisters_BitsInv.
Qed.

Lemma SpillRegisterForVirtualRegister_BitsInv virtual_register a data a' data' :
  SpillRegisterForVirtualRegister virtual_register a data = Some (a', data') ->
  BitsInv a -> BitsInv a'.
Proof.
  unfold SpillRegisterForVirtualRegister. intros Hs Hinv. binds;
    eauto with bits.
Qed.

Lemma ChooseRegisterFor_rep_BitsInv pos must_use_register a data reg a' data' :
  ChooseRegisterFor_rep pos must_use_register a data = Some (reg, a', data') ->
  BitsInv a -> BitsInv a'.
Proof.
  unfold ChooseRegisterFor_rep. intros Hs Hinv. binds; eauto with bits.
Qed.

Lemma ChooseRegisterFor_BitsInv v pos must_use_register a data reg a' data' :
  ChooseRegisterFor v pos must_use_register a data = Some (reg, a', data') ->
  BitsInv a -> BitsInv a'.
Proof.
  unfold ChooseRegisterFor. intros Hs Hinv. binds;
    eauto using ChooseRegisterFor_rep_BitsInv.
Qed.

#[local] Hint Resolve SpillAllRegisters_BitsInv
  SpillRegisterForVirtualRegister_BitsInv ChooseRegisterFor_rep_BitsInv
  ChooseRegisterFor_BitsInv : bits.

Lemma AllocateInput_BitsInv operand instr_index a data a' data' :
  AllocateInput operand instr_index a data = Some (a', data') ->
  BitsInv a -> BitsInv a'.
Proof.
  unfold AllocateInput. intros Hs Hinv. binds; eauto 6 with bits.
Qed.

Lemma AllocateGapMoveInput_BitsInv operand instr_index a data a' data' :
  AllocateGapMoveInput operand instr_index a data = Some (a', data') ->
  BitsInv a -> BitsInv a'.
Proof.
  unfold AllocateGapMoveInput. intros Hs Hinv. binds; eauto 6 with bits.
Qed.

Lemma AllocateConstantOutput_BitsInv operand a data a' data' :
  AllocateConstantOutput operand a data = Some (a', data') ->
  BitsInv a -> BitsInv a'.
Proof.
  unfold AllocateConstantOutput. intros Hs Hinv. binds.
  destruct i; try discriminate. eauto with bits.
Qed.

Lemma AllocateOutput_at_BitsInv operand instr_index pos a data reg a' data' :
  AllocateOutput_at operand instr_index pos a data = Some (reg, a', data') ->
  BitsInv a -> BitsInv a'.
Proof.
  unfold AllocateOutput_at. intros Hs Hinv. binds; eauto 8 with bits.
Qed.

Lemma AllocateOutput_BitsInv operand instr_index a data a' data' :
  AllocateOutput operand instr_index a data = Some (a', data') ->
  BitsInv a -> BitsInv a'.
Proof.
  unfold AllocateOutput. intros Hs Hinv. binds.
  eauto using AllocateOutput_at_BitsInv.
Qed.

Lemma AllocateSameInputOutput_BitsInv output input instr_index a data a' data' :
  AllocateSameInputOutput output input instr_index a data = Some (a', data') ->
  BitsInv a -> BitsInv a'.
Proof.
  unfold AllocateSameInputOutput. intros Hs Hinv. binds;
    eauto using AllocateOutput_at_BitsInv with bits.
Qed.

Lemma AllocateTemp_BitsInv operand instr_index a data a' data' :
  AllocateTemp operand instr_index a data = Some (a', data') ->
  BitsInv a -> BitsInv a'.
Proof.
  unfold AllocateTemp. intros Hs Hinv. binds; eauto 6 with bits.
Qed.

Lemma ReserveFixedRegister_BitsInv u instr_index pos a data a' data' :
  ReserveFixedRegister u instr_index pos a data = Some (a', data') ->
  BitsInv a -> BitsInv a'.
Proof.
  unfold ReserveFixedRegister. intros Hs Hinv. binds; eauto 6 with bits.
Qed.

#[local] Hint Resolve AllocateInput_BitsInv AllocateGapMoveInput_BitsInv
  AllocateConstantOutput_BitsInv AllocateOutput_BitsInv
  AllocateSameInputOutput_BitsInv AllocateTemp_BitsInv
  ReserveFixedRegister_BitsInv : bits.

(** ** Both sub-allocators *)

#[local] Arguments on_allocator : simpl never.
#[local] Arguments lift_allocator : simpl never.

Lemma on_allocator_both (P : SinglePassRegisterAllocator -> Prop) k f
    m data m' data' :
  (forall a d a' d', f a d = Some (a', d') -> P a -> P a') ->
  on_allocator k f m data = Some (m', data') ->
  both P m -> both P m'.
Proof.
  intros Hf Ho [Hg Hd]. unfold on_allocator in Ho.
  destruct k; binds; split; simpl; eauto.
Qed.

Ltac on_alloc :=
  match goal with
  | Ho : on_allocator _ _ _ _ = Some (?m', _) |- both BitsInv ?m' =>
      eapply on_allocator_both in Ho; [exact Ho| |];
      [intros ? ? ? ? ? ?; eauto with bits|]
  end.

Lemma ReserveFixed_outputs_BitsInv instr instr_index i outs m data m' data' :
  ReserveFixed_outputs instr instr_index i outs m data = Some (m', data') ->
  both BitsInv m -> both BitsInv m'.
Proof.
  revert i m data. induction outs as [|o outs IH]; simpl; intros i m data Hr Hinv.
  - by simplify_eq.
  - destruct (read_operand data o) as [op|]; [simpl in Hr|discriminate].
    destruct op; binds; eapply IH; eauto; on_alloc; done.
Qed.

Lemma ReserveFixed_operands_BitsInv reserve instr_index ops m data m' data' :
  (forall u i a d a' d',
     reserve u i a d = Some (a', d') -> BitsInv a -> BitsInv a') ->
  ReserveFixed_operands reserve instr_index ops m data = Some (m', data') ->
  both BitsInv m -> both BitsInv m'.
Proof.
  intros Hres. revert m data.
  induction ops as [|o ops IH]; simpl; intros m data Hr Hinv.
  - by simplify_eq.
  - destruct (read_operand data o) as [op|]; [simpl in Hr|discriminate].
    destruct op; binds; eapply IH; eauto.
    eapply on_allocator_both; [|eassumption|done]. eauto.
Qed.

Lemma ReserveFixedRegisters_BitsInv instr_index m data m' data' :
  ReserveFixedRegisters instr_index m data = Some (m', data') ->
  both BitsInv m -> both BitsInv m'.
Proof.
  unfold ReserveFixedRegisters. intros Hr Hinv. binds.
  eapply ReserveFixed_operands_BitsInv; [|eassumption|].
  { unfold ReserveFixedInputRegister. eauto with bits. }
  eapply ReserveFixed_operands_BitsInv; [|eassumption|].
  { unfold ReserveFixedTempRegister. eauto with bits. }
  eapply ReserveFixed_outputs_BitsInv; eauto.
Qed.

Lemma Allocate_outputs_BitsInv instr instr_index outs m data m' data' :
  Allocate_outputs instr instr_index outs m data = Some (m', data') ->
  both BitsInv m -> both BitsInv m'.
Proof.
  revert m data. induction outs as [|o outs IH]; simpl; intros m data Hr Hinv.
  - by simplify_eq.
  - destruct (read_operand data o) as [op|]; [simpl in Hr|discriminate].
    destruct op; binds; eapply IH; eauto; on_alloc; done.
Qed.

Lemma Allocate_temps_BitsInv instr_index ts m data m' data' :
  Allocate_temps instr_index ts m data = Some (m', data') ->
  both BitsInv m -> both BitsInv m'.
Proof.
  revert m data. induction ts as [|t ts IH]; simpl; intros m data Hr Hinv.
  - by simplify_eq.
  - binds. eapply IH; eauto. on_alloc. done.
Qed.

Lemma Allocate_inputs_BitsInv skip instr_index ins m data m' data' :
  Allocate_inputs skip instr_index ins m data = Some (m', data') ->
  both BitsInv m -> both BitsInv m'.
Proof.
  revert m data. induction ins as [|i ins IH]; simpl; intros m data Hr Hinv.
  - by simplify_eq.
  - destruct (read_operand data i) as [op|]; [simpl in Hr|discriminate].
    destruct op; binds; eapply IH; eauto; on_alloc; done.
Qed.

Lemma Allocate_gap_move_inputs_BitsInv instr_index moves m data m' data' :
  Allocate_gap_move_inputs instr_index moves m data = Some (m', data') ->
  both BitsInv m -> both BitsInv m'.
Proof.
  revert m data. induction moves as [|mv moves IH]; simpl;
    intros m data Hr Hinv.
  - by simplify_eq.
  - destruct (read_operand data (source mv)) as [op|];
      [simpl in Hr|discriminate].
    destruct op; binds; eapply IH; eauto; on_alloc; done.
Qed.

Lemma lift_allocator_spec f a d a' d' :
  lift_allocator f a d = Some (a', d') -> a' = f a /\ d' = d.
Proof. unfold lift_allocator. intros [= <- <-]. done. Qed.

Lemma on_allocator_SpillAllRegisters_BitsInv k m data m' data' :
  on_allocator k SpillAllRegisters m data = Some (m', data') ->
  both BitsInv m -> both BitsInv m'.
Proof. intros Ho Hinv. on_alloc. done. Qed.

Lemma on_allocator_EndInstruction_spec k m data m' data' :
  on_allocator k (lift_allocator EndInstruction) m data = Some (m', data') ->
  both BitsInv m ->
  both BitsInv m'
  /\ in_use_clear (match k with
                   | kGeneral => general_reg_allocator m'
                   | kDouble => double_reg_allocator m'
                   end)
  /\ match k with
     | kGeneral => double_reg_allocator m' = double_reg_allocator m
     | kDouble => general_reg_allocator m' = general_reg_allocator m
     end.
Proof.
  intros Ho [Hg Hd]. unfold on_allocator, lift_allocator in Ho.
  destruct k; simpl in Ho; simplify_eq; simpl; repeat split;
    eauto with bits.
Qed.

(** Derive the invariant of every intermediate allocator state. *)
Ltac derive_BitsInv :=
  repeat match goal with
  | H : _ = Some (?m', _) |- _ =>
      lazymatch type of m' with MidTierRegisterAllocator => idtac end;
      lazymatch goal with
      | _ : both BitsInv m' |- _ => fail
      | _ => idtac
      end;
      assert (both BitsInv m') by
        (first [ eapply ReserveFixedRegisters_BitsInv; eassumption
               | eapply Allocate_outputs_BitsInv; eassumption
               | eapply Allocate_temps_BitsInv; eassumption
               | eapply Allocate_inputs_BitsInv; eassumption
               | eapply Allocate_gap_move_inputs_BitsInv; eassumption
               | eapply on_allocator_SpillAllRegisters_BitsInv; eassumption
               | eapply on_allocator_EndInstruction_spec; eassumption ])
  end.

Lemma AllocateRegisters_instr_spec instr_index m data m' data' :
  AllocateRegisters_instr instr_index m data = Some (m', data') ->
  both BitsInv m -> both BitsInv m' /\ both in_use_clear m'.
Proof.
  unfold AllocateRegisters_instr. intros Hr Hinv. binds; derive_BitsInv.
  all: split; [done|].
  all: unfold on_allocator, lift_allocator in Hr; simpl in Hr; simplify_eq.
  all: repeat split; reflexivity.
Qed.

Lemma AllocateRegisters_instrs_spec indices m data m' data' :
  AllocateRegisters_instrs indices m data = Some (m', data') ->
  both BitsInv m -> both in_use_clear m ->
  both BitsInv m' /\ both in_use_clear m'.
Proof.
  revert m data. induction indices as [|i indices IH]; simpl;
    intros m data Hr Hinv Hclear.
  - by simplify_eq.
  - binds.
    match goal with Hi : AllocateRegisters_instr _ _ _ = Some _ |- _ =>
      apply AllocateRegisters_instr_spec in Hi as [? ?]; [|done] end.
    eauto.
Qed.

(** ** Spilling every register *)

Lemma RegisterState_Spill_length rs reg allocated data rs' data' :
  RegisterState_Spill rs reg allocated data = Some (rs', data') ->
  length rs' = length rs.
Proof.
  unfold RegisterState_Spill, ResetDataFor. intros Hs. binds.
  repeat match goal with Hi : set_index _ _ _ = Some _ |- _ =>
    apply set_index_length in Hi end.
  congruence.
Qed.

Lemma SpillRegister_spec reg a data a' data' rs :
  SpillRegister reg a data = Some (a', data') ->
  register_state_ a = Some rs ->
  exists rs',
    register_state_ a' = Some rs'
    /\ length rs' = length rs
    /\ ~ allocated_in rs' reg
    /\ (forall r, r <> reg -> at_index rs' r = at_index rs r)
    /\ in_use_at_instr_start_bits_ a' = in_use_at_instr_start_bits_ a
    /\ in_use_at_instr_end_bits_ a' = in_use_at_instr_end_bits_ a.
Proof.
  unfold SpillRegister. intros Hs Hrs. rewrite Hrs in Hs. simpl in Hs. binds.
  - exists rs. repeat split; try done.
    apply IsAllocated_false. by destruct b.
  - match goal with Hf : FreeRegister _ _ _ = Some _,
                    Hr : RegisterState_Spill _ _ _ _ = Some _ |- _ =>
      pose proof (RegisterState_Spill_length _ _ _ _ _ _ Hr);
      apply RegisterState_Spill_spec in Hr as [Hnot Hother];
      apply FreeRegister_spec in Hf as (Hst & Hs1 & Hs2 & _ & _)
    end.
    eexists. rewrite Hst, Hs1, Hs2. simpl. repeat split; done.
Qed.

Lemma SpillRegisters_spec regs a data a' data' rs :
  SpillRegisters regs a data = Some (a', data') ->
  register_state_ a = Some rs ->
  exists rs',
    register_state_ a' = Some rs'
    /\ length rs' = length rs
    /\ (forall r, In r regs -> ~ allocated_in rs' r)
    /\ (forall r, ~ allocated_in rs r -> ~ allocated_in rs' r)
    /\ in_use_at_instr_start_bits_ a' = in_use_at_instr_start_bits_ a
    /\ in_use_at_instr_end_bits_ a' = in_use_at_instr_end_bits_ a.
Proof.
  revert a data rs. induction regs as [|reg regs IH]; simpl;
    intros a data rs Hs Hrs.
  - simplify_eq. exists rs. repeat split; done.
  - binds.
    match goal with Hi : SpillRegister _ _ _ = Some _ |- _ =>
      destruct (SpillRegister_spec _ _ _ _ _ _ Hi Hrs)
        as (rs1 & Hrs1 & Hlen1 & Hnot1 & Hother1 & Hu1 & Hu2) end.
    destruct (IH _ _ _ Hs Hrs1)
      as (rs2 & Hrs2 & Hlen2 & Hnot2 & Hkeep2 & Hv1 & Hv2).
    assert (forall r, ~ allocated_in rs r -> ~ allocated_in rs1 r) as Hkeep1.
    { intros j Hn Hal. destruct (Z.eq_dec j reg) as [->|Hne]; [done|].
      apply Hn. eapply allocated_in_agree; [|exact Hal].
      symmetry. by apply Hother1. }
    exists rs2. repeat split; try congruence.
    + intros j [<-|Hin]; [by apply Hkeep2|by apply Hnot2].
    + intros j Hn. by apply Hkeep2, Hkeep1.
Qed.

Lemma allocated_in_range rs r : allocated_in rs r -> In r (RegisterState_indices rs).
Proof.
  intros [x [Hd _]]. unfold reg_data in Hd.
  destruct (at_index rs r) as [o|] eqn:E; [|discriminate].
  apply at_index_Some in E. unfold RegisterState_indices.
  apply in_map_iff. exists (Z.to_nat r). split; [lia|].
  apply in_seq. lia.
Qed.

Lemma SpillAllRegisters_spec a data a' data' :
  SpillAllRegisters a data = Some (a', data') ->
  BitsInv a ->
  allocated_registers_bits_ a' = 0
  /\ (forall r, ~ RegAllocated a' r)
  /\ in_use_at_instr_start_bits_ a' = in_use_at_instr_start_bits_ a
  /\ in_use_at_instr_end_bits_ a' = in_use_at_instr_end_bits_ a.
Proof.
  intros Hs Hinv.
  assert (BitsInv a') as Hinv' by eauto using SpillAllRegisters_BitsInv.
  assert ((forall r, ~ RegAllocated a' r)
          /\ in_use_at_instr_start_bits_ a' = in_use_at_instr_start_bits_ a
          /\ in_use_at_instr_end_bits_ a' = in_use_at_instr_end_bits_ a)
    as (Hnone & Hu1 & Hu2).
  { unfold SpillAllRegisters in Hs.
    destruct (register_state_ a) as [rs|] eqn:Hrs.
    - destruct (SpillRegisters_spec _ _ _ _ _ _ Hs Hrs)
        as (rs' & Hrs' & Hlen & Hnot & _ & Hu1 & Hu2).
      repeat split; try done.
      intros j [rs2 [Hrs2 Hal]]. assert (rs2 = rs') as -> by congruence.
      apply (Hnot j); [|done]. apply allocated_in_range in Hal.
      unfold RegisterState_indices in *. by rewrite <- Hlen.
    - simplify_eq. repeat split; try done.
      intros j [rs2 [Hrs2 _]]. congruence. }
  repeat split; try done.
  apply Z.bits_inj'. intros n Hn. rewrite Z.bits_0.
  destruct (Z.testbit (allocated_registers_bits_ a') n) eqn:E; [|done].
  destruct (Hnone n). by apply Hinv'.
Qed.

Lemma on_allocator_spec k f m data m' data' :
  on_allocator k f m data = Some (m', data') ->
  match k with
  | kGeneral =>
      exists a', f (general_reg_allocator m) data = Some (a', data')
                 /\ m' = mkMidTier a' (double_reg_allocator m)
  | kDouble =>
      exists a', f (double_reg_allocator m) data = Some (a', data')
                 /\ m' = mkMidTier (general_reg_allocator m) a'
  end.
Proof.
  unfold on_allocator. intros Ho. destruct k; binds; eauto.
Qed.

Lemma no_block_state_BitsInv a : no_block_state a -> BitsInv a.
Proof.
  intros (_ & _ & Hbits & _) r Hr Hbit. rewrite Hbits, Z.bits_0 in Hbit.
  discriminate.
Qed.

Lemma no_block_state_in_use_clear a : no_block_state a -> in_use_clear a.
Proof. intros (? & ? & _). done. Qed.

(** One block, from the state that [StartBlock] asserts. *)
Lemma AllocateRegisters_block_no_block_state b m data m' data' :
  both no_block_state m ->
  AllocateRegisters_block b m data = Some (m', data') ->
  both no_block_state m'.
Proof.
  intros [Hg Hd] Hb. unfold AllocateRegisters_block, StartBlock in Hb.
  destruct m as [g d]. simpl in *. binds.
  match goal with Hi : AllocateRegisters_instrs _ _ _ = Some _ |- _ =>
    apply AllocateRegisters_instrs_spec in Hi as [[Ig Id] [Cg Cd]] end.
  2: split; simpl; eauto using no_block_state_BitsInv.
  2: split; simpl; eauto using no_block_state_in_use_clear.
  repeat match goal with Ho : on_allocator _ _ _ _ = Some _ |- _ =>
    apply on_allocator_spec in Ho as (? & Ho & ->); simpl in Ho end.
  repeat match goal with Hl : lift_allocator _ _ _ = Some _ |- _ =>
    apply lift_allocator_spec in Hl as [-> ->] end.
  repeat match goal with Hs : SpillAllRegisters _ _ = Some _ |- _ =>
    apply SpillAllRegisters_spec in Hs as (? & _ & ? & ?); [|done] end.
  simpl in *. destruct Cg, Cd.
  split; unfold no_block_state, EndBlock; simpl; repeat split; congruence.
Qed.

(** The constructor leaves the state that [StartBlock] asserts, and so
    does every block of a run of [AllocateRegisters]. *)
Lemma SinglePassRegisterAllocator_new_no_block_state k vregs regs codes a :
  SinglePassRegisterAllocator_new k vregs regs codes = Some a ->
  no_block_state a.
Proof.
  unfold SinglePassRegisterAllocator_new. intros Hn.
  destruct (fill_reg_code_to_index _ _ _); [simpl in Hn|discriminate].
  by simplify_eq.
Qed.

Lemma AllocateRegisters_blocks_no_block_state blocks :
  forall m data m' data',
    both no_block_state m ->
    AllocateRegisters_blocks blocks m data = Some (m', data') ->
    both no_block_state m'.
Proof.
  induction blocks as [|b blocks IH]; simpl; intros m data m' data' Hm Hb.
  - by simplify_eq.
  - destruct (AllocateRegisters_block b m data) as [[m1 d1]|] eqn:H1;
      [simpl in Hb|discriminate].
    eauto using AllocateRegisters_block_no_block_state.
Qed.

(** C9: when the allocator enters a block the way [StartBlock] asserts
    it (no register state, the three bitmaps zero: the state after
    construction and after every earlier block), then after
    [AllocateRegisters(block)] has spilled all registers of both kinds and
    called [EndBlock], each of the two sub-allocators again has its three
    bitmaps zero and its register state reset to null. *)
Theorem C9_no_allocation_state_survives_EndBlock b m data m' data' :
  both no_block_state m ->
  AllocateRegisters_block b m data = Some (m', data') ->
  both no_block_state m'.
Proof. apply AllocateRegisters_block_no_block_state. Qed.

(** ** Spilling twice *)

Lemma SpillRegister_unallocated reg a data rs :
  register_state_ a = Some rs ->
  RegisterState_IsAllocated rs reg = Some false ->
  SpillRegister reg a data = Some (a, data).
Proof.
  intros Hrs Hal. unfold SpillRegister. rewrite Hrs. simpl.
  rewrite Hal. reflexivity.
Qed.

Lemma IsAllocated_in_range rs r :
  In r (RegisterState_indices rs) -> ~ allocated_in rs r ->
  RegisterState_IsAllocated rs r = Some false.
Proof.
  intros Hin Hn. unfold RegisterState_indices in Hin.
  apply in_map_iff in Hin as (n & <- & Hn'). apply in_seq in Hn'.
  destruct (RegisterState_IsAllocated rs (Z.of_nat n)) as [[|]|] eqn:E.
  - apply IsAllocated_true in E. contradiction.
  - reflexivity.
  - unfold RegisterState_IsAllocated, HasRegisterData, reg_data in E.
    rewrite at_index_of_nat in E. unfold RegisterState in *.
    destruct (rs !! n) as [[x|]|] eqn:El; rewrite ?El in E; simpl in E;
      try discriminate.
    apply lookup_ge_None in El. lia.
Qed.

Lemma SpillRegisters_unallocated regs a data rs :
  register_state_ a = Some rs ->
  (forall r, In r regs -> RegisterState_IsAllocated rs r = Some false) ->
  SpillRegisters regs a data = Some (a, data).
Proof.
  intros Hrs. induction regs as [|reg regs IH]; simpl; intros Hal; [done|].
  rewrite (SpillRegister_unallocated reg a data rs) by auto. simpl. auto.
Qed.

(** C10: [SpillRegister(reg)] returns at once, with the allocator and the
    allocation data (instruction operands, gap moves, virtual-register
    data) as they were, when [reg] is not allocated; and
    [SpillAllRegisters] run a second time changes nothing that the first
    run left. *)
Theorem C10_SpillAllRegisters_idempotent a data :
  (forall reg rs,
     register_state_ a = Some rs ->
     RegisterState_IsAllocated rs reg = Some false ->
     SpillRegister reg a data = Some (a, data))
  /\ (forall a' data',
       SpillAllRegisters a data = Some (a', data') ->
       SpillAllRegisters a' data' = Some (a', data')).
Proof.
  split; [eauto using SpillRegister_unallocated|].
  intros a' data' Hs. unfold SpillAllRegisters in *.
  destruct (register_state_ a) as [rs|] eqn:Hrs.
  - destruct (SpillRegisters_spec _ _ _ _ _ _ Hs Hrs)
      as (rs' & Hrs' & Hlen & Hnot & _).
    rewrite Hrs'. apply SpillRegisters_unallocated with (rs := rs'); [done|].
    intros r Hin. apply IsAllocated_in_range; [done|].
    apply Hnot. unfold RegisterState_indices in *. by rewrite <- Hlen.
  - simplify_eq. by rewrite Hrs.
Qed.

End RegisterBits.

(** The theorem at the block of [Example.call_code]. *)
Lemma C9_witness :
  both no_block_state Example.call_allocator
  /\ AllocateRegisters_block Example.call_block Example.call_allocator
       Example.call_defined
     = Some Example.call_block_allocated
  /\ both no_block_state (fst Example.call_block_allocated).
Proof.
  assert (both no_block_state Example.call_allocator) as Hm
    by (repeat split; vm_compute; reflexivity).
  assert (AllocateRegisters_block Example.call_block Example.call_allocator
            Example.call_defined
          = Some (fst Example.call_block_allocated,
                  snd Example.call_block_allocated)) as Hb
    by (vm_compute; reflexivity).
  split; [exact Hm|]. split; [vm_compute; reflexivity|].
  exact (C9_no_allocation_state_survives_EndBlock _ _ _ _ _ Hm Hb).
Defined.

(** The theorem at the two allocated registers of [Example.choice_state]:
    a second [SpillAllRegisters] returns what the first left. *)
Lemma C10_witness :
  SpillAllRegisters (general_reg_allocator (fst Example.choice_state))
    (snd Example.choice_state)
  = Some Example.choice_spilled
  /\ Example.choice_spilled
     <> (general_reg_allocator (fst Example.choice_state),
         snd Example.choice_state)
  /\ SpillAllRegisters (fst Example.choice_spilled)
       (snd Example.choice_spilled)
     = Some (fst Example.choice_spilled, snd Example.choice_spilled).
Proof.
  assert (SpillAllRegisters (general_reg_allocator (fst Example.choice_state))
            (snd Example.choice_state)
          = Some (fst Example.choice_spilled, snd Example.choice_spilled))
    as Hs by (vm_compute; reflexivity).
  split; [vm_compute; reflexivity|]. split; [vm_compute; discriminate|].
  exact (proj2 (C10_SpillAllRegisters_idempotent _ _) _ _ Hs).
Defined.

(** ** What the operations on the allocation data change *)

Section DataSpecs.
Context `{Platform}.

Lemma store_vreg_spec data v vd data' :
  store_vreg data v vd = Some data' ->
  VirtualRegisterDataFor data' v = Some vd
  /\ (forall w, w <> v ->
        VirtualRegisterDataFor data' w = VirtualRegisterDataFor data w)
  /\ code data' = code data
  /\ operands data' = operands data
  /\ block_states_ data' = block_states_ data
  /\ reference_map_instructions data' = reference_map_instructions data
  /\ spilled_virtual_registers data' = spilled_virtual_registers data
  /\ frame data' = frame data.
Proof.
  unfold store_vreg, VirtualRegisterDataFor. intros Hs. binds. simpl.
  repeat split; try done.
  - eauto using at_index_set_index_eq.
  - intros w Hne. eapply at_index_set_index_ne; eauto.
Qed.

Lemma store_vreg_is_Some data v vd vd' :
  VirtualRegisterDataFor data v = Some vd ->
  exists data', store_vreg data v vd' = Some data'.
Proof.
  unfold store_vreg, VirtualRegisterDataFor. intros Hv.
  apply at_index_Some in Hv. rewrite set_index_is_Some by done. simpl. eauto.
Qed.

Lemma EnsureSpillRange_spec v data data' vd :
  VirtualRegisterDataFor data v = Some vd ->
  EnsureSpillRange v data = Some data' ->
  (exists sr, spill_range_ vd = Some sr /\ data' = data)
  \/ (spill_range_ vd = None
      /\ exists sr d1 spilled,
           (if is_phi vd
            then exists b, GetBlockOfInstr data (output_instr_index vd) = Some b
                           /\ SpillRange_for_phi b data = Some sr
            else SpillRange_for_output (output_instr_index vd + 1) data
                 = Some sr)
           /\ store_vreg data v (set_spill_range vd (Some sr)) = Some d1
           /\ BitVector_Add (spilled_virtual_registers data) (vreg vd)
              = Some spilled
           /\ data' = set_spilled_virtual_registers d1 spilled).
Proof.
  intros Hvd He. unfold EnsureSpillRange in He. rewrite Hvd in He.
  simpl in He. unfold HasSpillRange in He.
  destruct (spill_range_ vd) as [sr|] eqn:Hsr.
  - left. simplify_eq. eauto.
  - right. split; [done|].
    destruct (is_phi vd) eqn:Hphi; binds;
      match goal with Hs : store_vreg _ _ _ = Some _ |- _ =>
        pose proof (store_vreg_spec _ _ _ _ Hs) as (_ & _ & _ & _ & _ & _ & Hsp & _)
      end;
      rewrite Hsp in *; eauto 10.
Qed.

Lemma AddSpillUse_spec v instr_index data data' vd :
  VirtualRegisterDataFor data v = Some vd ->
  AddSpillUse v instr_index data = Some data' ->
  (is_constant vd = true /\ data' = data)
  \/ (is_constant vd = false
      /\ exists d1 vd1 sr,
           EnsureSpillRange v data = Some d1
           /\ VirtualRegisterDataFor d1 v = Some vd1
           /\ spill_range_ vd1 = Some sr
           /\ store_vreg d1 v
                (set_spill_range vd1 (Some (ExtendRangeTo sr instr_index)))
              = Some data').
Proof.
  intros Hvd Ha. unfold AddSpillUse in Ha. rewrite Hvd in Ha. simpl in Ha.
  destruct (is_constant vd) eqn:Hc.
  - left. by simplify_eq.
  - right. split; [done|]. binds. eauto 10.
Qed.

(** The record of [v] after [EnsureSpillRange]. *)
Lemma EnsureSpillRange_lookup v data data' vd :
  VirtualRegisterDataFor data v = Some vd ->
  EnsureSpillRange v data = Some data' ->
  exists sr,
    VirtualRegisterDataFor data' v = Some (set_spill_range vd (Some sr))
    /\ (forall w, w <> v ->
          VirtualRegisterDataFor data' w = VirtualRegisterDataFor data w)
    /\ match spill_range_ vd with
       | Some sr0 => sr = sr0
       | None =>
           if is_phi vd
           then exists b, GetBlockOfInstr data (output_instr_index vd) = Some b
                          /\ SpillRange_for_phi b data = Some sr
           else SpillRange_for_output (output_instr_index vd + 1) data
                = Some sr
       end.
Proof.
  intros Hvd He.
  destruct (EnsureSpillRange_spec _ _ _ _ Hvd He)
    as [(sr & Hsr & ->)|(Hsr & sr & d1 & sp & Hnew & Hst & Hadd & ->)].
  - exists sr. rewrite Hsr. split; [|done].
    rewrite Hvd. f_equal. destruct vd. simpl in *. by subst.
  - exists sr. rewrite Hsr.
    apply store_vreg_spec in Hst as (Hv & Hother & _). done.
Qed.

Lemma EnsureSpillRange_frame v data data' :
  EnsureSpillRange v data = Some data' ->
  operands data' = operands data /\ code data' = code data
  /\ block_states_ data' = block_states_ data
  /\ reference_map_instructions data' = reference_map_instructions data
  /\ frame data' = frame data.
Proof.
  intros He.
  destruct (VirtualRegisterDataFor data v) as [vd|] eqn:Hvd.
  - destruct (EnsureSpillRange_spec _ _ _ _ Hvd He)
      as [(sr & Hsr & ->)|(Hsr & sr & d1 & sp & Hnew & Hst & Hadd & ->)];
      [done|].
    apply store_vreg_spec in Hst as (_ & _ & ? & ? & ? & ? & ? & ?). done.
  - unfold EnsureSpillRange in He. rewrite Hvd in He. discriminate.
Qed.

Lemma AddSpillUse_frame v instr_index data data' :
  AddSpillUse v instr_index data = Some data' ->
  operands data' = operands data /\ code data' = code data
  /\ block_states_ data' = block_states_ data
  /\ reference_map_instructions data' = reference_map_instructions data
  /\ frame data' = frame data.
Proof.
  intros Ha.
  destruct (VirtualRegisterDataFor data v) as [vd|] eqn:Hvd.
  - destruct (AddSpillUse_spec _ _ _ _ _ Hvd Ha)
      as [[_ ->]|(_ & d1 & vd1 & sr & He & _ & _ & Hst)]; [done|].
    apply EnsureSpillRange_frame in He as (? & ? & ? & ? & ?).
    apply store_vreg_spec in Hst as (_ & _ & ? & ? & ? & ? & ? & ?).
    repeat split; congruence.
  - unfold AddSpillUse in Ha. rewrite Hvd in Ha. discriminate.
Qed.

(** The record of [v] after [AddSpillUse]. *)
Lemma AddSpillUse_lookup v instr_index data data' vd :
  VirtualRegisterDataFor data v = Some vd ->
  AddSpillUse v instr_index data = Some data' ->
  (forall w, w <> v ->
     VirtualRegisterDataFor data' w = VirtualRegisterDataFor data w)
  /\ if is_constant vd then data' = data
     else exists sr,
       VirtualRegisterDataFor data' v
       = Some (set_spill_range vd (Some (ExtendRangeTo sr instr_index)))
       /\ match spill_range_ vd with
          | Some sr0 => sr = sr0
          | None =>
              if is_phi vd
              then exists b,
                     GetBlockOfInstr data (output_instr_index vd) = Some b
                     /\ SpillRange_for_phi b data = Some sr
              else SpillRange_for_output (output_instr_index vd + 1) data
                   = Some sr
          end.
Proof.
  intros Hvd Ha.
  destruct (AddSpillUse_spec _ _ _ _ _ Hvd Ha)
    as [[-> ->]|(-> & d1 & vd1 & sr & He & Hv1 & Hsr1 & Hst)]; [done|].
  destruct (EnsureSpillRange_lookup _ _ _ _ Hvd He) as (sr' & Hl & Hother & Hk).
  rewrite Hl in Hv1. simplify_eq. simpl in *. simplify_eq.
  apply store_vreg_spec in Hst as (Hv & Hother' & _).
  split.
  - intros w Hne. rewrite Hother' by done. by apply Hother.
  - exists sr. split; [|done]. rewrite Hv. f_equal.
Qed.

End DataSpecs.

(** ** Invariants of the virtual register table

    A predicate [P] on the records of the table that survives the three
    kinds of update the allocator makes (linking a spill operand, widening
    a spill range, creating the spill range of a register that is not a
    constant) holds throughout the allocation. *)

Section VregInvariant.
Context `{Platform}.
Variable P : VirtualRegisterData -> Prop.

Hypothesis P_init :
  forall spill_operand instr_index virtual_register phi const,
    P (mkVreg spill_operand None instr_index virtual_register phi const).
Hypothesis P_operand :
  forall vd p, P vd -> P (set_spill_operand vd p).
Hypothesis P_extend :
  forall vd sr i, P vd -> spill_range_ vd = Some sr ->
    P (set_spill_range vd (Some (ExtendRangeTo sr i))).
Hypothesis P_create :
  forall vd blocks i, P vd -> spill_range_ vd = None ->
    is_constant vd = false -> is_phi vd = false ->
    P (set_spill_range vd
         (Some (ExtendRangeTo
                  (mkSpillRange (mkRange (output_instr_index vd + 1)
                                   (output_instr_index vd + 1)) blocks) i))).
Hypothesis P_create_phi :
  forall vd sr, P vd -> spill_range_ vd = None ->
    is_constant vd = false -> is_phi vd = true ->
    P (set_spill_range vd (Some sr)).

Local Abbreviation Inv := (VregInv P).

Lemma VregInv_same data data' :
  virtual_register_data_ data' = virtual_register_data_ data ->
  Inv data -> Inv data'.
Proof.
  intros Heq Hinv v vd Hv. apply (Hinv v). unfold VirtualRegisterDataFor in *.
  by rewrite <- Heq.
Qed.

Lemma store_vreg_VregInv data v vd data' :
  store_vreg data v vd = Some data' -> P vd -> Inv data -> Inv data'.
Proof.
  unfold store_vreg. intros Hs Hp Hinv w wd Hw. binds.
  unfold VirtualRegisterDataFor in Hw. simpl in Hw.
  erewrite at_index_set_index in Hw by eauto.
  case_decide; simplify_eq; [done|]. by apply (Hinv w).
Qed.

Lemma ReplaceWith_value_vregs data dest src data' :
  ReplaceWith_value data dest src = Some data' ->
  virtual_register_data_ data' = virtual_register_data_ data.
Proof. unfold ReplaceWith_value. intros Hr. case_decide; by simplify_eq. Qed.

Lemma ReplaceWith_vregs data dest src data' :
  ReplaceWith data dest src = Some data' ->
  virtual_register_data_ data' = virtual_register_data_ data.
Proof.
  unfold ReplaceWith. intros Hr. binds. eauto using ReplaceWith_value_vregs.
Qed.

Lemma AddGapMove_vregs data instr_index position from to mv data' :
  AddGapMove data instr_index position from to = Some (mv, data') ->
  virtual_register_data_ data' = virtual_register_data_ data.
Proof. unfold AddGapMove. intros Ha. binds. reflexivity. Qed.

Lemma ReplaceWith_value_VregInv data dest src data' :
  ReplaceWith_value data dest src = Some data' -> Inv data -> Inv data'.
Proof. eauto using VregInv_same, ReplaceWith_value_vregs. Qed.

Lemma ReplaceWith_VregInv data dest src data' :
  ReplaceWith data dest src = Some data' -> Inv data -> Inv data'.
Proof. eauto using VregInv_same, ReplaceWith_vregs. Qed.

Lemma AddGapMove_VregInv data instr_index position from to mv data' :
  AddGapMove data instr_index position from to = Some (mv, data') ->
  Inv data -> Inv data'.
Proof. eauto using VregInv_same, AddGapMove_vregs. Qed.

Lemma AddPendingOperandGapMove_VregInv data instr_index position mv data' :
  AddPendingOperandGapMove data instr_index position = Some (mv, data') ->
  Inv data -> Inv data'.
Proof. unfold AddPendingOperandGapMove. eauto using AddGapMove_VregInv. Qed.

Lemma set_operands_VregInv data ops : Inv data -> Inv (set_operands data ops).
Proof. by apply VregInv_same. Qed.

Lemma Initialize_VregInv data v virtual_register spill_operand instr_index
    phi const data' :
  Initialize data v virtual_register spill_operand instr_index phi const
    = Some data' ->
  Inv data -> Inv data'.
Proof. unfold Initialize. eauto using store_vreg_VregInv. Qed.

Lemma AddSpillUse_VregInv v instr_index data data' :
  AddSpillUse v instr_index data = Some data' -> Inv data -> Inv data'.
Proof.
  intros Ha Hinv.
  destruct (VirtualRegisterDataFor data v) as [vd|] eqn:Hvd.
  2: { unfold AddSpillUse in Ha. rewrite Hvd in Ha. discriminate. }
  assert (P vd) as Hp by eauto.
  destruct (AddSpillUse_lookup _ _ _ _ _ Hvd Ha) as [Hother Hv].
  destruct (is_constant vd) eqn:Hc; [by subst|].
  destruct Hv as (sr & Hv & Hsr).
  intros w wd Hw. destruct (Z.eq_dec w v) as [->|Hne].
  2: { rewrite Hother in Hw by done. eauto. }
  rewrite Hv in Hw. simplify_eq.
  destruct (spill_range_ vd) as [sr0|] eqn:Hsr0.
  - subst. by apply P_extend.
  - destruct (is_phi vd) eqn:Hphi.
    + by apply P_create_phi.
    + unfold SpillRange_for_output in Hsr. binds. by apply P_create.
Qed.

Create HintDb vinv.

#[local] Hint Resolve ReplaceWith_value_VregInv ReplaceWith_VregInv
  AddGapMove_VregInv AddPendingOperandGapMove_VregInv set_operands_VregInv
  Initialize_VregInv AddSpillUse_VregInv store_vreg_VregInv : vinv.

Lemma AddPendingSpillOperand_VregInv v pending_op data data' :
  AddPendingSpillOperand v pending_op data = Some data' ->
  Inv data -> Inv data'.
Proof.
  unfold AddPendingSpillOperand. intros Ha Hinv.
  destruct (VirtualRegisterDataFor data v) as [vd|] eqn:Hvd;
    [simpl in Ha|discriminate].
  assert (P vd) as Hp by eauto.
  destruct (spill_operand_ vd); binds.
  - destruct i as [| | |[?|]|]; try discriminate. eauto 6 with vinv.
  - eauto with vinv.
Qed.

#[local] Hint Resolve AddPendingSpillOperand_VregInv : vinv.

Lemma SpillOperand_VregInv v operand instr_index data data' :
  SpillOperand v operand instr_index data = Some data' ->
  Inv data -> Inv data'.
Proof. unfold SpillOperand. intros Hs Hinv. binds; eauto 6 with vinv. Qed.

Lemma EmitGapMoveToInputFromSpillSlot_VregInv v to instr_index data data' :
  EmitGapMoveToInputFromSpillSlot v to instr_index data = Some data' ->
  Inv data -> Inv data'.
Proof.
  unfold EmitGapMoveToInputFromSpillSlot. intros Hs Hinv.
  binds; eauto 8 with vinv.
Qed.

Lemma EmitGapMoveToSpillSlot_VregInv v from instr_index data data' :
  EmitGapMoveToSpillSlot v from instr_index data = Some data' ->
  Inv data -> Inv data'.
Proof.
  unfold EmitGapMoveToSpillSlot. intros Hs Hinv. binds; eauto 8 with vinv.
Qed.

#[local] Hint Resolve SpillOperand_VregInv
  EmitGapMoveToInputFromSpillSlot_VregInv EmitGapMoveToSpillSlot_VregInv
  : vinv.

Lemma EmitGapMoveToSuccessors_VregInv v from succs data data' :
  EmitGapMoveToSuccessors v from succs data = Some data' ->
  Inv data -> Inv data'.
Proof.
  revert data. induction succs as [|s succs IH]; simpl; intros data Hs Hinv.
  - by simplify_eq.
  - binds. eauto with vinv.
Qed.

Lemma EmitGapMoveFromOutputToSpillSlot_VregInv v from b instr_index
    data data' :
  EmitGapMoveFromOutputToSpillSlot v from b instr_index data = Some data' ->
  Inv data -> Inv data'.
Proof.
  unfold EmitGapMoveFromOutputToSpillSlot. intros Hs Hinv.
  binds; eauto using EmitGapMoveToSuccessors_VregInv with vinv.
Qed.

Lemma AllocatePendingChain_VregInv fuel current allocated data data' :
  AllocatePendingChain fuel current allocated data = Some data' ->
  Inv data -> Inv data'.
Proof.
  revert current data. induction fuel as [|fuel IH]; intros [p|] data;
    simpl; intros Hs Hinv; try by simplify_eq.
  binds. eauto with vinv.
Qed.

Lemma AllocatePendingSpillOperand_VregInv v allocated data data' :
  AllocatePendingSpillOperand v allocated data = Some data' ->
  Inv data -> Inv data'.
Proof.
  unfold AllocatePendingSpillOperand. intros Hs Hinv. binds.
  eauto using AllocatePendingChain_VregInv.
Qed.

Lemma SpillPendingChain_VregInv fuel v instr_index pending_use data data' :
  SpillPendingChain fuel v instr_index pending_use data = Some data' ->
  Inv data -> Inv data'.
Proof.
  revert pending_use data. induction fuel as [|fuel IH]; intros [p|] data;
    simpl; intros Hs Hinv; try by simplify_eq.
  binds. eauto with vinv.
Qed.

#[local] Hint Resolve EmitGapMoveFromOutputToSpillSlot_VregInv
  AllocatePendingChain_VregInv AllocatePendingSpillOperand_VregInv
  SpillPendingChain_VregInv : vinv.

Lemma Register_PendingUse_VregInv r operand virtual_register instr_index
    data r' data' :
  Register_PendingUse r operand virtual_register instr_index data
    = Some (r', data') ->
  Inv data -> Inv data'.
Proof. unfold Register_PendingUse. intros Hs Hinv. binds; eauto with vinv. Qed.

Lemma Register_Commit_VregInv r allocated data r' data' :
  Register_Commit r allocated data = Some (r', data') ->
  Inv data -> Inv data'.
Proof. unfold Register_Commit. intros Hs Hinv. binds; eauto with vinv. Qed.

Lemma Register_Spill_VregInv r allocated data r' data' :
  Register_Spill r allocated data = Some (r', data') ->
  Inv data -> Inv data'.
Proof.
  unfold Register_Spill, Register_SpillPendingUses. intros Hs Hinv.
  binds; eauto 6 with vinv.
Qed.

#[local] Hint Resolve Register_PendingUse_VregInv Register_Commit_VregInv
  Register_Spill_VregInv : vinv.

Lemma RegisterState_Commit_VregInv rs reg allocated operand data rs' data' :
  RegisterState_Commit rs reg allocated operand data = Some (rs', data') ->
  Inv data -> Inv data'.
Proof.
  unfold RegisterState_Commit. intros Hs Hinv. binds; eauto 6 with vinv.
Qed.

Lemma RegisterState_Spill_VregInv rs reg allocated data rs' data' :
  RegisterState_Spill rs reg allocated data = Some (rs', data') ->
  Inv data -> Inv data'.
Proof.
  unfold RegisterState_Spill. intros Hs Hinv. binds; eauto 6 with vinv.
Qed.

Lemma RegisterState_AllocatePendingUse_VregInv rs reg virtual_register operand
    instr_index data rs' data' :
  RegisterState_AllocatePendingUse rs reg virtual_register operand
    instr_index data = Some (rs', data') ->
  Inv data -> Inv data'.
Proof.
  unfold RegisterState_AllocatePendingUse. intros Hs Hinv.
  binds; eauto 6 with vinv.
Qed.

Lemma AddGapMoveToSuccessors_VregInv from to succs data data' :
  AddGapMoveToSuccessors from to succs data = Some data' ->
  Inv data -> Inv data'.
Proof.
  revert data. induction succs as [|s succs IH]; simpl; intros data Hs Hinv.
  - by simplify_eq.
  - binds. eauto with vinv.
Qed.

Lemma EmitGapMoveFromOutput_VregInv from to instr_index data data' :
  EmitGapMoveFromOutput from to instr_index data = Some data' ->
  Inv data -> Inv data'.
Proof.
  unfold EmitGapMoveFromOutput. intros Hs Hinv.
  binds; eauto using AddGapMoveToSuccessors_VregInv with vinv.
Qed.

#[local] Hint Resolve RegisterState_Commit_VregInv
  RegisterState_Spill_VregInv RegisterState_AllocatePendingUse_VregInv
  EmitGapMoveFromOutput_VregInv : vinv.

Lemma SpillRegister_VregInv reg a data a' data' :
  SpillRegister reg a data = Some (a', data') -> Inv data -> Inv data'.
Proof. unfold SpillRegister. intros Hs Hinv. binds; eauto with vinv. Qed.

#[local] Hint Resolve SpillRegister_VregInv : vinv.

Lemma SpillRegisters_VregInv regs a data a' data' :
  SpillRegisters regs a data = Some (a', data') -> Inv data -> Inv data'.
Proof.
  revert a data. induction regs as [|reg regs IH]; simpl; intros a data Hs Hinv.
  - by simplify_eq.
  - binds. eauto with vinv.
Qed.

Lemma SpillAllRegisters_VregInv a data a' data' :
  SpillAllRegisters a data = Some (a', data') -> Inv data -> Inv data'.
Proof.
  unfold SpillAllRegisters. intros Hs Hinv.
  destruct (register_state_ a); [|by simplify_eq].
  eauto using SpillRegisters_VregInv.
Qed.

Lemma SpillRegisterForVirtualRegister_VregInv virtual_register a data a' data' :
  SpillRegisterForVirtualRegister virtual_register a data = Some (a', data') ->
  Inv data -> Inv data'.
Proof.
  unfold SpillRegisterForVirtualRegister. intros Hs Hinv.
  binds; eauto with vinv.
Qed.

Lemma ChooseRegisterFor_rep_VregInv pos must_use_register a data reg a' data' :
  ChooseRegisterFor_rep pos must_use_register a data = Some (reg, a', data') ->
  Inv data -> Inv data'.
Proof.
  unfold ChooseRegisterFor_rep. intros Hs Hinv. binds; eauto with vinv.
Qed.

Lemma ChooseRegisterFor_VregInv v pos must_use_register a data reg a' data' :
  ChooseRegisterFor v pos must_use_register a data = Some (reg, a', data') ->
  Inv data -> Inv data'.
Proof.
  unfold ChooseRegisterFor. intros Hs Hinv.
  binds; eauto using ChooseRegisterFor_rep_VregInv.
Qed.

Lemma CommitRegister_VregInv reg virtual_register operand pos a data a' data' :
  CommitRegister reg virtual_register operand pos a data = Some (a', data') ->
  Inv data -> Inv data'.
Proof. unfold CommitRegister. intros Hs Hinv. binds; eauto with vinv. Qed.

Lemma AllocateUse_VregInv reg virtual_register operand instr_index pos
    a data a' data' :
  AllocateUse reg virtual_register operand instr_index pos a data
    = Some (a', data') ->
  Inv data -> Inv data'.
Proof. unfold AllocateUse. intros Hs Hinv. binds; eauto with vinv. Qed.

Lemma AllocatePendingUse_VregInv reg virtual_register operand instr_index
    a data a' data' :
  AllocatePendingUse reg virtual_register operand instr_index a data
    = Some (a', data') ->
  Inv data -> Inv data'.
Proof. unfold AllocatePendingUse. intros Hs Hinv. binds; eauto with vinv. Qed.

Lemma AllocateUseWithMove_VregInv reg virtual_register operand instr_index pos
    a data a' data' :
  AllocateUseWithMove reg virtual_register operand instr_index pos a data
    = Some (a', data') ->
  Inv data -> Inv data'.
Proof.
  unfold AllocateUseWithMove. intros Hs Hinv. binds; eauto 6 with vinv.
Qed.

#[local] Hint Resolve SpillAllRegisters_VregInv
  SpillRegisterForVirtualRegister_VregInv ChooseRegisterFor_rep_VregInv
  ChooseRegisterFor_VregInv CommitRegister_VregInv AllocateUse_VregInv
  AllocatePendingUse_VregInv AllocateUseWithMove_VregInv : vinv.

Lemma AllocateInput_VregInv operand instr_index a data a' data' :
  AllocateInput operand instr_index a data = Some (a', data') ->
  Inv data -> Inv data'.
Proof. unfold AllocateInput. intros Hs Hinv. binds; eauto 8 with vinv. Qed.

Lemma AllocateGapMoveInput_VregInv operand instr_index a data a' data' :
  AllocateGapMoveInput operand instr_index a data = Some (a', data') ->
  Inv data -> Inv data'.
Proof.
  unfold AllocateGapMoveInput. intros Hs Hinv. binds; eauto 8 with vinv.
Qed.

Lemma AllocateConstantOutput_VregInv operand a data a' data' :
  AllocateConstantOutput operand a data = Some (a', data') ->
  Inv data -> Inv data'.
Proof.
  unfold AllocateConstantOutput. intros Hs Hinv. binds.
  destruct i; try discriminate. eauto with vinv.
Qed.

Lemma AllocateOutput_at_VregInv operand instr_index pos a data reg a' data' :
  AllocateOutput_at operand instr_index pos a data = Some (reg, a', data') ->
  Inv data -> Inv data'.
Proof.
  unfold AllocateOutput_at. intros Hs Hinv. binds; eauto 12 with vinv.
Qed.

Lemma AllocateOutput_VregInv operand instr_index a data a' data' :
  AllocateOutput operand instr_index a data = Some (a', data') ->
  Inv data -> Inv data'.
Proof.
  unfold AllocateOutput. intros Hs Hinv. binds.
  eauto using AllocateOutput_at_VregInv.
Qed.

Lemma AllocateSameInputOutput_VregInv output input instr_index a data a' data' :
  AllocateSameInputOutput output input instr_index a data = Some (a', data') ->
  Inv data -> Inv data'.
Proof.
  unfold AllocateSameInputOutput. intros Hs Hinv.
  binds; eauto 10 using AllocateOutput_at_VregInv with vinv.
Qed.

Lemma AllocateTemp_VregInv operand instr_index a data a' data' :
  AllocateTemp operand instr_index a data = Some (a', data') ->
  Inv data -> Inv data'.
Proof. unfold AllocateTemp. intros Hs Hinv. binds; eauto 8 with vinv. Qed.

Lemma ReserveFixedRegister_VregInv u instr_index pos a data a' data' :
  ReserveFixedRegister u instr_index pos a data = Some (a', data') ->
  Inv data -> Inv data'.
Proof.
  unfold ReserveFixedRegister. intros Hs Hinv. binds; eauto 8 with vinv.
Qed.

#[local] Hint Resolve AllocateInput_VregInv AllocateGapMoveInput_VregInv
  AllocateConstantOutput_VregInv AllocateOutput_VregInv
  AllocateSameInputOutput_VregInv AllocateTemp_VregInv
  ReserveFixedRegister_VregInv : vinv.

Lemma on_allocator_VregInv k f m data m' data' :
  (forall a d a' d', f a d = Some (a', d') -> Inv d -> Inv d') ->
  on_allocator k f m data = Some (m', data') ->
  Inv data -> Inv data'.
Proof.
  intros Hf Ho Hinv. unfold on_allocator in Ho. destruct k; binds; eauto.
Qed.

Ltac on_alloc_vinv :=
  match goal with
  | Ho : on_allocator _ _ _ _ = Some (_, ?d') |- VregInv P ?d' =>
      eapply on_allocator_VregInv in Ho; [exact Ho| |];
      [intros ? ? ? ? ? ?; eauto with vinv|]
  end.

Lemma ReserveFixed_outputs_VregInv instr instr_index i outs m data m' data' :
  ReserveFixed_outputs instr instr_index i outs m data = Some (m', data') ->
  Inv data -> Inv data'.
Proof.
  revert i m data. induction outs as [|o outs IH]; simpl;
    intros i m data Hr Hinv.
  - by simplify_eq.
  - destruct (read_operand data o) as [op|]; [simpl in Hr|discriminate].
    destruct op; binds; eapply IH; eauto; on_alloc_vinv; done.
Qed.

Lemma ReserveFixed_operands_VregInv reserve instr_index ops m data m' data' :
  (forall u i a d a' d',
     reserve u i a d = Some (a', d') -> Inv d -> Inv d') ->
  ReserveFixed_operands reserve instr_index ops m data = Some (m', data') ->
  Inv data -> Inv data'.
Proof.
  intros Hres. revert m data.
  induction ops as [|o ops IH]; simpl; intros m data Hr Hinv.
  - by simplify_eq.
  - destruct (read_operand data o) as [op|]; [simpl in Hr|discriminate].
    destruct op; binds; eapply IH; eauto.
    eapply on_allocator_VregInv; [|eassumption|done]. eauto.
Qed.

Lemma ReserveFixedRegisters_VregInv instr_index m data m' data' :
  ReserveFixedRegisters instr_index m data = Some (m', data') ->
  Inv data -> Inv data'.
Proof.
  unfold ReserveFixedRegisters. intros Hr Hinv. binds.
  eapply ReserveFixed_operands_VregInv; [|eassumption|].
  { unfold ReserveFixedInputRegister. eauto with vinv. }
  eapply ReserveFixed_operands_VregInv; [|eassumption|].
  { unfold ReserveFixedTempRegister. eauto with vinv. }
  eapply ReserveFixed_outputs_VregInv; eauto.
Qed.

Lemma Allocate_outputs_VregInv instr instr_index outs m data m' data' :
  Allocate_outputs instr instr_index outs m data = Some (m', data') ->
  Inv data -> Inv data'.
Proof.
  revert m data. induction outs as [|o outs IH]; simpl; intros m data Hr Hinv.
  - by simplify_eq.
  - destruct (read_operand data o) as [op|]; [simpl in Hr|discriminate].
    destruct op; binds; eapply IH; eauto; on_alloc_vinv; done.
Qed.

Lemma Allocate_temps_VregInv instr_index ts m data m' data' :
  Allocate_temps instr_index ts m data = Some (m', data') ->
  Inv data -> Inv data'.
Proof.
  revert m data. induction ts as [|t ts IH]; simpl; intros m data Hr Hinv.
  - by simplify_eq.
  - binds. eapply IH; eauto. on_alloc_vinv. done.
Qed.

Lemma Allocate_inputs_VregInv skip instr_index ins m data m' data' :
  Allocate_inputs skip instr_index ins m data = Some (m', data') ->
  Inv data -> Inv data'.
Proof.
  revert m data. induction ins as [|i ins IH]; simpl; intros m data Hr Hinv.
  - by simplify_eq.
  - destruct (read_operand data i) as [op|]; [simpl in Hr|discriminate].
    destruct op; binds; eapply IH; eauto; on_alloc_vinv; done.
Qed.

Lemma Allocate_gap_move_inputs_VregInv instr_index moves m data m' data' :
  Allocate_gap_move_inputs instr_index moves m data = Some (m', data') ->
  Inv data -> Inv data'.
Proof.
  revert m data. induction moves as [|mv moves IH]; simpl;
    intros m data Hr Hinv.
  - by simplify_eq.
  - destruct (read_operand data (source mv)) as [op|];
      [simpl in Hr|discriminate].
    destruct op; binds; eapply IH; eauto; on_alloc_vinv; done.
Qed.

Lemma on_allocator_SpillAllRegisters_VregInv k m data m' data' :
  on_allocator k SpillAllRegisters m data = Some (m', data') ->
  Inv data -> Inv data'.
Proof. intros Ho Hinv. on_alloc_vinv. done. Qed.

Lemma on_allocator_lift_VregInv k f m data m' data' :
  on_allocator k (lift_allocator f) m data = Some (m', data') ->
  Inv data -> Inv data'.
Proof.
  intros Ho Hinv. eapply on_allocator_VregInv; [|eassumption|done].
  unfold lift_allocator. intros. by simplify_eq.
Qed.

#[local] Hint Resolve ReserveFixedRegisters_VregInv Allocate_outputs_VregInv
  Allocate_temps_VregInv Allocate_inputs_VregInv
  Allocate_gap_move_inputs_VregInv on_allocator_SpillAllRegisters_VregInv
  on_allocator_lift_VregInv : vinv.

Lemma AllocateRegisters_instr_VregInv instr_index m data m' data' :
  AllocateRegisters_instr instr_index m data = Some (m', data') ->
  Inv data -> Inv data'.
Proof.
  unfold AllocateRegisters_instr. intros Hr Hinv. binds; eauto 14 with vinv.
Qed.

Lemma AllocateRegisters_instrs_VregInv indices m data m' data' :
  AllocateRegisters_instrs indices m data = Some (m', data') ->
  Inv data -> Inv data'.
Proof.
  revert m data. induction indices as [|i indices IH]; simpl;
    intros m data Hr Hinv.
  - by simplify_eq.
  - binds. eauto using AllocateRegisters_instr_VregInv.
Qed.

Lemma AllocateRegisters_block_VregInv b m data m' data' :
  AllocateRegisters_block b m data = Some (m', data') ->
  Inv data -> Inv data'.
Proof.
  unfold AllocateRegisters_block. intros Hr Hinv.
  binds; eauto 8 using AllocateRegisters_instrs_VregInv with vinv.
Qed.

Lemma AllocateRegisters_blocks_VregInv blocks m data m' data' :
  AllocateRegisters_blocks blocks m data = Some (m', data') ->
  Inv data -> Inv data'.
Proof.
  revert m data. induction blocks as [|b blocks IH]; simpl;
    intros m data Hr Hinv.
  - by simplify_eq.
  - binds. eauto using AllocateRegisters_block_VregInv.
Qed.

Lemma UpdateSpillRange_vreg_VregInv b last_loop_instr v data data' :
  UpdateSpillRange_vreg b last_loop_instr v data = Some data' ->
  Inv data -> Inv data'.
Proof.
  unfold UpdateSpillRange_vreg. intros Hu Hinv.
  destruct (VirtualRegisterDataFor data v) as [vd|] eqn:Hvd;
    [simpl in Hu|discriminate].
  destruct (spill_range_ vd) as [sr|] eqn:Hsr; [|by simplify_eq].
  binds; [|done]. eapply store_vreg_VregInv; [eassumption| |done].
  apply P_extend; eauto.
Qed.

Lemma UpdateSpillRanges_vregs_VregInv b last_loop_instr vs data data' :
  UpdateSpillRanges_vregs b last_loop_instr vs data = Some data' ->
  Inv data -> Inv data'.
Proof.
  revert data. induction vs as [|v vs IH]; simpl; intros data Hu Hinv.
  - by simplify_eq.
  - binds. eauto using UpdateSpillRange_vreg_VregInv.
Qed.

Lemma UpdateSpillRanges_blocks_VregInv blocks data data' :
  UpdateSpillRanges_blocks blocks data = Some data' -> Inv data -> Inv data'.
Proof.
  revert data. induction blocks as [|b blocks IH]; simpl; intros data Hu Hinv.
  - by simplify_eq.
  - binds. eapply IH; [eassumption|].
    unfold UpdateSpillRanges_block in *.
    binds; eauto using UpdateSpillRanges_vregs_VregInv.
Qed.

(** Pass B keeps the invariant. *)
Lemma AllocateRegisters_VregInv m data m' data' :
  AllocateRegisters m data = Some (m', data') -> Inv data -> Inv data'.
Proof.
  unfold AllocateRegisters, UpdateSpillRangesForLoops. intros Hr Hinv. binds.
  eauto using AllocateRegisters_blocks_VregInv,
    UpdateSpillRanges_blocks_VregInv.
Qed.

(** Pass A establishes it, whatever the table held before. *)
Lemma InitializeBlockState_vregs b data data' :
  InitializeBlockState b data = Some data' ->
  virtual_register_data_ data' = virtual_register_data_ data.
Proof. unfold InitializeBlockState. intros Hi. binds; reflexivity. Qed.

Lemma DefineOutput_VregInv index output data data' :
  DefineOutput index output data = Some data' -> Inv data -> Inv data'.
Proof.
  unfold DefineOutput, DefineAsConstantOperand, DefineAsFixedSpillOperand,
    DefineAsUnallocatedOperand. intros Hd Hinv.
  destruct (read_operand data output) as [op|] eqn:Hop;
    [simpl in Hd|discriminate].
  destruct op; try discriminate.
  - destruct (HasFixedSlotPolicy u); eauto with vinv.
  - eauto with vinv.
Qed.

Lemma DefineOutputs_outputs_VregInv index outs data data' :
  DefineOutputs_outputs index outs data = Some data' -> Inv data -> Inv data'.
Proof.
  revert data. induction outs as [|o outs IH]; simpl; intros data Hd Hinv.
  - by simplify_eq.
  - binds. eauto using DefineOutput_VregInv.
Qed.

Lemma DefineOutputs_instr_VregInv index data data' :
  DefineOutputs_instr index data = Some data' -> Inv data -> Inv data'.
Proof.
  unfold DefineOutputs_instr. intros Hd Hinv. binds.
  - eapply (VregInv_same m); [reflexivity|].
    eauto using DefineOutputs_outputs_VregInv.
  - eauto using DefineOutputs_outputs_VregInv.
Qed.

Lemma DefineOutputs_instrs_VregInv indices data data' :
  DefineOutputs_instrs indices data = Some data' -> Inv data -> Inv data'.
Proof.
  revert data. induction indices as [|i l IH]; simpl; intros data Hd Hinv.
  - by simplify_eq.
  - binds. eauto using DefineOutputs_instr_VregInv.
Qed.

Lemma DefineOutputs_phis_VregInv b ps data data' :
  DefineOutputs_phis b ps data = Some data' -> Inv data -> Inv data'.
Proof.
  revert data. induction ps as [|p ps IH]; simpl; intros data Hd Hinv.
  - by simplify_eq.
  - binds. unfold DefineAsPhi in *. eauto with vinv.
Qed.

Lemma DefineOutputs_blocks_VregInv blocks data data' :
  DefineOutputs_blocks blocks data = Some data' -> Inv data -> Inv data'.
Proof.
  revert data. induction blocks as [|b blocks IH]; simpl; intros data Hd Hinv.
  - by simplify_eq.
  - binds. eapply IH; [eassumption|]. unfold DefineOutputs_block in *. binds.
    eapply DefineOutputs_phis_VregInv; [eassumption|].
    eapply DefineOutputs_instrs_VregInv; [eassumption|].
    eauto using VregInv_same, InitializeBlockState_vregs.
Qed.

(** The table the constructor builds satisfies the invariant. *)
Lemma new_VregInv c ops virtual_register_count f :
  Inv (MidTierRegisterAllocationData_new c ops virtual_register_count f).
Proof.
  intros v vd Hv. unfold VirtualRegisterDataFor, at_index in Hv. simpl in Hv.
  destruct (v <? 0); [discriminate|].
  apply lookup_replicate in Hv as [-> _]. apply P_init.
Qed.

(** ** After the allocation *)

Lemma Allocate_VregInv v al data al' data' :
  Allocate v al data = Some (al', data') -> Inv data -> Inv data'.
Proof.
  unfold Allocate. intros Ha Hinv.
  destruct (VirtualRegisterDataFor data v) as [vd|]; [simpl in Ha|discriminate].
  destruct (spill_range_ vd) as [sr|]; [simpl in Ha|discriminate].
  destruct (GetFreeSpillSlot _ _) as [[slot free]|].
  - binds. eauto with vinv.
  - destruct (Frame_AllocateSpillSlot _ _) as [f stack_slot]. binds.
    eapply AllocatePendingSpillOperand_VregInv; [eassumption|].
    eapply VregInv_same; [|exact Hinv]. reflexivity.
Qed.

Lemma Allocate_all_VregInv vs al data al' data' :
  Allocate_all vs al data = Some (al', data') -> Inv data -> Inv data'.
Proof.
  revert al data. induction vs as [|v vs IH]; simpl; intros al data Ha Hinv.
  - by simplify_eq.
  - binds. eauto using Allocate_VregInv.
Qed.

Lemma AllocateSpillSlots_VregInv data data' :
  AllocateSpillSlots data = Some data' -> Inv data -> Inv data'.
Proof.
  unfold AllocateSpillSlots. intros Ha Hinv. binds.
  eauto using Allocate_all_VregInv.
Qed.

Lemma RecordReferences_loop_vregs sr allocated indices data data' :
  RecordReferences_loop sr allocated indices data = Some data' ->
  virtual_register_data_ data' = virtual_register_data_ data.
Proof.
  revert data. induction indices as [|i l IH]; simpl; intros data Hl.
  - by simplify_eq.
  - binds. etransitivity; [eapply IH; eassumption|].
    unfold RecordReferences_visit in *. binds; reflexivity.
Qed.

Lemma RecordReferences_vregs v data data' :
  RecordReferences v data = Some data' ->
  virtual_register_data_ data' = virtual_register_data_ data.
Proof.
  unfold RecordReferences. intros Hr.
  binds; eauto using RecordReferences_loop_vregs.
Qed.

Lemma PopulateReferenceMaps_vregs data data' :
  PopulateReferenceMaps data = Some data' ->
  virtual_register_data_ data' = virtual_register_data_ data.
Proof.
  unfold PopulateReferenceMaps. generalize (BitVector_elements
    (spilled_virtual_registers data)). intros vs. revert data.
  induction vs as [|v vs IH]; simpl; intros data Hp.
  - by simplify_eq.
  - binds. etransitivity; [eapply IH; eassumption|].
    eauto using RecordReferences_vregs.
Qed.

(** The invariant holds at every stage of the pipeline that the driver
    runs on freshly constructed allocation data. *)
Lemma pipeline_VregInv c ops virtual_register_count f m d1 m' d2 d3 d4 :
  DefineOutputs (MidTierRegisterAllocationData_new c ops virtual_register_count f)
    = Some d1 ->
  AllocateRegisters m d1 = Some (m', d2) ->
  AllocateSpillSlots d2 = Some d3 ->
  PopulateReferenceMaps d3 = Some d4 ->
  Inv d1 /\ Inv d2 /\ Inv d3 /\ Inv d4.
Proof.
  intros H1 H2 H3 H4.
  assert (Inv d1) by (eapply DefineOutputs_blocks_VregInv;
                      [exact H1|apply new_VregInv]).
  assert (Inv d2) by eauto using AllocateRegisters_VregInv.
  assert (Inv d3) by eauto using AllocateSpillSlots_VregInv.
  repeat split; try done.
  eapply VregInv_same; [|eassumption]. eauto using PopulateReferenceMaps_vregs.
Qed.

End VregInvariant.

(** ** C1: where a spill range starts *)

Section SpillRangeOfDefinition.
Context `{Platform}.

Lemma Contains_spec r i : Contains r i = true <-> start_ r <= i <= end_ r.
Proof.
  unfold Contains. rewrite andb_true_iff, Z.geb_le, Z.leb_le. lia.
Qed.

Lemma Contains_AddInstr r i j :
  Contains r j = true -> Contains (AddInstr r i) j = true.
Proof. rewrite !Contains_spec. unfold AddInstr. simpl. lia. Qed.

Lemma covers_definition_pipeline c ops virtual_register_count f m d1 m' d2
    d3 d4 :
  DefineOutputs
    (MidTierRegisterAllocationData_new c ops virtual_register_count f)
    = Some d1 ->
  AllocateRegisters m d1 = Some (m', d2) ->
  AllocateSpillSlots d2 = Some d3 ->
  PopulateReferenceMaps d3 = Some d4 ->
  VregInv covers_definition d1 /\ VregInv covers_definition d2
  /\ VregInv covers_definition d3 /\ VregInv covers_definition d4.
Proof.
  apply pipeline_VregInv.
  - intros so i v phi const Hphi sr Hsr. discriminate.
  - intros vd p Hp. exact Hp.
  - intros vd sr i Hp Hsr Hphi sr' Hsr'. simpl in *. simplify_eq. simpl.
    apply Contains_AddInstr. eauto.
  - intros vd blocks i _ _ _ _ _ sr' Hsr'. simpl in *. simplify_eq. simpl.
    apply Contains_AddInstr, Contains_spec. simpl. lia.
  - intros vd sr _ _ _ Hphi Hphi'. simpl in Hphi'. congruence.
Qed.

(** C1, as the code has it: the spill range of a virtual register that is
    not a phi is first constructed as
    [Range(output_instr_index + 1, output_instr_index + 1)], with
    [live_blocks] the dominated-blocks set of the block that holds
    instruction [output_instr_index + 1]; and at every stage of the
    pipeline (after [DefineOutputs], after [AllocateRegisters] with its
    loop fix-up, after [AllocateSpillSlots] and after
    [PopulateReferenceMaps]) the live range of every such register that
    has a spill range includes [output_instr_index + 1]. *)
Theorem C1_spill_range_starts_after_definition :
  (forall data v vd data',
     VirtualRegisterDataFor data v = Some vd ->
     is_phi vd = false ->
     spill_range_ vd = None ->
     EnsureSpillRange v data = Some data' ->
     exists blocks,
       GetBlocksDominatedBy data (output_instr_index vd + 1) = Some blocks
       /\ VirtualRegisterDataFor data' v
          = Some (set_spill_range vd
                    (Some (mkSpillRange
                             (mkRange (output_instr_index vd + 1)
                                (output_instr_index vd + 1)) blocks))))
  /\ (forall c ops virtual_register_count f m d1 m' d2 d3 d4,
        DefineOutputs
          (MidTierRegisterAllocationData_new c ops virtual_register_count f)
          = Some d1 ->
        AllocateRegisters m d1 = Some (m', d2) ->
        AllocateSpillSlots d2 = Some d3 ->
        PopulateReferenceMaps d3 = Some d4 ->
        forall d, In d [d1; d2; d3; d4] ->
        forall v vd sr,
          VirtualRegisterDataFor d v = Some vd ->
          is_phi vd = false ->
          spill_range_ vd = Some sr ->
          Contains (live_range sr) (output_instr_index vd + 1) = true).
Proof.
  split.
  - intros data v vd data' Hvd Hphi Hsr He.
    destruct (EnsureSpillRange_lookup _ _ _ _ Hvd He) as (sr & Hl & _ & Hk).
    rewrite Hsr, Hphi in Hk. unfold SpillRange_for_output in Hk. binds.
    eauto.
  - intros c ops n f m d1 m' d2 d3 d4 H1 H2 H3 H4 d Hd v vd sr Hv Hphi Hsr.
    destruct (covers_definition_pipeline _ _ _ _ _ _ _ _ _ _ H1 H2 H3 H4)
      as (I1 & I2 & I3 & I4).
    assert (VregInv covers_definition d) as Hinv.
    { simpl in Hd. destruct Hd as [<-|[<-|[<-|[<-|[]]]]]; done. }
    exact (Hinv v vd Hv Hphi sr Hsr).
Qed.

End SpillRangeOfDefinition.

Section SpillRangeExamples.
#[local] Existing Instance example_platform.

(** The pipeline on the example with a call. *)
Lemma call_pipeline :
  Example.two_registers = Some Example.call_allocator
  /\ DefineOutputs Example.call_data = Some Example.call_defined
  /\ AllocateRegisters Example.call_allocator Example.call_defined
     = Some Example.call_allocated
  /\ AllocateSpillSlots (snd Example.call_allocated)
     = Some Example.call_slots
  /\ PopulateReferenceMaps Example.call_slots = Some Example.call_final.
Proof. repeat split; vm_compute; reflexivity. Qed.

(** C1 as stated fails: in the example, [v0] is defined by instruction 0,
    is neither a phi nor a constant and is spilled by the call, and its
    spill live range [1, 3] does not include instruction 0. *)
Lemma C1_counterexample :
  DefineOutputs Example.call_data = Some Example.call_defined
  /\ AllocateRegisters Example.call_allocator Example.call_defined
     = Some Example.call_allocated
  /\ VirtualRegisterDataFor (snd Example.call_allocated) 0
     = Some (mkVreg (Some 13%nat) (Some (mkSpillRange (mkRange 1 3) 0))
               0 0 false false)
  /\ Contains (mkRange 1 3) 0 = false.
Proof. repeat split; vm_compute; reflexivity. Qed.

(** C1 on the example: the spill range of [v0] after the whole pipeline
    covers instruction 1. *)
Lemma C1_witness :
  VirtualRegisterDataFor Example.call_final 0
  = Some (mkVreg (Some 13%nat) (Some (mkSpillRange (mkRange 1 3) 0))
            0 0 false false)
  /\ Contains (mkRange 1 3) (0 + 1) = true.
Proof.
  split; [vm_compute; reflexivity|].
  refine (proj2 C1_spill_range_starts_after_definition
            Example.call_code Example.call_operands 2 0
            Example.call_allocator Example.call_defined
            (fst Example.call_allocated) (snd Example.call_allocated)
            Example.call_slots Example.call_final _ _ _ _
            Example.call_final _ 0
            (mkVreg (Some 13%nat) (Some (mkSpillRange (mkRange 1 3) 0))
               0 0 false false)
            (mkSpillRange (mkRange 1 3) 0) _ _ _);
    try (vm_compute; reflexivity).
  simpl. tauto.
Defined.

End SpillRangeExamples.

(** ** C8: constants *)

Section Constants.
Context `{Platform}.

Lemma ReplaceWith_value_spec data dest src data' :
  ReplaceWith_value data dest src = Some data' ->
  (dest < length (operands data))%nat
  /\ data' = set_operands data (<[dest := src]> (operands data)).
Proof. unfold ReplaceWith_value. intros Hr. case_decide; by simplify_eq. Qed.

Lemma AddGapMove_spec data instr_index position from to mv data' :
  AddGapMove data instr_index position from to = Some (mv, data') ->
  mv = mkMove (length (operands data)) (S (length (operands data)))
  /\ operands data' = operands data ++ [from; to]
  /\ virtual_register_data_ data' = virtual_register_data_ data
  /\ spilled_virtual_registers data' = spilled_virtual_registers data
  /\ block_states_ data' = block_states_ data
  /\ instruction_blocks (code data') = instruction_blocks (code data)
  /\ exists instr,
       InstructionAt data instr_index = Some instr
       /\ instructions (code data')
          = <[Z.to_nat instr_index := push_move instr position mv]>
              (instructions (code data))
       /\ 0 <= instr_index.
Proof.
  unfold AddGapMove. intros Ha. binds.
  match goal with Hs : set_index _ _ _ = Some _ |- _ =>
    apply set_index_Some in Hs as [Hr ->] end.
  simpl. repeat split; try done. eexists. repeat split; try done. lia.
Qed.

(** A constant in the constant state stays there under one operation,
    which also leaves its record and the spilled set as they were. *)
Lemma constant_state_SpillOperand data v p c target i data' :
  constant_state data v p c ->
  SpillOperand v target i data = Some data' ->
  operands data' = <[target := Constant c]> (operands data)
  /\ (target < length (operands data))%nat
  /\ virtual_register_data_ data' = virtual_register_data_ data
  /\ spilled_virtual_registers data' = spilled_virtual_registers data
  /\ code data' = code data.
Proof.
  intros (vd & Hvd & Hc & Hsr & Hso & Hop) Hs. unfold SpillOperand in Hs.
  unfold AddSpillUse in Hs. rewrite Hvd in Hs. simpl in Hs.
  rewrite Hc in Hs. simpl in Hs. rewrite Hvd in Hs. simpl in Hs.
  unfold HasAllocatedSpillOperand, HasConstantSpillOperand in Hs.
  rewrite Hso, Hc in Hs. simpl in Hs. rewrite Hop in Hs. simpl in Hs.
  unfold ReplaceWith in Hs. rewrite Hop in Hs. simpl in Hs.
  apply ReplaceWith_value_spec in Hs as [Hlt ->]. done.
Qed.

Lemma constant_state_same data data' v p c :
  constant_state data v p c ->
  virtual_register_data_ data' = virtual_register_data_ data ->
  read_operand data' p = Some (Constant c) ->
  constant_state data' v p c.
Proof.
  intros (vd & Hvd & Hrest) Hv Hp. exists vd. unfold VirtualRegisterDataFor in *.
  rewrite Hv. tauto.
Qed.

Lemma constant_state_EmitGapMoveToInput data v p c to i data' :
  constant_state data v p c ->
  EmitGapMoveToInputFromSpillSlot v to i data = Some data' ->
  constant_state data' v p c
  /\ virtual_register_data_ data' = virtual_register_data_ data
  /\ spilled_virtual_registers data' = spilled_virtual_registers data.
Proof.
  intros Hcs He. pose proof Hcs as (vd & Hvd & Hc & Hsr & Hso & Hop).
  unfold EmitGapMoveToInputFromSpillSlot in He.
  unfold AddSpillUse in He. rewrite Hvd in He. simpl in He.
  rewrite Hc in He. simpl in He. rewrite Hvd in He. simpl in He.
  unfold HasAllocatedSpillOperand, HasConstantSpillOperand in He.
  rewrite Hso, Hc in He. simpl in He. rewrite Hop in He. simpl in He.
  rewrite ?Hop in He. simpl in He. binds.
  match goal with Ha : AddGapMove _ _ _ _ _ = Some _ |- _ =>
    apply AddGapMove_spec in Ha as (_ & Hops & Hv & Hsp & _) end.
  repeat split; try done.
  eapply constant_state_same; [exact Hcs|done|].
  unfold read_operand in *. rewrite Hops. by apply lookup_app_l_Some.
Qed.

Lemma constant_state_EmitGapMoveToSpillSlot data v p c from i data' :
  constant_state data v p c ->
  EmitGapMoveToSpillSlot v from i data = Some data' ->
  constant_state data' v p c
  /\ virtual_register_data_ data' = virtual_register_data_ data
  /\ spilled_virtual_registers data' = spilled_virtual_registers data.
Proof.
  intros Hcs He. pose proof Hcs as (vd & Hvd & Hc & Hsr & Hso & Hop).
  unfold EmitGapMoveToSpillSlot in He.
  unfold AddSpillUse in He. rewrite Hvd in He. simpl in He.
  rewrite Hc in He. simpl in He. rewrite Hvd in He. simpl in He.
  unfold HasAllocatedSpillOperand, HasConstantSpillOperand in He.
  rewrite Hso, Hc in He. simpl in He. rewrite Hop in He. simpl in He.
  rewrite ?Hop in He. simpl in He. binds.
  match goal with Ha : AddGapMove _ _ _ _ _ = Some _ |- _ =>
    apply AddGapMove_spec in Ha as (_ & Hops & Hv & Hsp & _) end.
  repeat split; try done.
  eapply constant_state_same; [exact Hcs|done|].
  unfold read_operand in *. rewrite Hops. by apply lookup_app_l_Some.
Qed.

Lemma constant_state_EmitGapMoveToSuccessors data v p c from succs data' :
  constant_state data v p c ->
  EmitGapMoveToSuccessors v from succs data = Some data' ->
  constant_state data' v p c
  /\ virtual_register_data_ data' = virtual_register_data_ data
  /\ spilled_virtual_registers data' = spilled_virtual_registers data.
Proof.
  revert data. induction succs as [|s succs IH]; simpl; intros data Hcs He.
  - by simplify_eq.
  - binds.
    match goal with Hm : EmitGapMoveToSpillSlot _ _ _ _ = Some _ |- _ =>
      destruct (constant_state_EmitGapMoveToSpillSlot _ _ _ _ _ _ _ Hcs Hm)
        as (Hcs1 & Hv1 & Hs1) end.
    destruct (IH _ Hcs1 He) as (Hcs2 & Hv2 & Hs2).
    repeat split; [done|congruence|congruence].
Qed.

Lemma constant_state_apply_op data v p c op data' :
  constant_state data v p c ->
  apply_op v op data = Some data' ->
  constant_state data' v p c
  /\ virtual_register_data_ data' = virtual_register_data_ data
  /\ spilled_virtual_registers data' = spilled_virtual_registers data.
Proof.
  intros Hcs Ha. destruct op; simpl in Ha.
  - destruct (constant_state_SpillOperand _ _ _ _ _ _ _ Hcs Ha)
      as (Hops & Hlt & Hv & Hsp & _).
    repeat split; try done.
    eapply constant_state_same; [exact Hcs|done|].
    destruct Hcs as (vd & _ & _ & _ & _ & Hop).
    unfold read_operand in *. rewrite Hops.
    destruct (decide (operand = p)) as [->|Hne].
    + by apply list_lookup_insert_eq.
    + by rewrite list_lookup_insert_ne.
  - pose proof Hcs as (vd & Hvd & Hc & _). unfold AddSpillUse in Ha.
    rewrite Hvd in Ha. simpl in Ha. rewrite Hc in Ha. by simplify_eq.
  - eauto using constant_state_EmitGapMoveToInput.
  - eauto using constant_state_EmitGapMoveToSpillSlot.
  - unfold EmitGapMoveFromOutputToSpillSlot in Ha.
    destruct (instr_index =? last_instruction_index current_block);
      eauto using constant_state_EmitGapMoveToSpillSlot,
        constant_state_EmitGapMoveToSuccessors.
Qed.

Lemma constant_state_apply_ops data v p c ops data' :
  constant_state data v p c ->
  apply_ops v ops data = Some data' ->
  constant_state data' v p c
  /\ virtual_register_data_ data' = virtual_register_data_ data
  /\ spilled_virtual_registers data' = spilled_virtual_registers data.
Proof.
  revert data. induction ops as [|op ops IH]; simpl; intros data Hcs Ha.
  - by simplify_eq.
  - binds.
    match goal with Ho : apply_op _ _ _ = Some _ |- _ =>
      destruct (constant_state_apply_op _ _ _ _ _ _ Hcs Ho)
        as (Hcs1 & Hv1 & Hs1) end.
    destruct (IH _ Hcs1 Ha) as (Hcs2 & Hv2 & Hs2).
    repeat split; [done|congruence|congruence].
Qed.

Lemma DefineAsConstantOperand_constant_state data v operand instr_index data' :
  DefineAsConstantOperand data v operand instr_index = Some data' ->
  exists c, constant_state data' v operand c.
Proof.
  unfold DefineAsConstantOperand, Initialize. intros Hd.
  destruct (read_operand data operand) as [op|] eqn:Hop;
    [simpl in Hd|discriminate].
  destruct op as [| |c| |]; try discriminate.
  apply store_vreg_spec in Hd as (Hv & _ & _ & Hops & _).
  exists c. eexists. split; [exact Hv|]. simpl. repeat split.
  unfold read_operand in *. by rewrite Hops.
Qed.

Lemma constant_unspilled_pipeline c ops virtual_register_count f m d1 m' d2
    d3 d4 :
  DefineOutputs
    (MidTierRegisterAllocationData_new c ops virtual_register_count f)
    = Some d1 ->
  AllocateRegisters m d1 = Some (m', d2) ->
  AllocateSpillSlots d2 = Some d3 ->
  PopulateReferenceMaps d3 = Some d4 ->
  VregInv constant_unspilled d1 /\ VregInv constant_unspilled d2
  /\ VregInv constant_unspilled d3 /\ VregInv constant_unspilled d4.
Proof.
  apply pipeline_VregInv; unfold constant_unspilled.
  - done.
  - intros vd p Hp. exact Hp.
  - intros vd sr i Hp Hsr Hc. simpl in Hc. rewrite (Hp Hc) in Hsr.
    discriminate.
  - intros vd blocks i _ _ Hc _ Hc'. simpl in Hc'. congruence.
  - intros vd sr _ _ Hc _ Hc'. simpl in Hc'. congruence.
Qed.

(** C8: a virtual register defined as a constant keeps, under any
    sequence of [SpillOperand], [AddSpillUse] and gap-move emissions
    applied to it, the very record its definition gave it: a constant
    without a spill range whose spill operand is the address of the
    [ConstantOperand], which still holds that operand; it is not added to
    the spilled set; and [SpillOperand] overwrites its target with the
    [ConstantOperand] and changes nothing else.  Moreover, at every stage
    of the pipeline no constant has a spill range. *)
Theorem C8_constants_stay_constant :
  (forall data v operand instr_index d0 ops d',
     DefineAsConstantOperand data v operand instr_index = Some d0 ->
     apply_ops v ops d0 = Some d' ->
     exists c,
       constant_state d0 v operand c
       /\ constant_state d' v operand c
       /\ VirtualRegisterDataFor d' v = VirtualRegisterDataFor d0 v
       /\ spilled_virtual_registers d' = spilled_virtual_registers d0
       /\ forall target i d'',
            SpillOperand v target i d' = Some d'' ->
            operands d'' = <[target := Constant c]> (operands d')
            /\ read_operand d'' target = Some (Constant c)
            /\ virtual_register_data_ d'' = virtual_register_data_ d')
  /\ (forall c ops virtual_register_count f m d1 m' d2 d3 d4,
        DefineOutputs
          (MidTierRegisterAllocationData_new c ops virtual_register_count f)
          = Some d1 ->
        AllocateRegisters m d1 = Some (m', d2) ->
        AllocateSpillSlots d2 = Some d3 ->
        PopulateReferenceMaps d3 = Some d4 ->
        forall d, In d [d1; d2; d3; d4] ->
        forall v vd,
          VirtualRegisterDataFor d v = Some vd ->
          is_constant vd = true -> spill_range_ vd = None).
Proof.
  split.
  - intros data v operand i d0 ops d' Hd Ha.
    destruct (DefineAsConstantOperand_constant_state _ _ _ _ _ Hd)
      as [c Hcs0].
    destruct (constant_state_apply_ops _ _ _ _ _ _ Hcs0 Ha)
      as (Hcs & Hv & Hsp).
    exists c. repeat split; try done.
    + unfold VirtualRegisterDataFor. by rewrite Hv.
    + eapply constant_state_SpillOperand; eauto.
    + destruct (constant_state_SpillOperand _ _ _ _ _ _ _ Hcs H0)
        as (Hops & Hlt & _).
      unfold read_operand. rewrite Hops. by apply list_lookup_insert_eq.
    + eapply constant_state_SpillOperand; eauto.
  - intros c ops n f m d1 m' d2 d3 d4 H1 H2 H3 H4 d Hd v vd Hv Hc.
    destruct (constant_unspilled_pipeline _ _ _ _ _ _ _ _ _ _ H1 H2 H3 H4)
      as (I1 & I2 & I3 & I4).
    assert (VregInv constant_unspilled d) as Hinv.
    { simpl in Hd. destruct Hd as [<-|[<-|[<-|[<-|[]]]]]; done. }
    exact (Hinv v vd Hv Hc).
Qed.

End Constants.

(** The theorem at [Example.const_code]: the constant [v0] after a spill
    use, a spill of operand 1 and a gap move into register 0, and after
    the pipeline. *)
Lemma C8_witness :
  DefineAsConstantOperand Example.const_data 0 0%nat 0
  = Some Example.const_defined
  /\ apply_ops 0 Example.const_requests Example.const_defined
     = Some Example.const_spilled
  /\ (exists c,
        constant_state Example.const_defined 0 0%nat c
        /\ constant_state Example.const_spilled 0 0%nat c
        /\ VirtualRegisterDataFor Example.const_spilled 0
           = VirtualRegisterDataFor Example.const_defined 0
        /\ spilled_virtual_registers Example.const_spilled
           = spilled_virtual_registers Example.const_defined
        /\ forall target i d'',
             SpillOperand 0 target i Example.const_spilled = Some d'' ->
             operands d''
             = <[target := Constant c]> (operands Example.const_spilled)
             /\ read_operand d'' target = Some (Constant c)
             /\ virtual_register_data_ d''
                = virtual_register_data_ Example.const_spilled)
  /\ DefineOutputs Example.const_data = Some Example.const_d1
  /\ AllocateRegisters Example.const_allocator Example.const_d1
     = Some Example.const_d2
  /\ AllocateSpillSlots (snd Example.const_d2) = Some Example.const_d3
  /\ PopulateReferenceMaps Example.const_d3 = Some Example.const_d4
  /\ VirtualRegisterDataFor Example.const_d4 0
     = Some (mkVreg (Some 0%nat) None 0 0 false true)
  /\ (forall v vd,
        VirtualRegisterDataFor Example.const_d4 v = Some vd ->
        is_constant vd = true -> spill_range_ vd = None).
Proof.
  assert (DefineAsConstantOperand Example.const_data 0 0%nat 0
          = Some Example.const_defined) as H0 by (vm_compute; reflexivity).
  assert (apply_ops 0 Example.const_requests Example.const_defined
          = Some Example.const_spilled) as H0' by (vm_compute; reflexivity).
  assert (DefineOutputs Example.const_data = Some Example.const_d1) as H1
    by (vm_compute; reflexivity).
  assert (AllocateRegisters Example.const_allocator Example.const_d1
          = Some (fst Example.const_d2, snd Example.const_d2)) as H2
    by (vm_compute; reflexivity).
  assert (AllocateSpillSlots (snd Example.const_d2) = Some Example.const_d3)
    as H3 by (vm_compute; reflexivity).
  assert (PopulateReferenceMaps Example.const_d3 = Some Example.const_d4)
    as H4 by (vm_compute; reflexivity).
  split; [exact H0|]. split; [exact H0'|].
  split; [exact (proj1 C8_constants_stay_constant _ _ _ _ _ _ _ H0 H0')|].
  split; [exact H1|]. split; [vm_compute; reflexivity|].
  split; [exact H3|]. split; [exact H4|].
  split; [vm_compute; reflexivity|].
  apply (proj2 C8_constants_stay_constant _ _ _ _ _ _ _ _ _ _ H1 H2 H3 H4).
  simpl. tauto.
Defined.

(** ** C5: where the move of an output into its spill slot goes *)

Section GapMoveFromOutput.
Context `{Platform}.

Lemma filter_emitted_nil (j : Z) : emitted_at [] j = [].
Proof. reflexivity. Qed.

Lemma emitted_at_cons e emitted j :
  emitted_at (e :: emitted) j
  = (if decide (fst e = j) then [snd e] else []) ++ emitted_at emitted j.
Proof.
  unfold emitted_at. rewrite filter_cons. by case_decide.
Qed.

Lemma AddGapMove_moves data instr_index position from to mv data' :
  AddGapMove data instr_index position from to = Some (mv, data') ->
  forall pos j,
    moves_at data' pos j
    = moves_at data pos j
      ++ (if decide (pos = position /\ j = instr_index) then [mv] else []).
Proof.
  intros Ha pos j.
  apply AddGapMove_spec in Ha
    as (_ & _ & _ & _ & _ & _ & instr & Hi & Hins & Hge).
  unfold moves_at, InstructionAt in *. rewrite Hins.
  destruct (decide (j = instr_index)) as [->|Hne].
  - rewrite at_index_lookup by done.
    rewrite list_lookup_insert_eq.
    2: { apply at_index_Some in Hi. lia. }
    rewrite Hi. case_decide as Hd.
    + destruct Hd as [-> _]. destruct position; reflexivity.
    + assert (pos <> position) by (intros ->; by apply Hd).
      destruct pos, position; simpl; try congruence; by rewrite app_nil_r.
  - rewrite decide_False by tauto. rewrite app_nil_r.
    unfold at_index. destruct (j <? 0) eqn:Ej; [done|].
    apply Z.ltb_ge in Ej. by rewrite list_lookup_insert_ne by lia.
Qed.

Lemma moves_at_same_code data data' pos j :
  code data' = code data -> moves_at data' pos j = moves_at data pos j.
Proof. unfold moves_at, InstructionAt. by intros ->. Qed.

Lemma AddPendingSpillOperand_spec v pending_op data data' :
  AddPendingSpillOperand v pending_op data = Some data' ->
  exists vd,
    VirtualRegisterDataFor data v = Some vd
    /\ VirtualRegisterDataFor data' v
       = Some (set_spill_operand vd (Some pending_op))
    /\ (forall w, w <> v ->
          VirtualRegisterDataFor data' w = VirtualRegisterDataFor data w)
    /\ code data' = code data
    /\ spilled_virtual_registers data' = spilled_virtual_registers data
    /\ match spill_operand_ vd with
       | Some head =>
           operands data !! pending_op = Some (Pending None)
           /\ operands data'
              = <[pending_op := Pending (Some head)]> (operands data)
       | None => operands data' = operands data
       end.
Proof.
  unfold AddPendingSpillOperand. intros Ha.
  destruct (VirtualRegisterDataFor data v) as [vd|] eqn:Hvd;
    [simpl in Ha|discriminate].
  exists vd. split; [done|].
  destruct (spill_operand_ vd) as [head|]; binds.
  - destruct i as [| | |[?|]|]; try discriminate.
    match goal with Hr : ReplaceWith_value _ _ _ = Some _ |- _ =>
      apply ReplaceWith_value_spec in Hr as [Hlt ->] end.
    apply store_vreg_spec in Ha as (Hv & Ho & Hc & Hops & _ & _ & Hsp & _).
    rewrite Hc, Hops, Hsp. done.
  - apply store_vreg_spec in Ha as (Hv & Ho & Hc & Hops & _ & _ & Hsp & _).
    done.
Qed.

(** One move into the spill slot, emitted at the START of
    [instr_index]. *)
Lemma EmitGapMoveToSpillSlot_spec v from instr_index data data' :
  EmitGapMoveToSpillSlot v from instr_index data = Some data' ->
  let mv := mkMove (length (operands data)) (S (length (operands data))) in
  (forall pos j,
     moves_at data' pos j
     = moves_at data pos j
       ++ (if decide (pos = START /\ j = instr_index) then [mv] else []))
  /\ length (operands data') = S (S (length (operands data)))
  /\ (forall p, (p < length (operands data))%nat ->
        operands data' !! p = operands data !! p)
  /\ read_operand data' (source mv) = Some from
  /\ spill_slot_operand data' (resolved_spill_operand data v)
       (destination mv)
  /\ resolved_spill_operand data' v = resolved_spill_operand data v
  /\ instruction_blocks (code data') = instruction_blocks (code data).
Proof.
  intros He. unfold EmitGapMoveToSpillSlot in He.
  destruct (AddSpillUse v instr_index data) as [d1|] eqn:Hu;
    [simpl in He|discriminate].
  destruct (AddSpillUse_frame _ _ _ _ Hu) as (Hops1 & Hcode1 & _).
  destruct (VirtualRegisterDataFor data v) as [vd0|] eqn:Hvd0.
  2: { unfold AddSpillUse in Hu. rewrite Hvd0 in Hu. discriminate. }
  destruct (VirtualRegisterDataFor d1 v) as [vd|] eqn:Hvd;
    [simpl in He|discriminate].
  assert (spill_operand_ vd = spill_operand_ vd0
          /\ is_constant vd = is_constant vd0) as [Hso Hco].
  { destruct (AddSpillUse_lookup _ _ _ _ _ Hvd0 Hu) as [_ Hk].
    destruct (is_constant vd0) eqn:Hc0.
    - subst. rewrite Hvd0 in Hvd. by simplify_eq.
    - destruct Hk as (sr & Hk & _). rewrite Hk in Hvd. by simplify_eq. }
  assert (resolved_spill_operand data v
          = p ← spill_operand_ vd; op ← read_operand d1 p;
            if IsAllocated op || is_constant vd then Some op else None)
    as Hres.
  { unfold resolved_spill_operand. rewrite Hvd0. simpl.
    unfold read_operand. by rewrite Hso, Hco, Hops1. }
  unfold HasAllocatedSpillOperand, HasConstantSpillOperand in He.
  destruct (spill_operand_ vd) as [so|] eqn:Hsov; simpl in *.
  - destruct (read_operand d1 so) as [sop|] eqn:Hsop;
      [simpl in He, Hres|discriminate].
    destruct (IsAllocated sop || is_constant vd) eqn:Hr.
    + rewrite ?Hsop in He. simpl in He. binds.
      match goal with Ha : AddGapMove _ _ _ _ _ = Some _ |- _ =>
        pose proof (AddGapMove_moves _ _ _ _ _ _ _ Ha) as Hm;
        apply AddGapMove_spec in Ha
          as (-> & Hops & Hv & _ & _ & Hb & _) end.
      rewrite Hops1 in *. rewrite Hops. rewrite !length_app. simpl.
      repeat split.
      * intros pos j. rewrite Hm. by erewrite moves_at_same_code.
      * lia.
      * intros p Hp. by apply lookup_app_l.
      * unfold read_operand. rewrite Hops.
        rewrite lookup_app_r by done. by rewrite Nat.sub_diag.
      * rewrite Hres. exists sop. split; [|done].
        unfold read_operand. rewrite Hops.
        rewrite lookup_app_r by lia.
        replace (S (length (operands data)) - length (operands data))%nat
          with 1%nat by lia. done.
      * rewrite Hres. unfold resolved_spill_operand, VirtualRegisterDataFor.
        rewrite Hv. unfold VirtualRegisterDataFor in Hvd. rewrite Hvd.
        simpl. rewrite Hsov. simpl. unfold read_operand in *. rewrite Hops.
        rewrite ?Hops1 in Hsop. apply lookup_lt_Some in Hsop as Hlt.
        rewrite lookup_app_l by done. rewrite Hsop. simpl. by rewrite Hr.
      * by rewrite Hb, Hcode1.
    + apply orb_false_iff in Hr as [Hal Hcn].
      unfold AddPendingOperandGapMove in He. binds.
      match goal with Ha : AddGapMove _ _ _ _ _ = Some _ |- _ =>
        pose proof (AddGapMove_moves _ _ _ _ _ _ _ Ha) as Hm;
        apply AddGapMove_spec in Ha
          as (-> & Hops & Hv & _ & _ & Hb & _) end.
      match goal with Hr : ReplaceWith_value _ _ _ = Some _ |- _ =>
        apply ReplaceWith_value_spec in Hr as [Hlt ->] end.
      apply AddPendingSpillOperand_spec in He
        as (vd' & Hvd' & Hvd'' & _ & Hc' & _ & Hops').
      simpl in *. unfold VirtualRegisterDataFor in Hvd'. simpl in Hvd'.
      rewrite Hv in Hvd'. unfold VirtualRegisterDataFor in Hvd.
      rewrite Hvd in Hvd'. simplify_eq. rewrite Hsov in Hops'.
      destruct Hops' as [_ Hops']. rewrite Hops1 in *.
      rewrite Hops', Hops. rewrite !length_insert, !length_app. simpl.
      repeat split.
      * intros pos j. rewrite (moves_at_same_code _ _ _ _ Hc'), Hm.
        by rewrite (moves_at_same_code _ _ _ _ Hcode1).
      * lia.
      * intros p Hp. rewrite !list_lookup_insert_ne by lia.
        by apply lookup_app_l.
      * unfold read_operand. rewrite Hops', Hops.
        rewrite list_lookup_insert_ne by lia.
        by apply list_lookup_insert_eq; rewrite length_app; simpl; lia.
      * rewrite Hres. eexists. split.
        -- unfold read_operand. rewrite Hops', Hops.
           apply list_lookup_insert_eq.
           rewrite length_insert, length_app. simpl. lia.
        -- done.
      * rewrite Hres. unfold resolved_spill_operand. rewrite Hvd''. simpl.
        unfold read_operand. rewrite Hops', Hops.
        rewrite list_lookup_insert_eq
          by (rewrite length_insert, length_app; simpl; lia).
        simpl. by rewrite Hcn.
      * rewrite Hc'. simpl. by rewrite Hb, Hcode1.
  - destruct (is_constant vd) eqn:Hcn; simpl in He; [discriminate|].
    unfold AddPendingOperandGapMove in He. binds.
    match goal with Ha : AddGapMove _ _ _ _ _ = Some _ |- _ =>
      pose proof (AddGapMove_moves _ _ _ _ _ _ _ Ha) as Hm;
      apply AddGapMove_spec in Ha
        as (-> & Hops & Hv & _ & _ & Hb & _) end.
    match goal with Hr : ReplaceWith_value _ _ _ = Some _ |- _ =>
      apply ReplaceWith_value_spec in Hr as [Hlt ->] end.
    apply AddPendingSpillOperand_spec in He
      as (vd' & Hvd' & Hvd'' & _ & Hc' & _ & Hops').
    simpl in *. unfold VirtualRegisterDataFor in Hvd'. simpl in Hvd'.
    rewrite Hv in Hvd'. unfold VirtualRegisterDataFor in Hvd.
    rewrite Hvd in Hvd'. simplify_eq. rewrite Hsov in Hops'.
    rewrite Hops1 in *.
    rewrite Hops', Hops. rewrite !length_insert, !length_app. simpl.
    repeat split.
    * intros pos j. rewrite (moves_at_same_code _ _ _ _ Hc'), Hm.
      by rewrite (moves_at_same_code _ _ _ _ Hcode1).
    * lia.
    * intros p Hp. rewrite !list_lookup_insert_ne by lia.
      by apply lookup_app_l.
    * unfold read_operand. rewrite Hops', Hops.
      by apply list_lookup_insert_eq; rewrite length_app; simpl; lia.
    * rewrite Hres. eexists. split.
      -- unfold read_operand. rewrite Hops', Hops.
         rewrite list_lookup_insert_ne by lia.
         rewrite lookup_app_r by lia.
         replace (S (length (operands data)) - length (operands data))%nat
           with 1%nat by lia. reflexivity.
      -- done.
    * rewrite Hres. unfold resolved_spill_operand. rewrite Hvd''. simpl.
      unfold read_operand. rewrite Hops', Hops.
      rewrite list_lookup_insert_ne by lia.
      rewrite lookup_app_r by lia.
      replace (S (length (operands data)) - length (operands data))%nat
        with 1%nat by lia. simpl. by rewrite Hcn.
    * rewrite Hc'. simpl. by rewrite Hb, Hcode1.
Qed.

Lemma GetBlock_same_blocks data data' rpo :
  instruction_blocks (code data') = instruction_blocks (code data) ->
  GetBlock data' rpo = GetBlock data rpo.
Proof. unfold GetBlock. by intros ->. Qed.

Lemma spill_slot_operand_prefix data data' r p :
  spill_slot_operand data r p ->
  (forall q, (q < length (operands data))%nat ->
     operands data' !! q = operands data !! q) ->
  spill_slot_operand data' r p.
Proof.
  intros (op & Hop & Hr) Hpre. exists op. split; [|done].
  unfold read_operand in *. rewrite Hpre; [done|].
  by apply lookup_lt_Some in Hop.
Qed.

Lemma emits_one v from instr_index data data' :
  EmitGapMoveToSpillSlot v from instr_index data = Some data' ->
  exists mv, emits v from data data' [(instr_index, mv)].
Proof.
  intros He. apply EmitGapMoveToSpillSlot_spec in He
    as (Hm & Hlen & Hpre & Hsrc & Hdst & Hres & Hb).
  eexists. repeat split; try done.
  - intros pos j. rewrite Hm. f_equal. unfold emitted_at.
    rewrite filter_cons, filter_nil. simpl.
    destruct (decide (pos = START)) as [->|Hne].
    + destruct (decide (instr_index = j)) as [->|Hnj].
      * by rewrite decide_True.
      * by rewrite decide_False by (intros [_ ->]; done).
    + by rewrite decide_False by tauto.
  - destruct H0 as [<-|[]]. done.
  - destruct H0 as [<-|[]]. done.
  - lia.
Qed.

Lemma emits_trans v from data d1 data' e1 e2 :
  emits v from data d1 e1 -> emits v from d1 data' e2 ->
  emits v from data data' (e1 ++ e2).
Proof.
  intros (Hm1 & He1 & Hl1 & Hp1 & Hr1 & Hb1) (Hm2 & He2 & Hl2 & Hp2 & Hr2 & Hb2).
  repeat split.
  - intros pos j. rewrite Hm2, Hm1, <- app_assoc. f_equal.
    case_decide; [|done]. unfold emitted_at. by rewrite filter_app, map_app.
  - apply in_app_or in H0 as [Hin|Hin].
    + destruct (He1 _ Hin) as [Hs _]. unfold read_operand in *.
      rewrite Hp2; [done|]. by apply lookup_lt_Some in Hs.
    + by apply He2.
  - apply in_app_or in H0 as [Hin|Hin].
    + destruct (He1 _ Hin) as [_ Hd].
      eapply spill_slot_operand_prefix; eauto.
    + destruct (He2 _ Hin) as [_ Hd]. by rewrite <- Hr1.
  - lia.
  - intros p Hp. rewrite Hp2 by lia. by apply Hp1.
  - congruence.
  - congruence.
Qed.

Lemma EmitGapMoveToSuccessors_spec v from succs data data' :
  EmitGapMoveToSuccessors v from succs data = Some data' ->
  exists emitted,
    mapM (fun succ => successor ← GetBlock data succ;
                      Some (first_instruction_index successor)) succs
    = Some (map fst emitted)
    /\ emits v from data data' emitted.
Proof.
  revert data. induction succs as [|s succs IH]; simpl; intros data He.
  - simplify_eq. exists []. split; [done|].
    repeat split; try done.
    intros pos j. rewrite filter_emitted_nil. case_decide; by rewrite app_nil_r.
  - binds.
    match goal with Hm : EmitGapMoveToSpillSlot _ _ _ _ = Some _ |- _ =>
      destruct (emits_one _ _ _ _ _ Hm) as [mv Hone] end.
    destruct (IH _ He) as (emitted & Hmap & Hrest).
    exists ((first_instruction_index i, mv) :: emitted). split.
    + simpl. erewrite mapM_ext; [rewrite Hmap; reflexivity|].
      intros x. simpl. erewrite <- GetBlock_same_blocks; [reflexivity|].
      apply Hone.
    + change ((first_instruction_index i, mv) :: emitted)
        with ([(first_instruction_index i, mv)] ++ emitted).
      eauto using emits_trans.
Qed.


End GapMoveFromOutput.


(** ** Chains of pending operands *)

Section PendingChains.
Context `{Platform}.

Lemma pending_chain_det ops head l l' :
  pending_chain ops head l -> pending_chain ops head l' -> l = l'.
Proof.
  intros Hc. revert l'. induction Hc as [|p next l Hp Hc IH]; intros l' Hc'.
  - by inversion Hc'.
  - inversion Hc' as [|p' next' l2 Hp' Hc2]; subst.
    rewrite Hp in Hp'. simplify_eq. f_equal. by apply IH.
Qed.

Lemma pending_chain_suffix ops head l q :
  pending_chain ops head l -> In q l ->
  exists l1 l2, l = l1 ++ q :: l2 /\ pending_chain ops (Some q) (q :: l2).
Proof.
  induction 1 as [|p next l Hp Hc IH]; intros Hin; [destruct Hin|].
  destruct Hin as [<-|Hin].
  - exists [], l. split; [done|]. by econstructor.
  - destruct (IH Hin) as (l1 & l2 & -> & Hq).
    exists (p :: l1), l2. done.
Qed.

Lemma pending_chain_NoDup ops head l : pending_chain ops head l -> List.NoDup l.
Proof.
  induction 1 as [|p next l Hp Hc IH]; constructor; [|done].
  intros Hin.
  destruct (pending_chain_suffix _ _ _ _ Hc Hin) as (l1 & l2 & -> & Hq).
  assert (pending_chain ops (Some p) (p :: l1 ++ p :: l2)) as Hfull
    by (by econstructor).
  pose proof (pending_chain_det _ _ _ _ Hq Hfull) as Heq.
  apply (f_equal (@length nat)) in Heq. simpl in Heq.
  rewrite length_app in Heq. simpl in Heq. lia.
Qed.

Lemma pending_chain_bound ops head l p :
  pending_chain ops head l -> In p l -> (p < length ops)%nat.
Proof.
  induction 1 as [|q next l Hq Hc IH]; intros Hin; [destruct Hin|].
  destruct Hin as [<-|Hin]; [|auto]. by apply lookup_lt_Some in Hq.
Qed.

Lemma pending_chain_length ops head l :
  pending_chain ops head l -> (length l <= length ops)%nat.
Proof.
  intros Hc.
  assert (length l <= length (seq 0 (length ops)))%nat as Hle.
  { apply List.NoDup_incl_length; [eauto using pending_chain_NoDup|].
    intros p Hin. apply in_seq.
    pose proof (pending_chain_bound _ _ _ _ Hc Hin). lia. }
  by rewrite length_seq in Hle.
Qed.

Lemma pending_chain_pending ops head l p :
  pending_chain ops head l -> In p l ->
  exists next, ops !! p = Some (Pending next).
Proof.
  induction 1 as [|q next l Hq Hc IH]; intros Hin; [destruct Hin|].
  destruct Hin as [<-|Hin]; eauto.
Qed.

(** A chain survives every change of the arena outside its cells. *)
Lemma pending_chain_agree ops ops' head l :
  pending_chain ops head l ->
  (forall p, In p l -> ops' !! p = ops !! p) ->
  pending_chain ops' head l.
Proof.
  induction 1 as [|p next l Hp Hc IH]; intros Hag; [constructor|].
  econstructor.
  - rewrite Hag; [exact Hp|by left].
  - apply IH. intros q Hq. apply Hag. by right.
Qed.

Lemma pending_chain_tail_insert ops p x next l :
  pending_chain ops (Some p) (p :: l) ->
  ops !! p = Some (Pending next) ->
  pending_chain (<[p := x]> ops) next l.
Proof.
  intros Hc Hp. pose proof (pending_chain_NoDup _ _ _ Hc) as Hnd.
  inversion Hc as [|p' next' l' Hp' Hc']; subst.
  rewrite Hp in Hp'. simplify_eq.
  eapply pending_chain_agree; [exact Hc'|].
  intros q Hq. apply list_lookup_insert_ne. intros ->.
  apply List.NoDup_cons_iff in Hnd as [Hn _]. contradiction.
Qed.

End PendingChains.

(** ** C4: spilling a register *)

Section RegisterSpill.
Context `{Platform}.

Lemma AddSpillUse_then v i data d1 :
  AddSpillUse v i data = Some d1 ->
  exists vd0 vd,
    VirtualRegisterDataFor data v = Some vd0
    /\ VirtualRegisterDataFor d1 v = Some vd
    /\ spill_operand_ vd = spill_operand_ vd0
    /\ is_constant vd = is_constant vd0
    /\ operands d1 = operands data
    /\ code d1 = code data.
Proof.
  intros Hu.
  destruct (AddSpillUse_frame _ _ _ _ Hu) as (Hops1 & Hcode1 & _).
  destruct (VirtualRegisterDataFor data v) as [vd0|] eqn:Hvd0.
  2: { unfold AddSpillUse in Hu. rewrite Hvd0 in Hu. discriminate. }
  destruct (AddSpillUse_lookup _ _ _ _ _ Hvd0 Hu) as [_ Hk].
  destruct (is_constant vd0) eqn:Hc0.
  - subst. exists vd0, vd0. done.
  - destruct Hk as (sr & Hk & _). exists vd0. eexists.
    split; [done|]. split; [exact Hk|]. done.
Qed.

Lemma resolved_spill_operand_unfold data v vd :
  VirtualRegisterDataFor data v = Some vd ->
  resolved_spill_operand data v
  = p ← spill_operand_ vd; op ← read_operand data p;
    if IsAllocated op || is_constant vd then Some op else None.
Proof. intros Hv. unfold resolved_spill_operand. by rewrite Hv. Qed.

(** What [SpillOperand] writes: the target cell, with the resolved spill
    operand when there is one and a pending operand otherwise. *)
Lemma SpillOperand_spec v p i data data' :
  SpillOperand v p i data = Some data' ->
  (p < length (operands data))%nat
  /\ (exists x,
        operands data' = <[p := x]> (operands data)
        /\ match resolved_spill_operand data v with
           | Some r => x = r
           | None => IsPending x = true
           end)
  /\ code data' = code data
  /\ resolved_spill_operand data' v = resolved_spill_operand data v.
Proof.
  intros Hs. unfold SpillOperand in Hs.
  destruct (AddSpillUse v i data) as [d1|] eqn:Hu; [simpl in Hs|discriminate].
  destruct (AddSpillUse_then _ _ _ _ Hu)
    as (vd0 & vd & Hvd0 & Hvd & Hso & Hco & Hops1 & Hcode1).
  rewrite Hvd in Hs. simpl in Hs.
  rewrite (resolved_spill_operand_unfold _ _ _ Hvd0).
  unfold HasAllocatedSpillOperand, HasConstantSpillOperand in Hs.
  rewrite <- Hso, <- Hco. unfold read_operand in *. rewrite <- Hops1.
  destruct (spill_operand_ vd) as [so|] eqn:Hsov; simpl in *.
  - destruct (operands d1 !! so) as [sop|] eqn:Hsop;
      [simpl in Hs|discriminate].
    destruct (IsAllocated sop || is_constant vd) eqn:Hr.
    + unfold ReplaceWith, read_operand in Hs. rewrite Hsop in Hs.
      simpl in Hs. apply ReplaceWith_value_spec in Hs as [Hlt ->].
      simpl. repeat split; try done.
      * exists sop. by rewrite Hr.
      * unfold resolved_spill_operand, VirtualRegisterDataFor in *.
        simpl. rewrite Hvd. simpl. rewrite Hsov. simpl.
        unfold read_operand. simpl.
        destruct (decide (p = so)) as [->|Hne].
        -- rewrite list_lookup_insert_eq by done. simpl. by rewrite Hr.
        -- rewrite list_lookup_insert_ne by done. rewrite Hsop. simpl.
           by rewrite Hr.
    + apply orb_false_iff in Hr as [Hal Hcn]. binds.
      match goal with Hr : ReplaceWith_value _ _ _ = Some _ |- _ =>
        apply ReplaceWith_value_spec in Hr as [Hlt ->] end.
      apply AddPendingSpillOperand_spec in Hs
        as (vd' & Hvd' & Hvd'' & _ & Hc' & _ & Hops').
      unfold VirtualRegisterDataFor in Hvd'. simpl in Hvd'.
      unfold VirtualRegisterDataFor in Hvd. rewrite Hvd in Hvd'.
      simplify_eq. rewrite Hsov in Hops'. destruct Hops' as [_ Hops'].
      simpl in *. rewrite Hops', list_insert_insert_eq.
      repeat split; try done.
      * eexists. split; [reflexivity|]. by rewrite Hal, Hcn.
      * congruence.
      * unfold resolved_spill_operand. rewrite Hvd''. simpl.
        unfold read_operand. rewrite Hops', list_insert_insert_eq.
        rewrite list_lookup_insert_eq by done. simpl.
        by rewrite Hal, Hcn.
  - destruct (is_constant vd) eqn:Hcn; simpl in Hs; [discriminate|]. binds.
    match goal with Hr : ReplaceWith_value _ _ _ = Some _ |- _ =>
      apply ReplaceWith_value_spec in Hr as [Hlt ->] end.
    apply AddPendingSpillOperand_spec in Hs
      as (vd' & Hvd' & Hvd'' & _ & Hc' & _ & Hops').
    unfold VirtualRegisterDataFor in Hvd'. simpl in Hvd'.
    unfold VirtualRegisterDataFor in Hvd. rewrite Hvd in Hvd'.
    simplify_eq. rewrite Hsov in Hops'. simpl in *. rewrite Hops'.
    repeat split; try done.
    * eexists. split; [reflexivity|]. done.
    * congruence.
    * unfold resolved_spill_operand. rewrite Hvd''. simpl.
      unfold read_operand. rewrite Hops'.
      rewrite list_lookup_insert_eq by done. simpl. by rewrite Hcn.
Qed.





End RegisterSpill.


(** ** C2: the register chosen for spilling *)

(** C2 on [Example.choice_code]: when instruction 3 asks for a register,
    no register is free, register 0 holds [v1] with pending uses only and
    register 1 holds [v0] with a committed use; neither has a spill operand.
    [ChooseRegisterToSpill] visits register 0, then register 1, and returns
    register 1: the earlier definition of [v0] displaces the register with
    pending uses only. *)
Theorem C2_pending_only_register_displaced :
  let a := general_reg_allocator (fst Example.choice_state) in
  let data := snd Example.choice_state in
  (data0 ← DefineOutputs Example.choice_data;
   AllocateRegisters_instr 4
     (mkMidTier
        (StartBlock (general_reg_allocator Example.choice_allocator)
           Example.choice_block)
        (StartBlock (double_reg_allocator Example.choice_allocator)
           Example.choice_block))
     data0) = Some Example.choice_state
  /\ ChooseFreeRegister a kStart = Some RegisterIndex_Invalid
  /\ InUseBitmap a kStart = Some 0
  /\ (rs ← register_state_ a; HasPendingUsesOnly rs 0) = Some true
  /\ (rs ← register_state_ a; HasPendingUsesOnly rs 1) = Some false
  /\ (vd ← VirtualRegisterDataFor data 1; Some (HasSpillOperand vd))
     = Some false
  /\ (vd ← VirtualRegisterDataFor data 0; Some (HasSpillOperand vd))
     = Some false
  /\ ChooseRegisterToSpill a data kStart = Some 1.
Proof. repeat split; vm_compute; reflexivity. Qed.

(** ** C6: the blocks dominated by a block *)

Section DominatedBlocks.
Context `{Platform}.

Lemma BitVector_Contains_Add bv i bv' j :
  BitVector_Add bv i = Some bv' ->
  BitVector_Contains bv' j = (j =? i) || BitVector_Contains bv j.
Proof.
  unfold BitVector_Add, BitVector_Contains. intros Ha.
  rewrite (at_index_set_index _ _ _ j _ Ha).
  case_decide as E.
  - subst. by rewrite Z.eqb_refl.
  - destruct (Z.eqb_spec j i); [congruence|done].
Qed.

Lemma BitVector_Contains_Union a b u j :
  BitVector_Union a b = Some u ->
  BitVector_Contains u j = BitVector_Contains a j || BitVector_Contains b j.
Proof.
  unfold BitVector_Union, BitVector_Contains, at_index. intros Hu.
  destruct (Nat.eqb_spec (length a) (length b)) as [Hl|]; [|discriminate].
  simplify_eq. destruct (j <? 0); [done|].
  rewrite lookup_zip_with. unfold BitVector in *.
  destruct (a !! Z.to_nat j) as [x|] eqn:Ha; simpl;
    destruct (b !! Z.to_nat j) as [y|] eqn:Hb; simpl; try done.
  - apply lookup_lt_Some in Ha. apply lookup_ge_None in Hb. lia.
  - apply lookup_lt_Some in Hb. apply lookup_ge_None in Ha. lia.
Qed.

(** What one call of [InitializeBlockState] does to the dominated sets. *)
Lemma InitializeBlockState_spec b data data' :
  InitializeBlockState b data = Some data' ->
  rpo_number b <> dominator b ->
  forall x j,
    dominated_blocks data' x j
    = if decide (x = rpo_number b)
      then (j =? rpo_number b) || dominated_blocks data x j
      else if RpoNumber_IsValid (dominator b) && (x =? dominator b)
           then dominated_blocks data x j
                || ((j =? rpo_number b)
                    || dominated_blocks data (rpo_number b) j)
           else dominated_blocks data x j.
Proof.
  unfold InitializeBlockState. intros Hi Hne x j.
  destruct (block_state data (rpo_number b)) as [bk|] eqn:Hk;
    [simpl in Hi|discriminate].
  destruct (BitVector_Add bk (rpo_number b)) as [bk'|] eqn:Hadd;
    [simpl in Hi|discriminate].
  destruct (set_index (block_states_ data) (rpo_number b) bk')
    as [s1|] eqn:Hs1; [simpl in Hi|discriminate].
  unfold dominated_blocks, block_state in *.
  pose proof (at_index_set_index _ _ _ x _ Hs1) as Hx1.
  pose proof (BitVector_Contains_Add _ _ _ j Hadd) as Hc1.
  destruct (RpoNumber_IsValid (dominator b)) eqn:Hv; simpl.
  - simpl in Hi.
    destruct (at_index s1 (dominator b)) as [bd|] eqn:Hd;
      [simpl in Hi|discriminate].
    rewrite (at_index_set_index _ _ _ (rpo_number b) _ Hs1) in Hi.
    rewrite decide_True in Hi by done. simpl in Hi.
    destruct (BitVector_Union bd bk') as [u|] eqn:Hu;
      [simpl in Hi|discriminate].
    destruct (set_index s1 (dominator b) u) as [s2|] eqn:Hs2;
      [simpl in Hi|discriminate].
    simplify_eq. simpl.
    rewrite (at_index_set_index _ _ _ x _ Hs2).
    rewrite (at_index_set_index _ _ _ (dominator b) _ Hs1) in Hd.
    rewrite decide_False in Hd by done.
    destruct (decide (x = rpo_number b)) as [->|Exk].
    + rewrite decide_False by congruence.
      rewrite Hx1, decide_True by done. by rewrite Hk, Hc1.
    + destruct (Z.eqb_spec x (dominator b)) as [->|Exd].
      * rewrite decide_True by done. rewrite Hd, Hk.
        by rewrite (BitVector_Contains_Union _ _ _ j Hu), Hc1.
      * rewrite decide_False by congruence.
        rewrite Hx1. by rewrite decide_False by congruence.
  - simpl in Hi. simplify_eq. simpl. rewrite Hx1.
    destruct (decide (x = rpo_number b)) as [->|Exk].
    + rewrite decide_True by done. by rewrite Hk, Hc1.
    + by rewrite decide_False by congruence.
Qed.

Lemma Initialize_block_states data v virtual_register spill_operand
    instr_index phi const data' :
  Initialize data v virtual_register spill_operand instr_index phi const
  = Some data' ->
  block_states_ data' = block_states_ data.
Proof. unfold Initialize, store_vreg. intros Hi. binds. done. Qed.

Lemma DefineOutput_block_states index output data data' :
  DefineOutput index output data = Some data' ->
  block_states_ data' = block_states_ data.
Proof.
  unfold DefineOutput, DefineAsConstantOperand, DefineAsFixedSpillOperand,
    DefineAsUnallocatedOperand. intros Hd.
  destruct (read_operand data output) as [op|] eqn:Hop;
    [simpl in Hd|discriminate].
  destruct op as [|u|c|?|? ? ?]; try discriminate.
  - destruct (HasFixedSlotPolicy u);
      by apply Initialize_block_states in Hd.
  - by apply Initialize_block_states in Hd.
Qed.

Lemma DefineOutputs_outputs_block_states index outs :
  forall data data',
    DefineOutputs_outputs index outs data = Some data' ->
    block_states_ data' = block_states_ data.
Proof.
  induction outs as [|o outs IH]; simpl; intros data data' Hd.
  - by simplify_eq.
  - destruct (DefineOutput index o data) as [d1|] eqn:Ho;
      [simpl in Hd|discriminate].
    rewrite (IH _ _ Hd). by eapply DefineOutput_block_states.
Qed.

Lemma DefineOutputs_instrs_block_states indices :
  forall data data',
    DefineOutputs_instrs indices data = Some data' ->
    block_states_ data' = block_states_ data.
Proof.
  induction indices as [|i l IH]; simpl; intros data data' Hd.
  - by simplify_eq.
  - destruct (DefineOutputs_instr i data) as [d1|] eqn:Hi;
      [simpl in Hd|discriminate].
    rewrite (IH _ _ Hd). unfold DefineOutputs_instr in Hi.
    destruct (InstructionAt data i) as [instr|]; [simpl in Hi|discriminate].
    destruct (DefineOutputs_outputs i (outputs instr) data) as [d0|] eqn:Ho;
      [simpl in Hi|discriminate].
    apply DefineOutputs_outputs_block_states in Ho.
    destruct (HasReferenceMap instr); by simplify_eq.
Qed.

Lemma DefineOutputs_phis_block_states b ps :
  forall data data',
    DefineOutputs_phis b ps data = Some data' ->
    block_states_ data' = block_states_ data.
Proof.
  induction ps as [|p ps IH]; simpl; intros data data' Hd.
  - by simplify_eq.
  - unfold DefineAsPhi in Hd.
    destruct (Initialize data (phi_virtual_register p)
                (phi_virtual_register p) None (first_instruction_index b)
                true false) as [d1|] eqn:Hi; [simpl in Hd|discriminate].
    rewrite (IH _ _ Hd). by eapply Initialize_block_states.
Qed.

Lemma DefineOutputs_block_block_states b data data' :
  DefineOutputs_block b data = Some data' ->
  block_states_ data' = block_states_ data.
Proof.
  unfold DefineOutputs_block. intros Hd.
  destruct (DefineOutputs_instrs _ data) as [d1|] eqn:Hi;
    [simpl in Hd|discriminate].
  rewrite (DefineOutputs_phis_block_states _ _ _ _ Hd).
  by eapply DefineOutputs_instrs_block_states.
Qed.

Lemma dominates_valid blocks b j :
  dominates blocks b j -> exists blk, at_index blocks b = Some blk.
Proof. induction 1; eauto. Qed.

Lemma dominates_up blocks c blk j :
  rpo_ordered blocks ->
  at_index blocks c = Some blk ->
  RpoNumber_IsValid (dominator blk) = true ->
  dominates blocks c j ->
  dominates blocks (dominator blk) j.
Proof.
  intros Hwf Hc Hv Hd. induction Hd as [blk' Hb|j blk' Hj Hv' Hd IH].
  - rewrite Hc in Hb. simplify_eq.
    destruct (Hwf _ _ Hc) as [_ Hlt].
    apply at_index_Some in Hc as Hr.
    unfold RpoNumber_IsValid in Hv. apply Z.leb_le in Hv.
    destruct (at_index blocks (dominator blk')) as [bd|] eqn:Hbd.
    + eapply dominates_idom; [exact Hc|by apply Z.leb_le|].
      by eapply dominates_self.
    + unfold at_index in Hbd.
      destruct (dominator blk' <? 0) eqn:E; [apply Z.ltb_lt in E; lia|].
      apply lookup_ge_None in Hbd. lia.
  - eapply dominates_idom; eauto.
Qed.

Lemma dominates_down blocks b j :
  dominates blocks b j ->
  j = b
  \/ exists c blk,
       at_index blocks c = Some blk
       /\ RpoNumber_IsValid (dominator blk) = true
       /\ dominator blk = b
       /\ dominates blocks c j.
Proof.
  induction 1 as [blk Hb|j blk Hj Hv Hd IH]; [by left|]. right.
  destruct IH as [Heq|(c & blk' & Hc & Hv' & Hi & Hd')].
  - exists j, blk. repeat split; try done. by eapply dominates_self.
  - exists c, blk'. repeat split; try done. by eapply dominates_idom.
Qed.

(** Visiting block [k] once the blocks after it have been visited. *)
Lemma InitializeBlockState_dominated_from blocks k blk data data' :
  rpo_ordered blocks ->
  at_index blocks (Z.of_nat k) = Some blk ->
  InitializeBlockState blk data = Some data' ->
  dominated_from blocks (S k) data ->
  dominated_from blocks k data'.
Proof.
  intros Hwf Hk Hi Hinv.
  destruct (Hwf _ _ Hk) as [Hrpo Hlt].
  assert (rpo_number blk <> dominator blk) as Hne by lia.
  pose proof (InitializeBlockState_spec _ _ _ Hi Hne) as Hspec.
  rewrite Hrpo in Hspec.
  assert (forall j, dominates blocks (Z.of_nat k) j ->
            (j =? Z.of_nat k) || dominated_blocks data (Z.of_nat k) j = true)
    as Hself.
  { intros j Hd. apply dominates_down in Hd
      as [->|(c & blk' & Hc & Hv & Hidom & Hd)].
    - by rewrite Z.eqb_refl.
    - apply orb_true_iff. right. apply Hinv. right.
      exists c, blk'. repeat split; try done.
      destruct (Hwf _ _ Hc). lia. }
  assert (forall j,
            (j =? Z.of_nat k) || dominated_blocks data (Z.of_nat k) j = true ->
            dominates blocks (Z.of_nat k) j) as Hself'.
  { intros j Hj. apply orb_true_iff in Hj as [Hj|Hj].
    - apply Z.eqb_eq in Hj as ->. by eapply dominates_self.
    - apply Hinv in Hj as [[Hle _]|(c & blk' & Hle & Hc & Hv & Hidom & Hd)];
        [lia|].
      rewrite <- Hidom. by eapply dominates_up. }
  intros b j. rewrite Hspec. case_decide as Eb.
  - subst b. split.
    + intros Hj. left. split; [lia|]. by apply Hself'.
    + intros [[_ Hd]|(c & blk' & Hle & Hc & Hv & Hidom & Hd)].
      * by apply Hself.
      * apply Hself. rewrite <- Hidom. by eapply dominates_up.
  - destruct (RpoNumber_IsValid (dominator blk) && (b =? dominator blk))
      eqn:Ed.
    + apply andb_true_iff in Ed as [Hv Ed]. apply Z.eqb_eq in Ed. subst b.
      split.
      * intros Hj. right. apply orb_true_iff in Hj as [Hj|Hj].
        -- apply Hinv in Hj
             as [[Hle _]|(c & blk' & Hle & Hc & Hv' & Hidom & Hd)]; [lia|].
           exists c, blk'. repeat split; try done. lia.
        -- exists (Z.of_nat k), blk. repeat split; try done; try lia.
           by apply Hself'.
      * intros [[Hle _]|(c & blk' & Hle & Hc & Hv' & Hidom & Hd)]; [lia|].
        apply orb_true_iff.
        destruct (decide (c = Z.of_nat k)) as [->|Hck].
        -- right. by apply Hself.
        -- left. apply Hinv. right. exists c, blk'.
           repeat split; try done. lia.
    + rewrite (Hinv b j). split.
      * intros [[Hle Hd]|(c & blk' & Hle & Hc & Hv' & Hidom & Hd)].
        -- left. split; [lia|done].
        -- right. exists c, blk'. repeat split; try done. lia.
      * intros [[Hle Hd]|(c & blk' & Hle & Hc & Hv' & Hidom & Hd)].
        -- left. split; [lia|done].
        -- right. exists c, blk'. repeat split; try done.
           destruct (decide (c = Z.of_nat k)) as [->|Hck]; [|lia].
           rewrite Hk in Hc. simplify_eq.
           rewrite Hv', Z.eqb_refl in Ed. discriminate.
Qed.

Lemma dominated_from_same blocks k data data' :
  block_states_ data' = block_states_ data ->
  dominated_from blocks k data -> dominated_from blocks k data'.
Proof.
  intros Hs Hinv b j. unfold dominated_blocks, block_state.
  rewrite Hs. apply Hinv.
Qed.

Lemma DefineOutputs_blocks_dominated_from blocks k :
  rpo_ordered blocks ->
  forall data data',
    DefineOutputs_blocks (rev (take k blocks)) data = Some data' ->
    dominated_from blocks k data ->
    dominated_from blocks 0 data'.
Proof.
  intros Hwf. induction k as [|k IH]; intros data data' Hd Hinv.
  - rewrite take_0 in Hd. simpl in Hd. by simplify_eq.
  - destruct (blocks !! k) as [blk|] eqn:Hk.
    + rewrite (take_S_r _ _ _ Hk), rev_app_distr in Hd. simpl in Hd.
      destruct (InitializeBlockState blk data) as [d1|] eqn:Hi;
        [simpl in Hd|discriminate].
      destruct (DefineOutputs_block blk d1) as [d2|] eqn:Hb;
        [simpl in Hd|discriminate].
      apply (IH _ _ Hd).
      eapply dominated_from_same;
        [by eapply DefineOutputs_block_block_states|].
      eapply InitializeBlockState_dominated_from; eauto.
      by rewrite at_index_of_nat.
    + apply lookup_ge_None in Hk.
      rewrite take_ge in Hd by lia. rewrite <- (take_ge blocks k) in Hd by lia.
      apply (IH _ _ Hd).
      intros b j. rewrite (Hinv b j). split.
      * intros [[Hle Hdom]|(c & blk' & Hle & Hc & Hr)].
        -- left. split; [lia|done].
        -- right. exists c, blk'. split; [lia|done].
      * intros [[Hle Hdom]|(c & blk' & Hle & Hc & Hr)].
        -- apply dominates_valid in Hdom as Hval. destruct Hval as [bb Hbb].
           apply at_index_Some in Hbb. left. split; [lia|done].
        -- apply at_index_Some in Hc as Hcr.
           right. exists c, blk'. split; [lia|done].
Qed.

Lemma dominated_blocks_new c ops n f b j :
  dominated_blocks (MidTierRegisterAllocationData_new c ops n f) b j = false.
Proof.
  unfold dominated_blocks, block_state, MidTierRegisterAllocationData_new.
  simpl. destruct (at_index _ b) as [bv|] eqn:Hb; [|done].
  unfold at_index in Hb. destruct (b <? 0); [discriminate|].
  apply lookup_replicate in Hb as [-> _].
  unfold BitVector_Contains, BitVector_new, at_index.
  destruct (j <? 0); [done|].
  destruct (replicate _ false !! Z.to_nat j) as [x|] eqn:Hj; [|done].
  by apply lookup_replicate in Hj as [-> _].
Qed.

(** C6: after [DefineOutputs] on freshly constructed allocation data whose
    blocks are numbered by position with every immediate dominator before
    its block, block [j] is in the dominated set of block [b] exactly when
    [b] is on the chain of immediate dominators of [j], [j] included. *)
Theorem C6_dominated_blocks_are_the_dominated_blocks c ops n f data' :
  rpo_ordered (instruction_blocks c) ->
  DefineOutputs (MidTierRegisterAllocationData_new c ops n f) = Some data' ->
  forall b j,
    dominated_blocks data' b j = true
    <-> dominates (instruction_blocks c) b j.
Proof.
  intros Hwf Hd b j. unfold DefineOutputs in Hd.
  change (code (MidTierRegisterAllocationData_new c ops n f)) with c in Hd.
  rewrite <- (take_ge (instruction_blocks c)
                (length (instruction_blocks c))) in Hd by lia.
  eapply DefineOutputs_blocks_dominated_from in Hd; [|done|].
  - rewrite (Hd b j). split.
    + intros [[_ Hdom]|(k & blk & _ & Hk & Hv & <- & Hdom)]; [done|].
      by eapply dominates_up.
    + intros Hdom. left. split; [|done].
      apply dominates_valid in Hdom as [bb Hbb].
      apply at_index_Some in Hbb. lia.
  - intros b' j'. rewrite dominated_blocks_new. split; [discriminate|].
    intros [[Hle Hdom]|(k & blk & Hle & Hk & _)].
    + apply dominates_valid in Hdom as [bb Hbb].
      apply at_index_Some in Hbb. lia.
    + apply at_index_Some in Hk. lia.
Qed.

End DominatedBlocks.

(** The theorem at [Example.tree_code]: block 3 is in the dominated set of
    block 1. *)
Lemma C6_witness :
  rpo_ordered (instruction_blocks Example.tree_code)
  /\ DefineOutputs Example.tree_data = Some Example.tree_defined
  /\ map BitVector_elements (block_states_ Example.tree_defined)
     = [[0; 1; 2; 3; 4]; [1; 2; 3]; [2]; [3]; [4]]
  /\ dominates (instruction_blocks Example.tree_code) 1 3.
Proof.
  assert (rpo_ordered (instruction_blocks Example.tree_code)) as Hwf.
  { intros k blk Hk. apply at_index_Some in Hk as Hr. simpl in Hr.
    assert (k = 0 \/ k = 1 \/ k = 2 \/ k = 3 \/ k = 4)
      as [->|[->|[->|[->| ->]]]] by lia;
      vm_compute in Hk; injection Hk as <-; simpl; lia. }
  assert (DefineOutputs Example.tree_data = Some Example.tree_defined)
    as Hd by (vm_compute; reflexivity).
  split; [exact Hwf|]. split; [exact Hd|]. split; [vm_compute; reflexivity|].
  apply (C6_dominated_blocks_are_the_dominated_blocks
           Example.tree_code Example.tree_operands 1 0 Example.tree_defined
           Hwf Hd 1 3).
  vm_compute. reflexivity.
Defined.

(** ** C7: the reference maps *)

Section ReferenceMaps.
Context `{Platform}.

Lemma same_but_instructions_refl data : same_but_instructions data data.
Proof. by repeat split. Qed.

Lemma same_but_instructions_trans d1 d2 d3 :
  same_but_instructions d1 d2 -> same_but_instructions d2 d3 ->
  same_but_instructions d1 d3.
Proof.
  intros (?&?&?&?&?&?&?) (?&?&?&?&?&?&?). repeat split; congruence.
Qed.

Lemma live_in_same data data' sr i instr instr' :
  same_but_instructions data data' ->
  block instr' = block instr ->
  live_in data' sr i instr' <-> live_in data sr i instr.
Proof.
  intros (_ & _ & Hbs & _ & _ & Hbl & _) Hb.
  unfold live_in, GetBlock, block_state. by rewrite Hbs, Hbl, Hb.
Qed.

Lemma reference_maps_extended_refl data added :
  (forall i instr op,
     InstructionAt data i = Some instr -> ~ added i instr op) ->
  reference_maps_extended data data added.
Proof.
  intros Hno i instr Hi. exists instr. repeat split; try done.
  - by left.
  - intros [?|Ha]; [done|]. by apply (Hno _ _ _ Hi) in Ha.
Qed.

Lemma reference_maps_extended_trans d1 d2 d3 add1 add2 add3 :
  reference_maps_extended d1 d2 add1 ->
  reference_maps_extended d2 d3 add2 ->
  (forall i instr instr' op,
     InstructionAt d1 i = Some instr ->
     InstructionAt d2 i = Some instr' ->
     block instr' = block instr ->
     (add3 i instr op <-> add1 i instr op \/ add2 i instr' op)) ->
  reference_maps_extended d1 d3 add3.
Proof.
  intros H12 H23 Hadd i instr Hi.
  destruct (H12 _ _ Hi) as (instr2 & Hi2 & Hb2 & Hm2).
  destruct (H23 _ _ Hi2) as (instr3 & Hi3 & Hb3 & Hm3).
  exists instr3. split; [done|]. split; [congruence|].
  intros op. rewrite Hm3, Hm2, (Hadd _ _ _ op Hi Hi2 Hb2). tauto.
Qed.

(** One round of the loop of [RecordReferences]. *)
Lemma RecordReferences_visit_spec sr allocated j data data' :
  RecordReferences_visit sr allocated j data = Some data' ->
  same_but_instructions data data'
  /\ reference_maps_extended data data'
       (fun i instr op => op = allocated /\ i = j /\ live_in data sr i instr).
Proof.
  unfold RecordReferences_visit. intros Hv.
  assert (Contains (live_range sr) j
          = negb ((j >? end_ (live_range sr))
                  || (j <? start_ (live_range sr)))) as Hc.
  { unfold Contains. rewrite Z.gtb_ltb.
    destruct (Z.ltb_spec (end_ (live_range sr)) j),
      (Z.ltb_spec j (start_ (live_range sr))),
      (Z.geb_spec j (start_ (live_range sr))),
      (Z.leb_spec j (end_ (live_range sr))); simpl; try done; lia. }
  destruct ((j >? end_ (live_range sr)) || (j <? start_ (live_range sr)))
    eqn:Hout; simpl in Hc.
  { simplify_eq. split; [apply same_but_instructions_refl|].
    apply reference_maps_extended_refl.
    intros i instr op Hi0 (_ & -> & Hl & _). congruence. }
  destruct (InstructionAt data j) as [instr|] eqn:Hj;
    [simpl in Hv|discriminate].
  destruct (at_index (instruction_blocks (code data)) (block instr))
    as [b|] eqn:Hb; [simpl in Hv|discriminate].
  unfold IsLiveAt in Hv. rewrite Hc in Hv.
  destruct (block_state data (live_blocks sr)) as [bv|] eqn:Hbv;
    [simpl in Hv|discriminate].
  destruct (BitVector_Contains bv (rpo_number b)) eqn:Hlive.
  - destruct (set_index (instructions (code data)) j
                (RecordReference instr allocated)) as [instrs|] eqn:Hs;
      [simpl in Hv|discriminate].
    simplify_eq. split; [by repeat split|].
    intros i instr0 Hi. unfold InstructionAt in *. simpl.
    rewrite (at_index_set_index _ _ _ i _ Hs).
    case_decide as Eij.
    + subst i. rewrite Hj in Hi. simplify_eq. eexists.
      split; [reflexivity|]. split; [done|]. intros op. simpl.
      rewrite in_app_iff. simpl. split.
      * intros [?|[<-|[]]]; [by left|]. right. repeat split; try done.
        by exists b, bv.
      * intros [?|(-> & _)]; [by left|]. right. by left.
    + exists instr0. repeat split; try done.
      * by left.
      * intros [?|(_ & -> & _)]; done.
  - simplify_eq. split; [apply same_but_instructions_refl|].
    apply reference_maps_extended_refl.
    intros i instr0 op Hi0 (_ & -> & _ & b' & bv' & Hb' & Hbv' & Hl).
    unfold GetBlock in Hb'. rewrite Hj in Hi0. simplify_eq. congruence.
Qed.

Lemma RecordReferences_loop_spec sr allocated indices :
  forall data data',
    RecordReferences_loop sr allocated indices data = Some data' ->
    same_but_instructions data data'
    /\ reference_maps_extended data data'
         (fun i instr op =>
            op = allocated /\ In i indices /\ live_in data sr i instr).
Proof.
  induction indices as [|j l IH]; simpl; intros data data' Hl.
  - simplify_eq. split; [apply same_but_instructions_refl|].
    apply reference_maps_extended_refl. by intros i instr op Hi0 (_ & [] & _).
  - destruct (RecordReferences_visit sr allocated j data) as [d1|] eqn:Hv;
      [simpl in Hl|discriminate].
    apply RecordReferences_visit_spec in Hv as [Hs1 He1].
    apply IH in Hl as [Hs2 He2].
    split; [by eapply same_but_instructions_trans|].
    eapply reference_maps_extended_trans; [exact He1|exact He2|].
    intros i instr instr' op Hi Hi' Hb. simpl.
    rewrite (live_in_same _ _ sr i instr instr' Hs1 Hb).
    split.
    + intros (-> & [<-|Hin] & Hlive); [by left|by right].
    + intros [(-> & -> & Hlive)|(-> & Hin & Hlive)].
      * split; [done|]. split; [by left|done].
      * split; [done|]. split; [by right|done].
Qed.

(** [RecordReferences] on one register. *)
Lemma RecordReferences_spec v data data' :
  RecordReferences v data = Some data' ->
  same_but_instructions data data'
  /\ reference_maps_extended data data'
       (fun i instr op => records_reference data v i op).
Proof.
  unfold RecordReferences. intros Hr.
  destruct (VirtualRegisterDataFor data v) as [vd|] eqn:Hvd;
    [simpl in Hr|discriminate].
  unfold HasAllocatedSpillOperand in Hr.
  assert (forall i op, records_reference data v i op ->
            exists sr p instr,
              spill_operand_ vd = Some p
              /\ read_operand data p = Some op
              /\ IsAllocated op = true
              /\ IsReference (code data) (vreg vd) = true
              /\ spill_range_ vd = Some sr
              /\ In i (reference_map_instructions data)
              /\ InstructionAt data i = Some instr
              /\ live_in data sr i instr) as Hinv.
  { intros i op (vd' & sr & p & instr & Hvd' & Hrest).
    rewrite Hvd in Hvd'. simplify_eq. by exists sr, p, instr. }
  destruct (spill_operand_ vd) as [p|] eqn:Hp.
  2: { simpl in Hr. simplify_eq. split; [apply same_but_instructions_refl|].
       apply reference_maps_extended_refl. intros i instr op Hi0 Hrec.
       apply Hinv in Hrec as (? & ? & ? & ? & _). discriminate. }
  destruct (read_operand data p) as [sop|] eqn:Hsop;
    [simpl in Hr|discriminate].
  destruct (IsAllocated sop) eqn:Hal; simpl in Hr.
  2: { simplify_eq. split; [apply same_but_instructions_refl|].
       apply reference_maps_extended_refl. intros i instr op Hi0 Hrec.
       apply Hinv in Hrec as (? & ? & ? & ? & ? & ? & _).
       simplify_eq. congruence. }
  destruct (IsReference (code data) (vreg vd)) eqn:Href; simpl in Hr.
  2: { simplify_eq. split; [apply same_but_instructions_refl|].
       apply reference_maps_extended_refl. intros i instr op Hi0 Hrec.
       apply Hinv in Hrec as (? & ? & ? & ? & ? & ? & ? & _).
       discriminate. }
  destruct (spill_range_ vd) as [sr|] eqn:Hsr; [simpl in Hr|discriminate].
  rewrite Hsop in Hr. simpl in Hr.
  apply RecordReferences_loop_spec in Hr as [Hs He].
  split; [done|].
  intros i instr Hi. destruct (He _ _ Hi) as (instr' & Hi' & Hb & Hm).
  exists instr'. split; [done|]. split; [done|].
  intros op. rewrite Hm. split.
  - intros [?|(-> & Hin & Hlive)]; [by left|]. right.
    exists vd, sr, p, instr. destruct Hlive as [? ?]. by repeat split.
  - intros [?|Hrec]; [by left|]. right.
    apply Hinv in Hrec
      as (sr' & p' & instr0 & ? & ? & ? & ? & ? & ? & Hi0 & Hlive).
    rewrite Hi in Hi0. simplify_eq. done.
Qed.

Lemma records_reference_same data data' v i op :
  same_but_instructions data data' ->
  (forall instr, InstructionAt data i = Some instr ->
     exists instr', InstructionAt data' i = Some instr'
                    /\ block instr' = block instr) ->
  records_reference data v i op -> records_reference data' v i op.
Proof.
  intros Hs Hi (vd & sr & p & instr & Hvd & Hp & Hop & Hal & Href & Hsr
                & Hin & Hinstr & Hlive).
  destruct (Hi _ Hinstr) as (instr' & Hinstr' & Hb).
  pose proof Hs as (Hops & Hvs & Hbs & Hrmi & Hsp & Hbl & Hreps).
  exists vd, sr, p, instr'.
  unfold VirtualRegisterDataFor, read_operand, IsReference,
    GetRepresentation in *.
  pose proof (proj2 (live_in_same _ _ sr i instr instr' Hs Hb) Hlive)
    as [? ?].
  rewrite Hops, Hvs, Hrmi, Hreps. by repeat split.
Qed.

Lemma PopulateReferenceMaps_loop_spec vs :
  forall data data',
    PopulateReferenceMaps_loop vs data = Some data' ->
    same_but_instructions data data'
    /\ reference_maps_extended data data'
         (fun i instr op =>
            exists v, In v vs /\ records_reference data v i op).
Proof.
  induction vs as [|v vs IH]; simpl; intros data data' Hl.
  - simplify_eq. split; [apply same_but_instructions_refl|].
    apply reference_maps_extended_refl. by intros i instr op Hi0 (v & [] & _).
  - destruct (RecordReferences v data) as [d1|] eqn:Hr;
      [simpl in Hl|discriminate].
    apply RecordReferences_spec in Hr as [Hs1 He1].
    apply IH in Hl as [Hs2 He2].
    split; [by eapply same_but_instructions_trans|].
    eapply reference_maps_extended_trans; [exact He1|exact He2|].
    intros i instr instr' op Hi Hi' Hb. simpl.
    assert (forall w, records_reference d1 w i op
                      <-> records_reference data w i op) as Hsame.
    { intros w. split.
      - apply records_reference_same.
        + destruct Hs1 as (?&?&?&?&?&?&?). by repeat split.
        + intros instr0 Hi0. rewrite Hi' in Hi0. simplify_eq.
          exists instr. done.
      - apply records_reference_same; [done|].
        intros instr0 Hi0. rewrite Hi in Hi0. simplify_eq.
        exists instr'. done. }
    split.
    + intros (w & [<-|Hin] & Hrec); [by left|].
      right. exists w. split; [done|]. by apply Hsame.
    + intros [Hrec|(w & Hin & Hrec)].
      * exists v. split; [by left|done].
      * exists w. split; [by right|]. by apply Hsame.
Qed.

(** C7: after [PopulateReferenceMaps], the reference map of instruction [i]
    holds what it held before and, for every spilled register that is a
    reference and has an allocated spill operand, that operand when [i] is
    a reference-map instruction within the live range of the spill range
    whose block is in its live blocks; it holds nothing else. *)
Theorem C7_reference_maps_hold_live_spilled_references data data' :
  PopulateReferenceMaps data = Some data' ->
  forall i instr,
    InstructionAt data i = Some instr ->
    exists instr',
      InstructionAt data' i = Some instr'
      /\ forall op,
           In op (reference_map instr')
           <-> In op (reference_map instr)
               \/ exists v,
                    In v (BitVector_elements (spilled_virtual_registers data))
                    /\ records_reference data v i op.
Proof.
  unfold PopulateReferenceMaps. intros Hp i instr Hi.
  apply PopulateReferenceMaps_loop_spec in Hp as [_ He].
  destruct (He _ _ Hi) as (instr' & Hi' & _ & Hm). by exists instr'.
Qed.

End ReferenceMaps.

(** The theorem at [Example.call_slots]: the call has the slot of the
    tagged [v1], and only that, in its reference map. *)
Lemma C7_witness :
  PopulateReferenceMaps Example.call_slots = Some Example.call_final
  /\ option_map reference_map (InstructionAt Example.call_slots 2)
     = Some []
  /\ option_map reference_map (InstructionAt Example.call_final 2)
     = Some [Example.v1_slot]
  /\ records_reference Example.call_slots 1 2 Example.v1_slot.
Proof.
  assert (PopulateReferenceMaps Example.call_slots
          = Some Example.call_final) as Hp by (vm_compute; reflexivity).
  split; [exact Hp|]. split; [vm_compute; reflexivity|].
  split; [vm_compute; reflexivity|].
  assert (exists instr, InstructionAt Example.call_slots 2 = Some instr
                        /\ reference_map instr = []) as (instr & Hi & Hnil)
    by (eexists; split; vm_compute; reflexivity).
  destruct (C7_reference_maps_hold_live_spilled_references _ _ Hp 2 instr Hi)
    as (instr' & Hi' & Hm).
  assert (In Example.v1_slot (reference_map instr')) as Hin.
  { vm_compute in Hi'. injection Hi' as <-. simpl. by left. }
  apply Hm in Hin as [Hin|(v & Hv & Hrec)].
  - rewrite Hnil in Hin. destruct Hin.
  - vm_compute in Hv. destruct Hv as [<-|[<-|[]]]; [|exact Hrec].
    exfalso. destruct Hrec as (vd & sr & p & instr0 & Hvd & _ & _ & _ & Href & _).
    vm_compute in Hvd. injection Hvd as <-. vm_compute in Href. discriminate.
Defined.

(** ** C3: the spill slots *)

Section SpillSlots.
Context `{Platform}.

(** *** The sort *)

Lemma insert_by_start_Permutation x l :
  Permutation (insert_by_start x l) (x :: l).
Proof.
  induction l as [|y l IH]; simpl; [done|].
  destruct (fst y <? fst x); [|done].
  rewrite IH. apply perm_swap.
Qed.

Lemma sort_by_start_Permutation l : Permutation (sort_by_start l) l.
Proof.
  induction l as [|x l IH]; simpl; [done|].
  unfold sort_by_start in *. simpl.
  rewrite insert_by_start_Permutation. by constructor.
Qed.

Lemma insert_by_start_sorted x l :
  StronglySorted (fun a b : Z * Z => fst a <= fst b) l ->
  StronglySorted (fun a b : Z * Z => fst a <= fst b) (insert_by_start x l).
Proof.
  induction 1 as [|y l Hs IH Hall]; simpl.
  - repeat constructor.
  - destruct (Z.ltb_spec (fst y) (fst x)) as [Hlt|Hge].
    + constructor; [done|].
      eapply Permutation_Forall;
        [symmetry; apply insert_by_start_Permutation|].
      constructor; [lia|done].
    + constructor; [by constructor|].
      constructor; [done|].
      eapply Forall_impl; [exact Hall|]. simpl. intros z Hz. lia.
Qed.

Lemma sort_by_start_sorted l :
  StronglySorted (fun a b : Z * Z => fst a <= fst b) (sort_by_start l).
Proof.
  induction l as [|x l IH]; [constructor|].
  by apply insert_by_start_sorted.
Qed.

(** *** The spilled set *)

Lemma BitVector_elements_from_bound bv :
  forall i x, In x (BitVector_elements_from i bv) -> i <= x.
Proof.
  induction bv as [|b bv IH]; simpl; intros i x Hx; [done|].
  apply in_app_iff in Hx as [Hx|Hx].
  - destruct b; [|done]. destruct Hx as [<-|[]]. lia.
  - apply IH in Hx. lia.
Qed.

Lemma BitVector_elements_NoDup bv : List.NoDup (BitVector_elements bv).
Proof.
  unfold BitVector_elements. generalize 0.
  induction bv as [|b bv IH]; simpl; intros i; [constructor|].
  destruct b; simpl; [|apply IH].
  constructor; [|apply IH].
  intros Hx. apply BitVector_elements_from_bound in Hx. lia.
Qed.

Lemma collect_pending_spec data vs :
  forall l,
    collect_pending data vs = Some l ->
    (forall v,
       In v l
       <-> In v vs
           /\ exists vd,
                VirtualRegisterDataFor data v = Some vd
                /\ HasPendingSpillOperand data vd = Some true)
    /\ (List.NoDup vs -> List.NoDup l).
Proof.
  induction vs as [|v vs IH]; simpl; intros l Hc.
  - simplify_eq. split; [|done]. intros v. split; [done|]. by intros [[] _].
  - destruct (VirtualRegisterDataFor data v) as [vd|] eqn:Hvd;
      [simpl in Hc|discriminate].
    destruct (HasPendingSpillOperand data vd) as [pending|] eqn:Hp;
      [simpl in Hc|discriminate].
    destruct (collect_pending data vs) as [rest|];
      [simpl in Hc|discriminate].
    destruct (IH _ eq_refl) as [Hin Hnd]. simplify_eq. split.
    + intros w. destruct pending; simpl; rewrite Hin.
      * split.
        -- intros [<-|[Hw Hr]]; [|by split; [right|]].
           split; [by left|]. by exists vd.
        -- intros [[<-|Hw] Hr]; [by left|]. right. done.
      * split.
        -- intros [Hw Hr]. by split; [right|].
        -- intros [[<-|Hw] Hr]; [|done].
           destruct Hr as (vd' & Hvd' & Hp'). congruence.
    + intros Hvs. apply NoDup_cons_iff in Hvs as [Hv Hvs].
      destruct pending; [|auto]. constructor; [|auto].
      intros Hl. apply Hin in Hl as [Hl _]. done.
Qed.

(** *** The containers of slots *)

Lemma queue_push_Permutation t q : Permutation (queue_push t q) (t :: q).
Proof.
  induction q as [|u q IH]; simpl; [done|].
  destruct (last_use t <? last_use u); [done|].
  rewrite IH. apply perm_swap.
Qed.

Lemma AdvanceTo_loop_spec s allocated :
  forall free allocated' free',
    AdvanceTo_loop s allocated free = (allocated', free') ->
    Permutation (allocated' ++ free') (allocated ++ free)
    /\ (forall t, In t free' -> In t free \/ last_use t < s).
Proof.
  induction allocated as [|top rest IH]; simpl; intros free a' f' Ha.
  - simplify_eq. split; [done|]. by left.
  - destruct (Z.gtb_spec s (last_use top)) as [Hgt|Hle].
    + apply IH in Ha as [Hperm Hfree]. split.
      * rewrite Hperm. by rewrite Permutation_middle.
      * intros t Ht. apply Hfree in Ht as [[<-|Ht]|Ht]; auto.
    + simplify_eq. split; [done|]. by left.
Qed.

Lemma GetFreeSpillSlot_Some free :
  forall width t rest,
    GetFreeSpillSlot free width = Some (t, rest) ->
    Permutation free (t :: rest).
Proof.
  induction free as [|slot free IH]; simpl; intros width t rest Hg;
    [discriminate|].
  destruct (byte_width slot =? width); [by simplify_eq|].
  destruct (GetFreeSpillSlot free width) as [[s r]|] eqn:Hr;
    [|discriminate].
  simplify_eq. rewrite (IH _ _ _ Hr). apply perm_swap.
Qed.

Lemma GetFreeSpillSlot_width free :
  forall width t rest,
    GetFreeSpillSlot free width = Some (t, rest) -> byte_width t = width.
Proof.
  induction free as [|slot free IH]; simpl; intros width t rest Hg;
    [discriminate|].
  destruct (Z.eqb_spec (byte_width slot) width); [by simplify_eq|].
  destruct (GetFreeSpillSlot free width) as [[s r]|] eqn:Hr;
    [|discriminate].
  simplify_eq. eauto.
Qed.

Lemma NoDup_map_eq {A B} (f : A -> B) (l : list A) (a b : A) :
  List.NoDup (map f l) -> In a l -> In b l -> f a = f b -> a = b.
Proof.
  induction l as [|x l IH]; simpl; intros Hnd Ha Hb Hf; [done|].
  apply NoDup_cons_iff in Hnd as [Hx Hnd].
  destruct Ha as [->|Ha], Hb as [->|Hb]; try done.
  - exfalso. apply Hx. rewrite Hf. by apply in_map.
  - exfalso. apply Hx. rewrite <- Hf. by apply in_map.
  - auto.
Qed.

(** *** The pending spill operands *)

Lemma AllocatePendingChain_spec fuel allocated :
  IsPending allocated = false ->
  forall current data data',
    AllocatePendingChain fuel current allocated data = Some data' ->
    virtual_register_data_ data' = virtual_register_data_ data
    /\ frame data' = frame data
    /\ (forall p op,
          operands data !! p = Some op -> IsPending op = false ->
          operands data' !! p = Some op)
    /\ (forall p, current = Some p -> operands data' !! p = Some allocated).
Proof.
  intros Hal. induction fuel as [|fuel IH]; intros current data data' Hc;
    destruct current as [p|]; simpl in Hc; try discriminate;
    try (simplify_eq; by repeat split).
  destruct (read_operand data p) as [op|] eqn:Hop;
    [simpl in Hc|discriminate].
  destruct (Pending_next op) as [next|] eqn:Hnext;
    [simpl in Hc|discriminate].
  destruct (ReplaceWith_value data p allocated) as [d1|] eqn:Hr;
    [simpl in Hc|discriminate].
  apply ReplaceWith_value_spec in Hr as [Hlt ->].
  destruct (IH _ _ _ Hc) as (Hv & Hf & Hkeep & _).
  assert (IsPending op = true) as Hpend by (by destruct op).
  simpl in *. repeat split; try done.
  - intros q oq Hq Hnp. apply Hkeep; [|done].
    rewrite list_lookup_insert_ne; [done|].
    intros ->. unfold read_operand in Hop. congruence.
  - intros q [= <-]. apply Hkeep; [|done].
    by apply list_lookup_insert_eq.
Qed.

(** The walk returns on every chain of pending operands: the number of
    operands is fuel enough. *)
Lemma AllocatePendingChain_returns allocated l :
  forall fuel current data,
    pending_chain (operands data) current l ->
    (length l <= fuel)%nat ->
    exists data',
      AllocatePendingChain fuel current allocated data = Some data'
      /\ (forall p, In p l -> operands data' !! p = Some allocated)
      /\ (forall p, ~ In p l -> operands data' !! p = operands data !! p).
Proof.
  induction l as [|p l IH]; intros fuel current data Hc Hf.
  - inversion Hc; subst. exists data. by destruct fuel.
  - pose proof (pending_chain_NoDup _ _ _ Hc) as Hnd.
    apply NoDup_cons_iff in Hnd as [Hp _].
    inversion Hc as [|p' next l' Hop Hc']; subst.
    destruct fuel as [|fuel]; [simpl in Hf; lia|]. simpl.
    unfold read_operand. rewrite Hop. simpl.
    apply lookup_lt_Some in Hop as Hlt.
    unfold ReplaceWith_value. rewrite decide_True by done. simpl.
    destruct (IH fuel next
                (set_operands data (<[p := allocated]> (operands data))))
      as (data' & Hrun & Hin & Hout).
    { simpl. by eapply pending_chain_tail_insert. }
    { simpl in Hf. lia. }
    exists data'. split; [done|]. simpl in *. split.
    + intros q [<-|Hq]; [|auto].
      rewrite (Hout _ Hp). by apply list_lookup_insert_eq.
    + intros q Hq. rewrite Hout by (intros ?; apply Hq; by right).
      apply list_lookup_insert_ne. intros ->. apply Hq. by left.
Qed.

Lemma AllocatePendingSpillOperand_returns v vd allocated data l :
  VirtualRegisterDataFor data v = Some vd ->
  pending_chain (operands data) (spill_operand_ vd) l ->
  exists data',
    AllocatePendingSpillOperand v allocated data = Some data'
    /\ forall p, In p l -> operands data' !! p = Some allocated.
Proof.
  intros Hvd Hc. unfold AllocatePendingSpillOperand. rewrite Hvd. simpl.
  destruct (AllocatePendingChain_returns allocated l
              (length (operands data)) _ data Hc)
    as (data' & Hrun & Hin & _); [by eapply pending_chain_length|].
  eauto.
Qed.

Lemma spill_slot_of_stable data data' v index :
  virtual_register_data_ data' = virtual_register_data_ data ->
  (forall p op,
     operands data !! p = Some op -> IsPending op = false ->
     operands data' !! p = Some op) ->
  spill_slot_of data v = Some index ->
  spill_slot_of data' v = Some index.
Proof.
  unfold spill_slot_of, VirtualRegisterDataFor, read_operand.
  intros -> Hkeep Hs.
  destruct (at_index (virtual_register_data_ data) v) as [vd|];
    [simpl in *|discriminate].
  destruct (spill_operand_ vd) as [p|]; [simpl in *|discriminate].
  destruct (operands data !! p) as [op|] eqn:Hop;
    [simpl in *|discriminate].
  rewrite (Hkeep _ _ Hop); [done|]. by destruct op.
Qed.

Lemma spill_live_range_same data data' v :
  virtual_register_data_ data' = virtual_register_data_ data ->
  spill_live_range data' v = spill_live_range data v.
Proof.
  unfold spill_live_range, VirtualRegisterDataFor. by intros ->.
Qed.

(** *** One call of [Allocate] *)

(** What one call of [Allocate] does: the slot [t0] it takes (a free slot
    whose last use is before the range, or a slot the frame has not handed
    out before), extended by the range, goes to the allocated slots, and
    the spill operand of [v] names it. *)
Lemma Allocate_spec owns v al data al' data' :
  fresh_slots owns ->
  Allocate v al data = Some (al', data') ->
  exists vd sr t0 rest,
    VirtualRegisterDataFor data v = Some vd
    /\ spill_range_ vd = Some sr
    /\ let lr := live_range sr in
       let t := SpillSlot_AddRange t0 lr in
       Permutation (allocated_slots_ al' ++ free_slots_ al') (t :: rest)
       /\ (Permutation (allocated_slots_ al ++ free_slots_ al) (t0 :: rest)
           /\ (In t0 (free_slots_ al) \/ last_use t0 < start_ lr)
           /\ frame data' = frame data
           \/ Permutation (allocated_slots_ al ++ free_slots_ al) rest
              /\ ~ owns (frame data) (stack_slot_ t0)
              /\ owns (frame data') (stack_slot_ t0)
              /\ (forall s, owns (frame data) s -> owns (frame data') s))
       /\ (forall u, In u (free_slots_ al') ->
             In u (free_slots_ al) \/ last_use u < start_ lr)
       /\ virtual_register_data_ data' = virtual_register_data_ data
       /\ (forall p op,
             operands data !! p = Some op -> IsPending op = false ->
             operands data' !! p = Some op)
       /\ (forall p, spill_operand_ vd = Some p ->
             spill_slot_of data' v = Some (stack_slot_ t)).
Proof.
  intros Hfresh Ha. unfold Allocate in Ha.
  destruct (VirtualRegisterDataFor data v) as [vd|] eqn:Hvd;
    [simpl in Ha|discriminate].
  destruct (spill_range_ vd) as [sr|] eqn:Hsr; [simpl in Ha|discriminate].
  unfold AdvanceTo in Ha.
  destruct (AdvanceTo_loop (start_ (live_range sr)) (allocated_slots_ al)
              (free_slots_ al)) as [allocated1 free0] eqn:Hadv.
  simpl in Ha.
  destruct (AdvanceTo_loop_spec _ _ _ _ _ Hadv) as [Hperm Hfreed].
  assert (forall rep t d d',
            AllocatePendingSpillOperand v (SpillSlot_ToOperand t rep) d
            = Some d' ->
            VirtualRegisterDataFor d v = Some vd ->
            virtual_register_data_ d' = virtual_register_data_ d
            /\ frame d' = frame d
            /\ (forall p op,
                  operands d !! p = Some op -> IsPending op = false ->
                  operands d' !! p = Some op)
            /\ (forall p, spill_operand_ vd = Some p ->
                  spill_slot_of d' v = Some (stack_slot_ t))) as Hchain.
  { intros rep t d d' Hp Hv. unfold AllocatePendingSpillOperand in Hp.
    rewrite Hv in Hp. simpl in Hp.
    apply AllocatePendingChain_spec in Hp as (Hvs & Hf & Hkeep & Hhead);
      [|done].
    repeat split; try done.
    intros p Hsp. unfold spill_slot_of, VirtualRegisterDataFor in *.
    rewrite Hvs, Hv. simpl. rewrite Hsp. simpl.
    unfold read_operand. by rewrite (Hhead _ Hsp). }
  destruct (GetFreeSpillSlot free0
              (ByteWidthForStackSlot (RepresentationFor data (vreg vd))))
    as [[t0 free1]|] eqn:Hget.
  - destruct (AllocatePendingSpillOperand v _ data) as [d1|] eqn:Hp;
      [simpl in Ha|discriminate].
    simplify_eq. apply Hchain in Hp as (Hvs & Hf & Hkeep & Hslot); [|done].
    apply GetFreeSpillSlot_Some in Hget.
    exists vd, sr, t0, (allocated1 ++ free1). simpl.
    split; [done|]. split; [done|]. split.
    { rewrite queue_push_Permutation. done. }
    split.
    { left. split; [|split; [|done]].
      - rewrite <- Hperm, Hget. by rewrite Permutation_middle.
      - apply Hfreed. rewrite Hget. by left. }
    split.
    { intros u Hu. apply Hfreed. rewrite Hget. by right. }
    done.
  - destruct (Frame_AllocateSpillSlot (frame data) _) as [f' index] eqn:Hfr.
    destruct (AllocatePendingSpillOperand v _ (set_frame data f'))
      as [d1|] eqn:Hp; [simpl in Ha|discriminate].
    simplify_eq. apply Hchain in Hp as (Hvs & Hf & Hkeep & Hslot); [|done].
    destruct (Hfresh _ _ _ _ Hfr) as (Hnew & Hown & Hmono).
    exists vd, sr,
      (mkSlot index
         (ByteWidthForStackSlot (RepresentationFor data (vreg vd)))
         Range_default), (allocated1 ++ free0).
    simpl. split; [done|]. split; [done|]. split.
    { rewrite queue_push_Permutation. done. }
    split.
    { right. rewrite Hf. simpl. by rewrite Hperm. }
    done.
Qed.

Lemma last_use_AddRange t lr :
  last_use t <= last_use (SpillSlot_AddRange t lr)
  /\ end_ lr <= last_use (SpillSlot_AddRange t lr).
Proof. unfold last_use, SpillSlot_AddRange, AddRange. simpl. lia. Qed.

Lemma ranges_disjoint_before r1 r2 :
  end_ r1 < start_ r2 -> ranges_disjoint r1 r2 /\ ranges_disjoint r2 r1.
Proof.
  intros Hlt. split; intros i [H1 H2];
    apply Contains_spec in H1; apply Contains_spec in H2; lia.
Qed.

(** The sweep is in order after one more call of [Allocate]. *)
Lemma Allocate_sweep_inv owns data0 done v remaining al data al' data' :
  fresh_slots owns ->
  sweep_inv owns data0 done (v :: remaining) al data ->
  (exists vd p,
     VirtualRegisterDataFor data0 v = Some vd
     /\ spill_operand_ vd = Some p) ->
  (forall w lr lw,
     In w remaining ->
     spill_live_range data0 v = Some lr ->
     spill_live_range data0 w = Some lw ->
     start_ lr <= start_ lw) ->
  Allocate v al data = Some (al', data') ->
  sweep_inv owns data0 (v :: done) remaining al' data'.
Proof.
  intros Hfresh (Hvs & Hnd & Hown & Hdone & Hfree & Hpair)
    (vd0 & p & Hvd0 & Hp) Hsorted Ha.
  destruct (Allocate_spec _ _ _ _ _ _ Hfresh Ha)
    as (vd & sr & t0 & rest & Hvd & Hsr & Hperm' & Hcase & Hfree' & Hvs'
        & Hkeep & Hslot).
  simpl in *.
  assert (vd = vd0) as ->.
  { unfold VirtualRegisterDataFor in *. rewrite Hvs in Hvd. congruence. }
  specialize (Hslot _ Hp).
  set (lr := live_range sr) in *.
  set (t := SpillSlot_AddRange t0 lr) in *.
  assert (spill_live_range data0 v = Some lr) as Hlr.
  { unfold spill_live_range. rewrite Hvd0. simpl. by rewrite Hsr. }
  destruct (last_use_AddRange t0 lr) as [Hlu0 Hlu].
  fold t in Hlu0, Hlu.
  assert (stack_slot_ t = stack_slot_ t0) as Hidx by done.
  assert (forall u, In u rest -> In u (allocated_slots_ al ++ free_slots_ al))
    as Hrest.
  { intros u Hu. destruct Hcase as [(Hperm & _)|(Hperm & _)].
    - rewrite Hperm. by right.
    - by rewrite Hperm. }
  assert (List.NoDup (map stack_slot_ (t :: rest))) as Hnd'.
  { destruct Hcase as [(Hperm & _)|(Hperm & Hnew & _)].
    - rewrite Hperm in Hnd. exact Hnd.
    - rewrite Hperm in Hnd. simpl. constructor; [|done].
      intros Hin. apply in_map_iff in Hin as (u & Hu & Hin).
      apply Hnew. rewrite <- Hu. apply Hown. by rewrite Hperm. }
  assert (forall s, owns (frame data) s -> owns (frame data') s) as Hmono.
  { destruct Hcase as [(_ & _ & ->)|(_ & _ & _ & Hm)]; done. }
  assert (owns (frame data') (stack_slot_ t)) as Hown_t.
  { destruct Hcase as [(Hperm & _ & Hf)|(_ & _ & Ho & _)]; [|done].
    rewrite Hidx. apply Hmono, (Hown t0). rewrite Hperm. by left. }
  assert (forall u,
            In u (allocated_slots_ al ++ free_slots_ al) ->
            In u rest
            \/ (u = t0 /\ last_use t0 < start_ lr)) as Hsplit.
  { intros u Hu. destruct Hcase as [(Hperm & Hold & _)|(Hperm & _)].
    - rewrite Hperm in Hu. destruct Hu as [<-|Hu]; [|by left].
      right. split; [done|]. destruct Hold as [Hold|Hold]; [|done].
      eapply Hfree; [exact Hold|by left|exact Hlr].
    - left. by rewrite <- Hperm. }
  assert (forall w lw,
            In w done -> spill_live_range data0 w = Some lw ->
            spill_slot_of data w = Some (stack_slot_ t) ->
            end_ lw < start_ lr) as Hbefore.
  { intros w lw Hw Hlw Hsw.
    destruct (Hdone _ Hw) as (lw' & tw & Hlw' & Htw & Hsw' & Hend).
    assert (lw' = lw) as -> by congruence.
    assert (stack_slot_ tw = stack_slot_ t) as Heq by congruence.
    destruct (Hsplit _ Htw) as [Hin|[-> Hlt]]; [|lia].
    exfalso. apply NoDup_cons_iff in Hnd' as [Hnot _]. apply Hnot.
    rewrite <- Heq. by apply in_map. }
  assert (forall w index,
            In w done -> spill_slot_of data' w = Some index ->
            spill_slot_of data w = Some index) as Hback.
  { intros w index Hw Hsw.
    destruct (Hdone _ Hw) as (lw & tw & _ & _ & Hsw' & _).
    rewrite (spill_slot_of_stable _ _ _ _ Hvs' Hkeep Hsw') in Hsw.
    congruence. }
  repeat split.
  - congruence.
  - rewrite Hperm'. exact Hnd'.
  - intros u Hu. rewrite Hperm' in Hu. destruct Hu as [<-|Hu]; [done|].
    auto.
  - intros w [<-|Hw].
    + exists lr, t. repeat split; try done. rewrite Hperm'. by left.
    + destruct (Hdone _ Hw) as (lw & tw & Hlw & Htw & Hsw & Hend).
      apply (spill_slot_of_stable _ _ _ _ Hvs' Hkeep) in Hsw.
      destruct (Hsplit _ Htw) as [Hin|[-> Hlt]].
      * exists lw, tw. repeat split; try done. rewrite Hperm'. by right.
      * exists lw, t. repeat split; try done; [|lia].
        rewrite Hperm'. by left.
  - intros u w lw Hu Hw Hlw. destruct (Hfree' _ Hu) as [Hold|Hlt].
    + eapply Hfree; [exact Hold|by right|exact Hlw].
    + specialize (Hsorted _ _ _ Hw Hlr Hlw). lia.
  - intros v1 v2 r1 r2 index [<-|H1] [<-|H2] Hne Hs1 Hs2 Hr1 Hr2;
      [done| | |].
    + rewrite Hlr in Hr1. simplify_eq.
      exact (proj2 (ranges_disjoint_before r2 _
                      (Hbefore _ _ H2 Hr2 (Hback _ _ H2 Hs2)))).
    + rewrite Hlr in Hr2. simplify_eq.
      exact (proj1 (ranges_disjoint_before r1 _
                      (Hbefore _ _ H1 Hr1 (Hback _ _ H1 Hs1)))).
    + eapply (Hpair v1 v2 r1 r2 index); eauto.
Qed.

(** The sweep over registers in ascending order of their starts. *)
Lemma Allocate_all_sweep_inv owns data0 vs :
  fresh_slots owns ->
  forall done al data al' data',
    sweep_inv owns data0 done vs al data ->
    (forall v, In v vs ->
       exists vd p,
         VirtualRegisterDataFor data0 v = Some vd
         /\ spill_operand_ vd = Some p) ->
    sorted_by_start (spill_live_range data0) vs ->
    Allocate_all vs al data = Some (al', data') ->
    sweep_inv owns data0 (rev vs ++ done) [] al' data'.
Proof.
  intros Hfresh. induction vs as [|v vs IH];
    intros done al data al' data' Hinv Hops Hsorted Ha; simpl in Ha.
  - by simplify_eq.
  - destruct (Allocate v al data) as [[al1 d1]|] eqn:Hv;
      [simpl in Ha|discriminate].
    unfold sorted_by_start in Hsorted.
    apply StronglySorted_inv in Hsorted. destruct Hsorted as [Hsorted Hhead].
    simpl. rewrite <- app_assoc. simpl.
    eapply IH; [|by intros; apply Hops; right|done|exact Ha].
    eapply Allocate_sweep_inv; [done|exact Hinv|by apply Hops; left| |done].
    intros w lr lw Hw Hlr Hlw.
    rewrite List.Forall_forall in Hhead. by apply (Hhead w Hw).
Qed.

(** *** The sweep *)

Lemma spill_start_live_range data v s lr :
  spill_start data v = Some s ->
  spill_live_range data v = Some lr ->
  start_ lr = s.
Proof.
  unfold spill_start, spill_live_range.
  destruct (VirtualRegisterDataFor data v) as [vd|]; [simpl|discriminate].
  destruct (spill_range_ vd) as [sr|]; [simpl|discriminate]. congruence.
Qed.

Lemma keyed_spec data spilled :
  forall keyed,
    mapM (fun v => s ← spill_start data v; Some (s, v)) spilled
    = Some keyed ->
    map snd keyed = spilled
    /\ forall k, In k keyed -> spill_start data (snd k) = Some (fst k).
Proof.
  intros keyed Hm. apply mapM_Some in Hm.
  induction Hm as [|v k spilled keyed Hk Hm IH]; [done|].
  destruct IH as [IH1 IH2].
  destruct (spill_start data v) as [s|] eqn:Hs; [simpl in Hk|discriminate].
  injection Hk as <-. simpl. split; [by rewrite IH1|].
  intros k [<-|Hin]; [done|auto].
Qed.

Lemma sorted_map_snd data l :
  StronglySorted (fun a b : Z * Z => fst a <= fst b) l ->
  (forall k, In k l -> spill_start data (snd k) = Some (fst k)) ->
  sorted_by_start (spill_live_range data) (map snd l).
Proof.
  induction 1 as [|a l Hs IH Hall]; intros Hkey; simpl; [constructor|].
  constructor; [apply IH; intros; apply Hkey; by right|].
  apply List.Forall_forall. intros w Hw ra rb Hra Hrb.
  apply in_map_iff in Hw as (b & <- & Hb).
  rewrite List.Forall_forall in Hall. specialize (Hall _ Hb).
  rewrite (spill_start_live_range _ _ _ _ (Hkey a (or_introl eq_refl)) Hra).
  rewrite (spill_start_live_range _ _ _ _ (Hkey b (or_intror Hb)) Hrb).
  done.
Qed.

Lemma HasPendingSpillOperand_true data vd :
  HasPendingSpillOperand data vd = Some true ->
  exists p, spill_operand_ vd = Some p.
Proof.
  unfold HasPendingSpillOperand.
  destruct (spill_operand_ vd) as [p|]; [eauto|discriminate].
Qed.

(** C3: when the frame never hands out a slot twice, after
    [AllocateSpillSlots] every register of the sweep (a spilled register
    whose spill operand was pending) has a stack slot, and two different
    registers of the sweep with the same stack slot have live ranges with
    no instruction index in common.  The sweep takes the registers in
    ascending order of the start of their live ranges, [AdvanceTo] moves to
    the free slots only slots whose last use is before the index it
    advances to, and [GetFreeSpillSlot] returns only a free slot of the
    byte width asked for. *)
Theorem C3_one_register_per_spill_slot_at_a_time owns data data' :
  fresh_slots owns ->
  AllocateSpillSlots data = Some data' ->
  (forall v, swept data v -> exists index, spill_slot_of data' v = Some index)
  /\ (forall v1 v2 index r1 r2,
        swept data v1 -> swept data v2 -> v1 <> v2 ->
        spill_slot_of data' v1 = Some index ->
        spill_slot_of data' v2 = Some index ->
        spill_live_range data' v1 = Some r1 ->
        spill_live_range data' v2 = Some r2 ->
        ranges_disjoint r1 r2)
  /\ (forall keyed,
        Permutation (sort_by_start keyed) keyed
        /\ StronglySorted (fun a b : Z * Z => fst a <= fst b)
             (sort_by_start keyed))
  /\ (forall index allocated free allocated' free' t,
        AdvanceTo_loop index allocated free = (allocated', free') ->
        In t free' -> In t free \/ last_use t < index)
  /\ (forall free width t rest,
        GetFreeSpillSlot free width = Some (t, rest) ->
        byte_width t = width).
Proof.
  intros Hfresh Ha. unfold AllocateSpillSlots in Ha.
  destruct (collect_pending data _) as [spilled|] eqn:Hc;
    [simpl in Ha|discriminate].
  destruct (mapM _ spilled) as [keyed|] eqn:Hk; [simpl in Ha|discriminate].
  destruct (Allocate_all _ _ data) as [[al' d']|] eqn:Hall;
    [simpl in Ha|discriminate].
  simplify_eq.
  destruct (collect_pending_spec _ _ _ Hc) as [Hin _].
  destruct (keyed_spec _ _ _ Hk) as [Hsnd Hkey].
  set (vs := map snd (sort_by_start keyed)) in *.
  assert (Permutation vs spilled) as Hperm.
  { unfold vs. rewrite sort_by_start_Permutation. by rewrite Hsnd. }
  assert (forall v, swept data v -> In v (rev vs ++ [])) as Hswept.
  { intros v Hv. rewrite app_nil_r, <- in_rev.
    eapply Permutation_in; [symmetry; exact Hperm|]. by apply Hin. }
  eapply Allocate_all_sweep_inv in Hall; [|exact Hfresh| | |].
  - destruct Hall as (Hvs & _ & _ & Hdone & _ & Hpair).
    split; [|split; [|split; [|split]]].
    + intros v Hv.
      destruct (Hdone _ (Hswept _ Hv)) as (lr & t & _ & _ & Hs & _).
      eauto.
    + intros v1 v2 index r1 r2 H1 H2 Hne Hs1 Hs2 Hr1 Hr2.
      rewrite (spill_live_range_same _ _ v1 Hvs) in Hr1.
      rewrite (spill_live_range_same _ _ v2 Hvs) in Hr2.
      eapply (Hpair v1 v2 r1 r2 index); eauto.
    + intros l. split;
        [apply sort_by_start_Permutation|apply sort_by_start_sorted].
    + intros index allocated free allocated' free' t Hadv.
      by apply (AdvanceTo_loop_spec _ _ _ _ _ Hadv).
    + apply GetFreeSpillSlot_width.
  - repeat split; simpl; try done. constructor.
  - intros v Hv. eapply Permutation_in in Hv; [|exact Hperm].
    apply Hin in Hv as (_ & vd & Hvd & Hp).
    apply HasPendingSpillOperand_true in Hp as [p Hp]. eauto.
  - apply sorted_map_snd; [apply sort_by_start_sorted|].
    intros k Hk'. apply Hkey.
    eapply Permutation_in; [apply sort_by_start_Permutation|done].
Qed.

End SpillSlots.

(** The theorem at [Example.reuse_code]: [v0] and [v1] share stack slot 0,
    and their live ranges, instructions 1 to 2 and 4 to 5, are apart. *)
Lemma C3_witness :
  fresh_slots Example.handed_out
  /\ AllocateSpillSlots Example.reuse_allocated = Some Example.reuse_slots
  /\ swept Example.reuse_allocated 0
  /\ swept Example.reuse_allocated 1
  /\ spill_slot_of Example.reuse_slots 0 = Some 0
  /\ spill_slot_of Example.reuse_slots 1 = Some 0
  /\ spill_live_range Example.reuse_slots 0 = Some (mkRange 1 2)
  /\ spill_live_range Example.reuse_slots 1 = Some (mkRange 4 5)
  /\ ranges_disjoint (mkRange 1 2) (mkRange 4 5).
Proof.
  assert (fresh_slots Example.handed_out) as Hfresh.
  { intros f w f' s Hf. simpl in Hf. injection Hf as <- <-.
    unfold Example.handed_out. simpl in *. repeat split; try lia. }
  assert (AllocateSpillSlots Example.reuse_allocated
          = Some Example.reuse_slots) as Ha by (vm_compute; reflexivity).
  assert (swept Example.reuse_allocated 0) as H0.
  { split; [vm_compute; tauto|].
    eexists. split; vm_compute; reflexivity. }
  assert (swept Example.reuse_allocated 1) as H1.
  { split; [vm_compute; tauto|].
    eexists. split; vm_compute; reflexivity. }
  assert (spill_slot_of Example.reuse_slots 0 = Some 0) as Hs0
    by (vm_compute; reflexivity).
  assert (spill_slot_of Example.reuse_slots 1 = Some 0) as Hs1
    by (vm_compute; reflexivity).
  assert (spill_live_range Example.reuse_slots 0 = Some (mkRange 1 2))
    as Hr0 by (vm_compute; reflexivity).
  assert (spill_live_range Example.reuse_slots 1 = Some (mkRange 4 5))
    as Hr1 by (vm_compute; reflexivity).
  repeat (split; [assumption|]).
  refine (proj1 (proj2
                   (C3_one_register_per_spill_slot_at_a_time _ _ _ Hfresh Ha))
            0 1 0 _ _ H0 H1 _ Hs0 Hs1 Hr0 Hr1).
  lia.
Defined.

(** C3 as stated fails for registers whose slot is fixed by their defining
    instruction: in [Example.fixed_code], [v0] and [v1] are both spilled,
    [DefineOutputs] gives both the fixed stack slot 5 as their spill
    operand, so neither has a pending spill operand and
    [AllocateSpillSlots] passes over both, and their spill live ranges
    [0, 2] and [1, 2] both contain instructions 1 and 2. *)
Lemma C3_counterexample :
  (data ← DefineOutputs Example.fixed_data;
   '(_, data) ← AllocateRegisters Example.call_allocator data;
   Some data) = Some Example.fixed_allocated
  /\ AllocateSpillSlots Example.fixed_allocated = Some Example.fixed_slots
  /\ BitVector_elements (spilled_virtual_registers Example.fixed_slots)
     = [0; 1]
  /\ (vd ← VirtualRegisterDataFor Example.fixed_allocated 0;
      HasPendingSpillOperand Example.fixed_allocated vd) = Some false
  /\ (vd ← VirtualRegisterDataFor Example.fixed_allocated 1;
      HasPendingSpillOperand Example.fixed_allocated vd) = Some false
  /\ spill_slot_of Example.fixed_slots 0 = Some 5
  /\ spill_slot_of Example.fixed_slots 1 = Some 5
  /\ spill_live_range Example.fixed_slots 0 = Some (mkRange 0 2)
  /\ spill_live_range Example.fixed_slots 1 = Some (mkRange 1 2)
  /\ Contains (mkRange 0 2) 1 = true
  /\ Contains (mkRange 1 2) 1 = true.
Proof. repeat split; vm_compute; reflexivity. Qed.

(** ** Free registers and register codes *)

Section FreeRegisters.
Context `{Platform}.

Lemma ctz_from_spec n :
  forall i x,
    let c := ctz_from n i x in
    i <= c <= i + Z.of_nat n
    /\ (forall r, i <= r < c -> Z.testbit x r = false)
    /\ (c < i + Z.of_nat n -> Z.testbit x c = true).
Proof.
  induction n as [|n IH]; intros i x; simpl.
  - split; [lia|]. split; [intros; lia|lia].
  - destruct (Z.testbit x i) eqn:E.
    + split; [lia|]. split; [intros; lia|done].
    + destruct (IH (i + 1) x) as (Hb & Hlow & Hset).
      split; [lia|]. split; [|intros; apply Hset; lia].
      intros r Hr. destruct (decide (r = i)) as [->|]; [done|].
      apply Hlow. lia.
Qed.

Lemma testbit_word_not x r :
  0 <= r < kBitsPerWord -> Z.testbit (word_not x) r = negb (Z.testbit x r).
Proof.
  intros Hr. unfold word_not.
  rewrite Z.lxor_spec, Z.testbit_ones by (unfold kBitsPerWord; lia).
  replace (0 <=? r) with true by (symmetry; apply Z.leb_le; lia).
  replace (r <? kBitsPerWord) with true by (symmetry; apply Z.ltb_lt; lia).
  simpl. by destruct (Z.testbit x r).
Qed.

Lemma busy_lor a in_use r :
  Z.testbit (Z.lor in_use (allocated_registers_bits_ a)) r = busy a in_use r.
Proof. apply Z.lor_spec. Qed.

(** X1: [ChooseFreeRegister] returns the register of least index that is
    neither in use at the position nor allocated, and the invalid index
    when every allocatable register is taken. *)
Theorem X1_ChooseFreeRegister_first_free a pos in_use reg :
  num_allocatable_registers a <= kBitsPerWord ->
  InUseBitmap a pos = Some in_use ->
  ChooseFreeRegister a pos = Some reg ->
  if is_valid reg
  then 0 <= reg < num_allocatable_registers a
       /\ busy a in_use reg = false
       /\ forall r, 0 <= r < reg -> busy a in_use r = true
  else forall r, 0 <= r < num_allocatable_registers a ->
         busy a in_use r = true.
Proof.
  intros Hnum Hin Hc. unfold ChooseFreeRegister in Hc. rewrite Hin in Hc.
  simpl in Hc. unfold CountTrailingZeros in Hc.
  set (x := word_not (Z.lor in_use (allocated_registers_bits_ a))) in *.
  destruct (ctz_from_spec 64 0 x) as (Hb & Hlow & Hset).
  set (c := ctz_from 64 0 x) in *.
  assert (forall r, 0 <= r < c -> busy a in_use r = true) as Hbusy.
  { intros r Hr. specialize (Hlow r Hr). unfold x in Hlow.
    rewrite testbit_word_not in Hlow by (unfold kBitsPerWord; lia).
    rewrite busy_lor in Hlow. by destruct (busy a in_use r). }
  unfold kBitsPerWord in *.
  destruct (Z.geb_spec c (num_allocatable_registers a)) as [Hge|Hlt];
    injection Hc as <-; simpl.
  - intros r Hr. apply Hbusy. lia.
  - unfold is_valid, RegisterIndex_Invalid.
    destruct (Z.eqb_spec c (-1)) as [|_]; [lia|]. simpl.
    split; [lia|]. split; [|done].
    assert (Z.testbit x c = true) as Hx by (apply Hset; lia).
    unfold x in Hx. rewrite testbit_word_not in Hx
      by (unfold kBitsPerWord; lia).
    rewrite busy_lor in Hx. by destruct (busy a in_use c).
Qed.

Lemma ChooseFreeRegister_not_busy a pos in_use reg r :
  InUseBitmap a pos = Some in_use ->
  ChooseFreeRegister a pos = Some reg ->
  0 <= r < kBitsPerWord ->
  busy a in_use r = true ->
  reg <> r.
Proof.
  intros Hin Hc Hr Hbusy Heq. unfold ChooseFreeRegister in Hc.
  rewrite Hin in Hc. simpl in Hc. unfold CountTrailingZeros in Hc.
  remember (word_not (Z.lor in_use (allocated_registers_bits_ a))) as x.
  destruct (ctz_from_spec 64 0 x) as (Hb & Hlow & Hset).
  remember (ctz_from 64 0 x) as c. unfold kBitsPerWord in *.
  destruct (c >=? num_allocatable_registers a); injection Hc as Hc;
    [unfold RegisterIndex_Invalid in *; lia|].
  assert (Z.testbit x r = true) as Hx by (rewrite <- Heq, <- Hc; apply Hset; lia).
  rewrite Heqx, testbit_word_not in Hx by (unfold kBitsPerWord; lia).
  rewrite busy_lor, Hbusy in Hx. discriminate.
Qed.

Lemma MarkRegisterUse_bits a reg pos a' :
  MarkRegisterUse a reg pos = Some a' ->
  (pos = kNone \/ 0 <= reg < kBitsPerWord)
  /\ in_use_at_instr_start_bits_ a'
     = (match pos with
        | kStart | kAll => Z.lor (in_use_at_instr_start_bits_ a) (2 ^ reg)
        | _ => in_use_at_instr_start_bits_ a
        end)
  /\ in_use_at_instr_end_bits_ a'
     = (match pos with
        | kEnd | kAll => Z.lor (in_use_at_instr_end_bits_ a) (2 ^ reg)
        | _ => in_use_at_instr_end_bits_ a
        end)
  /\ allocated_registers_bits_ a' = allocated_registers_bits_ a
  /\ num_allocatable_registers a' = num_allocatable_registers a.
Proof.
  unfold MarkRegisterUse. intros Hm.
  destruct pos; simpl in Hm;
    try (destruct (ToBit reg) as [bit|] eqn:Hbit; [simpl in Hm|discriminate];
         apply ToBit_Some in Hbit as [? ->]);
    simplify_eq; simpl; repeat split; auto.
Qed.

(** X2: a register that [MarkRegisterUse] marked in use at a position is
    not what [ChooseFreeRegister] returns for a request at an overlapping
    position ([kAll] overlaps every position, [kStart] and [kEnd] do not
    overlap each other). *)
Theorem X2_marked_register_is_not_free a reg pos a' pos' r :
  MarkRegisterUse a reg pos = Some a' ->
  positions_overlap pos pos' = true ->
  ChooseFreeRegister a' pos' = Some r ->
  r <> reg.
Proof.
  intros Hm Hov Hc.
  apply MarkRegisterUse_bits in Hm as (Hreg & Hs & He & Hal & _).
  destruct Hreg as [->|Hreg]; [discriminate|].
  destruct (InUseBitmap a' pos') as [in_use|] eqn:Hin.
  2: { unfold ChooseFreeRegister in Hc. rewrite Hin in Hc. discriminate. }
  eapply ChooseFreeRegister_not_busy; [exact Hin|exact Hc|exact Hreg|].
  unfold busy. apply orb_true_iff. left.
  destruct pos, pos'; try discriminate; simpl in Hin; simplify_eq;
    rewrite ?Hs, ?He, ?Z.lor_spec, ?Z.pow2_bits_eqb, ?Z.eqb_refl by lia;
    by rewrite ?orb_true_r.
Qed.

End FreeRegisters.

(** X1 at [Example.marked_allocator]: register 0 is in use at the start,
    register 1 is the first free one. *)
Lemma X1_witness :
  num_allocatable_registers Example.marked_allocator <= kBitsPerWord
  /\ InUseBitmap Example.marked_allocator kStart = Some 1
  /\ ChooseFreeRegister Example.marked_allocator kStart = Some 1
  /\ 0 <= 1 < num_allocatable_registers Example.marked_allocator
  /\ busy Example.marked_allocator 1 1 = false
  /\ forall r, 0 <= r < 1 -> busy Example.marked_allocator 1 r = true.
Proof.
  assert (num_allocatable_registers Example.marked_allocator <= kBitsPerWord)
    as Hn by (vm_compute; discriminate).
  assert (InUseBitmap Example.marked_allocator kStart = Some 1) as Hi
    by reflexivity.
  assert (ChooseFreeRegister Example.marked_allocator kStart = Some 1) as Hc
    by (vm_compute; reflexivity).
  split; [exact Hn|]. split; [exact Hi|]. split; [exact Hc|].
  exact (X1_ChooseFreeRegister_first_free _ _ _ _ Hn Hi Hc).
Defined.

(** X2 at the same allocator: a request for the whole instruction does not
    get register 0. *)
Lemma X2_witness :
  MarkRegisterUse (general_reg_allocator Example.call_allocator) 0 kStart
  = Some Example.marked_allocator
  /\ positions_overlap kStart kAll = true
  /\ ChooseFreeRegister Example.marked_allocator kAll = Some 1
  /\ 1 <> 0.
Proof.
  assert (MarkRegisterUse (general_reg_allocator Example.call_allocator) 0
            kStart = Some Example.marked_allocator) as Hm
    by (vm_compute; reflexivity).
  assert (ChooseFreeRegister Example.marked_allocator kAll = Some 1) as Hc
    by (vm_compute; reflexivity).
  split; [exact Hm|]. split; [reflexivity|]. split; [exact Hc|].
  exact (X2_marked_register_is_not_free _ _ _ _ kAll _ Hm eq_refl Hc).
Defined.

Section RegisterCodes.
Context `{Platform}.

Lemma fill_reg_code_to_index_spec codes :
  forall i table table',
    fill_reg_code_to_index codes i table = Some table' ->
    List.NoDup codes ->
    length table' = length table
    /\ (forall k code,
          codes !! k = Some code ->
          at_index table' code = Some (i + Z.of_nat k))
    /\ (forall code, ~ In code codes ->
          at_index table' code = at_index table code).
Proof.
  induction codes as [|c codes IH]; simpl; intros i table table' Hf Hnd.
  - simplify_eq. split; [done|]. split; [intros k code Hk; done|done].
  - destruct (set_index table c i) as [t1|] eqn:Hs;
      [simpl in Hf|discriminate].
    apply NoDup_cons_iff in Hnd as [Hc Hnd].
    destruct (IH _ _ _ Hf Hnd) as (Hlen & Hin & Hout).
    split; [rewrite Hlen; by eapply set_index_length|]. split.
    + intros [|k] code Hk; simpl in Hk.
      * simplify_eq. rewrite Hout by done.
        rewrite (at_index_set_index_eq _ _ _ _ Hs). f_equal. lia.
      * rewrite (Hin _ _ Hk). f_equal. lia.
    + intros code Hno. rewrite Hout by (intros ?; apply Hno; by right).
      eapply at_index_set_index_ne; [exact Hs|].
      intros ->. apply Hno. by left.
Qed.

(** X3: the allocator built from distinct allocatable register codes
    converts between codes and indices without loss: [ToRegCode] of index
    [i] is the [i]-th code, [FromRegCode] of that code is [i], and
    [FromRegCode] of a code that is not allocatable is the invalid
    index. *)
Theorem X3_register_codes_round_trip k vregs regs codes a :
  List.NoDup codes ->
  SinglePassRegisterAllocator_new k vregs regs codes = Some a ->
  (forall i code,
     at_index codes i = Some code ->
     ToRegCode a i = Some code /\ FromRegCode a code = Some i)
  /\ (forall code reg,
        ~ In code codes -> FromRegCode a code = Some reg ->
        reg = RegisterIndex_Invalid).
Proof.
  intros Hnd Hn. unfold SinglePassRegisterAllocator_new in Hn.
  destruct (fill_reg_code_to_index codes 0 _) as [table|] eqn:Hf;
    [simpl in Hn|discriminate].
  simplify_eq. unfold ToRegCode, FromRegCode. simpl.
  destruct (fill_reg_code_to_index_spec _ _ _ _ Hf Hnd) as (_ & Hin & Hout).
  split.
  - intros i code Hi. split; [done|].
    apply at_index_Some in Hi as Hr.
    rewrite at_index_lookup in Hi by lia.
    rewrite (Hin _ _ Hi). f_equal. lia.
  - intros code reg Hno Hreg. rewrite (Hout _ Hno) in Hreg.
    unfold at_index in Hreg. destruct (code <? 0); [discriminate|].
    by apply lookup_replicate in Hreg as [-> _].
Qed.

End RegisterCodes.

(** X3 at the allocator of the examples, whose allocatable codes are 0 and
    1 out of four registers. *)
Lemma X3_witness :
  List.NoDup [0; 1]
  /\ SinglePassRegisterAllocator_new kGeneral 2 4 [0; 1]
     = Some (general_reg_allocator Example.call_allocator)
  /\ ToRegCode (general_reg_allocator Example.call_allocator) 1 = Some 1
  /\ FromRegCode (general_reg_allocator Example.call_allocator) 1 = Some 1.
Proof.
  assert (List.NoDup [0; 1]) as Hnd.
  { repeat constructor; simpl; intros Hin;
      repeat destruct Hin as [Hin|Hin]; try discriminate; done. }
  assert (SinglePassRegisterAllocator_new kGeneral 2 4 [0; 1]
          = Some (general_reg_allocator Example.call_allocator)) as Hn
    by (vm_compute; reflexivity).
  split; [exact Hnd|]. split; [exact Hn|].
  exact (proj1 (X3_register_codes_round_trip _ _ _ _ _ Hnd Hn) 1 1 eq_refl).
Defined.

(** ** The consistency of the allocator's tables *)

Section Consistency.
Context `{Platform}.

Lemma all_checks_true check l :
  all_checks check l = Some true <-> forall x, In x l -> check x = Some true.
Proof.
  induction l as [|y l IH]; simpl; [by split|].
  destruct (check y) as [[]|] eqn:Hy; simpl.
  - rewrite IH. split; [intros Hl x [<-|Hx]; auto|auto].
  - split; [discriminate|]. intros Hl.
    specialize (Hl y (or_introl eq_refl)). congruence.
  - split; [discriminate|]. intros Hl.
    specialize (Hl y (or_introl eq_refl)). congruence.
Qed.

Lemma has_allocated_bit_true a reg :
  has_allocated_bit a reg = Some true
  <-> 0 <= reg < kBitsPerWord
      /\ Z.testbit (allocated_registers_bits_ a) reg = true.
Proof.
  unfold has_allocated_bit. split.
  - intros Hb. destruct (ToBit reg) as [bit|] eqn:Hbit;
      [simpl in Hb|discriminate].
    apply ToBit_Some in Hbit as [Hr ->]. split; [done|].
    injection Hb as Hb. apply negb_true_iff, Z.eqb_neq in Hb.
    destruct (Z.testbit (allocated_registers_bits_ a) reg) eqn:E; [done|].
    exfalso. apply Hb. apply Z.bits_inj'. intros k Hk.
    rewrite Z.land_spec, Z.pow2_bits_eqb, Z.bits_0 by lia.
    destruct (Z.eqb_spec reg k) as [->|]; [by rewrite E|].
    apply andb_false_r.
  - intros [Hr Hbit]. unfold ToBit.
    replace ((0 <=? reg) && (reg <? kBitsPerWord)) with true.
    2: { symmetry. apply andb_true_iff.
         split; [apply Z.leb_le|apply Z.ltb_lt]; lia. }
    simpl. f_equal. apply negb_true_iff, Z.eqb_neq. intros Hz.
    apply (f_equal (fun x => Z.testbit x reg)) in Hz.
    rewrite Z.land_spec, Hbit, Z.shiftl_1_l, Z.pow2_bits_eqb, Z.eqb_refl,
      Z.bits_0 in Hz by lia.
    discriminate.
Qed.

Lemma In_indices n x :
  In x (map Z.of_nat (seq 0 n)) <-> 0 <= x < Z.of_nat n.
Proof.
  rewrite in_map_iff. split.
  - intros (k & <- & Hk). apply in_seq in Hk. lia.
  - intros Hx. exists (Z.to_nat x). split; [lia|]. apply in_seq. lia.
Qed.

(** The [CHECK]s pass exactly when the tables are consistent. *)
Lemma CheckConsistency_Consistent a data :
  CheckConsistency a data = Some true
  <-> Consistent a (length (virtual_register_data_ data)).
Proof.
  unfold CheckConsistency, Consistent. split.
  - intros Hc.
    destruct (all_checks (CheckConsistency_vreg a) _) as [[]|] eqn:H1;
      try discriminate. simpl in Hc.
    destruct (register_state_ a) as [rs|] eqn:Hrs; [simpl in Hc|discriminate].
    exists rs. split; [done|].
    rewrite all_checks_true in H1. rewrite all_checks_true in Hc. split.
    + intros v Hv. apply In_indices in Hv. specialize (H1 _ Hv).
      unfold CheckConsistency_vreg in H1.
      destruct (RegisterForVirtualRegister a v) as [reg|];
        [simpl in H1|discriminate].
      exists reg. split; [done|]. intros Hreg.
      unfold is_valid in H1.
      destruct (Z.eqb_spec reg RegisterIndex_Invalid); [done|].
      simpl in H1. unfold VirtualRegisterForRegister in H1.
      rewrite Hrs in H1. simpl in H1.
      destruct (RegisterState_VirtualRegisterForRegister rs reg) as [v'|];
        [simpl in H1|discriminate].
      destruct (Z.eqb_spec v v') as [Heq|]; [subst v'|discriminate].
      apply has_allocated_bit_true in H1. by split.
    + intros reg Hreg. unfold RegisterState_indices in Hc.
      apply In_indices in Hreg as Hin. specialize (Hc _ Hin).
      unfold CheckConsistency_reg, VirtualRegisterForRegister in Hc.
      rewrite Hrs in Hc. simpl in Hc.
      destruct (RegisterState_VirtualRegisterForRegister rs reg) as [v|];
        [simpl in Hc|discriminate].
      exists v. split; [done|]. intros Hv.
      destruct (Z.eqb_spec v kInvalidVirtualRegister); [done|].
      simpl in Hc.
      destruct (RegisterForVirtualRegister a v) as [r|];
        [simpl in Hc|discriminate].
      destruct (Z.eqb_spec reg r) as [Heq|]; [subst r|discriminate].
      apply has_allocated_bit_true in Hc as [? ?]. split; [done|].
      split; [lia|done].
  - intros (rs & Hrs & Hv & Hr).
    assert (all_checks (CheckConsistency_vreg a)
              (map Z.of_nat (seq 0 (length (virtual_register_data_ data))))
            = Some true) as ->.
    { apply all_checks_true. intros v Hin. apply In_indices in Hin.
      destruct (Hv v Hin) as (reg & Hreg & Hval).
      unfold CheckConsistency_vreg. rewrite Hreg. simpl. unfold is_valid.
      destruct (Z.eqb_spec reg RegisterIndex_Invalid); [done|]. simpl.
      destruct (Hval n) as (Hvr & Hrange & Hbit).
      unfold VirtualRegisterForRegister. rewrite Hrs. simpl.
      rewrite Hvr. simpl. rewrite Z.eqb_refl.
      by apply has_allocated_bit_true. }
    simpl. rewrite Hrs. simpl. apply all_checks_true.
    intros reg Hin. apply In_indices in Hin.
    destruct (Hr reg Hin) as (v & Hvr & Hval).
    unfold CheckConsistency_reg, VirtualRegisterForRegister.
    rewrite Hrs. simpl. rewrite Hvr. simpl.
    destruct (Z.eqb_spec v kInvalidVirtualRegister); [done|]. simpl.
    destruct (Hval n) as (Hreg & Hrange & Hbit).
    rewrite Hreg. simpl. rewrite Z.eqb_refl.
    apply has_allocated_bit_true. split; [lia|done].
Qed.

Lemma VRFR_agree (rs rs' : RegisterState) r :
  at_index rs' r = at_index rs r ->
  RegisterState_VirtualRegisterForRegister rs' r
  = RegisterState_VirtualRegisterForRegister rs r.
Proof.
  unfold RegisterState_VirtualRegisterForRegister, RegisterState_IsAllocated,
    HasRegisterData, reg_data. by intros ->.
Qed.

Lemma VRFR_at rs r x :
  at_index rs r = Some x ->
  RegisterState_VirtualRegisterForRegister rs r
  = Some (match x with
          | Some reg => virtual_register_ reg
          | None => kInvalidVirtualRegister
          end).
Proof.
  unfold RegisterState_VirtualRegisterForRegister, RegisterState_IsAllocated,
    HasRegisterData, reg_data. intros ->. simpl.
  destruct x as [reg|]; simpl; [|done]. unfold is_allocated.
  destruct (Z.eqb_spec (virtual_register_ reg) kInvalidVirtualRegister)
    as [->|]; done.
Qed.

(** The tables after register [reg] took virtual register [v]. *)
Lemma Consistent_take a a' n rs rs' reg v :
  Consistent a n ->
  register_state_ a = Some rs ->
  register_state_ a' = Some rs' ->
  length rs' = length rs ->
  (forall r, r <> reg -> at_index rs' r = at_index rs r) ->
  RegisterState_VirtualRegisterForRegister rs' reg = Some v ->
  v <> kInvalidVirtualRegister ->
  0 <= reg < kBitsPerWord ->
  IsFreeOrSameVirtualRegister a reg v = Some true ->
  VirtualRegisterIsUnallocatedOrInReg a v reg = Some true ->
  (forall w, RegisterForVirtualRegister a' w
             = if decide (v = w) then Some reg
               else RegisterForVirtualRegister a w) ->
  (forall r, 0 <= r ->
     Z.testbit (allocated_registers_bits_ a') r
     = Z.testbit (allocated_registers_bits_ a) r || (reg =? r)) ->
  Consistent a' n.
Proof.
  intros (rs0 & Hrs0 & Hv & Hr) Hrs Hrs' Hlen Hother Hreg Hvalid Hrange
    Hfree Hunalloc Hmap Hbits.
  rewrite Hrs in Hrs0. injection Hrs0 as <-.
  unfold IsFreeOrSameVirtualRegister, VirtualRegisterForRegister in Hfree.
  rewrite Hrs in Hfree. simpl in Hfree.
  destruct (RegisterState_VirtualRegisterForRegister rs reg) as [held|]
    eqn:Hheld; [simpl in Hfree|discriminate].
  injection Hfree as Hfree. apply orb_true_iff in Hfree.
  unfold VirtualRegisterIsUnallocatedOrInReg in Hunalloc.
  destruct (RegisterForVirtualRegister a v) as [old|] eqn:Hold;
    [simpl in Hunalloc|discriminate].
  injection Hunalloc as Hunalloc. apply orb_true_iff in Hunalloc.
  unfold is_valid in Hunalloc. rewrite negb_true_iff, negb_false_iff in Hunalloc.
  exists rs'. split; [done|]. split.
  - intros w Hw. rewrite Hmap. case_decide as Evw.
    + subst w. exists reg. split; [done|]. intros _.
      split; [done|]. split; [done|].
      rewrite Hbits by lia. rewrite Z.eqb_refl. apply orb_true_r.
    + destruct (Hv w Hw) as (reg' & Hreg' & Hval).
      exists reg'. split; [done|]. intros Hne.
      destruct (Hval Hne) as (Hheld' & Hrange' & Hbit').
      assert (reg' <> reg) as Hdiff.
      { intros ->. rewrite Hheld in Hheld'. injection Hheld' as ->.
        destruct Hfree as [Hf|Hf]; apply Z.eqb_eq in Hf;
          unfold kInvalidVirtualRegister in *; lia. }
      rewrite (VRFR_agree _ _ _ (Hother _ Hdiff)).
      split; [done|]. split; [done|].
      rewrite Hbits by lia. by rewrite Hbit'.
  - intros r Hrr. rewrite Hlen in Hrr.
    destruct (decide (r = reg)) as [->|Hdiff].
    + exists v. split; [done|]. intros _. rewrite Hmap.
      rewrite decide_True by done. split; [done|]. split; [lia|].
      rewrite Hbits by lia. rewrite Z.eqb_refl. apply orb_true_r.
    + destruct (Hr r Hrr) as (w & Hw & Hval).
      exists w. rewrite (VRFR_agree _ _ _ (Hother _ Hdiff)).
      split; [done|]. intros Hne.
      destruct (Hval Hne) as (Hwr & Hrange' & Hbit').
      rewrite Hmap. case_decide as Evw.
      * subst w. rewrite Hold in Hwr. injection Hwr as ->.
        destruct Hunalloc as [Hu|Hu]; apply Z.eqb_eq in Hu;
          unfold RegisterIndex_Invalid in *; lia.
      * split; [done|]. split; [done|].
        rewrite Hbits by lia. by rewrite Hbit'.
Qed.

(** The tables after register [reg] let go of virtual register [v]. *)
Lemma Consistent_release a a' n rs rs' reg v :
  Consistent a n ->
  register_state_ a = Some rs ->
  register_state_ a' = Some rs' ->
  length rs' = length rs ->
  (forall r, r <> reg -> at_index rs' r = at_index rs r) ->
  (0 <= reg < Z.of_nat (length rs) ->
   RegisterState_VirtualRegisterForRegister rs' reg
   = Some kInvalidVirtualRegister) ->
  0 <= reg < kBitsPerWord ->
  IsFreeOrSameVirtualRegister a reg v = Some true ->
  (v = kInvalidVirtualRegister
   \/ VirtualRegisterIsUnallocatedOrInReg a v reg = Some true) ->
  (forall w, RegisterForVirtualRegister a' w
             = if decide (v = w /\ v <> kInvalidVirtualRegister)
               then RegisterForVirtualRegister a w
                    ≫= (fun _ => Some RegisterIndex_Invalid)
               else RegisterForVirtualRegister a w) ->
  (forall r, 0 <= r ->
     Z.testbit (allocated_registers_bits_ a') r
     = Z.testbit (allocated_registers_bits_ a) r
       && (r <? kBitsPerWord) && negb (reg =? r)) ->
  Consistent a' n.
Proof.
  intros (rs0 & Hrs0 & Hv & Hr) Hrs Hrs' Hlen Hother Hreg Hrange
    Hfree Hunalloc Hmap Hbits.
  rewrite Hrs in Hrs0. injection Hrs0 as <-.
  unfold IsFreeOrSameVirtualRegister, VirtualRegisterForRegister in Hfree.
  rewrite Hrs in Hfree. simpl in Hfree.
  destruct (RegisterState_VirtualRegisterForRegister rs reg) as [held|]
    eqn:Hheld; [simpl in Hfree|discriminate].
  injection Hfree as Hfree. apply orb_true_iff in Hfree.
  exists rs'. split; [done|]. split.
  - intros w Hw. destruct (Hv w Hw) as (reg' & Hreg' & Hval).
    rewrite Hmap.
    destruct (decide (v = w /\ v <> kInvalidVirtualRegister)) as [Evw|Evw].
    + rewrite Hreg'. simpl. exists RegisterIndex_Invalid. by split.
    + exists reg'. split; [done|]. intros Hne.
      destruct (Hval Hne) as (Hheld' & Hrange' & Hbit').
      assert (reg' <> reg) as Hdiff.
      { intros ->. rewrite Hheld in Hheld'. injection Hheld' as ->.
        destruct Hfree as [Hf|Hf]; apply Z.eqb_eq in Hf;
          unfold kInvalidVirtualRegister in *; [lia|].
        apply Evw. split; [done|lia]. }
      rewrite (VRFR_agree _ _ _ (Hother _ Hdiff)).
      split; [done|]. split; [done|].
      rewrite Hbits, Hbit' by lia.
      replace (reg' <? kBitsPerWord) with true
        by (symmetry; apply Z.ltb_lt; lia).
      destruct (Z.eqb_spec reg reg'); [congruence|done].
  - intros r Hrr. rewrite Hlen in Hrr.
    destruct (decide (r = reg)) as [->|Hdiff].
    + exists kInvalidVirtualRegister. split; [auto|]. done.
    + destruct (Hr r Hrr) as (w & Hw & Hval).
      exists w. rewrite (VRFR_agree _ _ _ (Hother _ Hdiff)).
      split; [done|]. intros Hne.
      destruct (Hval Hne) as (Hwr & Hrange' & Hbit').
      rewrite Hmap.
      destruct (decide (v = w /\ v <> kInvalidVirtualRegister)) as [Evw|Evw].
      * destruct Evw as [-> Hvv]. destruct Hunalloc as [?|Hunalloc]; [done|].
        unfold VirtualRegisterIsUnallocatedOrInReg in Hunalloc.
        rewrite Hwr in Hunalloc. simpl in Hunalloc.
        injection Hunalloc as Hunalloc. apply orb_true_iff in Hunalloc.
        unfold is_valid in Hunalloc.
        rewrite negb_true_iff, negb_false_iff in Hunalloc.
        destruct Hunalloc as [Hu|Hu]; apply Z.eqb_eq in Hu;
          unfold RegisterIndex_Invalid in *; lia.
      * split; [done|]. split; [done|].
        rewrite Hbits, Hbit' by lia.
        replace (r <? kBitsPerWord) with true
          by (symmetry; apply Z.ltb_lt; lia).
        destruct (Z.eqb_spec reg r); [congruence|done].
Qed.

Lemma AllocatePendingChain_vregs fuel :
  forall current allocated data data',
    AllocatePendingChain fuel current allocated data = Some data' ->
    virtual_register_data_ data' = virtual_register_data_ data.
Proof.
  induction fuel as [|fuel IH]; intros current allocated data data' Hc;
    destruct current as [p|]; simpl in Hc; try discriminate;
    try (by simplify_eq).
  destruct (read_operand data p) as [op|]; [simpl in Hc|discriminate].
  destruct (Pending_next op) as [next|]; [simpl in Hc|discriminate].
  destruct (ReplaceWith_value data p allocated) as [d1|] eqn:Hr;
    [simpl in Hc|discriminate].
  apply ReplaceWith_value_spec in Hr as [_ ->].
  by rewrite (IH _ _ _ _ Hc).
Qed.

Lemma set_index_at {A} (l l' : list A) i x j :
  set_index l i x = Some l' ->
  at_index l' j = if decide (i = j) then Some x else at_index l j.
Proof. apply at_index_set_index. Qed.

Lemma RegisterState_Commit_state rs reg allocated operand data rs' data' :
  RegisterState_Commit rs reg allocated operand data = Some (rs', data') ->
  length rs' = length rs
  /\ RegisterState_VirtualRegisterForRegister rs' reg
     = Some kInvalidVirtualRegister
  /\ (forall r, r <> reg -> at_index rs' r = at_index rs r)
  /\ virtual_register_data_ data' = virtual_register_data_ data.
Proof.
  unfold RegisterState_Commit. intros Hc.
  destruct (ReplaceWith_value data operand allocated) as [d1|] eqn:Hr;
    [simpl in Hc|discriminate].
  apply ReplaceWith_value_spec in Hr as [_ ->].
  destruct (RegisterState_IsAllocated rs reg) as [[]|] eqn:Hal;
    [simpl in Hc| |discriminate].
  - destruct (reg_data rs reg) as [r|]; [simpl in Hc|discriminate].
    unfold Register_Commit in Hc.
    destruct (AllocatePendingChain _ _ _ _) as [d2|] eqn:Hch;
      [simpl in Hc|discriminate].
    apply AllocatePendingChain_vregs in Hch.
    destruct (set_index rs reg _) as [rs1|] eqn:Hs1;
      [simpl in Hc|discriminate].
    unfold ResetDataFor in Hc.
    destruct (reg_data rs1 reg) as [r1|]; [simpl in Hc|discriminate].
    destruct (set_index rs1 reg _) as [rs2|] eqn:Hs2;
      [simpl in Hc|discriminate].
    simplify_eq. split.
    { rewrite (set_index_length _ _ _ _ Hs2). by eapply set_index_length. }
    split.
    { rewrite (VRFR_at _ _ _ (at_index_set_index_eq _ _ _ _ Hs2)). done. }
    split; [|done].
    intros j Hne. rewrite (at_index_set_index_ne _ _ _ _ _ Hs2) by done.
    by rewrite (at_index_set_index_ne _ _ _ _ _ Hs1).
  - simpl in Hc. simplify_eq. split; [done|]. split; [|done].
    unfold RegisterState_VirtualRegisterForRegister. by rewrite Hal.
Qed.

Lemma EnsureRegisterData_state rs reg rs' :
  EnsureRegisterData rs reg = Some rs' ->
  length rs' = length rs
  /\ (exists x, at_index rs' reg = Some (Some x)
                /\ RegisterState_VirtualRegisterForRegister rs reg
                   = Some (virtual_register_ x))
  /\ (forall r, r <> reg -> at_index rs' r = at_index rs r).
Proof.
  unfold EnsureRegisterData, HasRegisterData.
  destruct (at_index rs reg) as [[x|]|] eqn:E; simpl; [| |discriminate].
  - intros [= <-]. split; [done|]. split; [|done].
    exists x. split; [done|]. by rewrite (VRFR_at _ _ _ E).
  - intros He. split; [by eapply set_index_length|]. split.
    + exists Register_Reset.
      split; [by eapply at_index_set_index_eq|].
      by rewrite (VRFR_at _ _ _ E).
    + intros r Hne. by eapply at_index_set_index_ne.
Qed.

Lemma RegisterState_AllocateUse_state rs reg v instr_index rs' :
  RegisterState_AllocateUse rs reg v instr_index = Some rs' ->
  length rs' = length rs
  /\ RegisterState_VirtualRegisterForRegister rs' reg = Some v
  /\ (forall r, r <> reg -> at_index rs' r = at_index rs r).
Proof.
  unfold RegisterState_AllocateUse. intros Ha.
  destruct (EnsureRegisterData rs reg) as [rs1|] eqn:He;
    [simpl in Ha|discriminate].
  apply EnsureRegisterData_state in He as (Hlen & _ & Hother).
  destruct (reg_data rs1 reg) as [r|]; [simpl in Ha|discriminate].
  split; [rewrite <- Hlen; by eapply set_index_length|]. split.
  - by rewrite (VRFR_at _ _ _ (at_index_set_index_eq _ _ _ _ Ha)).
  - intros j Hne. rewrite <- Hother by done.
    by eapply at_index_set_index_ne.
Qed.

Lemma RegisterState_AllocatePendingUse_state rs reg v operand instr_index
    data rs' data' held :
  RegisterState_AllocatePendingUse rs reg v operand instr_index data
  = Some (rs', data') ->
  RegisterState_VirtualRegisterForRegister rs reg = Some held ->
  held = kInvalidVirtualRegister \/ held = v ->
  length rs' = length rs
  /\ RegisterState_VirtualRegisterForRegister rs' reg = Some v
  /\ (forall r, r <> reg -> at_index rs' r = at_index rs r)
  /\ virtual_register_data_ data' = virtual_register_data_ data.
Proof.
  unfold RegisterState_AllocatePendingUse. intros Ha Hheld Hor.
  destruct (EnsureRegisterData rs reg) as [rs1|] eqn:He;
    [simpl in Ha|discriminate].
  apply EnsureRegisterData_state in He as (Hlen & (x & Hx & Hvx) & Hother).
  unfold reg_data in Ha. rewrite Hx in Ha. simpl in Ha.
  unfold Register_PendingUse in Ha.
  destruct (ReplaceWith_value data operand _) as [d1|] eqn:Hr;
    [simpl in Ha|discriminate].
  apply ReplaceWith_value_spec in Hr as [_ ->].
  destruct (set_index rs1 reg _) as [rs2|] eqn:Hs;
    [simpl in Ha|discriminate].
  simplify_eq. split; [rewrite <- Hlen; by eapply set_index_length|].
  split; [|split; [|done]].
  - rewrite (VRFR_at _ _ _ (at_index_set_index_eq _ _ _ _ Hs)). f_equal.
    unfold is_allocated.
    destruct (Z.eqb_spec (virtual_register_ x) kInvalidVirtualRegister);
      simpl; [done|]. destruct Hor; congruence.
  - intros j Hne. rewrite <- Hother by done.
    by eapply at_index_set_index_ne.
Qed.

Lemma MarkRegisterUse_tables a reg pos a' :
  MarkRegisterUse a reg pos = Some a' ->
  register_state_ a' = register_state_ a
  /\ allocated_registers_bits_ a' = allocated_registers_bits_ a
  /\ virtual_register_to_reg_ a' = virtual_register_to_reg_ a.
Proof.
  unfold MarkRegisterUse. intros Hm. destruct pos; binds; done.
Qed.

Lemma AssignRegister_tables a reg v pos a' :
  AssignRegister a reg v pos = Some a' ->
  v <> kInvalidVirtualRegister ->
  register_state_ a' = register_state_ a
  /\ 0 <= reg < kBitsPerWord
  /\ allocated_registers_bits_ a'
     = Z.lor (allocated_registers_bits_ a) (2 ^ reg)
  /\ (forall w, RegisterForVirtualRegister a' w
                = if decide (v = w) then Some reg
                  else RegisterForVirtualRegister a w).
Proof.
  intros Ha Hv. destruct (AssignRegister_spec _ _ _ _ _ Ha) as (Hrs & Hr & Hb).
  split; [done|]. split; [done|]. split; [done|].
  unfold AssignRegister in Ha.
  destruct (ToRegCode a reg); [simpl in Ha|discriminate].
  destruct (BitVector_Add _ _); [simpl in Ha|discriminate].
  destruct (MarkRegisterUse _ reg pos) as [a1|] eqn:Hm;
    [simpl in Ha|discriminate].
  apply MarkRegisterUse_tables in Hm as (_ & _ & Hmap).
  destruct (ToBit reg); [simpl in Ha|discriminate].
  destruct (Z.eqb_spec v kInvalidVirtualRegister); [done|]. simpl in Ha.
  destruct (set_index _ v reg) as [l|] eqn:Hs; [simpl in Ha|discriminate].
  simplify_eq. intros w. unfold RegisterForVirtualRegister. simpl.
  rewrite (set_index_at _ _ _ _ w Hs). simpl. by rewrite Hmap.
Qed.

Lemma FreeRegister_tables a reg v a' :
  FreeRegister a reg v = Some a' ->
  register_state_ a' = register_state_ a
  /\ 0 <= reg < kBitsPerWord
  /\ allocated_registers_bits_ a'
     = Z.land (allocated_registers_bits_ a) (word_not (2 ^ reg))
  /\ (forall w, RegisterForVirtualRegister a' w
                = if decide (v = w /\ v <> kInvalidVirtualRegister)
                  then RegisterForVirtualRegister a w
                       ≫= (fun _ => Some RegisterIndex_Invalid)
                  else RegisterForVirtualRegister a w).
Proof.
  intros Hf.
  destruct (FreeRegister_spec _ _ _ _ Hf) as (Hrs & _ & _ & Hr & Hb).
  split; [done|]. split; [done|]. split; [done|].
  unfold FreeRegister in Hf.
  destruct (ToBit reg); [simpl in Hf|discriminate].
  destruct (Z.eqb_spec v kInvalidVirtualRegister) as [->|Hv]; simpl in Hf.
  - simplify_eq. intros w. rewrite decide_False; [done|]. by intros [_ ?].
  - destruct (set_index _ v _) as [l|] eqn:Hs; [simpl in Hf|discriminate].
    simplify_eq. intros w. unfold RegisterForVirtualRegister. simpl.
    rewrite (set_index_at _ _ _ _ w Hs). simpl.
    destruct (decide (v = w)) as [->|Hne].
    + rewrite decide_True by done.
      apply set_index_Some in Hs as [Hin _].
      unfold at_index.
      destruct (Z.ltb_spec w 0); [lia|].
      destruct (virtual_register_to_reg_ a !! Z.to_nat w) eqn:E; [done|].
      apply lookup_ge_None in E. lia.
    + rewrite decide_False; [done|]. by intros [? _].
Qed.

(** X4: when the [CHECK]s of [CheckConsistency] pass and [AllocateUse] is
    called as it asserts and as its callers see to (the register is free or
    holds the virtual register, the virtual register has no other
    register), the [CHECK]s pass again after it. *)
Theorem X4_AllocateUse_keeps_consistency reg v operand instr_index pos a
    data a' data' :
  CheckConsistency a data = Some true ->
  v <> kInvalidVirtualRegister ->
  IsFreeOrSameVirtualRegister a reg v = Some true ->
  VirtualRegisterIsUnallocatedOrInReg a v reg = Some true ->
  AllocateUse reg v operand instr_index pos a data = Some (a', data') ->
  CheckConsistency a' data' = Some true.
Proof.
  intros Hc Hv Hfree Hun Ha. apply CheckConsistency_Consistent in Hc.
  apply CheckConsistency_Consistent. unfold AllocateUse in Ha.
  destruct (AllocatedOperandForReg a data reg v) as [allocated|];
    [simpl in Ha|discriminate].
  destruct (register_state_ a) as [rs|] eqn:Hrs; [simpl in Ha|discriminate].
  destruct (RegisterState_Commit rs reg allocated operand data)
    as [[rs1 d1]|] eqn:Hcm; [simpl in Ha|discriminate].
  apply RegisterState_Commit_state in Hcm as (Hl1 & _ & Ho1 & Hvs).
  destruct (RegisterState_AllocateUse rs1 reg v instr_index) as [rs2|] eqn:Hu;
    [simpl in Ha|discriminate].
  apply RegisterState_AllocateUse_state in Hu as (Hl2 & Hheld & Ho2).
  destruct (AssignRegister _ reg v pos) as [a1|] eqn:Has;
    [simpl in Ha|discriminate].
  simplify_eq.
  apply AssignRegister_tables in Has as (Hrs' & Hr & Hb & Hmap); [|done].
  simpl in *. rewrite Hvs.
  eapply (Consistent_take a a' _ rs rs2 reg v); eauto.
  - congruence.
  - intros r Hne. rewrite Ho2 by done. by apply Ho1.
  - intros r Hr0. rewrite Hb. apply testbit_set; lia.
Qed.

(** X5: when the [CHECK]s of [CheckConsistency] pass and
    [AllocatePendingUse] is called as it asserts and as its callers see to
    (the register is free or holds the virtual register, the virtual
    register has no other register), the [CHECK]s pass again after it. *)
Theorem X5_AllocatePendingUse_keeps_consistency reg v operand instr_index a
    data a' data' :
  CheckConsistency a data = Some true ->
  v <> kInvalidVirtualRegister ->
  IsFreeOrSameVirtualRegister a reg v = Some true ->
  VirtualRegisterIsUnallocatedOrInReg a v reg = Some true ->
  AllocatePendingUse reg v operand instr_index a data = Some (a', data') ->
  CheckConsistency a' data' = Some true.
Proof.
  intros Hc Hv Hfree Hun Ha. apply CheckConsistency_Consistent in Hc.
  apply CheckConsistency_Consistent. unfold AllocatePendingUse in Ha.
  destruct (register_state_ a) as [rs|] eqn:Hrs; [simpl in Ha|discriminate].
  destruct (RegisterState_AllocatePendingUse rs reg v operand instr_index
              data) as [[rs1 d1]|] eqn:Hp; [simpl in Ha|discriminate].
  pose proof Hfree as Hfree'.
  unfold IsFreeOrSameVirtualRegister, VirtualRegisterForRegister in Hfree'.
  rewrite Hrs in Hfree'. simpl in Hfree'.
  destruct (RegisterState_VirtualRegisterForRegister rs reg) as [held|]
    eqn:Hheld; [simpl in Hfree'|discriminate].
  injection Hfree' as Hfree'. apply orb_true_iff in Hfree'.
  eapply RegisterState_AllocatePendingUse_state in Hp
    as (Hl & Hheld' & Ho & Hvs); [|exact Hheld|].
  2: { destruct Hfree' as [Hf|Hf]; apply Z.eqb_eq in Hf; auto. }
  destruct (AssignRegister _ reg v kNone) as [a1|] eqn:Has;
    [simpl in Ha|discriminate].
  simplify_eq.
  apply AssignRegister_tables in Has as (Hrs' & Hr & Hb & Hmap); [|done].
  simpl in *. rewrite Hvs.
  eapply (Consistent_take a a' _ rs rs1 reg v); eauto.
  intros r Hr0. rewrite Hb. apply testbit_set; lia.
Qed.

(** X6: [CommitRegister] on a register that is free or holds the virtual
    register, for a virtual register that has no other register (or for
    no virtual register at all, as for a temporary), keeps the [CHECK]s of
    [CheckConsistency] passing. *)
Theorem X6_CommitRegister_keeps_consistency reg v operand pos a data a'
    data' :
  CheckConsistency a data = Some true ->
  IsFreeOrSameVirtualRegister a reg v = Some true ->
  (v = kInvalidVirtualRegister
   \/ VirtualRegisterIsUnallocatedOrInReg a v reg = Some true) ->
  CommitRegister reg v operand pos a data = Some (a', data') ->
  CheckConsistency a' data' = Some true.
Proof.
  intros Hc Hfree Hun Ha. apply CheckConsistency_Consistent in Hc.
  apply CheckConsistency_Consistent. unfold CommitRegister in Ha.
  destruct (AllocatedOperandForReg a data reg v) as [allocated|];
    [simpl in Ha|discriminate].
  destruct (register_state_ a) as [rs|] eqn:Hrs; [simpl in Ha|discriminate].
  destruct (RegisterState_Commit rs reg allocated operand data)
    as [[rs1 d1]|] eqn:Hcm; [simpl in Ha|discriminate].
  apply RegisterState_Commit_state in Hcm as (Hl1 & Hheld & Ho1 & Hvs).
  destruct (MarkRegisterUse _ reg pos) as [a1|] eqn:Hm;
    [simpl in Ha|discriminate].
  apply MarkRegisterUse_tables in Hm as (Hrs1 & Hb1 & Hmap1).
  destruct (FreeRegister a1 reg v) as [a2|] eqn:Hf;
    [simpl in Ha|discriminate].
  simplify_eq.
  apply FreeRegister_tables in Hf as (Hrs2 & Hr & Hb & Hmap).
  simpl in *. rewrite Hvs.
  eapply (Consistent_release a a' _ rs rs1 reg v); eauto.
  - congruence.
  - intros w. rewrite Hmap. unfold RegisterForVirtualRegister.
    by rewrite Hmap1.
  - intros r Hr0. rewrite Hb, Hb1. apply testbit_clear; lia.
Qed.

(** *** The number of virtual registers *)

Lemma store_vreg_count data v vd data' :
  store_vreg data v vd = Some data' ->
  length (virtual_register_data_ data')
  = length (virtual_register_data_ data).
Proof.
  unfold store_vreg. intros Hs.
  destruct (set_index _ v vd) as [vs|] eqn:E; [simpl in Hs|discriminate].
  simplify_eq. simpl. by eapply set_index_length.
Qed.

Lemma EnsureSpillRange_count v data data' :
  EnsureSpillRange v data = Some data' ->
  length (virtual_register_data_ data')
  = length (virtual_register_data_ data).
Proof.
  unfold EnsureSpillRange. intros He.
  destruct (VirtualRegisterDataFor data v) as [vd|];
    [simpl in He|discriminate].
  destruct (HasSpillRange vd); [by simplify_eq|].
  destruct (if is_phi vd then _ else _) as [sr|]; [simpl in He|discriminate].
  destruct (store_vreg data v _) as [d1|] eqn:Hs; [simpl in He|discriminate].
  destruct (BitVector_Add _ _) as [sp|]; [simpl in He|discriminate].
  simplify_eq. simpl. by eapply store_vreg_count.
Qed.

Lemma AddSpillUse_count v i data data' :
  AddSpillUse v i data = Some data' ->
  length (virtual_register_data_ data')
  = length (virtual_register_data_ data).
Proof.
  unfold AddSpillUse. intros Hu.
  destruct (VirtualRegisterDataFor data v) as [vd|];
    [simpl in Hu|discriminate].
  destruct (is_constant vd); [by simplify_eq|].
  destruct (EnsureSpillRange v data) as [d1|] eqn:He;
    [simpl in Hu|discriminate].
  destruct (VirtualRegisterDataFor d1 v) as [vd1|];
    [simpl in Hu|discriminate].
  destruct (spill_range_ vd1) as [sr|]; [simpl in Hu|discriminate].
  rewrite (store_vreg_count _ _ _ _ Hu). by eapply EnsureSpillRange_count.
Qed.

Lemma AddPendingSpillOperand_count v p data data' :
  AddPendingSpillOperand v p data = Some data' ->
  length (virtual_register_data_ data')
  = length (virtual_register_data_ data).
Proof.
  unfold AddPendingSpillOperand. intros Ha.
  destruct (VirtualRegisterDataFor data v) as [vd|];
    [simpl in Ha|discriminate].
  destruct (match spill_operand_ vd with Some _ => _ | None => _ end)
    as [d1|] eqn:Hd; [simpl in Ha|discriminate].
  rewrite (store_vreg_count _ _ _ _ Ha).
  destruct (spill_operand_ vd); [|by simplify_eq].
  destruct (read_operand data p) as [[| | |[|]|]|]; try discriminate.
  by apply ReplaceWith_value_spec in Hd as [_ ->].
Qed.

Lemma SpillOperand_count v p i data data' :
  SpillOperand v p i data = Some data' ->
  length (virtual_register_data_ data')
  = length (virtual_register_data_ data).
Proof.
  unfold SpillOperand. intros Hs.
  destruct (AddSpillUse v i data) as [d1|] eqn:Hu;
    [simpl in Hs|discriminate].
  apply AddSpillUse_count in Hu. rewrite <- Hu.
  destruct (VirtualRegisterDataFor d1 v) as [vd|];
    [simpl in Hs|discriminate].
  destruct (HasAllocatedSpillOperand d1 vd) as [al|];
    [simpl in Hs|discriminate].
  destruct (al || HasConstantSpillOperand vd).
  - destruct (spill_operand_ vd) as [so|]; [simpl in Hs|discriminate].
    unfold ReplaceWith in Hs.
    destruct (read_operand d1 so); [simpl in Hs|discriminate].
    by apply ReplaceWith_value_spec in Hs as [_ ->].
  - destruct (ReplaceWith_value d1 p (Pending None)) as [d2|] eqn:Hr;
      [simpl in Hs|discriminate].
    apply ReplaceWith_value_spec in Hr as [_ ->].
    by apply AddPendingSpillOperand_count in Hs.
Qed.

Lemma EmitGapMoveToInputFromSpillSlot_count v to i data data' :
  EmitGapMoveToInputFromSpillSlot v to i data = Some data' ->
  length (virtual_register_data_ data')
  = length (virtual_register_data_ data).
Proof.
  unfold EmitGapMoveToInputFromSpillSlot. intros Hs.
  destruct (AddSpillUse v i data) as [d1|] eqn:Hu;
    [simpl in Hs|discriminate].
  apply AddSpillUse_count in Hu. rewrite <- Hu.
  destruct (VirtualRegisterDataFor d1 v) as [vd|];
    [simpl in Hs|discriminate].
  destruct (HasAllocatedSpillOperand d1 vd) as [al|];
    [simpl in Hs|discriminate].
  destruct (al || HasConstantSpillOperand vd).
  - destruct (spill_operand_ vd) as [so|]; [simpl in Hs|discriminate].
    destruct (read_operand d1 so); [simpl in Hs|discriminate].
    destruct (AddGapMove d1 i END _ to) as [[mv d2]|] eqn:Hg;
      [simpl in Hs|discriminate].
    apply AddGapMove_spec in Hg as (_ & _ & Hv & _). simplify_eq.
    by rewrite Hv.
  - unfold AddPendingOperandGapMove in Hs.
    destruct (AddGapMove d1 i END _ _) as [[mv d2]|] eqn:Hg;
      [simpl in Hs|discriminate].
    apply AddGapMove_spec in Hg as (_ & _ & Hv & _).
    destruct (AddPendingSpillOperand v (source mv) d2) as [d3|] eqn:Hp;
      [simpl in Hs|discriminate].
    apply AddPendingSpillOperand_count in Hp.
    apply ReplaceWith_value_spec in Hs as [_ ->]. simpl.
    by rewrite Hp, Hv.
Qed.

Lemma SpillPendingChain_count fuel v i :
  forall head data data',
    SpillPendingChain fuel v i head data = Some data' ->
    length (virtual_register_data_ data')
    = length (virtual_register_data_ data).
Proof.
  induction fuel as [|fuel IH]; intros head data data' Hs;
    destruct head as [p|]; simpl in Hs; try discriminate;
    try (by simplify_eq).
  destruct (read_operand data p) as [op|]; [simpl in Hs|discriminate].
  destruct (Pending_next op) as [next|]; [simpl in Hs|discriminate].
  destruct (SpillOperand v p i data) as [d1|] eqn:Ho;
    [simpl in Hs|discriminate].
  rewrite (IH _ _ _ Hs). by eapply SpillOperand_count.
Qed.

Lemma RegisterState_Spill_state rs reg allocated data rs' data' :
  RegisterState_Spill rs reg allocated data = Some (rs', data') ->
  length rs' = length rs
  /\ RegisterState_VirtualRegisterForRegister rs' reg
     = Some kInvalidVirtualRegister
  /\ (forall r, r <> reg -> at_index rs' r = at_index rs r)
  /\ length (virtual_register_data_ data')
     = length (virtual_register_data_ data).
Proof.
  unfold RegisterState_Spill. intros Hs.
  destruct (reg_data rs reg) as [r|]; [simpl in Hs|discriminate].
  destruct (Register_Spill r allocated data) as [[r1 d1]|] eqn:Hr;
    [simpl in Hs|discriminate].
  destruct (set_index rs reg (Some r1)) as [rs1|] eqn:Hs1;
    [simpl in Hs|discriminate].
  unfold ResetDataFor in Hs.
  destruct (reg_data rs1 reg) as [r2|]; [simpl in Hs|discriminate].
  destruct (set_index rs1 reg _) as [rs2|] eqn:Hs2;
    [simpl in Hs|discriminate].
  simplify_eq. split.
  { rewrite (set_index_length _ _ _ _ Hs2). by eapply set_index_length. }
  split.
  { by rewrite (VRFR_at _ _ _ (at_index_set_index_eq _ _ _ _ Hs2)). }
  split.
  { intros j Hne. rewrite (at_index_set_index_ne _ _ _ _ _ Hs2) by done.
    by rewrite (at_index_set_index_ne _ _ _ _ _ Hs1). }
  unfold Register_Spill in Hr.
  destruct (if needs_gap_move_on_spill r then _ else _) as [d2|] eqn:Hd2;
    [simpl in Hr|discriminate].
  unfold Register_SpillPendingUses in Hr.
  destruct (VirtualRegisterDataFor d2 _); [simpl in Hr|discriminate].
  destruct (SpillPendingChain _ _ _ _ d2) as [d3|] eqn:Hd3;
    [simpl in Hr|discriminate].
  simplify_eq. rewrite (SpillPendingChain_count _ _ _ _ _ _ Hd3).
  destruct (needs_gap_move_on_spill r); [|by simplify_eq].
  by eapply EmitGapMoveToInputFromSpillSlot_count.
Qed.

Lemma SpillRegister_Consistent reg a data a' data' :
  CheckConsistency a data = Some true ->
  SpillRegister reg a data = Some (a', data') ->
  CheckConsistency a' data' = Some true
  /\ VirtualRegisterForRegister a' reg = Some kInvalidVirtualRegister.
Proof.
  intros Hc Hs. pose proof Hc as Hcons.
  apply CheckConsistency_Consistent in Hcons.
  unfold SpillRegister in Hs.
  destruct (register_state_ a) as [rs|] eqn:Hrs; [simpl in Hs|discriminate].
  destruct (RegisterState_IsAllocated rs reg) as [[]|] eqn:Hal;
    [simpl in Hs| |discriminate].
  - unfold VirtualRegisterForRegister in Hs. rewrite Hrs in Hs.
    simpl in Hs.
    destruct (RegisterState_VirtualRegisterForRegister rs reg) as [v|]
      eqn:Hv; [simpl in Hs|discriminate].
    destruct (AllocatedOperandForReg a data reg v) as [allocated|];
      [simpl in Hs|discriminate].
    destruct (RegisterState_Spill rs reg allocated data) as [[rs1 d1]|]
      eqn:Hsp; [simpl in Hs|discriminate].
    apply RegisterState_Spill_state in Hsp as (Hl & Hheld & Ho & Hcount).
    destruct (FreeRegister _ reg v) as [a1|] eqn:Hf;
      [simpl in Hs|discriminate].
    simplify_eq.
    apply FreeRegister_tables in Hf as (Hrs' & Hr & Hb & Hmap).
    simpl in *.
    assert (v <> kInvalidVirtualRegister) as Hvalid.
    { unfold RegisterState_VirtualRegisterForRegister in Hv.
      rewrite Hal in Hv. simpl in Hv.
      apply IsAllocated_true in Hal as (x & Hx & Hax).
      rewrite Hx in Hv. simpl in Hv. injection Hv as <-.
      unfold is_allocated in Hax. apply negb_true_iff, Z.eqb_neq in Hax.
      done. }
    assert (0 <= reg < Z.of_nat (length rs)) as Hin.
    { apply IsAllocated_true in Hal as (x & Hx & _).
      unfold reg_data in Hx.
      destruct (at_index rs reg) as [y|] eqn:Hy; [|discriminate].
      by apply at_index_Some in Hy. }
    destruct Hcons as (rs0 & Hrs0 & Hvs & Hregs).
    rewrite Hrs in Hrs0. injection Hrs0 as <-.
    destruct (Hregs reg Hin) as (v' & Hv' & Hval).
    rewrite Hv in Hv'. injection Hv' as <-.
    destruct (Hval Hvalid) as (Hmapv & _ & _).
    split.
    + apply CheckConsistency_Consistent. rewrite Hcount.
      eapply (Consistent_release a a' _ rs rs1 reg v); eauto.
      * by apply CheckConsistency_Consistent.
      * unfold IsFreeOrSameVirtualRegister, VirtualRegisterForRegister.
        rewrite Hrs. simpl. rewrite Hv. simpl.
        by rewrite Z.eqb_refl, orb_true_r.
      * right. unfold VirtualRegisterIsUnallocatedOrInReg.
        rewrite Hmapv. simpl. by rewrite Z.eqb_refl, orb_true_r.
      * intros r Hr0. rewrite Hb. apply testbit_clear; lia.
    + unfold VirtualRegisterForRegister. by rewrite Hrs'.
  - simpl in Hs. simplify_eq. split; [done|].
    unfold VirtualRegisterForRegister. rewrite Hrs. simpl.
    unfold RegisterState_VirtualRegisterForRegister. by rewrite Hal.
Qed.

(** X7: [SpillRegister] keeps the [CHECK]s of [CheckConsistency]
    passing, the register holds no virtual register afterwards, and the
    marks of the registers in use in the instruction stay as they
    are. *)
Theorem X7_SpillRegister_keeps_consistency reg a data a' data' :
  CheckConsistency a data = Some true ->
  SpillRegister reg a data = Some (a', data') ->
  CheckConsistency a' data' = Some true
  /\ VirtualRegisterForRegister a' reg = Some kInvalidVirtualRegister
  /\ in_use_at_instr_start_bits_ a' = in_use_at_instr_start_bits_ a
  /\ in_use_at_instr_end_bits_ a' = in_use_at_instr_end_bits_ a.
Proof.
  intros Hc Hs.
  destruct (SpillRegister_Consistent _ _ _ _ _ Hc Hs) as [Hc' Hfree].
  split; [exact Hc'|]. split; [exact Hfree|].
  apply CheckConsistency_Consistent in Hc as (rs & Hrs & _).
  destruct (SpillRegister_spec _ _ _ _ _ _ Hs Hrs)
    as (_ & _ & _ & _ & _ & Hstart & Hend).
  done.
Qed.

End Consistency.

(** X4 at [Example.verbs_start]: [v0] is given register 1. *)
Lemma X4_witness :
  CheckConsistency (fst Example.verbs_start) (snd Example.verbs_start)
  = Some true
  /\ 0 <> kInvalidVirtualRegister
  /\ IsFreeOrSameVirtualRegister (fst Example.verbs_start) 1 0 = Some true
  /\ VirtualRegisterIsUnallocatedOrInReg (fst Example.verbs_start) 0 1
     = Some true
  /\ AllocateUse 1 0 5%nat 4 kStart (fst Example.verbs_start)
       (snd Example.verbs_start)
     = Some Example.verbs_use
  /\ RegisterForVirtualRegister (fst Example.verbs_use) 0 = Some 1
  /\ CheckConsistency (fst Example.verbs_use) (snd Example.verbs_use)
     = Some true.
Proof.
  assert (CheckConsistency (fst Example.verbs_start) (snd Example.verbs_start)
          = Some true) as Hc by (vm_compute; reflexivity).
  assert (0 <> kInvalidVirtualRegister) as Hv by discriminate.
  assert (IsFreeOrSameVirtualRegister (fst Example.verbs_start) 1 0
          = Some true) as Hf by (vm_compute; reflexivity).
  assert (VirtualRegisterIsUnallocatedOrInReg (fst Example.verbs_start) 0 1
          = Some true) as Hu by (vm_compute; reflexivity).
  assert (AllocateUse 1 0 5%nat 4 kStart (fst Example.verbs_start)
            (snd Example.verbs_start)
          = Some (fst Example.verbs_use, snd Example.verbs_use)) as Ha
    by (vm_compute; reflexivity).
  repeat (split; [first [assumption | vm_compute; reflexivity]|]).
  exact (X4_AllocateUse_keeps_consistency _ _ _ _ _ _ _ _ _ Hc Hv Hf Hu Ha).
Defined.

(** X5 at [Example.verbs_use]: [v1] gets a pending use of register 0. *)
Lemma X5_witness :
  CheckConsistency (fst Example.verbs_use) (snd Example.verbs_use)
  = Some true
  /\ 1 <> kInvalidVirtualRegister
  /\ IsFreeOrSameVirtualRegister (fst Example.verbs_use) 0 1 = Some true
  /\ VirtualRegisterIsUnallocatedOrInReg (fst Example.verbs_use) 1 0
     = Some true
  /\ AllocatePendingUse 0 1 4%nat 4 (fst Example.verbs_use)
       (snd Example.verbs_use)
     = Some Example.verbs_pending
  /\ RegisterForVirtualRegister (fst Example.verbs_pending) 1 = Some 0
  /\ CheckConsistency (fst Example.verbs_pending)
       (snd Example.verbs_pending)
     = Some true.
Proof.
  assert (CheckConsistency (fst Example.verbs_use) (snd Example.verbs_use)
          = Some true) as Hc by (vm_compute; reflexivity).
  assert (1 <> kInvalidVirtualRegister) as Hv by discriminate.
  assert (IsFreeOrSameVirtualRegister (fst Example.verbs_use) 0 1
          = Some true) as Hf by (vm_compute; reflexivity).
  assert (VirtualRegisterIsUnallocatedOrInReg (fst Example.verbs_use) 1 0
          = Some true) as Hu by (vm_compute; reflexivity).
  assert (AllocatePendingUse 0 1 4%nat 4 (fst Example.verbs_use)
            (snd Example.verbs_use)
          = Some (fst Example.verbs_pending, snd Example.verbs_pending))
    as Ha by (vm_compute; reflexivity).
  repeat (split; [first [assumption | vm_compute; reflexivity]|]).
  exact (X5_AllocatePendingUse_keeps_consistency _ _ _ _ _ _ _ _ Hc Hv Hf Hu
           Ha).
Defined.

(** X6 at [Example.verbs_pending]: the definition of [v0] is committed to
    register 1. *)
Lemma X6_witness :
  CheckConsistency (fst Example.verbs_pending) (snd Example.verbs_pending)
  = Some true
  /\ IsFreeOrSameVirtualRegister (fst Example.verbs_pending) 1 0 = Some true
  /\ VirtualRegisterIsUnallocatedOrInReg (fst Example.verbs_pending) 0 1
     = Some true
  /\ CommitRegister 1 0 0%nat kEnd (fst Example.verbs_pending)
       (snd Example.verbs_pending)
     = Some Example.verbs_commit
  /\ RegisterForVirtualRegister (fst Example.verbs_commit) 0
     = Some RegisterIndex_Invalid
  /\ CheckConsistency (fst Example.verbs_commit) (snd Example.verbs_commit)
     = Some true.
Proof.
  assert (CheckConsistency (fst Example.verbs_pending)
            (snd Example.verbs_pending) = Some true) as Hc
    by (vm_compute; reflexivity).
  assert (IsFreeOrSameVirtualRegister (fst Example.verbs_pending) 1 0
          = Some true) as Hf by (vm_compute; reflexivity).
  assert (VirtualRegisterIsUnallocatedOrInReg (fst Example.verbs_pending) 0 1
          = Some true) as Hu by (vm_compute; reflexivity).
  assert (CommitRegister 1 0 0%nat kEnd (fst Example.verbs_pending)
            (snd Example.verbs_pending)
          = Some (fst Example.verbs_commit, snd Example.verbs_commit))
    as Ha by (vm_compute; reflexivity).
  repeat (split; [first [assumption | vm_compute; reflexivity]|]).
  exact (X6_CommitRegister_keeps_consistency _ _ _ _ _ _ _ _ Hc Hf
           (or_intror Hu) Ha).
Defined.

(** X7 at [Example.verbs_pending]: register 0 is spilled. *)
Lemma X7_witness :
  CheckConsistency (fst Example.verbs_pending) (snd Example.verbs_pending)
  = Some true
  /\ SpillRegister 0 (fst Example.verbs_pending) (snd Example.verbs_pending)
     = Some Example.verbs_spill
  /\ RegisterForVirtualRegister (fst Example.verbs_spill) 1
     = Some RegisterIndex_Invalid
  /\ CheckConsistency (fst Example.verbs_spill) (snd Example.verbs_spill)
     = Some true
  /\ VirtualRegisterForRegister (fst Example.verbs_spill) 0
     = Some kInvalidVirtualRegister.
Proof.
  assert (CheckConsistency (fst Example.verbs_pending)
            (snd Example.verbs_pending) = Some true) as Hc
    by (vm_compute; reflexivity).
  assert (SpillRegister 0 (fst Example.verbs_pending)
            (snd Example.verbs_pending)
          = Some (fst Example.verbs_spill, snd Example.verbs_spill)) as Hs
    by (vm_compute; reflexivity).
  split; [assumption|].
  split; [vm_compute; reflexivity|].
  split; [vm_compute; reflexivity|].
  destruct (X7_SpillRegister_keeps_consistency _ _ _ _ _ Hc Hs)
    as (Hc' & Hfree & _).
  exact (conj Hc' Hfree).
Defined.

(** ** Choosing a register *)

Section ChooseRegister.
Context `{Platform}.

Lemma land_bit_testbit x reg :
  0 <= reg -> (Z.land x (2 ^ reg) =? 0) = negb (Z.testbit x reg).
Proof.
  intros Hr. destruct (Z.testbit x reg) eqn:E; simpl.
  - apply Z.eqb_neq. intros Hz.
    apply (f_equal (fun y => Z.testbit y reg)) in Hz.
    rewrite Z.land_spec, E, Z.pow2_bits_eqb, Z.eqb_refl, Z.bits_0 in Hz
      by lia.
    discriminate.
  - apply Z.eqb_eq. apply Z.bits_inj'. intros k Hk.
    rewrite Z.land_spec, Z.pow2_bits_eqb, Z.bits_0 by lia.
    destruct (Z.eqb_spec reg k) as [->|]; [by rewrite E|].
    apply andb_false_r.
Qed.

Lemma ChooseRegisterToSpill_visit_spec a data in_use c reg c' :
  ChooseRegisterToSpill_visit a data in_use c reg = Some c' ->
  c' = c
  \/ (chosen_reg c' = reg /\ 0 <= reg < kBitsPerWord
      /\ Z.testbit in_use reg = false).
Proof.
  unfold ChooseRegisterToSpill_visit. intros Hv.
  destruct (ToBit reg) as [bit|] eqn:Hbit; [simpl in Hv|discriminate].
  apply ToBit_Some in Hbit as [Hr ->].
  rewrite land_bit_testbit, negb_involutive in Hv by lia.
  destruct (Z.testbit in_use reg) eqn:Hu; [left; by simplify_eq|].
  binds; auto.
Qed.

Lemma ChooseRegisterToSpill_loop_spec a data in_use regs :
  forall c c',
    ChooseRegisterToSpill_loop a data in_use regs c = Some c' ->
    chosen_reg c' = chosen_reg c
    \/ (In (chosen_reg c') regs /\ 0 <= chosen_reg c' < kBitsPerWord
        /\ Z.testbit in_use (chosen_reg c') = false).
Proof.
  induction regs as [|reg regs IH]; simpl; intros c c' Hl.
  - left. by simplify_eq.
  - destruct (ChooseRegisterToSpill_visit a data in_use c reg) as [c1|]
      eqn:Hv; [simpl in Hl|discriminate].
    apply ChooseRegisterToSpill_visit_spec in Hv.
    destruct (IH _ _ Hl) as [Heq|(Hin & Hr & Hu)].
    + destruct Hv as [->|(Hreg & Hr & Hu)]; [by left|].
      right. rewrite Heq, Hreg. repeat split; try done; try lia;
        try by left.
    + right. repeat split; try done; try lia; try by right.
Qed.

Lemma ChooseRegisterToSpill_visit_init a data in_use reg c' :
  (forall v vd,
     VirtualRegisterDataFor data v = Some vd ->
     output_instr_index vd < kMaxInt) ->
  ChooseRegisterToSpill_visit a data in_use SpillChoice_init reg = Some c' ->
  (c' = SpillChoice_init /\ Z.testbit in_use reg = true)
  \/ (chosen_reg c' = reg /\ 0 <= reg < kBitsPerWord).
Proof.
  unfold ChooseRegisterToSpill_visit. intros Hout Hv.
  destruct (ToBit reg) as [bit|] eqn:Hbit; [simpl in Hv|discriminate].
  apply ToBit_Some in Hbit as [Hr ->].
  rewrite land_bit_testbit, negb_involutive in Hv by lia.
  destruct (Z.testbit in_use reg) eqn:Hu; [left; by simplify_eq|].
  simpl in Hv. binds; auto.
  exfalso.
  match goal with Hd : VirtualRegisterDataFor _ _ = Some _ |- _ =>
    apply Hout in Hd end.
  match goal with Hlt : (_ <? _) = false |- _ =>
    apply Z.ltb_ge in Hlt; simpl in Hlt; lia end.
Qed.

Lemma ChooseRegisterToSpill_loop_init a data in_use regs :
  (forall v vd,
     VirtualRegisterDataFor data v = Some vd ->
     output_instr_index vd < kMaxInt) ->
  forall c',
    ChooseRegisterToSpill_loop a data in_use regs SpillChoice_init = Some c' ->
    chosen_reg c' = RegisterIndex_Invalid ->
    forall r, In r regs -> Z.testbit in_use r = true.
Proof.
  intros Hout. induction regs as [|reg regs IH]; simpl; intros c' Hl Hinv r Hin;
    [done|].
  destruct (ChooseRegisterToSpill_visit a data in_use SpillChoice_init reg)
    as [c1|] eqn:Hv; [simpl in Hl|discriminate].
  apply ChooseRegisterToSpill_visit_init in Hv; [|done].
  destruct Hv as [[-> Hu]|[Hreg Hr]].
  - destruct Hin as [<-|Hin]; [done|]. eauto.
  - exfalso. apply ChooseRegisterToSpill_loop_spec in Hl.
    unfold RegisterIndex_Invalid, kBitsPerWord in *.
    destruct Hl as [Heq|(_ & Hr' & _)]; lia.
Qed.

Lemma ChooseRegisterToSpill_spec a data pos in_use rs reg :
  InUseBitmap a pos = Some in_use ->
  register_state_ a = Some rs ->
  ChooseRegisterToSpill a data pos = Some reg ->
  reg = RegisterIndex_Invalid
  \/ (0 <= reg < Z.of_nat (length rs) /\ Z.testbit in_use reg = false).
Proof.
  intros Hin Hrs Hc. unfold ChooseRegisterToSpill in Hc.
  rewrite Hin, Hrs in Hc. simpl in Hc.
  destruct (ChooseRegisterToSpill_loop _ _ _ _ _) as [c|] eqn:Hl;
    [simpl in Hc|discriminate].
  injection Hc as <-.
  apply ChooseRegisterToSpill_loop_spec in Hl as [Heq|(Hi & _ & Hu)];
    [by left|right].
  split; [|done]. unfold RegisterState_indices in Hi.
  apply in_map_iff in Hi as (n & <- & Hn). apply in_seq in Hn. lia.
Qed.

Lemma ChooseFreeRegister_range a pos reg :
  ChooseFreeRegister a pos = Some reg ->
  is_valid reg = true ->
  0 <= reg < num_allocatable_registers a.
Proof.
  unfold ChooseFreeRegister. intros Hc Hv.
  destruct (InUseBitmap a pos) as [in_use|]; [simpl in Hc|discriminate].
  unfold CountTrailingZeros in Hc.
  remember (word_not (Z.lor in_use (allocated_registers_bits_ a))) as x.
  destruct (ctz_from_spec 64 0 x) as (Hb & _ & _).
  remember (ctz_from 64 0 x) as c.
  destruct (Z.geb_spec c (num_allocatable_registers a)) as [Hge|Hlt];
    injection Hc as <-; [discriminate|lia].
Qed.

(** X8: the register [ChooseRegisterToSpill] chooses is a register of the
    register state that is not in use at the position; when all output
    indices are below [kMaxInt], it chooses none only if every register
    is in use there. *)
Theorem X8_ChooseRegisterToSpill_not_in_use a data pos in_use rs reg :
  (forall v vd,
     VirtualRegisterDataFor data v = Some vd ->
     output_instr_index vd < kMaxInt) ->
  InUseBitmap a pos = Some in_use ->
  register_state_ a = Some rs ->
  ChooseRegisterToSpill a data pos = Some reg ->
  if is_valid reg
  then 0 <= reg < Z.of_nat (length rs) /\ Z.testbit in_use reg = false
  else forall r, 0 <= r < Z.of_nat (length rs) ->
         Z.testbit in_use r = true.
Proof.
  intros Hout Hin Hrs Hc.
  destruct (is_valid reg) eqn:Hv.
  - destruct (ChooseRegisterToSpill_spec _ _ _ _ _ _ Hin Hrs Hc)
      as [->|?]; [discriminate|done].
  - unfold is_valid in Hv. apply negb_false_iff, Z.eqb_eq in Hv. subst reg.
    unfold ChooseRegisterToSpill in Hc. rewrite Hin, Hrs in Hc.
    simpl in Hc.
    destruct (ChooseRegisterToSpill_loop _ _ _ _ _) as [c|] eqn:Hl;
      [simpl in Hc|discriminate].
    injection Hc as Hc. intros r Hr.
    eapply ChooseRegisterToSpill_loop_init; eauto.
    unfold RegisterState_indices. apply in_map_iff.
    exists (Z.to_nat r). split; [lia|]. apply in_seq. lia.
Qed.

(** X9: the register that [ChooseRegisterFor] returns for a representation
    is not in use at the position and, in the state it leaves, holds no
    virtual register; the [CHECK]s of [CheckConsistency] still pass.  It
    returns no register only when none is required, and then changes
    nothing. *)
Theorem X9_ChooseRegisterFor_register_is_available pos must_use_register a
    data reg a' data' in_use rs :
  CheckConsistency a data = Some true ->
  register_state_ a = Some rs ->
  Z.of_nat (length rs) = num_allocatable_registers a ->
  num_allocatable_registers a <= kBitsPerWord ->
  InUseBitmap a pos = Some in_use ->
  ChooseRegisterFor_rep pos must_use_register a data = Some (reg, a', data') ->
  if is_valid reg
  then Z.testbit in_use reg = false
       /\ VirtualRegisterForRegister a' reg = Some kInvalidVirtualRegister
       /\ InUseBitmap a' pos = Some in_use
       /\ CheckConsistency a' data' = Some true
  else must_use_register = false /\ a' = a /\ data' = data.
Proof.
  intros Hc Hrs Hlen Hnum Hin Hch. unfold ChooseRegisterFor_rep in Hch.
  destruct (ChooseFreeRegister a pos) as [r0|] eqn:Hfree;
    [simpl in Hch|discriminate].
  destruct (is_valid r0) eqn:Hv0; simpl in Hch.
  - injection Hch as <- <- <-. rewrite Hv0.
    pose proof (ChooseFreeRegister_range _ _ _ Hfree Hv0) as Hb.
    assert (busy a in_use r0 = false) as Hbusy.
    { destruct (busy a in_use r0) eqn:E; [|done].
      exfalso. eapply ChooseFreeRegister_not_busy; eauto. lia. }
    apply orb_false_iff in Hbusy as [Hu Hal].
    repeat split; try done.
    apply CheckConsistency_Consistent in Hc as (rs0 & Hrs0 & _ & Hregs).
    rewrite Hrs in Hrs0. injection Hrs0 as <-.
    destruct (Hregs r0 ltac:(lia)) as (v & Hv & Hval).
    unfold VirtualRegisterForRegister. rewrite Hrs. simpl. rewrite Hv.
    f_equal. destruct (decide (v = kInvalidVirtualRegister)) as [|Hne];
      [done|].
    destruct (Hval Hne) as (_ & _ & Hbit). congruence.
  - destruct must_use_register; simpl in Hch.
    + destruct (ChooseRegisterToSpill a data pos) as [r1|] eqn:Hsp;
        [simpl in Hch|discriminate].
      destruct (SpillRegister r1 a data) as [[a1 d1]|] eqn:Hs;
        [simpl in Hch|discriminate].
      injection Hch as <- <- <-.
      destruct (ChooseRegisterToSpill_spec _ _ _ _ _ _ Hin Hrs Hsp)
        as [->|[Hr Hu]].
      { unfold SpillRegister in Hs. rewrite Hrs in Hs. simpl in Hs.
        unfold RegisterState_IsAllocated, HasRegisterData in Hs.
        simpl in Hs. discriminate. }
      replace (is_valid r1) with true.
      2: { symmetry. unfold is_valid. apply negb_true_iff, Z.eqb_neq.
           unfold RegisterIndex_Invalid. lia. }
      destruct (SpillRegister_Consistent _ _ _ _ _ Hc Hs) as [Hc' Hnone].
      destruct (SpillRegister_spec _ _ _ _ _ _ Hs Hrs)
        as (_ & _ & _ & _ & _ & Hs1 & Hs2).
      repeat split; try done.
      destruct pos; simpl in *; try discriminate; congruence.
    + injection Hch as <- <- <-. rewrite Hv0. done.
Qed.

End ChooseRegister.

(** X8 at [Example.verbs_pending], where register 0 has only a pending
    use and register 1 is in use at the start of the instruction:
    register 0 is chosen. *)
Lemma X8_witness :
  (forall v vd,
     VirtualRegisterDataFor (snd Example.verbs_pending) v = Some vd ->
     output_instr_index vd < kMaxInt)
  /\ InUseBitmap (fst Example.verbs_pending) kStart = Some 2
  /\ ChooseRegisterToSpill (fst Example.verbs_pending)
       (snd Example.verbs_pending) kStart = Some 0
  /\ 0 <= 0 < 2
  /\ Z.testbit 2 0 = false.
Proof.
  assert (forall v vd,
            VirtualRegisterDataFor (snd Example.verbs_pending) v = Some vd ->
            output_instr_index vd < kMaxInt) as Hout.
  { intros v vd Hv. unfold VirtualRegisterDataFor in Hv.
    apply at_index_Some in Hv as Hr. rewrite at_index_lookup in Hv by lia.
    apply list_elem_of_lookup_2, list_elem_of_In in Hv.
    assert (forallb (fun vd => output_instr_index vd <? kMaxInt)
              (virtual_register_data_ (snd Example.verbs_pending)) = true)
      as Hall by (vm_compute; reflexivity).
    apply Z.ltb_lt. exact (proj1 (forallb_forall _ _) Hall vd Hv). }
  assert (InUseBitmap (fst Example.verbs_pending) kStart = Some 2) as Hin
    by (vm_compute; reflexivity).
  assert (ChooseRegisterToSpill (fst Example.verbs_pending)
            (snd Example.verbs_pending) kStart = Some 0) as Hc
    by (vm_compute; reflexivity).
  split; [exact Hout|]. split; [exact Hin|]. split; [exact Hc|].
  exact (X8_ChooseRegisterToSpill_not_in_use _ _ _ _
           Example.verbs_registers _ Hout Hin
           ltac:(vm_compute; reflexivity) Hc).
Defined.

(** X9 at the same state with a register required: both registers are
    taken, register 0 is spilled and returned. *)
Lemma X9_witness :
  CheckConsistency (fst Example.verbs_pending) (snd Example.verbs_pending)
  = Some true
  /\ register_state_ (fst Example.verbs_pending)
     = Some Example.verbs_registers
  /\ Z.of_nat (length Example.verbs_registers)
     = num_allocatable_registers (fst Example.verbs_pending)
  /\ num_allocatable_registers (fst Example.verbs_pending) <= kBitsPerWord
  /\ InUseBitmap (fst Example.verbs_pending) kStart = Some 2
  /\ ChooseRegisterFor_rep kStart true (fst Example.verbs_pending)
       (snd Example.verbs_pending)
     = Some Example.verbs_choose
  /\ fst (fst Example.verbs_choose) = 0
  /\ Z.testbit 2 0 = false
  /\ VirtualRegisterForRegister (snd (fst Example.verbs_choose)) 0
     = Some kInvalidVirtualRegister
  /\ InUseBitmap (snd (fst Example.verbs_choose)) kStart = Some 2
  /\ CheckConsistency (snd (fst Example.verbs_choose))
       (snd Example.verbs_choose)
     = Some true.
Proof.
  assert (CheckConsistency (fst Example.verbs_pending)
            (snd Example.verbs_pending) = Some true) as Hc
    by (vm_compute; reflexivity).
  assert (register_state_ (fst Example.verbs_pending)
          = Some Example.verbs_registers) as Hrs
    by (vm_compute; reflexivity).
  assert (Z.of_nat (length Example.verbs_registers)
          = num_allocatable_registers (fst Example.verbs_pending)) as Hlen
    by (vm_compute; reflexivity).
  assert (num_allocatable_registers (fst Example.verbs_pending)
          <= kBitsPerWord) as Hnum by (vm_compute; discriminate).
  assert (InUseBitmap (fst Example.verbs_pending) kStart = Some 2) as Hin
    by (vm_compute; reflexivity).
  assert (ChooseRegisterFor_rep kStart true (fst Example.verbs_pending)
            (snd Example.verbs_pending)
          = Some (0, snd (fst Example.verbs_choose),
                  snd Example.verbs_choose)) as Hch
    by (vm_compute; reflexivity).
  split; [exact Hc|]. split; [exact Hrs|]. split; [exact Hlen|].
  split; [exact Hnum|]. split; [exact Hin|].
  split; [vm_compute; reflexivity|]. split; [reflexivity|].
  exact (X9_ChooseRegisterFor_register_is_available _ _ _ _ _ _ _ _ _
           Hc Hrs Hlen Hnum Hin Hch).
Defined.

(** ** Spill ranges *)

Section SpillRanges.
Context `{Platform}.

Lemma BitVector_elements_from_In bv :
  forall i v,
    at_index bv (v - i) = Some true -> In v (BitVector_elements_from i bv).
Proof.
  induction bv as [|b bv IH]; simpl; intros i v Hv.
  - unfold at_index in Hv. by destruct (v - i <? 0).
  - apply in_app_iff. apply at_index_Some in Hv as Hr.
    rewrite at_index_lookup in Hv by lia.
    destruct (decide (v = i)) as [->|Hne].
    + left. replace (Z.to_nat (i - i)) with 0%nat in Hv by lia.
      simpl in Hv. injection Hv as ->. by left.
    + right. apply IH. simpl in Hr.
      replace (Z.to_nat (v - i)) with (S (Z.to_nat (v - (i + 1)))) in Hv
        by lia.
      simpl in Hv. rewrite at_index_lookup; [done|].
      apply lookup_lt_Some in Hv. lia.
Qed.

Lemma BitVector_elements_In bv v :
  BitVector_Contains bv v = true -> In v (BitVector_elements bv).
Proof.
  unfold BitVector_Contains, BitVector_elements. intros Hc.
  apply BitVector_elements_from_In. rewrite Z.sub_0_r.
  destruct (at_index bv v) as [[]|]; done.
Qed.

Lemma spill_range_grows_refl vd : spill_range_grows vd vd.
Proof.
  unfold spill_range_grows. repeat split; try done.
  destruct (spill_range_ vd); [|done]. repeat split; lia.
Qed.

Lemma spill_range_grows_trans vd1 vd2 vd3 :
  spill_range_grows vd1 vd2 -> spill_range_grows vd2 vd3 ->
  spill_range_grows vd1 vd3.
Proof.
  intros (? & ? & ? & ? & ? & H12) (? & ? & ? & ? & ? & H23).
  repeat split; try congruence.
  destruct (spill_range_ vd1), (spill_range_ vd2), (spill_range_ vd3);
    try done.
  destruct H12 as (? & ? & ?), H23 as (? & ? & ?).
  repeat split; [congruence|lia|lia].
Qed.

Lemma spill_ranges_grow_refl data : spill_ranges_grow data data.
Proof.
  repeat split; try done. intros v vd Hv. exists vd.
  split; [done|apply spill_range_grows_refl].
Qed.

Lemma spill_ranges_grow_trans d1 d2 d3 :
  spill_ranges_grow d1 d2 -> spill_ranges_grow d2 d3 ->
  spill_ranges_grow d1 d3.
Proof.
  intros (? & ? & ? & ? & ? & ? & H12) (? & ? & ? & ? & ? & ? & H23).
  repeat split; try congruence.
  intros v vd Hv. destruct (H12 _ _ Hv) as (vd2 & Hv2 & Hg2).
  destruct (H23 _ _ Hv2) as (vd3 & Hv3 & Hg3).
  exists vd3. split; [done|]. eapply spill_range_grows_trans; eauto.
Qed.

Lemma spill_range_grows_extend vd sr i :
  spill_range_ vd = Some sr ->
  spill_range_grows vd (set_spill_range vd (Some (ExtendRangeTo sr i))).
Proof.
  intros Hsr. unfold spill_range_grows. rewrite Hsr. simpl.
  repeat split; try done; lia.
Qed.

Lemma live_on_entry_grow data data' v b :
  spill_ranges_grow data data' ->
  live_on_entry data v b -> live_on_entry data' v b.
Proof.
  intros (_ & _ & Hbs & _ & _ & _ & Hg) (vd & sr & Hv & Hsr & Hlive).
  destruct (Hg _ _ Hv) as (vd' & Hv' & (_ & _ & _ & _ & _ & Hr)).
  rewrite Hsr in Hr.
  destruct (spill_range_ vd') as [sr'|] eqn:Hsr'; [|done].
  destruct Hr as (Hb & Hs & He).
  exists vd', sr'. repeat split; try done.
  unfold IsLiveAt, block_state in *. rewrite Hb, Hbs.
  destruct (Contains (live_range sr) (first_instruction_index b)) eqn:Hc;
    [|discriminate].
  apply Contains_spec in Hc.
  replace (Contains (live_range sr') (first_instruction_index b)) with true;
    [done|].
  symmetry. apply Contains_spec. lia.
Qed.

Lemma spill_range_covers_grow data data' v i :
  spill_ranges_grow data data' ->
  spill_range_covers data v i -> spill_range_covers data' v i.
Proof.
  intros (_ & _ & _ & _ & _ & _ & Hg) (vd & sr & Hv & Hsr & Hc).
  destruct (Hg _ _ Hv) as (vd' & Hv' & (_ & _ & _ & _ & _ & Hr)).
  rewrite Hsr in Hr.
  destruct (spill_range_ vd') as [sr'|] eqn:Hsr'; [|done].
  destruct Hr as (Hb & Hs & He).
  exists vd', sr'. repeat split; try done.
  apply Contains_spec in Hc. apply Contains_spec. lia.
Qed.

Lemma UpdateSpillRange_vreg_grow b last_loop_instr v data data' :
  UpdateSpillRange_vreg b last_loop_instr v data = Some data' ->
  spill_ranges_grow data data'
  /\ (live_on_entry data v b -> spill_range_covers data' v last_loop_instr).
Proof.
  unfold UpdateSpillRange_vreg. intros Hu.
  destruct (VirtualRegisterDataFor data v) as [vd|] eqn:Hvd;
    [simpl in Hu|discriminate].
  destruct (spill_range_ vd) as [sr|] eqn:Hsr.
  - destruct (IsLiveAt data sr (first_instruction_index b) b) as [[]|]
      eqn:Hlive; [simpl in Hu| |discriminate].
    + apply store_vreg_spec in Hu
        as (Hv & Hother & ? & ? & ? & ? & ? & ?).
      split.
      * repeat split; try done. intros w wd Hw.
        destruct (decide (w = v)) as [->|Hne].
        -- rewrite Hvd in Hw. injection Hw as <-. eexists.
           split; [exact Hv|]. by apply spill_range_grows_extend.
        -- exists wd. rewrite Hother by done.
           split; [done|apply spill_range_grows_refl].
      * intros _. eexists _, _. split; [exact Hv|]. split; [done|].
        simpl. apply Contains_spec. unfold AddInstr. simpl. lia.
    + simpl in Hu. injection Hu as <-.
      split; [apply spill_ranges_grow_refl|].
      intros (vd' & sr' & Hv' & Hsr' & Hl). congruence.
  - injection Hu as <-. split; [apply spill_ranges_grow_refl|].
    intros (vd' & sr' & Hv' & Hsr' & Hl). congruence.
Qed.

Lemma UpdateSpillRanges_vregs_grow b last_loop_instr vs :
  forall data data',
    UpdateSpillRanges_vregs b last_loop_instr vs data = Some data' ->
    spill_ranges_grow data data'
    /\ (forall v, In v vs -> live_on_entry data v b ->
          spill_range_covers data' v last_loop_instr).
Proof.
  induction vs as [|v vs IH]; simpl; intros data data' Hu.
  - injection Hu as <-. split; [apply spill_ranges_grow_refl|done].
  - destruct (UpdateSpillRange_vreg b last_loop_instr v data) as [d1|]
      eqn:Hv; [simpl in Hu|discriminate].
    apply UpdateSpillRange_vreg_grow in Hv as [Hg1 Hc1].
    apply IH in Hu as [Hg2 Hc2].
    split; [eapply spill_ranges_grow_trans; eauto|].
    intros w [<-|Hin] Hlive.
    + eapply spill_range_covers_grow; eauto.
    + apply Hc2; [done|]. eapply live_on_entry_grow; eauto.
Qed.

Lemma UpdateSpillRanges_block_grow b data data' :
  UpdateSpillRanges_block b data = Some data' ->
  spill_ranges_grow data data'
  /\ (forall last_loop_block v,
        IsLoopHeader b = true ->
        GetBlock data (loop_end b - 1) = Some last_loop_block ->
        BitVector_Contains (spilled_virtual_registers data) v = true ->
        live_on_entry data v b ->
        spill_range_covers data' v (last_instruction_index last_loop_block)).
Proof.
  unfold UpdateSpillRanges_block. intros Hu.
  destruct (IsLoopHeader b).
  - destruct (GetBlock data (loop_end b - 1)) as [lb|];
      [simpl in Hu|discriminate].
    apply UpdateSpillRanges_vregs_grow in Hu as [Hg Hc].
    split; [done|]. intros lb' v _ [= <-] Hs Hlive.
    apply Hc; [|done]. by apply BitVector_elements_In.
  - injection Hu as <-. split; [apply spill_ranges_grow_refl|].
    intros; discriminate.
Qed.

Lemma UpdateSpillRanges_blocks_grow blocks :
  forall data data',
    UpdateSpillRanges_blocks blocks data = Some data' ->
    spill_ranges_grow data data'
    /\ (forall b last_loop_block v,
          In b blocks ->
          IsLoopHeader b = true ->
          GetBlock data (loop_end b - 1) = Some last_loop_block ->
          BitVector_Contains (spilled_virtual_registers data) v = true ->
          live_on_entry data v b ->
          spill_range_covers data' v
            (last_instruction_index last_loop_block)).
Proof.
  induction blocks as [|b0 blocks IH]; simpl; intros data data' Hu.
  - injection Hu as <-. split; [apply spill_ranges_grow_refl|done].
  - destruct (UpdateSpillRanges_block b0 data) as [d1|] eqn:Hb;
      [simpl in Hu|discriminate].
    apply UpdateSpillRanges_block_grow in Hb as [Hg1 Hc1].
    apply IH in Hu as [Hg2 Hc2].
    split; [eapply spill_ranges_grow_trans; eauto|].
    intros b lb v [<-|Hin] Hloop Hlb Hs Hlive.
    + eapply spill_range_covers_grow; eauto.
    + pose proof Hg1 as (Hcode & _ & _ & _ & Hsp & _).
      eapply Hc2; eauto.
      * unfold GetBlock in *. by rewrite Hcode.
      * by rewrite Hsp.
      * eapply live_on_entry_grow; eauto.
Qed.

(** X10: [AddSpillUse] does nothing for a constant; for any other virtual
    register it leaves a spill range that covers the use and every
    instruction covered before, over the same blocks, and a virtual
    register that gets its spill range here is entered in
    [spilled_virtual_registers].  No other record changes. *)
Theorem X10_AddSpillUse_covers_use v instr_index data data' vd :
  VirtualRegisterDataFor data v = Some vd ->
  AddSpillUse v instr_index data = Some data' ->
  (forall w, w <> v ->
     VirtualRegisterDataFor data' w = VirtualRegisterDataFor data w)
  /\ if is_constant vd then data' = data
     else exists sr',
       VirtualRegisterDataFor data' v = Some (set_spill_range vd (Some sr'))
       /\ Contains (live_range sr') instr_index = true
       /\ match spill_range_ vd with
          | Some sr =>
              live_blocks sr' = live_blocks sr
              /\ (forall i, Contains (live_range sr) i = true ->
                    Contains (live_range sr') i = true)
              /\ spilled_virtual_registers data'
                 = spilled_virtual_registers data
          | None =>
              BitVector_Contains (spilled_virtual_registers data') (vreg vd)
              = true
          end.
Proof.
  intros Hvd Ha.
  destruct (AddSpillUse_lookup _ _ _ _ _ Hvd Ha) as [Hother Hv].
  split; [done|].
  destruct (is_constant vd) eqn:Hconst; [done|].
  destruct Hv as (sr & Hv & Hk). eexists. split; [exact Hv|].
  split.
  { simpl. apply Contains_spec. unfold AddInstr. simpl. lia. }
  destruct (AddSpillUse_spec _ _ _ _ _ Hvd Ha)
    as [[Hc _]|(_ & d1 & vd1 & sr1 & He & Hv1 & Hsr1 & Hst)];
    [congruence|].
  apply store_vreg_spec in Hst as (_ & _ & _ & _ & _ & _ & Hsp & _).
  destruct (EnsureSpillRange_spec _ _ _ _ Hvd He)
    as [(sr0 & Hsr0 & ->)|(Hnone & sr0 & d0 & sp & _ & Hst0 & Hadd & ->)].
  - rewrite Hsr0 in *. subst sr. split; [done|]. split; [|done].
    intros i Hi. simpl. by apply Contains_AddInstr.
  - rewrite Hnone. rewrite Hsp. simpl.
    rewrite (BitVector_Contains_Add _ _ _ _ Hadd). by rewrite Z.eqb_refl.
Qed.

(** X11: [UpdateSpillRangesForLoops] changes nothing but live ranges, which
    it only widens, and afterwards the spill range of every spilled
    virtual register that was live on entry to a loop header covers the
    last instruction of that loop. *)
Theorem X11_UpdateSpillRangesForLoops_covers_loops data data' :
  UpdateSpillRangesForLoops data = Some data' ->
  spill_ranges_grow data data'
  /\ (forall b last_loop_block v,
        In b (instruction_blocks (code data)) ->
        IsLoopHeader b = true ->
        GetBlock data (loop_end b - 1) = Some last_loop_block ->
        BitVector_Contains (spilled_virtual_registers data) v = true ->
        live_on_entry data v b ->
        spill_range_covers data' v (last_instruction_index last_loop_block)).
Proof.
  unfold UpdateSpillRangesForLoops. apply UpdateSpillRanges_blocks_grow.
Qed.

End SpillRanges.

(** X10 at [Example.call_defined]: a use of [v0] by instruction 3 gives it
    a spill range from instruction 1 to instruction 3. *)
Lemma X10_witness :
  VirtualRegisterDataFor Example.call_defined 0
  = Some (mkVreg None None 0 0 false false)
  /\ AddSpillUse 0 3 Example.call_defined = Some Example.call_spill_use
  /\ VirtualRegisterDataFor Example.call_spill_use 0
     = Some (mkVreg None (Some (mkSpillRange (mkRange 1 3) 0)) 0 0 false
               false)
  /\ BitVector_Contains (spilled_virtual_registers Example.call_spill_use) 0
     = true.
Proof.
  assert (VirtualRegisterDataFor Example.call_defined 0
          = Some (mkVreg None None 0 0 false false)) as Hvd
    by (vm_compute; reflexivity).
  assert (AddSpillUse 0 3 Example.call_defined
          = Some Example.call_spill_use) as Ha by (vm_compute; reflexivity).
  split; [exact Hvd|]. split; [exact Ha|].
  split; [vm_compute; reflexivity|].
  destruct (proj2 (X10_AddSpillUse_covers_use _ _ _ _ _ Hvd Ha))
    as (sr' & _ & _ & Hs).
  exact Hs.
Defined.

(** X11 at [Example.loop_blocks_allocated]: [v0] is spilled from
    instruction 1 to instruction 1, the first of the loop header; it is
    made to cover instruction 2, the last of the loop. *)
Lemma X11_witness :
  UpdateSpillRangesForLoops Example.loop_blocks_allocated
  = Some Example.loop_updated
  /\ In Example.loop_header
       (instruction_blocks (code Example.loop_blocks_allocated))
  /\ IsLoopHeader Example.loop_header = true
  /\ GetBlock Example.loop_blocks_allocated
       (loop_end Example.loop_header - 1)
     = Some (mkBlock 2 2 2 [1] [1] 1 false 0 [])
  /\ BitVector_Contains
       (spilled_virtual_registers Example.loop_blocks_allocated) 0 = true
  /\ live_on_entry Example.loop_blocks_allocated 0 Example.loop_header
  /\ spill_range_covers Example.loop_updated 0 2.
Proof.
  assert (UpdateSpillRangesForLoops Example.loop_blocks_allocated
          = Some Example.loop_updated) as Hu by (vm_compute; reflexivity).
  assert (In Example.loop_header
            (instruction_blocks (code Example.loop_blocks_allocated)))
    as Hin by (right; left; reflexivity).
  assert (GetBlock Example.loop_blocks_allocated
            (loop_end Example.loop_header - 1)
          = Some (mkBlock 2 2 2 [1] [1] 1 false 0 [])) as Hlb
    by (vm_compute; reflexivity).
  assert (BitVector_Contains
            (spilled_virtual_registers Example.loop_blocks_allocated) 0
          = true) as Hs by (vm_compute; reflexivity).
  assert (live_on_entry Example.loop_blocks_allocated 0 Example.loop_header)
    as Hlive.
  { exists (mkVreg (Some 6%nat) (Some (mkSpillRange (mkRange 1 1) 0)) 0 0
              false false), (mkSpillRange (mkRange 1 1) 0).
    repeat split; vm_compute; reflexivity. }
  split; [exact Hu|]. split; [exact Hin|]. split; [reflexivity|].
  split; [exact Hlb|]. split; [exact Hs|]. split; [exact Hlive|].
  exact (proj2 (X11_UpdateSpillRangesForLoops_covers_loops _ _ Hu)
           _ _ _ Hin eq_refl Hlb Hs Hlive).
Defined.

(** ** Pending spill operands *)

Section PendingSpillOperands.
Context `{Platform}.

(** X12: [SpillOperand] on a virtual register that is not a constant and
    whose spill operand is not yet allocated turns the operand into the
    head of the chain of pending spill operands, in front of the ones
    that were pending before, and writes no other operand. *)
Theorem X12_SpillOperand_links_pending_chain v operand instr_index data data'
    vd l :
  VirtualRegisterDataFor data v = Some vd ->
  is_constant vd = false ->
  pending_chain (operands data) (spill_operand_ vd) l ->
  ~ In operand l ->
  SpillOperand v operand instr_index data = Some data' ->
  exists vd',
    VirtualRegisterDataFor data' v = Some vd'
    /\ spill_operand_ vd' = Some operand
    /\ pending_chain (operands data') (Some operand) (operand :: l)
    /\ (forall p, p <> operand -> operands data' !! p = operands data !! p).
Proof.
  intros Hvd Hconst Hchain Hnot Hs. unfold SpillOperand in Hs.
  destruct (AddSpillUse v instr_index data) as [d1|] eqn:Hu;
    [simpl in Hs|discriminate].
  destruct (AddSpillUse_then _ _ _ _ Hu)
    as (vd0 & vd1 & Hvd0 & Hvd1 & Hso & Hco & Hops1 & Hcode1).
  rewrite Hvd in Hvd0. injection Hvd0 as <-.
  rewrite Hvd1 in Hs. simpl in Hs.
  assert (HasAllocatedSpillOperand d1 vd1 = Some false) as Hal.
  { unfold HasAllocatedSpillOperand, read_operand. rewrite Hso, Hops1.
    inversion Hchain as [Hnone|p next l' Hp Hc' Hsome]; [done|].
    by rewrite Hp. }
  rewrite Hal in Hs. simpl in Hs.
  unfold HasConstantSpillOperand in Hs. rewrite Hco, Hconst in Hs.
  simpl in Hs.
  destruct (ReplaceWith_value d1 operand (Pending None)) as [d2|] eqn:Hr;
    [simpl in Hs|discriminate].
  apply ReplaceWith_value_spec in Hr as [Hlt ->].
  apply AddPendingSpillOperand_spec in Hs
    as (vd2 & Hvd2 & Hvd' & _ & _ & _ & Hops').
  unfold VirtualRegisterDataFor in Hvd2. simpl in Hvd2.
  unfold VirtualRegisterDataFor in Hvd1. rewrite Hvd1 in Hvd2.
  injection Hvd2 as <-.
  eexists. split; [exact Hvd'|]. split; [done|].
  rewrite Hops1 in *. simpl in Hops'.
  assert (exists next,
            next = spill_operand_ vd
            /\ operands data' = <[operand := Pending next]> (operands data))
    as (next & Hnext & Hops).
  { exists (spill_operand_ vd). split; [done|]. rewrite <- Hso.
    destruct (spill_operand_ vd1) as [head|].
    - destruct Hops' as [_ ->]. by rewrite list_insert_insert_eq.
    - done. }
  rewrite Hops. split.
  - econstructor.
    + by apply list_lookup_insert_eq.
    + subst next. eapply pending_chain_agree; [exact Hchain|].
      intros q Hq. apply list_lookup_insert_ne. by intros ->.
  - intros p Hne. by apply list_lookup_insert_ne.
Qed.

(** X13: [AllocatePendingSpillOperand] returns on every chain of pending
    spill operands, replaces exactly the operands of the chain by the
    allocated operand and leaves the records of the virtual registers as
    they are, so that the spill operand of the register is now the
    allocated one. *)
Theorem X13_AllocatePendingSpillOperand_resolves_chain v vd allocated data l :
  VirtualRegisterDataFor data v = Some vd ->
  pending_chain (operands data) (spill_operand_ vd) l ->
  IsPending allocated = false ->
  exists data',
    AllocatePendingSpillOperand v allocated data = Some data'
    /\ (forall p, In p l -> operands data' !! p = Some allocated)
    /\ (forall p, ~ In p l -> operands data' !! p = operands data !! p)
    /\ virtual_register_data_ data' = virtual_register_data_ data
    /\ (forall p, spill_operand_ vd = Some p ->
          read_operand data' p = Some allocated).
Proof.
  intros Hvd Hc Hal. unfold AllocatePendingSpillOperand. rewrite Hvd. simpl.
  destruct (AllocatePendingChain_returns allocated l
              (length (operands data)) _ data Hc)
    as (data' & Hrun & Hin & Hout); [by eapply pending_chain_length|].
  exists data'. split; [done|]. split; [done|]. split; [done|].
  destruct (AllocatePendingChain_spec _ _ Hal _ _ _ Hrun)
    as (Hv & _ & _ & Hhead).
  split; [done|]. intros p Hp. unfold read_operand. by apply Hhead.
Qed.

(** X14: the pending uses of a register compose: after [PendingUse] has
    put an operand in front of the pending uses [l] of a register,
    [Commit] returns, gives every one of them the allocated operand,
    leaves the register without pending uses and writes no other
    operand. *)
Theorem X14_pending_uses_are_committed r operand v instr_index data r1 data1
    allocated l :
  pending_chain (operands data) (pending_uses r) l ->
  ~ In operand l ->
  IsPending allocated = false ->
  Register_PendingUse r operand v instr_index data = Some (r1, data1) ->
  pending_uses r1 = Some operand
  /\ exists r2 data2,
       Register_Commit r1 allocated data1 = Some (r2, data2)
       /\ pending_uses r2 = None
       /\ virtual_register_ r2 = virtual_register_ r1
       /\ (forall p, In p (operand :: l) ->
             operands data2 !! p = Some allocated)
       /\ (forall p, ~ In p (operand :: l) ->
             operands data2 !! p = operands data !! p).
Proof.
  intros Hchain Hnot Hal Hp. unfold Register_PendingUse in Hp.
  cbv zeta in Hp.
  remember (if is_allocated r then r
            else mkRegister (needs_gap_move_on_spill r) instr_index v
                   (pending_uses r)) as r' eqn:Hr'.
  assert (pending_uses r' = pending_uses r) as Hsame
    by (subst r'; by destruct (is_allocated r)).
  rewrite Hsame in Hp.
  destruct (ReplaceWith_value data operand (Pending (pending_uses r)))
    as [d1|] eqn:Hr; [simpl in Hp|discriminate].
  injection Hp as <- <-. split; [done|].
  apply ReplaceWith_value_spec in Hr as [Hlt ->].
  assert (pending_chain
            (<[operand := Pending (pending_uses r)]> (operands data))
            (Some operand) (operand :: l)) as Hc1.
  { econstructor.
    - by apply list_lookup_insert_eq.
    - eapply pending_chain_agree; [exact Hchain|].
      intros q Hq. apply list_lookup_insert_ne. by intros ->. }
  unfold Register_Commit. simpl.
  destruct (AllocatePendingChain_returns allocated (operand :: l)
              (length (<[operand := Pending (pending_uses r)]>
                         (operands data)))
              (Some operand)
              (set_operands data
                 (<[operand := Pending (pending_uses r)]> (operands data))))
    as (data2 & Hrun & Hin & Hout).
  { exact Hc1. }
  { by eapply pending_chain_length. }
  simpl in Hrun. rewrite Hrun. simpl.
  eexists _, data2. split; [reflexivity|]. simpl.
  repeat split; try done.
  intros p Hp. rewrite (Hout _ Hp). simpl.
  apply list_lookup_insert_ne. intros ->. apply Hp. by left.
Qed.

End PendingSpillOperands.

(** X12 at [Example.call_defined]: [v0] has no spill operand yet; the use
    in operand 2 becomes the only pending spill operand. *)
Lemma X12_witness :
  VirtualRegisterDataFor Example.call_defined 0
  = Some (mkVreg None None 0 0 false false)
  /\ pending_chain (operands Example.call_defined) None []
  /\ ~ In 2%nat []
  /\ SpillOperand 0 2%nat 3 Example.call_defined
     = Some Example.call_spill_operand
  /\ exists vd',
       VirtualRegisterDataFor Example.call_spill_operand 0 = Some vd'
       /\ spill_operand_ vd' = Some 2%nat
       /\ pending_chain (operands Example.call_spill_operand) (Some 2%nat)
            [2%nat]
       /\ (forall p, p <> 2%nat ->
             operands Example.call_spill_operand !! p
             = operands Example.call_defined !! p).
Proof.
  assert (VirtualRegisterDataFor Example.call_defined 0
          = Some (mkVreg None None 0 0 false false)) as Hvd
    by (vm_compute; reflexivity).
  assert (pending_chain (operands Example.call_defined) None []) as Hc
    by constructor.
  assert (~ In 2%nat []) as Hn by (simpl; tauto).
  assert (SpillOperand 0 2%nat 3 Example.call_defined
          = Some Example.call_spill_operand) as Hs
    by (vm_compute; reflexivity).
  split; [exact Hvd|]. split; [exact Hc|]. split; [exact Hn|].
  split; [exact Hs|].
  exact (X12_SpillOperand_links_pending_chain _ _ _ _ _ _ _ Hvd eq_refl Hc Hn
           Hs).
Defined.

(** X13 at [Example.loop_blocks_allocated]: the pending operands 6 and 2
    of [v0] become its spill slot. *)
Lemma X13_witness :
  VirtualRegisterDataFor Example.loop_blocks_allocated 0
  = Some Example.loop_v0
  /\ pending_chain (operands Example.loop_blocks_allocated)
       (spill_operand_ Example.loop_v0) [6%nat; 2%nat]
  /\ IsPending Example.loop_slot = false
  /\ exists data',
       AllocatePendingSpillOperand 0 Example.loop_slot
         Example.loop_blocks_allocated = Some data'
       /\ (forall p, In p [6%nat; 2%nat] ->
             operands data' !! p = Some Example.loop_slot)
       /\ (forall p, ~ In p [6%nat; 2%nat] ->
             operands data' !! p
             = operands Example.loop_blocks_allocated !! p)
       /\ virtual_register_data_ data'
          = virtual_register_data_ Example.loop_blocks_allocated
       /\ (forall p, spill_operand_ Example.loop_v0 = Some p ->
             read_operand data' p = Some Example.loop_slot).
Proof.
  assert (VirtualRegisterDataFor Example.loop_blocks_allocated 0
          = Some Example.loop_v0) as Hvd by (vm_compute; reflexivity).
  assert (pending_chain (operands Example.loop_blocks_allocated)
            (spill_operand_ Example.loop_v0) [6%nat; 2%nat]) as Hc.
  { apply (pending_chain_link _ 6%nat (Some 2%nat)); [reflexivity|].
    apply (pending_chain_link _ 2%nat None); [reflexivity|].
    constructor. }
  split; [exact Hvd|]. split; [exact Hc|]. split; [reflexivity|].
  exact (X13_AllocatePendingSpillOperand_resolves_chain _ _
           Example.loop_slot _ _ Hvd Hc eq_refl).
Defined.

(** X14 at [Example.pending_data], where the register of [v0] has the
    pending uses 5 and 4: operand 2 joins them and all three are
    committed to register 0. *)
Lemma X14_witness :
  pending_chain (operands Example.pending_data)
    (pending_uses Example.pending_register) [5%nat; 4%nat]
  /\ ~ In 2%nat [5%nat; 4%nat]
  /\ IsPending Example.r0_operand = false
  /\ Register_PendingUse Example.pending_register 2%nat 0 3
       Example.pending_data
     = Some Example.pending_used
  /\ pending_uses (fst Example.pending_used) = Some 2%nat
  /\ exists r2 data2,
       Register_Commit (fst Example.pending_used) Example.r0_operand
         (snd Example.pending_used) = Some (r2, data2)
       /\ pending_uses r2 = None
       /\ virtual_register_ r2 = virtual_register_ (fst Example.pending_used)
       /\ (forall p, In p [2%nat; 5%nat; 4%nat] ->
             operands data2 !! p = Some Example.r0_operand)
       /\ (forall p, ~ In p [2%nat; 5%nat; 4%nat] ->
             operands data2 !! p = operands Example.pending_data !! p).
Proof.
  assert (pending_chain (operands Example.pending_data)
            (pending_uses Example.pending_register) [5%nat; 4%nat]) as Hc.
  { apply (pending_chain_link _ 5%nat (Some 4%nat)); [reflexivity|].
    apply (pending_chain_link _ 4%nat None); [reflexivity|].
    constructor. }
  assert (~ In 2%nat [5%nat; 4%nat]) as Hn.
  { simpl. intros [Hn|[Hn|[]]]; discriminate. }
  assert (Register_PendingUse Example.pending_register 2%nat 0 3
            Example.pending_data
          = Some (fst Example.pending_used, snd Example.pending_used))
    as Hp by (vm_compute; reflexivity).
  split; [exact Hc|]. split; [exact Hn|]. split; [reflexivity|].
  split; [vm_compute; reflexivity|].
  exact (X14_pending_uses_are_committed _ _ _ _ _ _ _ Example.r0_operand _
           Hc Hn eq_refl Hp).
Defined.

(** ** Spill slots *)

Section SpillSlots.
Context `{Platform}.

Lemma filter_all_true {A} (f : A -> bool) l :
  (forall x, In x l -> f x = true) -> List.filter f l = l.
Proof.
  induction l as [|x l IH]; simpl; intros Hall; [done|].
  rewrite (Hall x) by (by left). f_equal. apply IH. intros y Hy.
  apply Hall. by right.
Qed.

Lemma filter_all_false {A} (f : A -> bool) l :
  (forall x, In x l -> f x = false) -> List.filter f l = [].
Proof.
  induction l as [|x l IH]; simpl; intros Hall; [done|].
  rewrite (Hall x) by (by left). apply IH. intros y Hy.
  apply Hall. by right.
Qed.

Lemma AdvanceTo_loop_sorted instr_index allocated :
  StronglySorted (fun s t => last_use s <= last_use t) allocated ->
  forall free,
    AdvanceTo_loop instr_index allocated free
    = (List.filter (fun s => instr_index <=? last_use s) allocated,
       rev (List.filter (fun s => last_use s <? instr_index) allocated)
         ++ free).
Proof.
  induction 1 as [|top rest Hs IH Hall]; intros free; simpl; [done|].
  destruct (Z.gtb_spec instr_index (last_use top)) as [Hgt|Hle].
  - rewrite IH.
    replace (instr_index <=? last_use top) with false
      by (symmetry; apply Z.leb_gt; lia).
    replace (last_use top <? instr_index) with true
      by (symmetry; apply Z.ltb_lt; lia).
    simpl. by rewrite <- app_assoc.
  - rewrite List.Forall_forall in Hall.
    replace (instr_index <=? last_use top) with true
      by (symmetry; apply Z.leb_le; lia).
    replace (last_use top <? instr_index) with false
      by (symmetry; apply Z.ltb_ge; lia).
    rewrite filter_all_true, filter_all_false; [done| |].
    + intros t Ht. apply Hall in Ht. apply Z.ltb_ge. lia.
    + intros t Ht. apply Hall in Ht. apply Z.leb_le. lia.
Qed.

(** X15: on a queue of allocated slots whose top is always a slot of
    least last use, [AdvanceTo] moves to the free list exactly the slots
    whose last use is before the instruction it advances to, the one that
    expired last in front, and keeps all the others allocated. *)
Theorem X15_AdvanceTo_frees_exactly_the_expired al instr_index :
  StronglySorted (fun s t => last_use s <= last_use t) (allocated_slots_ al) ->
  AdvanceTo al instr_index
  = mkSlotAllocator
      (List.filter (fun s => instr_index <=? last_use s) (allocated_slots_ al))
      (rev (List.filter (fun s => last_use s <? instr_index)
              (allocated_slots_ al))
         ++ free_slots_ al)
      instr_index.
Proof.
  intros Hs. unfold AdvanceTo. by rewrite AdvanceTo_loop_sorted.
Qed.

Lemma GetFreeSpillSlot_None free width :
  GetFreeSpillSlot free width = None ->
  forall t, In t free -> byte_width t <> width.
Proof.
  induction free as [|slot free IH]; simpl; [done|].
  destruct (Z.eqb_spec (byte_width slot) width) as [Heq|Hne];
    [discriminate|].
  destruct (GetFreeSpillSlot free width) as [[s rest]|]; [discriminate|].
  intros _ t [<-|Ht]; auto.
Qed.

(** X16: [GetFreeSpillSlot] takes out of the free list the first slot of
    the byte width asked for and keeps the others in their order; it
    returns null exactly when no free slot has that width. *)
Theorem X16_GetFreeSpillSlot_first_fit free width :
  match GetFreeSpillSlot free width with
  | Some (slot, rest) =>
      exists l1 l2,
        free = l1 ++ slot :: l2
        /\ rest = l1 ++ l2
        /\ byte_width slot = width
        /\ forall t, In t l1 -> byte_width t <> width
  | None => forall t, In t free -> byte_width t <> width
  end.
Proof.
  induction free as [|slot free IH]; simpl; [done|].
  destruct (Z.eqb_spec (byte_width slot) width) as [Heq|Hne].
  - exists [], free. done.
  - destruct (GetFreeSpillSlot free width) as [[s rest]|].
    + destruct IH as (l1 & l2 & -> & -> & Hw & Hl1).
      exists (slot :: l1), l2. repeat split; try done.
      intros t [<-|Ht]; auto.
    + intros t [<-|Ht]; auto.
Qed.

(** X17: [Allocate] asks the frame for a new slot only when, after
    advancing to the start of the live range, no free slot has the byte
    width of the virtual register; otherwise it takes a slot off the free
    list and leaves the frame as it is.  Either way one more slot is
    allocated. *)
Theorem X17_Allocate_reuses_a_free_slot v al data al' data' vd sr :
  VirtualRegisterDataFor data v = Some vd ->
  spill_range_ vd = Some sr ->
  Allocate v al data = Some (al', data') ->
  let width := ByteWidthForStackSlot (RepresentationFor data (vreg vd)) in
  let al1 := AdvanceTo al (start_ (live_range sr)) in
  position_ al' = start_ (live_range sr)
  /\ length (allocated_slots_ al') = S (length (allocated_slots_ al1))
  /\ if existsb (fun s => byte_width s =? width) (free_slots_ al1)
     then frame data' = frame data
          /\ S (length (free_slots_ al')) = length (free_slots_ al1)
     else frame data'
          = fst (Frame_AllocateSpillSlot (frame data) width)
          /\ free_slots_ al' = free_slots_ al1.
Proof.
  intros Hvd Hsr Ha width al1. unfold Allocate in Ha.
  rewrite Hvd in Ha. simpl in Ha. rewrite Hsr in Ha. simpl in Ha.
  fold width in Ha. fold al1 in Ha.
  assert (position_ al1 = start_ (live_range sr)) as Hpos.
  { unfold al1, AdvanceTo. by destruct (AdvanceTo_loop _ _ _). }
  destruct (GetFreeSpillSlot (free_slots_ al1) width) as [[slot rest]|]
    eqn:Hget.
  - destruct (AllocatePendingSpillOperand v _ data) as [d1|] eqn:Hp;
      [simpl in Ha|discriminate].
    injection Ha as <- <-. simpl.
    split; [done|]. split.
    { rewrite (Permutation_length (queue_push_Permutation _ _)). done. }
    pose proof (GetFreeSpillSlot_Some _ _ _ _ Hget) as Hperm.
    pose proof (GetFreeSpillSlot_width _ _ _ _ Hget) as Hw.
    replace (existsb (fun s => byte_width s =? width) (free_slots_ al1))
      with true.
    2: { symmetry. apply existsb_exists. exists slot. split.
         - eapply Permutation_in; [symmetry; exact Hperm|]. by left.
         - by apply Z.eqb_eq. }
    split.
    + unfold AllocatePendingSpillOperand in Hp. rewrite Hvd in Hp.
      simpl in Hp.
      by apply AllocatePendingChain_spec in Hp as (_ & ? & _).
    + by rewrite (Permutation_length Hperm).
  - pose proof (GetFreeSpillSlot_None _ _ Hget) as Hfit.
    destruct (Frame_AllocateSpillSlot (frame data) width) as [f stack_slot]
      eqn:Hf.
    destruct (AllocatePendingSpillOperand v _ _) as [d1|] eqn:Hp;
      [simpl in Ha|discriminate].
    injection Ha as <- <-. simpl.
    split; [done|]. split.
    { rewrite (Permutation_length (queue_push_Permutation _ _)). done. }
    replace (existsb (fun s => byte_width s =? width) (free_slots_ al1))
      with false.
    2: { symmetry. apply not_true_is_false. intros Hex.
         apply existsb_exists in Hex as (t & Ht & Hw).
         apply Z.eqb_eq in Hw. by apply (Hfit t). }
    split; [|done].
    unfold AllocatePendingSpillOperand in Hp.
    unfold VirtualRegisterDataFor in Hp. simpl in Hp.
    unfold VirtualRegisterDataFor in Hvd. rewrite Hvd in Hp. simpl in Hp.
    by apply AllocatePendingChain_spec in Hp as (_ & ? & _).
Qed.

End SpillSlots.

(** X15 at [Example.two_slots]: advancing to instruction 3 frees the slot
    last used by instruction 2 and keeps the one used until 5. *)
Lemma X15_witness :
  StronglySorted (fun s t => last_use s <= last_use t)
    (allocated_slots_ Example.two_slots)
  /\ AdvanceTo Example.two_slots 3
     = mkSlotAllocator [mkSlot 1 8 (mkRange 1 5)] [mkSlot 0 8 (mkRange 1 2)]
         3.
Proof.
  assert (StronglySorted (fun s t => last_use s <= last_use t)
            (allocated_slots_ Example.two_slots)) as Hs.
  { repeat constructor. vm_compute. discriminate. }
  split; [exact Hs|].
  exact (X15_AdvanceTo_frees_exactly_the_expired Example.two_slots 3 Hs).
Defined.

(** X17 at [Example.reuse_first]: the slot of [v0] has expired when [v1]
    is allocated and is used again; the frame stays as it is. *)
Lemma X17_witness :
  VirtualRegisterDataFor (snd Example.reuse_first) 1
  = Some (mkVreg (Some 8%nat) (Some (mkSpillRange (mkRange 4 5) 0)) 3 1
            false false)
  /\ Allocate 1 (fst Example.reuse_first) (snd Example.reuse_first)
     = Some Example.reuse_second
  /\ position_ (fst Example.reuse_second) = 4
  /\ length (allocated_slots_ (fst Example.reuse_second)) = 1%nat
  /\ frame (snd Example.reuse_second) = frame (snd Example.reuse_first)
  /\ S (length (free_slots_ (fst Example.reuse_second))) = 1%nat.
Proof.
  assert (VirtualRegisterDataFor (snd Example.reuse_first) 1
          = Some (mkVreg (Some 8%nat)
                    (Some (mkSpillRange (mkRange 4 5) 0)) 3 1 false false))
    as Hvd by (vm_compute; reflexivity).
  assert (Allocate 1 (fst Example.reuse_first) (snd Example.reuse_first)
          = Some (fst Example.reuse_second, snd Example.reuse_second))
    as Ha by (vm_compute; reflexivity).
  split; [exact Hvd|]. split; [vm_compute; reflexivity|].
  exact (X17_Allocate_reuses_a_free_slot _ _ _ _ _ _ _ Hvd eq_refl Ha).
Defined.

(** ** Inputs *)

Section Inputs.
Context `{Platform}.

Lemma RegisterState_Commit_operand rs reg allocated operand data rs' data' :
  RegisterState_Commit rs reg allocated operand data = Some (rs', data') ->
  IsPending allocated = false ->
  operands data' !! operand = Some allocated.
Proof.
  unfold RegisterState_Commit. intros Hc Hal.
  destruct (ReplaceWith_value data operand allocated) as [d1|] eqn:Hr;
    [simpl in Hc|discriminate].
  apply ReplaceWith_value_spec in Hr as [Hlt ->].
  assert (operands
            (set_operands data (<[operand := allocated]> (operands data)))
            !! operand = Some allocated) as Hop
    by (simpl; by apply list_lookup_insert_eq).
  destruct (RegisterState_IsAllocated rs reg) as [[]|];
    [simpl in Hc| |discriminate].
  - destruct (reg_data rs reg) as [r|]; [simpl in Hc|discriminate].
    unfold Register_Commit in Hc.
    destruct (AllocatePendingChain _ _ _ _) as [d2|] eqn:Hch;
      [simpl in Hc|discriminate].
    destruct (AllocatePendingChain_spec _ _ Hal _ _ _ Hch)
      as (_ & _ & Hkeep & _).
    binds. by apply Hkeep.
  - simpl in Hc. by simplify_eq.
Qed.

Lemma AllocatedOperandForReg_allocated a data reg v op :
  AllocatedOperandForReg a data reg v = Some op ->
  IsAllocated op = true /\ IsPending op = false.
Proof. unfold AllocatedOperandForReg. intros Ha. binds. done. Qed.

Lemma AllocateUse_operand reg v operand instr_index pos a data a' data' :
  AllocateUse reg v operand instr_index pos a data = Some (a', data') ->
  exists op, operands data' !! operand = Some op /\ IsAllocated op = true.
Proof.
  unfold AllocateUse. intros Ha.
  destruct (AllocatedOperandForReg a data reg v) as [allocated|] eqn:Hal;
    [simpl in Ha|discriminate].
  apply AllocatedOperandForReg_allocated in Hal as [Hal Hnp].
  destruct (register_state_ a) as [rs|]; [simpl in Ha|discriminate].
  destruct (RegisterState_Commit rs reg allocated operand data)
    as [[rs1 d1]|] eqn:Hc; [simpl in Ha|discriminate].
  apply RegisterState_Commit_operand in Hc; [|done].
  binds. eauto.
Qed.

Lemma AllocatePendingUse_operand reg v operand instr_index a data a' data' :
  AllocatePendingUse reg v operand instr_index a data = Some (a', data') ->
  exists op, operands data' !! operand = Some op /\ IsPending op = true.
Proof.
  unfold AllocatePendingUse, RegisterState_AllocatePendingUse,
    Register_PendingUse.
  intros Ha. binds.
  match goal with Hr : ReplaceWith_value _ _ _ = Some _ |- _ =>
    apply ReplaceWith_value_spec in Hr as [Hlt ->] end.
  simpl. eexists. split; [by apply list_lookup_insert_eq|done].
Qed.

Lemma AllocateUseWithMove_operand reg v operand instr_index pos a data a'
    data' :
  AllocateUseWithMove reg v operand instr_index pos a data = Some (a', data') ->
  exists op, operands data' !! operand = Some op /\ IsAllocated op = true.
Proof.
  unfold AllocateUseWithMove. intros Ha.
  destruct (AllocatedOperandForReg a data reg v) as [to|] eqn:Hal;
    [simpl in Ha|discriminate].
  apply AllocatedOperandForReg_allocated in Hal as [Hal Hnp].
  binds.
  match goal with Hr : ReplaceWith_value _ _ _ = Some _ |- _ =>
    apply ReplaceWith_value_spec in Hr as [Hlt ->] end.
  simpl. eexists. split; [by apply list_lookup_insert_eq|done].
Qed.

Lemma ChooseRegisterFor_rep_invalid pos must_use_register a data reg a' data' :
  ChooseRegisterFor_rep pos must_use_register a data = Some (reg, a', data') ->
  is_valid reg = false ->
  a' = a /\ data' = data.
Proof.
  unfold ChooseRegisterFor_rep. intros Hc Hv.
  destruct (ChooseFreeRegister a pos) as [r0|]; [simpl in Hc|discriminate].
  destruct (negb (is_valid r0) && must_use_register); [|by simplify_eq].
  destruct (ChooseRegisterToSpill a data pos) as [r1|];
    [simpl in Hc|discriminate].
  destruct (SpillRegister r1 a data) as [[a1 d1]|] eqn:Hs;
    [simpl in Hc|discriminate].
  injection Hc as -> <- <-.
  unfold is_valid in Hv. apply negb_false_iff, Z.eqb_eq in Hv. subst reg.
  unfold SpillRegister in Hs.
  destruct (register_state_ a) as [rs|]; [simpl in Hs|discriminate].
  unfold RegisterState_IsAllocated, HasRegisterData in Hs. simpl in Hs.
  discriminate.
Qed.

Lemma ChooseRegisterFor_invalid v pos must_use_register a data reg a' data' :
  ChooseRegisterFor v pos must_use_register a data = Some (reg, a', data') ->
  is_valid reg = false ->
  a' = a /\ data' = data.
Proof.
  unfold ChooseRegisterFor. intros Hc Hv.
  destruct (VirtualRegisterDataFor data v) as [vd|];
    [simpl in Hc|discriminate].
  destruct (RegisterForVirtualRegister a (vreg vd)) as [r|];
    [simpl in Hc|discriminate].
  destruct (negb (is_valid r) && _).
  - eapply ChooseRegisterFor_rep_invalid; eauto.
  - by simplify_eq.
Qed.

(** The operand that [SpillOperand] writes is allocated, pending or a
    constant when the spill operand of a constant is a constant. *)
Lemma SpillOperand_operand v vd p i data data' :
  VirtualRegisterDataFor data v = Some vd ->
  (is_constant vd = true ->
   exists q c,
     spill_operand_ vd = Some q /\ read_operand data q = Some (Constant c)) ->
  SpillOperand v p i data = Some data' ->
  exists op,
    operands data' !! p = Some op
    /\ (IsAllocated op = true \/ IsPending op = true
        \/ IsConstant op = true).
Proof.
  intros Hvd Hconst Hs.
  apply SpillOperand_spec in Hs as (Hlt & (x & -> & Hx) & _).
  exists x. split; [by apply list_lookup_insert_eq|].
  rewrite (resolved_spill_operand_unfold _ _ _ Hvd) in Hx.
  destruct (spill_operand_ vd) as [q|] eqn:Hq; simpl in Hx;
    [|by right; left].
  destruct (read_operand data q) as [op|] eqn:Hop; simpl in Hx;
    [|by right; left].
  destruct (IsAllocated op) eqn:Hal; simpl in Hx.
  - subst x. by left.
  - destruct (is_constant vd) eqn:Hc; [|by right; left].
    subst x. destruct (Hconst eq_refl) as (q' & c & Hq' & Hc').
    injection Hq' as <-. rewrite Hop in Hc'. injection Hc' as ->.
    by right; right.
Qed.

(** X18: [AllocateInput] resolves its operand: whichever policy the
    operand has, it is afterwards an allocated operand, a pending operand
    or, for a constant, a constant operand, and with a fixed slot policy
    it is that stack slot.  (The spill operand of a constant is taken to
    be a constant operand, as [DefineOutputs] leaves it.) *)
Theorem X18_AllocateInput_resolves_the_operand operand instr_index a data a'
    data' u vd :
  read_unallocated data operand = Some u ->
  VirtualRegisterDataFor data (uo_virtual_register u) = Some vd ->
  (is_constant vd = true ->
   exists q c,
     spill_operand_ vd = Some q /\ read_operand data q = Some (Constant c)) ->
  AllocateInput operand instr_index a data = Some (a', data') ->
  exists op,
    operands data' !! operand = Some op
    /\ (IsAllocated op = true \/ IsPending op = true
        \/ IsConstant op = true)
    /\ (HasFixedSlotPolicy u = true ->
          op = Allocated STACK_SLOT
                 (RepresentationFor data (uo_virtual_register u))
                 (fixed_slot_index u)).
Proof.
  intros Hu Hvd Hconst Ha. unfold AllocateInput in Ha.
  rewrite Hu in Ha. simpl in Ha. rewrite Hvd in Ha. simpl in Ha.
  destruct (HasFixedSlotPolicy u) eqn:Hfs.
  { destruct (ReplaceWith_value data operand _) as [d1|] eqn:Hr;
      [simpl in Ha|discriminate].
    apply ReplaceWith_value_spec in Hr as [Hlt ->].
    destruct (AddGapMove _ instr_index END _ _) as [[mv d2]|] eqn:Hg;
      [simpl in Ha|discriminate].
    apply AddGapMove_spec in Hg as (-> & Hops2 & _).
    destruct (SpillOperand _ _ instr_index d2) as [d3|] eqn:Hs;
      [simpl in Ha|discriminate].
    injection Ha as <- <-.
    apply SpillOperand_spec in Hs as (_ & (x & -> & _) & _).
    simpl in *. rewrite Hops2. rewrite length_insert.
    eexists. split.
    - rewrite list_lookup_insert_ne by lia.
      rewrite lookup_app_l by (rewrite length_insert; lia).
      by apply list_lookup_insert_eq.
    - split; [by left|done]. }
  assert (forall op, operands data' !! operand = Some op ->
            IsAllocated op = true \/ IsPending op = true
            \/ IsConstant op = true ->
            exists op,
              operands data' !! operand = Some op
              /\ (IsAllocated op = true \/ IsPending op = true
                  \/ IsConstant op = true)
              /\ (false = true ->
                  op = Allocated STACK_SLOT
                         (RepresentationFor data (uo_virtual_register u))
                         (fixed_slot_index u))) as Hdone.
  { intros op Hop Hun. exists op. repeat split; try done. }
  destruct (HasSlotPolicy u).
  { destruct (SpillOperand _ operand instr_index data) as [d1|] eqn:Hs;
      [simpl in Ha|discriminate].
    injection Ha as <- <-.
    destruct (SpillOperand_operand _ _ _ _ _ _ Hvd Hconst Hs)
      as (op & Hop & Hun). eauto. }
  destruct (HasFixedRegisterPolicy u || HasFixedFPRegisterPolicy u).
  { destruct (fixed_register_index u) as [code|];
      [simpl in Ha|discriminate].
    destruct (FromRegCode _ code) as [reg|]; [simpl in Ha|discriminate].
    destruct (VirtualRegisterIsUnallocatedOrInReg _ _ reg) as [in_reg|];
      [simpl in Ha|discriminate].
    destruct in_reg; simpl in Ha.
    - apply AllocateUse_operand in Ha as (op & Hop & Hal).
      apply (Hdone op); [done|by left].
    - apply AllocateUseWithMove_operand in Ha as (op & Hop & Hal).
      apply (Hdone op); [done|by left]. }
  destruct (ChooseRegisterFor _ _ _ _ data) as [[[reg a1] d1]|] eqn:Hch;
    [simpl in Ha|discriminate].
  destruct (is_valid reg) eqn:Hv.
  - destruct (HasRegisterPolicy u || _).
    + apply AllocateUse_operand in Ha as (op & Hop & Hal).
      apply (Hdone op); [done|by left].
    + apply AllocatePendingUse_operand in Ha as (op & Hop & Hal).
      apply (Hdone op); [done|by right; left].
  - apply ChooseRegisterFor_invalid in Hch as [-> ->]; [|done].
    destruct (SpillOperand _ operand instr_index data) as [d2|] eqn:Hs;
      [simpl in Ha|discriminate].
    injection Ha as <- <-.
    destruct (SpillOperand_operand _ _ _ _ _ _ Hvd Hconst Hs)
      as (op & Hop & Hun). eauto.
Qed.

End Inputs.

(** X18 at [Example.call_defined]: the use of [v0] by instruction 3 must
    be in a register and gets register 0. *)
Lemma X18_witness :
  read_unallocated Example.call_defined 2%nat
  = Some (mkUnallocated MUST_HAVE_REGISTER true 0)
  /\ VirtualRegisterDataFor Example.call_defined 0
     = Some (mkVreg None None 0 0 false false)
  /\ AllocateInput 2%nat 3 (general_reg_allocator Example.call_allocator)
       Example.call_defined
     = Some Example.input_allocated
  /\ operands (snd Example.input_allocated) !! 2%nat
     = Some Example.r0_operand
  /\ exists op,
       operands (snd Example.input_allocated) !! 2%nat = Some op
       /\ (IsAllocated op = true \/ IsPending op = true
           \/ IsConstant op = true)
       /\ (HasFixedSlotPolicy (mkUnallocated MUST_HAVE_REGISTER true 0)
           = true ->
           op = Allocated STACK_SLOT
                  (RepresentationFor Example.call_defined 0) 0).
Proof.
  assert (read_unallocated Example.call_defined 2%nat
          = Some (mkUnallocated MUST_HAVE_REGISTER true 0)) as Hu
    by (vm_compute; reflexivity).
  assert (VirtualRegisterDataFor Example.call_defined 0
          = Some (mkVreg None None 0 0 false false)) as Hvd
    by (vm_compute; reflexivity).
  assert (AllocateInput 2%nat 3 (general_reg_allocator Example.call_allocator)
            Example.call_defined
          = Some (fst Example.input_allocated, snd Example.input_allocated))
    as Ha by (vm_compute; reflexivity).
  split; [exact Hu|]. split; [exact Hvd|].
  split; [vm_compute; reflexivity|]. split; [vm_compute; reflexivity|].
  refine (X18_AllocateInput_resolves_the_operand _ _ _ _ _ _ _ _ Hu Hvd _ Ha).
  simpl. discriminate.
Defined.

(** ** Spilling every register *)

Section SpillAll.
Context `{Platform}.

Lemma SpillRegisters_Consistent regs :
  forall a data a' data',
    CheckConsistency a data = Some true ->
    SpillRegisters regs a data = Some (a', data') ->
    CheckConsistency a' data' = Some true.
Proof.
  induction regs as [|reg regs IH]; simpl; intros a data a' data' Hc Hs.
  - by simplify_eq.
  - destruct (SpillRegister reg a data) as [[a1 d1]|] eqn:H1;
      [simpl in Hs|discriminate].
    eapply IH; [|exact Hs].
    by destruct (SpillRegister_Consistent _ _ _ _ _ Hc H1).
Qed.

(** X19: from a state in which the [CHECK]s of [CheckConsistency] pass,
    [SpillAllRegisters] leaves a state in which they pass, no register
    holds a virtual register and no virtual register has a register. *)
Theorem X19_SpillAllRegisters_frees_every_register a data a' data' :
  CheckConsistency a data = Some true ->
  SpillAllRegisters a data = Some (a', data') ->
  CheckConsistency a' data' = Some true
  /\ (forall reg, ~ RegAllocated a' reg)
  /\ (forall v,
        0 <= v < Z.of_nat (length (virtual_register_data_ data')) ->
        RegisterForVirtualRegister a' v = Some RegisterIndex_Invalid).
Proof.
  intros Hc Hs. pose proof Hc as Hcons.
  apply CheckConsistency_Consistent in Hcons as (rs & Hrs & _).
  unfold SpillAllRegisters in Hs. rewrite Hrs in Hs.
  pose proof (SpillRegisters_Consistent _ _ _ _ _ Hc Hs) as Hc'.
  destruct (SpillRegisters_spec _ _ _ _ _ _ Hs Hrs)
    as (rs' & Hrs' & Hlen & Hnot & _).
  assert (forall reg, ~ allocated_in rs' reg) as Hnone.
  { intros reg Hal. apply (Hnot reg); [|done].
    apply allocated_in_range in Hal.
    unfold RegisterState_indices in *. by rewrite <- Hlen. }
  split; [done|]. split.
  - intros reg (rs2 & Hrs2 & Hal). rewrite Hrs' in Hrs2.
    injection Hrs2 as <-. by apply (Hnone reg).
  - intros v Hv.
    apply CheckConsistency_Consistent in Hc' as (rs2 & Hrs2 & Hvs & _).
    rewrite Hrs' in Hrs2. injection Hrs2 as <-.
    destruct (Hvs v Hv) as (reg & Hreg & Hheld).
    rewrite Hreg. f_equal.
    destruct (decide (reg = RegisterIndex_Invalid)) as [|Hne]; [done|].
    exfalso. destruct (Hheld Hne) as (Hvr & _).
    apply (Hnone reg). apply IsAllocated_true.
    unfold RegisterState_VirtualRegisterForRegister in Hvr.
    destruct (RegisterState_IsAllocated rs' reg) as [[]|];
      [done| |discriminate].
    simpl in Hvr. injection Hvr as Hvr.
    unfold kInvalidVirtualRegister in Hvr. lia.
Qed.

End SpillAll.

(** X19 at [Example.verbs_pending], where both registers are taken. *)
Lemma X19_witness :
  CheckConsistency (fst Example.verbs_pending) (snd Example.verbs_pending)
  = Some true
  /\ SpillAllRegisters (fst Example.verbs_pending)
       (snd Example.verbs_pending)
     = Some Example.verbs_spill_all
  /\ RegisterForVirtualRegister (fst Example.verbs_pending) 1 = Some 0
  /\ CheckConsistency (fst Example.verbs_spill_all)
       (snd Example.verbs_spill_all)
     = Some true
  /\ (forall reg, ~ RegAllocated (fst Example.verbs_spill_all) reg)
  /\ (forall v,
        0 <= v
        < Z.of_nat
            (length (virtual_register_data_ (snd Example.verbs_spill_all))) ->
        RegisterForVirtualRegister (fst Example.verbs_spill_all) v
        = Some RegisterIndex_Invalid).
Proof.
  assert (CheckConsistency (fst Example.verbs_pending)
            (snd Example.verbs_pending) = Some true) as Hc
    by (vm_compute; reflexivity).
  assert (SpillAllRegisters (fst Example.verbs_pending)
            (snd Example.verbs_pending)
          = Some (fst Example.verbs_spill_all, snd Example.verbs_spill_all))
    as Hs by (vm_compute; reflexivity).
  split; [exact Hc|]. split; [vm_compute; reflexivity|].
  split; [vm_compute; reflexivity|].
  exact (X19_SpillAllRegisters_frees_every_register _ _ _ _ Hc Hs).
Defined.

(** ** torque-internal.tq *)

Section TorqueInternal.
Import Torque.
Context `{Target}.

Lemma to_signed_id bits x :
  0 < bits -> is_signed bits x -> to_signed bits x = x.
Proof.
  unfold is_signed, to_signed. intros Hb Hx.
  assert (2 ^ bits = 2 * 2 ^ (bits - 1)) as Hp.
  { rewrite <- Z.pow_succ_r by lia. f_equal. lia. }
  rewrite Z.mod_small by lia. lia.
Qed.

Lemma to_unsigned_id bits x :
  0 <= x < 2 ^ bits -> to_unsigned bits x = x.
Proof. unfold to_unsigned. intros Hx. by apply Z.mod_small. Qed.

Lemma to_unsigned_neg bits x :
  - 2 ^ bits <= x < 0 -> to_unsigned bits x = x + 2 ^ bits.
Proof.
  unfold to_unsigned. intros Hx.
  rewrite <- (Z.mod_add x 1 (2 ^ bits)) by lia.
  rewrite Z.mod_small; lia.
Qed.

Lemma pow2_pointer :
  0 < kBitsPerPointer ->
  2 ^ kBitsPerPointer = 2 * 2 ^ (kBitsPerPointer - 1)
  /\ 0 < 2 ^ (kBitsPerPointer - 1).
Proof.
  intros Hb. split.
  - rewrite <- Z.pow_succ_r by lia. f_equal. lia.
  - apply Z.pow_pos_nonneg; lia.
Qed.

(** X20: [TryAtIndex] gives the reference to the field exactly for the
    indices from 0 up to the length of the slice; a negative index goes to
    [OutOfBounds] like one that is too large. *)
Theorem X20_TryAtIndex_checks_the_bounds SizeOf (s : Slice) index :
  0 < kBitsPerPointer ->
  is_intptr index ->
  is_intptr (Slice_length s) ->
  0 <= Slice_length s ->
  Slice_TryAtIndex SizeOf s index
  = if (0 <=? index) && (index <? Slice_length s)
    then Some (NewReference (Slice_object s)
                 (IntPtrAdd (Slice_offset s) (IntPtrMul index SizeOf)))
    else None.
Proof.
  intros Hb Hi Hl Hn. destruct (pow2_pointer Hb) as [Hp Hpos].
  unfold Slice_TryAtIndex, Convert_uintptr, is_intptr, is_signed in *.
  rewrite (to_unsigned_id _ (Slice_length s)) by lia.
  destruct (Z.leb_spec 0 index) as [Hge|Hlt]; simpl.
  - by rewrite to_unsigned_id by lia.
  - rewrite to_unsigned_neg by lia.
    destruct (Z.ltb_spec (index + 2 ^ kBitsPerPointer) (Slice_length s));
      [lia|done].
Qed.

Lemma Slice_fits_in_range SizeOf (s : Slice) n i :
  0 < kBitsPerPointer -> Slice_fits SizeOf s n -> (i <= n)%nat ->
  IntPtrMul (Z.of_nat i) SizeOf = Z.of_nat i * SizeOf
  /\ IntPtrAdd (Slice_offset s) (Z.of_nat i * SizeOf)
     = Slice_offset s + Z.of_nat i * SizeOf.
Proof.
  intros Hb (Hl & Hs & Ho & Hfit) Hi. destruct (pow2_pointer Hb) as [Hp Hpos].
  assert (0 <= Z.of_nat i * SizeOf <= Z.of_nat n * SizeOf) by nia.
  unfold IntPtrMul, IntPtrAdd.
  split; apply to_signed_id; try done; unfold is_signed; lia.
Qed.

Lemma SliceIterator_references_from SizeOf (s : Slice) n :
  0 < kBitsPerPointer -> Slice_fits SizeOf s n ->
  forall k i, (i + k = n)%nat ->
    SliceIterator_references SizeOf k
      (mkSliceIterator (Slice_object s)
         (Slice_offset s + Z.of_nat i * SizeOf)
         (Slice_offset s + Z.of_nat n * SizeOf))
    = Some (List.map (Slice_field SizeOf s) (seq i k)).
Proof.
  intros Hb Hfit. pose proof Hfit as (Hl & Hs & Ho & Hr).
  induction k as [|k IH]; intros i Hi.
  - simpl. unfold SliceIterator_NextReference, SliceIterator_Empty. simpl.
    replace i with n by lia. by rewrite Z.eqb_refl.
  - simpl. unfold SliceIterator_NextReference, SliceIterator_Empty. simpl.
    destruct (Z.eqb_spec (Slice_offset s + Z.of_nat i * SizeOf)
                (Slice_offset s + Z.of_nat n * SizeOf)) as [Heq|_];
      [nia|].
    destruct (Slice_fits_in_range SizeOf s n (S i) Hb Hfit ltac:(lia))
      as [_ Hadd].
    replace (IntPtrAdd (Slice_offset s + Z.of_nat i * SizeOf) SizeOf)
      with (Slice_offset s + Z.of_nat (S i) * SizeOf).
    2: { rewrite <- Hadd. unfold IntPtrAdd. f_equal. lia. }
    rewrite (IH (S i)) by lia. done.
Qed.

(** X21: the iterator of a slice that lies in the address range gives the
    references to its fields in order, one for each index, and then
    [NoMore]; they are the references that [TryAtIndex] gives for the
    indices from 0. *)
Theorem X21_Slice_Iterator_gives_the_fields SizeOf (s : Slice) n :
  0 < kBitsPerPointer ->
  Slice_fits SizeOf s n ->
  SliceIterator_references SizeOf n (Slice_Iterator SizeOf s)
  = Some (List.map (Slice_field SizeOf s) (seq 0 n))
  /\ forall i, (i < n)%nat ->
       Slice_TryAtIndex SizeOf s (Z.of_nat i)
       = Some (Slice_field SizeOf s i).
Proof.
  intros Hb Hfit. pose proof Hfit as (Hl & Hs & Ho & Hr).
  destruct (pow2_pointer Hb) as [Hp Hpos]. split.
  - unfold Slice_Iterator. rewrite Hl.
    destruct (Slice_fits_in_range SizeOf s n n Hb Hfit ltac:(lia))
      as [-> ->].
    replace (Slice_offset s) with (Slice_offset s + Z.of_nat 0 * SizeOf)
      at 1 by lia.
    by apply SliceIterator_references_from.
  - intros i Hi.
    assert (Z.of_nat n * SizeOf >= Z.of_nat n) by nia.
    unfold Slice_TryAtIndex, Convert_uintptr.
    rewrite !to_unsigned_id by lia.
    replace (Z.of_nat i <? Slice_length s) with true
      by (symmetry; apply Z.ltb_lt; lia).
    destruct (Slice_fits_in_range SizeOf s n i Hb Hfit ltac:(lia))
      as [-> ->].
    done.
Qed.

Lemma Slice_field_inj SizeOf (s : Slice) i j :
  0 < SizeOf -> Slice_field SizeOf s i = Slice_field SizeOf s j -> i = j.
Proof.
  unfold Slice_field, NewReference. intros Hs [= Heq]. nia.
Qed.

Lemma supplies_length {T I} `{!Iterator (T := T) I} refs :
  forall vs (origin : I) (h : Heap),
    supplies h origin refs vs -> length vs = length refs.
Proof.
  induction refs as [|r refs IH]; intros [|v vs] origin h Hsup;
    simpl in *; try done.
  destruct Hsup as (origin' & _ & Hsup). f_equal. eauto.
Qed.

Lemma InitializeFieldsFromIterator_loop_spec {T I} `{!Iterator (T := T) I}
    SizeOf (s : Slice) n :
  0 < kBitsPerPointer -> Slice_fits SizeOf s n ->
  forall vs i (origin : I) (h : Heap),
    (i + length vs = n)%nat ->
    supplies h origin
      (List.map (Slice_field SizeOf s) (seq i (length vs))) vs ->
    exists h',
      InitializeFieldsFromIterator_loop SizeOf (S (length vs))
        (mkSliceIterator (Slice_object s)
           (Slice_offset s + Z.of_nat i * SizeOf)
           (Slice_offset s + Z.of_nat n * SizeOf))
        origin h = Some h'
      /\ (forall j v, vs !! j = Some v ->
            h' (Slice_field SizeOf s (i + j)) = v)
      /\ (forall r,
            (forall j, (i <= j < n)%nat -> r <> Slice_field SizeOf s j) ->
            h' r = h r).
Proof.
  intros Hb Hfit. pose proof Hfit as (Hl & Hs & Ho & Hr).
  induction vs as [|v vs IH]; intros i origin h Hi Hsup.
  - exists h. simpl in *.
    unfold SliceIterator_NextReference, SliceIterator_Empty. simpl.
    replace i with n by lia. rewrite Z.eqb_refl. done.
  - simpl in Hi. cbn [length InitializeFieldsFromIterator_loop].
    unfold SliceIterator_NextReference at 1, SliceIterator_Empty. simpl.
    destruct (Z.eqb_spec (Slice_offset s + Z.of_nat i * SizeOf)
                (Slice_offset s + Z.of_nat n * SizeOf)) as [Heq|_];
      [nia|].
    simpl in Hsup. destruct Hsup as (origin' & -> & Hsup').
    destruct (Slice_fits_in_range SizeOf s n (S i) Hb Hfit ltac:(lia))
      as [_ Hadd].
    replace (IntPtrAdd (Slice_offset s + Z.of_nat i * SizeOf) SizeOf)
      with (Slice_offset s + Z.of_nat (S i) * SizeOf).
    2: { rewrite <- Hadd. unfold IntPtrAdd. f_equal. lia. }
    fold (Slice_field SizeOf s i).
    destruct (IH (S i) origin' (store h (Slice_field SizeOf s i) v)
                ltac:(lia) Hsup') as (h' & Hrun & Hin & Hout).
    exists h'. split; [exact Hrun|]. split.
    + intros [|j] w Hw; simpl in Hw.
      * injection Hw as <-. rewrite Nat.add_0_r. rewrite Hout.
        -- unfold store. by rewrite decide_True.
        -- intros j Hj Heq. apply Slice_field_inj in Heq; [lia|done].
      * replace (i + S j)%nat with (S i + j)%nat by lia. by apply Hin.
    + intros r Hr'. rewrite Hout.
      * unfold store. rewrite decide_False; [done|]. apply Hr'. lia.
      * intros j Hj. apply Hr'. lia.
Qed.

(** X22: [InitializeFieldsFromIterator] returns on a slice of [n] fields
    that lies in the address range when the origin gives a value for each
    field, its [Next] taken on the heap as the stores before have left it:
    the origin has then given [n] values, field [i] holds the [i]-th of
    them, and nothing else on the heap has changed. *)
Theorem X22_InitializeFieldsFromIterator_fills_the_slice {T I}
    `{!Iterator (T := T) I} SizeOf (target : Slice) n (origin : I) vs
    (h : Heap) :
  0 < kBitsPerPointer ->
  Slice_fits SizeOf target n ->
  supplies h origin (List.map (Slice_field SizeOf target) (seq 0 n)) vs ->
  exists h',
    InitializeFieldsFromIterator SizeOf (S n) target origin h = Some h'
    /\ length vs = n
    /\ (forall i v, vs !! i = Some v ->
          h' (Slice_field SizeOf target i) = v)
    /\ (forall r,
          (forall i, (i < n)%nat -> r <> Slice_field SizeOf target i) ->
          h' r = h r).
Proof.
  intros Hb Hfit Hsup. pose proof Hfit as (Hl & Hs & Ho & Hr).
  assert (length vs = n) as Hlen.
  { rewrite (supplies_length _ _ _ _ Hsup).
    by rewrite length_map, length_seq. }
  unfold InitializeFieldsFromIterator, Slice_Iterator. rewrite Hl.
  destruct (Slice_fits_in_range SizeOf target n n Hb Hfit ltac:(lia))
    as [-> ->].
  rewrite <- Hlen in Hsup.
  destruct (InitializeFieldsFromIterator_loop_spec SizeOf target n Hb Hfit
              vs 0%nat origin h ltac:(lia) Hsup)
    as (h' & Hrun & Hin & Hout).
  exists h'. rewrite Hlen in Hrun. simpl in Hrun.
  rewrite Z.add_0_r in Hrun. split; [exact Hrun|]. split; [exact Hlen|].
  split; [exact Hin|].
  intros r Hr'. apply Hout. intros j Hj. apply Hr'. lia.
Qed.

(** The iterator of a slice supplies the fields of a target with the
    values that its own fields hold, when no field of the target is read
    after it has been written. *)
Lemma SliceIterator_supplies {T} SizeOf (source target : Slice) m n
    (h : Heap (T := T)) :
  0 < kBitsPerPointer -> Slice_fits SizeOf source m -> (n <= m)%nat ->
  (forall i j, (j < i < n)%nat ->
     Slice_field SizeOf source i <> Slice_field SizeOf target j) ->
  supplies (Iterator0 := SliceIterator_Iterator SizeOf) h
    (Slice_Iterator SizeOf source)
    (List.map (Slice_field SizeOf target) (seq 0 n))
    (List.map (fun i => h (Slice_field SizeOf source i)) (seq 0 n)).
Proof.
  intros Hb Hfit Hn Hapart. pose proof Hfit as (Hl & Hs & Ho & Hr).
  assert (forall k i (h' : Heap (T := T)),
            (i + k = n)%nat ->
            (forall i', (i <= i' < n)%nat ->
               h' (Slice_field SizeOf source i')
               = h (Slice_field SizeOf source i')) ->
            supplies (Iterator0 := SliceIterator_Iterator SizeOf) h'
              (mkSliceIterator (Slice_object source)
                 (Slice_offset source + Z.of_nat i * SizeOf)
                 (Slice_offset source + Z.of_nat m * SizeOf))
              (List.map (Slice_field SizeOf target) (seq i k))
              (List.map (fun i => h (Slice_field SizeOf source i))
                 (seq i k))) as Hgen.
  { induction k as [|k IH]; intros i h' Hi Hsame; [done|].
    cbn [seq List.map supplies].
    eexists. split.
    - cbn [Next SliceIterator_Iterator]. unfold SliceIterator_Next,
        SliceIterator_NextReference, SliceIterator_Empty. simpl.
      destruct (Z.eqb_spec (Slice_offset source + Z.of_nat i * SizeOf)
                  (Slice_offset source + Z.of_nat m * SizeOf)) as [Heq|_];
        [nia|].
      simpl. fold (Slice_field SizeOf source i).
      rewrite Hsame by lia. reflexivity.
    - destruct (Slice_fits_in_range SizeOf source m (S i) Hb Hfit
                  ltac:(lia)) as [_ Hadd].
      replace (IntPtrAdd (Slice_offset source + Z.of_nat i * SizeOf) SizeOf)
        with (Slice_offset source + Z.of_nat (S i) * SizeOf).
      2: { rewrite <- Hadd. unfold IntPtrAdd. f_equal. lia. }
      apply IH; [lia|]. intros i' Hi'.
      unfold store. rewrite decide_False; [apply Hsame; lia|].
      apply Hapart. lia. }
  unfold Slice_Iterator. rewrite Hl.
  destruct (Slice_fits_in_range SizeOf source m m Hb Hfit ltac:(lia))
    as [-> ->].
  replace (Slice_offset source)
    with (Slice_offset source + Z.of_nat 0 * SizeOf) at 1 by lia.
  apply Hgen; [lia|done].
Qed.

(** X23: an [IteratorSequence] gives the values of its first iterator and
    then those of its second, is empty exactly when both are, and takes
    [NoMore] only after the last value of the second. *)
Theorem X23_IteratorSequence_gives_first_then_second {T First Second}
    `{!Iterator (T := T) First, !Iterator (T := T) Second} (h : Heap)
    (f : First) (s : Second) l1 l2 :
  yields h f l1 ->
  yields h s l2 ->
  yields h (mkIteratorSequence f s) (l1 ++ l2).
Proof.
  intros Hf Hs. induction Hf as [f Hfe Hfn|f f' x l1 Hfe Hfn Hf IH].
  - simpl. induction Hs as [s Hse Hsn|s s' y l2 Hse Hsn Hs IH].
    + apply yields_end; simpl.
      * unfold IteratorSequence_Empty. simpl. by rewrite Hfe, Hse.
      * unfold IteratorSequence_Next. simpl. by rewrite Hfn, Hsn.
    + eapply yields_next; [| |exact IH]; simpl.
      * unfold IteratorSequence_Empty. simpl. by rewrite Hfe, Hse.
      * unfold IteratorSequence_Next. simpl. by rewrite Hfn, Hsn.
  - simpl. eapply yields_next; [| |exact IH]; simpl.
    + unfold IteratorSequence_Empty. simpl. by rewrite Hfe.
    + unfold IteratorSequence_Next. simpl. by rewrite Hfn.
Qed.

Lemma IsTaggedAligned_mod k x :
  0 <= k -> kObjectAlignmentMask = 2 ^ k - 1 ->
  IsTaggedAligned x = true <-> x mod 2 ^ k = 0.
Proof.
  intros Hk Hm. unfold IsTaggedAligned. rewrite Hm.
  replace (2 ^ k - 1) with (Z.ones k) by (rewrite Z.ones_equiv; lia).
  rewrite Z.land_ones by done. apply Z.eqb_eq.
Qed.

(** X24: for an alignment mask of [k] one bits and an [x] for which
    [x + kObjectAlignmentMask] does not overflow, [AlignTagged x] is the
    least aligned value that is not below [x]; it is less than one
    alignment unit above [x], and is [x] exactly when [x] is aligned. *)
Theorem X24_AlignTagged_rounds_up k x :
  0 <= k < kBitsPerPointer - 1 ->
  kObjectAlignmentMask = 2 ^ k - 1 ->
  is_intptr x ->
  x + kObjectAlignmentMask < 2 ^ (kBitsPerPointer - 1) ->
  IsTaggedAligned (AlignTagged x) = true
  /\ x <= AlignTagged x < x + 2 ^ k
  /\ (IsTaggedAligned x = true <-> AlignTagged x = x)
  /\ (forall y, IsTaggedAligned y = true -> x <= y -> AlignTagged x <= y).
Proof.
  intros Hk Hm Hx Hov.
  assert (0 < 2 ^ k) as Hpos by (apply Z.pow_pos_nonneg; lia).
  assert (AlignTagged x = 2 ^ k * ((x + (2 ^ k - 1)) / 2 ^ k)) as Hr.
  { unfold AlignTagged, IntPtrAdd. rewrite to_signed_id.
    - rewrite Hm.
      replace (2 ^ k - 1) with (Z.ones k) by (rewrite Z.ones_equiv; lia).
      rewrite <- Z.ldiff_land, Z.ldiff_ones_r by lia.
      rewrite Z.shiftl_mul_pow2, Z.shiftr_div_pow2 by lia. lia.
    - lia.
    - unfold is_intptr, is_signed in *. lia. }
  pose proof (Z.div_mod (x + (2 ^ k - 1)) (2 ^ k) ltac:(lia)) as Hdm.
  pose proof (Z.mod_pos_bound (x + (2 ^ k - 1)) (2 ^ k) Hpos) as Hb.
  set (q := (x + (2 ^ k - 1)) / 2 ^ k) in *.
  set (m := (x + (2 ^ k - 1)) mod 2 ^ k) in *.
  assert (forall y, IsTaggedAligned y = true <-> y mod 2 ^ k = 0) as Hal
    by (intros y; apply IsTaggedAligned_mod; [lia|done]).
  split; [|split; [|split]].
  - apply Hal. rewrite Hr, Z.mul_comm. by apply Z.mod_mul; lia.
  - lia.
  - rewrite Hal. split.
    + intros Hx0.
      pose proof (Z.div_mod x (2 ^ k) ltac:(lia)) as Hdx.
      rewrite Hx0 in Hdx.
      assert (q = x / 2 ^ k) as Hq; [|rewrite Hr, Hq; lia].
      unfold q. symmetry. apply (Z.div_unique _ _ _ (2 ^ k - 1)); lia.
    + intros Heq. rewrite <- Heq, Hr, Z.mul_comm. by apply Z.mod_mul; lia.
  - intros y Hy Hxy. apply Hal in Hy.
    pose proof (Z.div_mod y (2 ^ k) ltac:(lia)) as Hdy. rewrite Hy in Hdy.
    rewrite Hr. remember (2 ^ k) as P. remember (y / P) as t.
    destruct (Z.le_gt_cases q t) as [Hqt|Hqt]; [nia|].
    assert (P * t <= P * (q - 1)) by (apply Z.mul_le_mono_nonneg_l; lia).
    lia.
Qed.

(** X25: for a class with a range of instance types,
    [DownCastForTorqueClass] casts exactly the objects whose instance type
    lies in the range, the single comparison of unsigned differences being
    the range check; for a class with one instance type and a map constant
    it casts exactly the objects with that map. *)
Theorem X25_DownCastForTorqueClass_checks_the_range minInstanceType
    maxInstanceType mapConstant o :
  0 <= minInstanceType <= maxInstanceType ->
  maxInstanceType < 2 ^ 16 ->
  0 <= instance_type (map o) < 2 ^ 16 ->
  (DownCastForTorqueClass minInstanceType maxInstanceType mapConstant o
   = Some o
   \/ DownCastForTorqueClass minInstanceType maxInstanceType mapConstant o
      = None)
  /\ (DownCastForTorqueClass minInstanceType maxInstanceType mapConstant o
      = Some o
      <-> match mapConstant with
          | Some constant =>
              if minInstanceType =? maxInstanceType
              then map o = constant
              else minInstanceType <= instance_type (map o)
                   <= maxInstanceType
          | None =>
              minInstanceType <= instance_type (map o) <= maxInstanceType
          end).
Proof.
  intros Hmin Hmax Ht. unfold DownCastForTorqueClass.
  change (2 ^ 16) with 65536 in *.
  destruct (Z.eqb_spec minInstanceType maxInstanceType) as [Heq|Hne].
  - destruct mapConstant as [c|].
    + destruct (decide (map o <> c)) as [Hd|Hd].
      * split; [by right|]. split; [done|]. intros Hc. contradiction.
      * split; [by left|]. split; [|done]. intros _.
        by destruct (decide (map o = c)).
    + destruct (Z.eqb_spec (instance_type (map o)) minInstanceType)
        as [Ht0|Ht0]; simpl.
      * split; [by left|]. split; [lia|done].
      * split; [by right|]. split; [done|lia].
  - assert (forall x, - 65536 < x < 65536 -> to_signed 32 x = x) as Hs.
    { intros x Hx. apply to_signed_id; [lia|]. unfold is_signed.
      change (2 ^ (32 - 1)) with 2147483648. lia. }
    rewrite !(to_unsigned_id 16) by (change (2 ^ 16) with 65536; lia).
    rewrite !Hs by (rewrite ?Hs; lia).
    rewrite (to_unsigned_id 32 (maxInstanceType - minInstanceType))
      by (change (2 ^ 32) with 4294967296; lia).
    destruct (Z.le_gt_cases minInstanceType (instance_type (map o)))
      as [Hge|Hlt].
    + rewrite to_unsigned_id by (change (2 ^ 32) with 4294967296; lia).
      destruct (Z.gtb_spec (instance_type (map o) - minInstanceType)
                  (maxInstanceType - minInstanceType)).
      * split; [by right|]. split; [done|]. destruct mapConstant; lia.
      * split; [by left|]. split; [|done]. destruct mapConstant; lia.
    + rewrite to_unsigned_neg by (change (2 ^ 32) with 4294967296; lia).
      change (2 ^ 32) with 4294967296.
      destruct (Z.gtb_spec
                  (instance_type (map o) - minInstanceType + 4294967296)
                  (maxInstanceType - minInstanceType)); [|lia].
      split; [by right|]. split; [done|]. destruct mapConstant; lia.
Qed.

End TorqueInternal.

Section TorqueExamples.
#[local] Existing Instance Torque.example_target.

(** X20 at [Torque.Example.fields], a slice of three fields: index [-1]
    is out of bounds. *)
Lemma X20_witness :
  0 < Torque.kBitsPerPointer (Target := Torque.example_target)
  /\ Torque.is_intptr (H := Torque.example_target) (-1)
  /\ Torque.is_intptr (H := Torque.example_target)
       (Torque.Slice_length Torque.Example.fields)
  /\ 0 <= Torque.Slice_length Torque.Example.fields
  /\ Torque.Slice_TryAtIndex 8 Torque.Example.fields (-1) = None.
Proof.
  assert (0 < Torque.kBitsPerPointer (Target := Torque.example_target))
    as Hb by reflexivity.
  assert (Torque.is_intptr (H := Torque.example_target) (-1)) as Hi
    by (vm_compute; split; [discriminate|reflexivity]).
  assert (Torque.is_intptr (H := Torque.example_target)
            (Torque.Slice_length Torque.Example.fields)) as Hl
    by (vm_compute; split; [discriminate|reflexivity]).
  assert (0 <= Torque.Slice_length Torque.Example.fields) as Hn
    by (vm_compute; discriminate).
  split; [exact Hb|]. split; [exact Hi|]. split; [exact Hl|].
  split; [exact Hn|].
  exact (X20_TryAtIndex_checks_the_bounds 8 Torque.Example.fields (-1)
           Hb Hi Hl Hn).
Defined.

(** X21 at the same slice, which starts at offset 16 and has fields of
    eight bytes. *)
Lemma X21_witness :
  0 < Torque.kBitsPerPointer (Target := Torque.example_target)
  /\ Torque.Slice_fits 8 Torque.Example.fields 3
  /\ Torque.SliceIterator_references 8 3
       (Torque.Slice_Iterator 8 Torque.Example.fields)
     = Some [Torque.mkReference 1%nat 16; Torque.mkReference 1%nat 24;
             Torque.mkReference 1%nat 32]
  /\ forall i, (i < 3)%nat ->
       Torque.Slice_TryAtIndex 8 Torque.Example.fields (Z.of_nat i)
       = Some (Torque.Slice_field 8 Torque.Example.fields i).
Proof.
  assert (0 < Torque.kBitsPerPointer (Target := Torque.example_target))
    as Hb by reflexivity.
  assert (Torque.Slice_fits 8 Torque.Example.fields 3) as Hfit.
  { repeat split; vm_compute; first [reflexivity|discriminate]. }
  split; [exact Hb|]. split; [exact Hfit|].
  exact (X21_Slice_Iterator_gives_the_fields 8 Torque.Example.fields 3 Hb
           Hfit).
Defined.

(** X22 at a slice of three fields of object 2, initialized from the
    iterator of the three fields of object 1, on a heap whose fields hold
    their offsets. *)
Lemma X22_witness :
  0 < Torque.kBitsPerPointer (Target := Torque.example_target)
  /\ Torque.Slice_fits 8 Torque.Example.copy_fields 3
  /\ Torque.supplies (Iterator0 := Torque.SliceIterator_Iterator 8)
       Torque.Example.offsets (Torque.Slice_Iterator 8 Torque.Example.fields)
       (List.map (Torque.Slice_field 8 Torque.Example.copy_fields) (seq 0 3))
       [16; 24; 32]
  /\ exists h',
       Torque.InitializeFieldsFromIterator
         (Iterator0 := Torque.SliceIterator_Iterator 8) 8 4
         Torque.Example.copy_fields
         (Torque.Slice_Iterator 8 Torque.Example.fields)
         Torque.Example.offsets = Some h'
       /\ length [16; 24; 32] = 3%nat
       /\ (forall i v, [16; 24; 32] !! i = Some v ->
             h' (Torque.Slice_field 8 Torque.Example.copy_fields i) = v)
       /\ (forall r,
             (forall i, (i < 3)%nat ->
                r <> Torque.Slice_field 8 Torque.Example.copy_fields i) ->
             h' r = Torque.Example.offsets r).
Proof.
  assert (0 < Torque.kBitsPerPointer (Target := Torque.example_target))
    as Hb by reflexivity.
  assert (Torque.Slice_fits 8 Torque.Example.copy_fields 3) as Hfit.
  { repeat split; vm_compute; first [reflexivity|discriminate]. }
  assert (Torque.supplies (Iterator0 := Torque.SliceIterator_Iterator 8)
            Torque.Example.offsets
            (Torque.Slice_Iterator 8 Torque.Example.fields)
            (List.map (Torque.Slice_field 8 Torque.Example.copy_fields)
               (seq 0 3))
            [16; 24; 32]) as Hsup.
  { simpl. eexists. split; [reflexivity|].
    eexists. split; [reflexivity|].
    eexists. split; [reflexivity|]. exact I. }
  split; [exact Hb|]. split; [exact Hfit|]. split; [exact Hsup|].
  exact (X22_InitializeFieldsFromIterator_fills_the_slice
           (Iterator0 := Torque.SliceIterator_Iterator 8) 8
           Torque.Example.copy_fields 3
           (Torque.Slice_Iterator 8 Torque.Example.fields) [16; 24; 32]
           Torque.Example.offsets Hb Hfit Hsup).
Defined.

(** X23 at the iterators of two slices of one object, on a heap whose
    fields hold their offsets. *)
Lemma X23_witness :
  Torque.yields (Iterator0 := Torque.SliceIterator_Iterator 8)
    Torque.Example.offsets
    (Torque.Slice_Iterator 8 Torque.Example.head_fields) [16; 24]
  /\ Torque.yields (Iterator0 := Torque.SliceIterator_Iterator 8)
       Torque.Example.offsets
       (Torque.Slice_Iterator 8 Torque.Example.tail_fields) [32]
  /\ Torque.yields
       (Iterator0 :=
          Torque.IteratorSequence_Iterator
            (Iterator0 := Torque.SliceIterator_Iterator 8)
            (Iterator1 := Torque.SliceIterator_Iterator 8))
       Torque.Example.offsets
       (Torque.mkIteratorSequence
          (Torque.Slice_Iterator 8 Torque.Example.head_fields)
          (Torque.Slice_Iterator 8 Torque.Example.tail_fields))
       [16; 24; 32].
Proof.
  assert (Torque.yields (Iterator0 := Torque.SliceIterator_Iterator 8)
            Torque.Example.offsets
            (Torque.Slice_Iterator 8 Torque.Example.head_fields) [16; 24])
    as Hf.
  { eapply Torque.yields_next; [reflexivity|reflexivity|].
    eapply Torque.yields_next; [reflexivity|reflexivity|].
    apply Torque.yields_end; reflexivity. }
  assert (Torque.yields (Iterator0 := Torque.SliceIterator_Iterator 8)
            Torque.Example.offsets
            (Torque.Slice_Iterator 8 Torque.Example.tail_fields) [32])
    as Hs.
  { eapply Torque.yields_next; [reflexivity|reflexivity|].
    apply Torque.yields_end; reflexivity. }
  split; [exact Hf|]. split; [exact Hs|].
  exact (X23_IteratorSequence_gives_first_then_second _ _ _ _ _ Hf Hs).
Defined.

(** X24 on a target with a mask of three bits: 13 is aligned to 16. *)
Lemma X24_witness :
  0 <= 3 < Torque.kBitsPerPointer (Target := Torque.example_target) - 1
  /\ Torque.kObjectAlignmentMask (Target := Torque.example_target)
     = 2 ^ 3 - 1
  /\ Torque.is_intptr (H := Torque.example_target) 13
  /\ 13 + Torque.kObjectAlignmentMask (Target := Torque.example_target)
     < 2 ^ (Torque.kBitsPerPointer (Target := Torque.example_target) - 1)
  /\ Torque.AlignTagged (H := Torque.example_target) 13 = 16
  /\ Torque.IsTaggedAligned (H := Torque.example_target)
       (Torque.AlignTagged (H := Torque.example_target) 13) = true.
Proof.
  assert (0 <= 3
          < Torque.kBitsPerPointer (Target := Torque.example_target) - 1)
    as Hk by (vm_compute; split; [discriminate|reflexivity]).
  assert (Torque.kObjectAlignmentMask (Target := Torque.example_target)
          = 2 ^ 3 - 1) as Hm by reflexivity.
  assert (Torque.is_intptr (H := Torque.example_target) 13) as Hx
    by (vm_compute; split; [discriminate|reflexivity]).
  assert (13 + Torque.kObjectAlignmentMask (Target := Torque.example_target)
          < 2 ^ (Torque.kBitsPerPointer (Target := Torque.example_target)
                 - 1)) as Hov by (vm_compute; reflexivity).
  split; [exact Hk|]. split; [exact Hm|]. split; [exact Hx|].
  split; [exact Hov|]. split; [vm_compute; reflexivity|].
  exact (proj1 (X24_AlignTagged_rounds_up (H := Torque.example_target) 3 13
                  Hk Hm Hx Hov)).
Defined.

(** X25 for a class with the instance types 5 to 9: the object with
    instance type 7 is cast, the one with instance type 3 is not. *)
Lemma X25_witness :
  0 <= 5 <= 9
  /\ 9 < 2 ^ 16
  /\ 0 <= Torque.instance_type (Target := Torque.example_target)
            (Torque.map (Target := Torque.example_target) 7%nat)
     < 2 ^ 16
  /\ Torque.DownCastForTorqueClass (H := Torque.example_target) 5 9 None
       3%nat = None
  /\ (Torque.DownCastForTorqueClass (H := Torque.example_target) 5 9 None
        7%nat = Some 7%nat
      <-> 5 <= Torque.instance_type (Target := Torque.example_target)
                 (Torque.map (Target := Torque.example_target) 7%nat)
          <= 9).
Proof.
  assert (0 <= 5 <= 9) as Hmin by lia.
  assert (9 < 2 ^ 16) as Hmax by reflexivity.
  assert (0 <= Torque.instance_type (Target := Torque.example_target)
                 (Torque.map (Target := Torque.example_target) 7%nat)
          < 2 ^ 16) as Ht
    by (vm_compute; split; [discriminate|reflexivity]).
  split; [exact Hmin|]. split; [exact Hmax|]. split; [exact Ht|].
  split; [vm_compute; reflexivity|].
  exact (proj2 (X25_DownCastForTorqueClass_checks_the_range
                  (H := Torque.example_target) 5 9 None 7%nat Hmin Hmax Ht)).
Defined.

End TorqueExamples.

(** ** DefineOutputs *)

Section DefineOutputsMarks.
Context `{Platform}.

Lemma Initialize_marks data v virtual_register spill_operand instr_index phi
    const data' :
  Initialize data v virtual_register spill_operand instr_index phi const
  = Some data' ->
  code data' = code data
  /\ reference_map_instructions data' = reference_map_instructions data.
Proof. unfold Initialize, store_vreg. intros Hi. binds. done. Qed.

Lemma DefineOutput_marks index output data data' :
  DefineOutput index output data = Some data' ->
  code data' = code data
  /\ reference_map_instructions data' = reference_map_instructions data.
Proof.
  unfold DefineOutput, DefineAsConstantOperand, DefineAsFixedSpillOperand,
    DefineAsUnallocatedOperand. intros Hd.
  destruct (read_operand data output) as [op|] eqn:Hop;
    [simpl in Hd|discriminate].
  destruct op as [|u|c|?|? ? ?]; try discriminate.
  - destruct (HasFixedSlotPolicy u);
      by apply Initialize_marks in Hd.
  - by apply Initialize_marks in Hd.
Qed.

Lemma DefineOutputs_outputs_marks index outs :
  forall data data',
    DefineOutputs_outputs index outs data = Some data' ->
    code data' = code data
    /\ reference_map_instructions data' = reference_map_instructions data.
Proof.
  induction outs as [|o outs IH]; simpl; intros data data' Hd.
  - by simplify_eq.
  - destruct (DefineOutput index o data) as [d1|] eqn:Ho;
      [simpl in Hd|discriminate].
    apply DefineOutput_marks in Ho as [Hc Hr].
    apply IH in Hd as [Hc' Hr']. split; congruence.
Qed.

Lemma needs_reference_map_same data data' i :
  code data' = code data ->
  needs_reference_map data' i = needs_reference_map data i.
Proof. unfold needs_reference_map, InstructionAt. by intros ->. Qed.

Lemma DefineOutputs_instrs_marks indices :
  forall data data',
    DefineOutputs_instrs indices data = Some data' ->
    code data' = code data
    /\ reference_map_instructions data'
       = reference_map_instructions data
         ++ List.filter (needs_reference_map data) indices.
Proof.
  induction indices as [|i indices IH]; simpl; intros data data' Hd.
  - simplify_eq. by rewrite app_nil_r.
  - destruct (DefineOutputs_instr i data) as [d1|] eqn:Hi;
      [simpl in Hd|discriminate].
    apply IH in Hd as [Hc' Hr'].
    unfold DefineOutputs_instr in Hi. unfold needs_reference_map at 1.
    destruct (InstructionAt data i) as [instr|];
      [simpl in Hi|discriminate].
    destruct (DefineOutputs_outputs i (outputs instr) data) as [d0|] eqn:Ho;
      [simpl in Hi|discriminate].
    apply DefineOutputs_outputs_marks in Ho as [Hc0 Hr0].
    assert (code d1 = code data) as Hc1
      by (destruct (HasReferenceMap instr); by simplify_eq).
    split; [congruence|]. rewrite Hr'.
    rewrite (List.filter_ext _ _ (fun j => needs_reference_map_same _ _ j Hc1)).
    destruct (HasReferenceMap instr); simplify_eq; simpl.
    + rewrite Hr0. by rewrite <- app_assoc.
    + by rewrite Hr0.
Qed.

Lemma DefineOutputs_phis_marks b ps :
  forall data data',
    DefineOutputs_phis b ps data = Some data' ->
    code data' = code data
    /\ reference_map_instructions data' = reference_map_instructions data.
Proof.
  induction ps as [|p ps IH]; simpl; intros data data' Hd.
  - by simplify_eq.
  - destruct (DefineAsPhi data _ _ _) as [d1|] eqn:Hp;
      [simpl in Hd|discriminate].
    apply Initialize_marks in Hp as [Hc Hr].
    apply IH in Hd as [Hc' Hr']. split; congruence.
Qed.

Lemma InitializeBlockState_marks b data data' :
  InitializeBlockState b data = Some data' ->
  code data' = code data
  /\ reference_map_instructions data' = reference_map_instructions data.
Proof. unfold InitializeBlockState. intros Hi. binds; done. Qed.

Lemma DefineOutputs_blocks_marks blocks :
  forall data data',
    DefineOutputs_blocks blocks data = Some data' ->
    code data' = code data
    /\ reference_map_instructions data'
       = reference_map_instructions data
         ++ flat_map (block_reference_map_instructions data) blocks.
Proof.
  induction blocks as [|b blocks IH]; simpl; intros data data' Hd.
  - simplify_eq. by rewrite app_nil_r.
  - destruct (InitializeBlockState b data) as [d0|] eqn:H0;
      [simpl in Hd|discriminate].
    apply InitializeBlockState_marks in H0 as [Hc0 Hr0].
    destruct (DefineOutputs_block b d0) as [d1|] eqn:H1;
      [simpl in Hd|discriminate].
    unfold DefineOutputs_block in H1.
    destruct (DefineOutputs_instrs _ d0) as [d2|] eqn:H2;
      [simpl in H1|discriminate].
    apply DefineOutputs_instrs_marks in H2 as [Hc2 Hr2].
    apply DefineOutputs_phis_marks in H1 as [Hc1 Hr1].
    apply IH in Hd as [Hc' Hr'].
    assert (code d1 = code data) as Hcd by congruence.
    split; [congruence|].
    rewrite Hr', Hr1, Hr2, Hr0, <- app_assoc. f_equal.
    unfold block_reference_map_instructions. f_equal.
    + apply List.filter_ext. intros j.
      by apply needs_reference_map_same.
    + apply flat_map_ext. intros b'. apply List.filter_ext. intros j.
      by apply needs_reference_map_same.
Qed.

(** X26: [DefineOutputs] leaves the code as it is and appends to
    [reference_map_instructions], block by block from the last block to
    the first and within a block from its last instruction to its first,
    exactly the instructions that have a reference map. *)
Theorem X26_DefineOutputs_marks_reference_map_instructions data data' :
  DefineOutputs data = Some data' ->
  code data' = code data
  /\ reference_map_instructions data'
     = reference_map_instructions data
       ++ flat_map (block_reference_map_instructions data)
            (rev (instruction_blocks (code data)))
  /\ (forall i,
        In i (reference_map_instructions data')
        <-> In i (reference_map_instructions data)
            \/ exists b,
                 In b (instruction_blocks (code data))
                 /\ first_instruction_index b <= i
                    <= last_instruction_index b
                 /\ needs_reference_map data i = true).
Proof.
  unfold DefineOutputs. intros Hd.
  apply DefineOutputs_blocks_marks in Hd as [Hc Hr].
  split; [done|]. split; [done|].
  intros i. rewrite Hr, in_app_iff, in_flat_map.
  split; (intros [Hi|(b & Hb & Hi)]; [by left|right]); exists b.
  - apply in_rev in Hb. split; [done|].
    unfold block_reference_map_instructions in Hi.
    apply filter_In in Hi as [Hi Hn]. split; [|done].
    unfold indices_downto in Hi. apply in_map_iff in Hi as (k & <- & Hk).
    apply in_seq in Hk. lia.
  - destruct Hi as [Hi Hn]. split; [by apply in_rev in Hb|].
    unfold block_reference_map_instructions.
    apply filter_In. split; [|done].
    unfold indices_downto. apply in_map_iff.
    exists (Z.to_nat (last_instruction_index b - i)).
    split; [lia|]. apply in_seq. lia.
Qed.

End DefineOutputsMarks.

(** X26 at [Example.call_data], whose instruction 2, the call, has a
    reference map. *)
Lemma X26_witness :
  DefineOutputs Example.call_data = Some Example.call_defined
  /\ reference_map_instructions Example.call_defined = [2].
Proof.
  assert (DefineOutputs Example.call_data = Some Example.call_defined) as Hd
    by (vm_compute; reflexivity).
  split; [exact Hd|].
  exact (proj1 (proj2
           (X26_DefineOutputs_marks_reference_map_instructions _ _ Hd))).
Defined.

(** ** Outputs *)

Section Outputs.
Context `{Platform}.

Lemma CommitRegister_operand reg v operand pos a data a' data' :
  CommitRegister reg v operand pos a data = Some (a', data') ->
  exists op, operands data' !! operand = Some op /\ IsAllocated op = true.
Proof.
  unfold CommitRegister. intros Hc.
  destruct (AllocatedOperandForReg a data reg v) as [allocated|] eqn:Hal;
    [simpl in Hc|discriminate].
  apply AllocatedOperandForReg_allocated in Hal as [Hal Hnp].
  destruct (register_state_ a) as [rs|]; [simpl in Hc|discriminate].
  destruct (RegisterState_Commit rs reg allocated operand data)
    as [[rs1 d1]|] eqn:Hcm; [simpl in Hc|discriminate].
  apply RegisterState_Commit_operand in Hcm; [|done].
  binds. eauto.
Qed.

Lemma AddGapMoveToSuccessors_prefix from to succs :
  forall data data',
    AddGapMoveToSuccessors from to succs data = Some data' ->
    forall p, (p < length (operands data))%nat ->
      operands data' !! p = operands data !! p.
Proof.
  induction succs as [|succ succs IH]; simpl; intros data data' Ha p Hp.
  - by simplify_eq.
  - destruct (GetBlock data succ) as [b|]; [simpl in Ha|discriminate].
    destruct (AddGapMove data _ START from to) as [[mv d1]|] eqn:Hg;
      [simpl in Ha|discriminate].
    apply AddGapMove_spec in Hg as (_ & Hops & _).
    rewrite (IH _ _ Ha) by (rewrite Hops, length_app; lia).
    rewrite Hops. by apply lookup_app_l.
Qed.

Lemma EmitGapMoveFromOutput_prefix from to instr_index data data' :
  EmitGapMoveFromOutput from to instr_index data = Some data' ->
  forall p, (p < length (operands data))%nat ->
    operands data' !! p = operands data !! p.
Proof.
  unfold EmitGapMoveFromOutput. intros He p Hp.
  destruct (GetBlockOfInstr data instr_index) as [b|];
    [simpl in He|discriminate].
  destruct (instr_index =? last_instruction_index b).
  - by eapply AddGapMoveToSuccessors_prefix.
  - destruct (AddGapMove data _ START from to) as [[mv d1]|] eqn:Hg;
      [simpl in He|discriminate].
    injection He as <-.
    apply AddGapMove_spec in Hg as (_ & Hops & _).
    rewrite Hops. by apply lookup_app_l.
Qed.

Lemma EmitGapMoveFromOutputToSpillSlot_prefix v from b instr_index data
    data' :
  EmitGapMoveFromOutputToSpillSlot v from b instr_index data = Some data' ->
  forall p, (p < length (operands data))%nat ->
    operands data' !! p = operands data !! p.
Proof.
  unfold EmitGapMoveFromOutputToSpillSlot. intros He.
  destruct (instr_index =? last_instruction_index b).
  - apply EmitGapMoveToSuccessors_spec in He
      as (emitted & _ & (_ & _ & _ & Hkeep & _)). exact Hkeep.
  - apply emits_one in He as (mv & (_ & _ & _ & Hkeep & _)). exact Hkeep.
Qed.

(** X27: when [AllocateOutput] returns a register, the output operand is
    an allocated operand in the state it leaves, whatever gap moves were
    emitted after the register was committed; with a slot policy it
    returns no register. *)
Theorem X27_AllocateOutput_allocates_the_operand operand instr_index pos a
    data reg a' data' u :
  read_unallocated data operand = Some u ->
  AllocateOutput_at operand instr_index pos a data = Some (reg, a', data') ->
  (HasSlotPolicy u || HasFixedSlotPolicy u = true ->
   reg = RegisterIndex_Invalid)
  /\ (is_valid reg = true ->
      exists op,
        operands data' !! operand = Some op /\ IsAllocated op = true).
Proof.
  intros Hu Ha. unfold AllocateOutput_at in Ha. rewrite Hu in Ha.
  simpl in Ha.
  destruct (VirtualRegisterDataFor data (uo_virtual_register u)) as [vd|];
    [simpl in Ha|discriminate].
  match type of Ha with
  | mbind _ ?m = _ => destruct m as [[[reg0 a0] d0]|] eqn:Hreg;
                      [simpl in Ha|discriminate]
  end.
  destruct (is_valid reg0) eqn:Hv; simpl in Ha.
  - destruct (VirtualRegisterIsUnallocatedOrInReg a0 _ reg0) as [in_reg|];
      [simpl in Ha|discriminate].
    match type of Ha with
    | mbind _ ?m = _ => destruct m as [[a1 d1]|] eqn:Hfirst;
                        [simpl in Ha|discriminate]
    end.
    destruct (CommitRegister reg0 _ operand pos a1 d1) as [[a2 d2]|] eqn:Hc;
      [simpl in Ha|discriminate].
    destruct (CommitRegister_operand _ _ _ _ _ _ _ _ Hc)
      as (op & Hop & Hal).
    apply lookup_lt_Some in Hop as Hlt.
    destruct (read_operand d2 operand) as [output|];
      [simpl in Ha|discriminate].
    destruct (read_operand d2 _) as [to|]; [simpl in Ha|discriminate].
    match type of Ha with
    | mbind _ ?m = _ => destruct m as [d3|] eqn:Hmove;
                        [simpl in Ha|discriminate]
    end.
    assert (operands d3 !! operand = Some op) as Hop3.
    { destruct (IsAllocated to).
      - rewrite (EmitGapMoveFromOutput_prefix _ _ _ _ _ Hmove); done.
      - by simplify_eq. }
    apply lookup_lt_Some in Hop3 as Hlt3.
    destruct (VirtualRegisterDataFor d3 _) as [vd3|];
      [simpl in Ha|discriminate].
    match type of Ha with
    | mbind _ ?m = _ => destruct m as [d4|] eqn:Hspill;
                        [simpl in Ha|discriminate]
    end.
    injection Ha as <- <- <-. split.
    + intros Hpol. rewrite Hpol in Hreg. simpl in Hreg. binds;
        discriminate.
    + intros _. exists op. split; [|done].
      destruct (NeedsSpillAtOutput vd3); [|by simplify_eq].
      destruct (GetBlockOfInstr d3 instr_index) as [b|];
        [simpl in Hspill|discriminate].
      rewrite (EmitGapMoveFromOutputToSpillSlot_prefix _ _ _ _ _ _ Hspill);
        done.
  - destruct (SpillOperand _ operand instr_index d0) as [d1|];
      [simpl in Ha|discriminate].
    injection Ha as <- <- <-. split.
    + intros _. unfold is_valid in Hv.
      by apply negb_false_iff, Z.eqb_eq in Hv.
    + intros Hv'. congruence.
Qed.

(** X28: [AllocateTemp] and [AllocateGapMoveInput] resolve their
    operand: it is afterwards an allocated operand, a pending operand or,
    for a constant, a constant operand.  (The spill operand of a constant
    is taken to be a constant operand, as [DefineOutputs] leaves it.) *)
Theorem X28_temps_and_gap_move_inputs_are_resolved operand instr_index a data
    a' data' u :
  read_unallocated data operand = Some u ->
  (forall vd,
     VirtualRegisterDataFor data (uo_virtual_register u) = Some vd ->
     is_constant vd = true ->
     exists q c,
       spill_operand_ vd = Some q /\ read_operand data q = Some (Constant c)) ->
  AllocateTemp operand instr_index a data = Some (a', data')
  \/ AllocateGapMoveInput operand instr_index a data = Some (a', data') ->
  exists op,
    operands data' !! operand = Some op
    /\ (IsAllocated op = true \/ IsPending op = true
        \/ IsConstant op = true).
Proof.
  intros Hu Hconst [Ha|Ha].
  - unfold AllocateTemp in Ha. rewrite Hu in Ha. simpl in Ha.
    match type of Ha with
    | mbind _ ?m = _ => destruct m as [[[reg a0] d0]|] eqn:Hreg;
                        [simpl in Ha|discriminate]
    end.
    destruct (is_valid reg) eqn:Hv.
    + apply CommitRegister_operand in Ha as (op & Hop & Hal).
      exists op. split; [done|by left].
    + assert (d0 = data) as ->.
      { destruct (HasSlotPolicy u); [by simplify_eq|].
        destruct (HasFixedRegisterPolicy u || HasFixedFPRegisterPolicy u).
        - binds. done.
        - by apply ChooseRegisterFor_rep_invalid in Hreg as [_ ->]. }
      destruct (VirtualRegisterDataFor data (uo_virtual_register u))
        as [vd|] eqn:Hvd; [simpl in Ha|discriminate].
      destruct (SpillOperand _ operand instr_index data) as [d1|] eqn:Hs;
        [simpl in Ha|discriminate].
      injection Ha as <- <-.
      eapply SpillOperand_operand; eauto.
  - unfold AllocateGapMoveInput in Ha. rewrite Hu in Ha. simpl in Ha.
    destruct (VirtualRegisterDataFor data (uo_virtual_register u))
      as [vd|] eqn:Hvd; [simpl in Ha|discriminate].
    destruct (ChooseRegisterFor _ kStart false _ data) as [[[reg a0] d0]|]
      eqn:Hch; [simpl in Ha|discriminate].
    destruct (is_valid reg) eqn:Hv.
    + apply AllocatePendingUse_operand in Ha as (op & Hop & Hp).
      exists op. split; [done|by right; left].
    + apply ChooseRegisterFor_invalid in Hch as [-> ->]; [|done].
      destruct (SpillOperand _ operand instr_index data) as [d1|] eqn:Hs;
        [simpl in Ha|discriminate].
      injection Ha as <- <-.
      eapply SpillOperand_operand; eauto.
Qed.

End Outputs.

(** X27 at [Example.verbs_pending], where [v0] is in register 1: its
    definition, operand 0, becomes register 1. *)
Lemma X27_witness :
  read_unallocated (snd Example.verbs_pending) 0%nat
  = Some (mkUnallocated MUST_HAVE_REGISTER false 0)
  /\ AllocateOutput_at 0%nat 0 kEnd (fst Example.verbs_pending)
       (snd Example.verbs_pending)
     = Some Example.verbs_output
  /\ fst (fst Example.verbs_output) = 1
  /\ exists op,
       operands (snd Example.verbs_output) !! 0%nat = Some op
       /\ IsAllocated op = true.
Proof.
  assert (read_unallocated (snd Example.verbs_pending) 0%nat
          = Some (mkUnallocated MUST_HAVE_REGISTER false 0)) as Hu
    by (vm_compute; reflexivity).
  assert (AllocateOutput_at 0%nat 0 kEnd (fst Example.verbs_pending)
            (snd Example.verbs_pending)
          = Some (1, snd (fst Example.verbs_output),
                  snd Example.verbs_output)) as Ha
    by (vm_compute; reflexivity).
  split; [exact Hu|]. split; [vm_compute; reflexivity|].
  split; [reflexivity|].
  exact (proj2 (X27_AllocateOutput_allocates_the_operand _ _ _ _ _ _ _ _ _
                  Hu Ha) eq_refl).
Defined.

(** X28 at [Example.call_defined]: the use of [v1] in operand 3, taken as
    the input of a gap move, gets a pending use of a register. *)
Lemma X28_witness :
  read_unallocated Example.call_defined 3%nat
  = Some (mkUnallocated MUST_HAVE_REGISTER true 1)
  /\ AllocateGapMoveInput 3%nat 3
       (general_reg_allocator Example.call_allocator) Example.call_defined
     = Some Example.gap_input_allocated
  /\ exists op,
       operands (snd Example.gap_input_allocated) !! 3%nat = Some op
       /\ (IsAllocated op = true \/ IsPending op = true
           \/ IsConstant op = true).
Proof.
  assert (read_unallocated Example.call_defined 3%nat
          = Some (mkUnallocated MUST_HAVE_REGISTER true 1)) as Hu
    by (vm_compute; reflexivity).
  assert (AllocateGapMoveInput 3%nat 3
            (general_reg_allocator Example.call_allocator)
            Example.call_defined
          = Some (fst Example.gap_input_allocated,
                  snd Example.gap_input_allocated)) as Ha
    by (vm_compute; reflexivity).
  split; [exact Hu|]. split; [vm_compute; reflexivity|].
  refine (X28_temps_and_gap_move_inputs_are_resolved _ _ _ _ _ _ _ Hu _
            (or_intror Ha)).
  intros vd Hvd Hc. vm_compute in Hvd. injection Hvd as <-.
  discriminate Hc.
Defined.

